(** * AIPPT generation pipeline: a shallow embedding and its properties

    The development follows the server sources:
    - [utils/retry.ts]            ([Retry])
    - [utils/concurrency.ts]      ([Limiter])
    - [imageService.ts], [exportService.ts] path guard ([Paths])
    - [projectDb.ts] schema, [jobs/generateJob.ts], [imageService.ts]
      ([Store], [Pipeline], [ImageService]). *)

From Stdlib Require Import ZArith QArith Qround Lia Ascii.
From stdpp Require Import base option list relations strings sorting pretty gmap.

Local Open Scope string_scope.
Local Open Scope list_scope.
Local Open Scope Z_scope.

(** ** JavaScript values that flow through [throw] / [catch] *)

(** A thrown value is either an [Error] instance (with its [message]) or some
    other value, of which the code only ever uses [String(v)]. *)
Inductive thrown : Type :=
| ErrorObj (message : string)
| NonError (shown : string).

(** [toErrorMessage]: [err instanceof Error ? err.message : String(err)]. *)
Definition toErrorMessage (err : thrown) : string :=
  match err with
  | ErrorObj m => m
  | NonError s => s
  end.

(** The completion of a call: a returned value or a thrown one. *)
Inductive completion (T : Type) : Type :=
| Return (v : T)
| Throw (e : thrown).
Arguments Return {T} v.
Arguments Throw {T} e.

(** * utils/retry.ts *)
Module Retry.

Record retry_opts : Type := {
  label : option string;
  baseDelayMs : option Z
}.

(** What a run of [withRetries] does to the outside world, in order. *)
Inductive effect : Type :=
| Call (attempt : Z)
| Warn (lbl : string) (attempt attempts : Z) (err : thrown)
| Sleep (delayMs : Z).

(** [lastError instanceof Error ? lastError : new Error(String(lastError))];
    [None] is JavaScript's [undefined]. *)
Definition rethrown (lastError : option thrown) : thrown :=
  match lastError with
  | Some (ErrorObj m) => ErrorObj m
  | Some (NonError s) => ErrorObj s
  | None => ErrorObj "undefined"
  end.

Section WithRetries.
Context {T : Type}.
Variable attempts : Z.
(** [fn attempt] is the completion of the call made for that attempt
    number.  The loop calls [fn] at most once per attempt number, so a
    function of the attempt number also describes an operation whose
    outcome depends on the outside world. *)
Variable fn : Z -> completion T.
Variable opts : option retry_opts.

Definition baseDelay : Z := default 300 (opts ≫= baseDelayMs).
Definition warnLabel : string := default "withRetries" (opts ≫= label).

Definition delayOf (attempt : Z) : Z := baseDelay * 2 ^ (attempt - 1).

(** The [for] loop, from the test [attempt <= attempts] on.  [fuel]
    bounds the number of iterations; [None] means the fuel ran out. *)
Fixpoint loop (fuel : nat) (attempt : Z) (lastError : option thrown)
  : option (completion T * list effect) :=
  if attempt <=? attempts then
    match fuel with
    | O => None
    | S fuel' =>
        match fn attempt with
        | Return v => Some (Return v, [Call attempt])
        | Throw err =>
            if attempts <=? attempt then
              Some (Throw (rethrown (Some err)), [Call attempt])
            else
              match loop fuel' (attempt + 1) (Some err) with
              | Some (c, effs) =>
                  Some (c, Call attempt
                             :: Warn warnLabel attempt attempts err
                             :: Sleep (delayOf attempt) :: effs)
              | None => None
              end
        end
    end
  else Some (Throw (rethrown lastError), []).

Definition withRetries : option (completion T * list effect) :=
  loop (Z.to_nat attempts) 1 None.

(** The effects of a failed attempt that is followed by another one. *)
Definition failedRound (errs : Z -> thrown) (attempt : Z) : list effect :=
  [Call attempt; Warn warnLabel attempt attempts (errs attempt);
   Sleep (delayOf attempt)].

End WithRetries.

Definition calls (effs : list effect) : list Z :=
  omap (fun e => match e with Call a => Some a | _ => None end) effs.

Definition sleeps (effs : list effect) : list Z :=
  omap (fun e => match e with Sleep d => Some d | _ => None end) effs.

Definition warnings (effs : list effect) : list effect :=
  List.filter (fun e => match e with Warn _ _ _ _ => true | _ => false end) effs.

End Retry.

(** Sample operations: an operation that fails twice and then succeeds, and one that never
    succeeds, under [attempts = 3]. *)
Definition failsTwice (attempt : Z) : completion string :=
  if attempt <? 3 then Throw (ErrorObj "busy") else Return "done".

Definition alwaysFails (attempt : Z) : completion string :=
  Throw (ErrorObj "down").

Definition themeAgentOpts : option Retry.retry_opts :=
  Some {| Retry.label := Some "ThemeAgent"; Retry.baseDelayMs := None |}.

(** * utils/concurrency.ts *)
Module Limiter.

(** A JavaScript number, as far as [Number.isInteger] and [<= 0] can tell
    its values apart: the finite ones are rationals. *)
Inductive js_number : Type :=
| NaN
| PosInfinity
| NegInfinity
| Finite (q : Q).

(** [Number.isInteger(x)] *)
Definition isInteger (x : js_number) : bool :=
  match x with
  | Finite q => Qeq_bool (inject_Z (Qfloor q)) q
  | _ => false
  end.

(** [x <= 0]; every comparison with [NaN] is false. *)
Definition leZero (x : js_number) : bool :=
  match x with
  | NaN => false
  | PosInfinity => false
  | NegInfinity => true
  | Finite q => Qle_bool q 0
  end.

(** The variables captured by the closure that [createConcurrencyLimiter]
    returns.  [queue] holds the [resolve] callbacks of the suspended calls
    of [limit], oldest first; each is named by the call it wakes. *)
Record limiter : Type := {
  maxConcurrency : Z;
  activeCount : Z;
  queue : list nat
}.

Section Create.
(** [`${maxConcurrency}`], the number as the error message prints it. *)
Variable numberToString : js_number -> string.

Definition createConcurrencyLimiter (maxConcurrency : js_number)
  : completion limiter :=
  if negb (isInteger maxConcurrency) || leZero maxConcurrency then
    Throw (ErrorObj ("maxConcurrency must be a positive integer, got: "
                       +:+ numberToString maxConcurrency))
  else
    match maxConcurrency with
    | Finite q =>
        Return {| maxConcurrency := Qfloor q; activeCount := 0; queue := [] |}
    | _ => Throw (ErrorObj "unreachable")
    end.
End Create.

(** How the promise returned by an operation settles. *)
Inductive outcome : Type :=
| Fulfilled
| Rejected (e : thrown).

(** The limiter together with the part of the event loop that concerns it. *)
Record loop_state : Type := {
  lim : limiter;
(** calls of [limit] whose [resolve] has been called and whose
    continuation after the [await] in line 17 is queued, oldest first *)
microtasks : list nat;
(** calls of [limit] inside [await fn()] *)
executing : list nat;
(** every call that has started its [fn], in starting order *)
admitted : list nat;
(** every call whose [fn] has settled, with how *)
settled : list (nat * outcome)
}.

Definition initial (l : limiter) : loop_state :=
  {| lim := l; microtasks := []; executing := []; admitted := []; settled := [] |}.

(** [activeCount += 1; ... fn()]: call [i] starts its operation. *)
Definition start_fn (i : nat) (st : loop_state) : loop_state :=
  {| lim := {| maxConcurrency := maxConcurrency (lim st);
               activeCount := activeCount (lim st) + 1;
               queue := queue (lim st) |};
     microtasks := microtasks st;
     executing := executing st ++ [i];
     admitted := admitted st ++ [i];
     settled := settled st |}.

(** A call [limit(fn)], up to its first suspension. *)
Definition limit_call (i : nat) (st : loop_state) : loop_state :=
  if maxConcurrency (lim st) <=? activeCount (lim st) then
    {| lim := {| maxConcurrency := maxConcurrency (lim st);
                 activeCount := activeCount (lim st);
                 queue := queue (lim st) ++ [i] |};
       microtasks := microtasks st;
       executing := executing st;
       admitted := admitted st;
       settled := settled st |}
  else start_fn i st.

(** The oldest queued continuation runs: the woken call goes on after the
    [await] of line 17. *)
Definition limit_resume (st : loop_state) : option loop_state :=
  match microtasks st with
  | [] => None
  | i :: rest =>
      Some (start_fn i {| lim := lim st; microtasks := rest;
                          executing := executing st;
                          admitted := admitted st;
                          settled := settled st |})
  end.

(** [next]: [activeCount -= 1; const run = queue.shift(); if (run) run();] *)
Definition next (st : loop_state) : loop_state :=
  match queue (lim st) with
  | [] =>
      {| lim := {| maxConcurrency := maxConcurrency (lim st);
                   activeCount := activeCount (lim st) - 1;
                   queue := [] |};
         microtasks := microtasks st;
         executing := executing st;
         admitted := admitted st;
         settled := settled st |}
  | run :: rest =>
      {| lim := {| maxConcurrency := maxConcurrency (lim st);
                   activeCount := activeCount (lim st) - 1;
                   queue := rest |};
         microtasks := microtasks st ++ [run];
         executing := executing st;
         admitted := admitted st;
         settled := settled st |}
  end.

(** The operation of call [i] settles, fulfilled or rejected alike: the
    [finally] block runs [next]. *)
Definition limit_settle (i : nat) (o : outcome) (st : loop_state)
  : option loop_state :=
  if bool_decide (i ∈ executing st) then
    Some (next {| lim := lim st;
                  microtasks := microtasks st;
                  executing := filter (fun j => j <> i) (executing st);
                  admitted := admitted st;
                  settled := settled st ++ [(i, o)] |})
  else None.

Inductive event : Type :=
| Submit (i : nat)
| Resume
| Settle (i : nat) (o : outcome).

Definition step (st : loop_state) (ev : event) : option loop_state :=
  match ev with
  | Submit i => Some (limit_call i st)
  | Resume => limit_resume st
  | Settle i o => limit_settle i o st
  end.

Definition is_submit (ev : event) : bool :=
  match ev with Submit _ => true | _ => false end.

Fixpoint run (st : loop_state) (evs : list event) : option loop_state :=
  match evs with
  | [] => Some st
  | ev :: evs' =>
      match step st ev with
      | Some st' => run st' evs'
      | None => None
      end
  end.

(** [K] calls of [limit] made in one synchronous stretch of code, as
    [Promise.all(items.map((x) => limit(...)))] makes them. *)
Definition burst (K : nat) : list event := Submit <$> seq 0 K.

(** The states the event loop goes through when [K] operations are
    submitted together to a fresh limiter of capacity [N]: first the calls
    of [limit], numbered in the order they are made, ... *)
Inductive submitting (N : Z) : nat -> loop_state -> Prop :=
| submitting_none :
    submitting N 0
      (initial {| maxConcurrency := N; activeCount := 0; queue := [] |})
| submitting_next j st :
    submitting N j st ->
    submitting N (S j) (limit_call j st).

(** ... then continuations and settlements, in any order. *)
Inductive draining (N : Z) (K : nat) : loop_state -> Prop :=
| draining_start st :
    submitting N K st -> draining N K st
| draining_step st ev st' :
    draining N K st ->
    is_submit ev = false ->
    step st ev = Some st' ->
    draining N K st'.

(** A state at some instant of such a run: no call of [limit] is made once
    the first of the [K] operations has settled. *)
Definition reachable_in_burst (N : Z) (K : nat) (st : loop_state) : Prop :=
  (exists j, (j <= K)%nat /\ submitting N j st) \/ draining N K st.

(** Work that is still ahead of a state. *)
Definition remaining (st : loop_state) : nat :=
  3 * length (queue (lim st)) + 2 * length (microtasks st) + length (executing st).

(** What holds of the event loop once [j] calls of [limit] have been made
    on a limiter of capacity [N]. *)
Record consistent (N : Z) (j : nat) (st : loop_state) : Prop := {
  cons_max : maxConcurrency (lim st) = N;
  cons_active : activeCount (lim st) = Z.of_nat (length (executing st));
  cons_bound :
    Z.of_nat (length (executing st) + length (microtasks st)) <= N;
  cons_full :
    queue (lim st) <> [] ->
    Z.of_nat (length (executing st) + length (microtasks st)) = N;
  cons_fifo : admitted st ++ microtasks st ++ queue (lim st) = seq 0 j;
  cons_perm : executing st ++ (settled st).*1 ≡ₚ admitted st
}.

(** The number [x] is the positive integer [n]. *)
Definition positive_integer (x : js_number) (n : positive) : Prop :=
  exists q, x = Finite q /\ (q == inject_Z (Z.pos n))%Q.

(** A run with capacity 2 and three operations submitted together: the
    first one is rejected, which wakes the third. *)
Definition three_submitted : loop_state :=
  limit_call 2 (limit_call 1 (limit_call 0
    (initial {| maxConcurrency := 2; activeCount := 0; queue := [] |}))).

Definition first_rejected_third_woken : list event :=
  [Settle 0 (Rejected (ErrorObj "timeout")); Resume].

Definition third_running : loop_state :=
  {| lim := {| maxConcurrency := 2; activeCount := 2; queue := [] |};
     microtasks := [];
     executing := [1; 2]%nat;
     admitted := [0; 1; 2]%nat;
     settled := [(0%nat, Rejected (ErrorObj "timeout"))] |}.

(** A call of [limit] that is not made together with the others: call 0
    runs and call 1 waits; operation 0 settles, and [next] lowers
    [activeCount] and wakes call 1; call 2 is made before the continuation of
    call 1 runs; then that continuation runs. *)
Definition late_call : list event :=
  [Submit 0; Submit 1; Settle 0 Fulfilled; Submit 2; Resume].

(** The same on [limitImageGen = createConcurrencyLimiter(5)] of
    projectService.ts: six calls, the first operation settles, a seventh
    call is made before the woken sixth goes on. *)
Definition limitImageGen : limiter :=
  {| maxConcurrency := 5; activeCount := 0; queue := [] |}.

Definition late_image_call : list event :=
  burst 6 ++ [Settle 0 Fulfilled; Submit 6; Resume].

End Limiter.

(** * The path guard of imageService.ts and exportService.ts *)
Module Paths.

Definition isSlash (c : ascii) : bool := Ascii.eqb c "/".

(** [s.replace(/^\/+/, "")] *)
Fixpoint dropLeadingSlashes (s : string) : string :=
  match s with
  | String c s' => if isSlash c then dropLeadingSlashes s' else s
  | EmptyString => EmptyString
  end.

(** [s.replace(/\\/g, "/")] *)
Fixpoint backslashesToSlashes (s : string) : string :=
  match s with
  | String c s' =>
      String (if Ascii.eqb c "\" then "/"%char else c) (backslashesToSlashes s')
  | EmptyString => EmptyString
  end.

(** [s.startsWith(p)] *)
Fixpoint startsWith (s p : string) : bool :=
  match p, s with
  | EmptyString, _ => true
  | String a p', String b s' => Ascii.eqb a b && startsWith s' p'
  | String _ _, EmptyString => false
  end.

(** [s.split("/")] *)
Fixpoint split (s : string) : list string :=
  match s with
  | EmptyString => [EmptyString]
  | String c s' =>
      if isSlash c then EmptyString :: split s'
      else match split s' with
           | seg :: rest => String c seg :: rest
           | [] => [String c EmptyString]
           end
  end.

(** [segs.join("/")] *)
Fixpoint join (segs : list string) : string :=
  match segs with
  | [] => EmptyString
  | [seg] => seg
  | seg :: rest => seg +:+ "/" +:+ join rest
  end.

Fixpoint noSlash (s : string) : bool :=
  match s with
  | String c s' => negb (isSlash c) && noSlash s'
  | EmptyString => true
  end.

(** The names along a path, left to right. *)
Definition components (p : string) : list string :=
  List.filter (fun seg => negb (String.eqb seg "")) (split p).

(** Node's [normalizeString] for the separator [/], on the segments of the
    path; [stack] holds the segments kept so far, last one first. *)
Fixpoint normalizeOnto (allowAboveRoot : bool) (stack segs : list string)
  : list string :=
  match segs with
  | [] => rev stack
  | seg :: rest =>
      if String.eqb seg "" || String.eqb seg "." then
        normalizeOnto allowAboveRoot stack rest
      else if String.eqb seg ".." then
        match stack with
        | top :: below =>
            if String.eqb top ".." then
              normalizeOnto allowAboveRoot
                (if allowAboveRoot then ".." :: stack else stack) rest
            else normalizeOnto allowAboveRoot below rest
        | [] =>
            normalizeOnto allowAboveRoot
              (if allowAboveRoot then [".."] else []) rest
        end
      else normalizeOnto allowAboveRoot (seg :: stack) rest
  end.

Definition normalizeString (path : string) (allowAboveRoot : bool) : string :=
  join (normalizeOnto allowAboveRoot [] (split path)).

Definition isAbsolute (p : string) : bool :=
  match p with
  | String c _ => isSlash c
  | EmptyString => false
  end.

(** The loop of [path.posix.resolve], from the last argument leftwards and
    then to the working directory, until an absolute path has been built. *)
Fixpoint gather (cwd : string) (rargs : list string) (resolvedPath : string)
  : string * bool :=
  match rargs with
  | [] =>
      if String.eqb cwd "" then (resolvedPath, false)
      else (cwd +:+ "/" +:+ resolvedPath, isAbsolute cwd)
  | p :: rest =>
      if String.eqb p "" then gather cwd rest resolvedPath
      else if isAbsolute p then (p +:+ "/" +:+ resolvedPath, true)
      else gather cwd rest (p +:+ "/" +:+ resolvedPath)
  end.

(** [path.resolve(...args)] on a POSIX system whose working directory is
    [cwd]. *)
Definition resolve (cwd : string) (args : list string) : string :=
  let '(resolvedPath, resolvedAbsolute) := gather cwd (rev args) "" in
  let normalized := normalizeString resolvedPath (negb resolvedAbsolute) in
  if resolvedAbsolute then "/" +:+ normalized
  else if String.eqb normalized "" then "." else normalized.

Definition invalidPath : thrown := ErrorObj "文件路径无效".

(** [ensureWithinProject(projectRootPath, relPath)], with [path.sep = "/"]. *)
Definition ensureWithinProject (cwd projectRootPath relPath : string)
  : completion string :=
  let cleaned := backslashesToSlashes (dropLeadingSlashes relPath) in
  let abs := resolve cwd [projectRootPath; cleaned] in
  let root := resolve cwd [projectRootPath] in
  if negb (startsWith abs (root +:+ "/")) && negb (String.eqb abs root) then
    Throw invalidPath
  else Return abs.

(** The path that [relPath] stands for under the project root. *)
Definition target (cwd projectRootPath relPath : string) : string :=
  resolve cwd [projectRootPath;
               backslashesToSlashes (dropLeadingSlashes relPath)].

(** [p] names the directory [dir] or something below it. *)
Definition within (dir p : string) : Prop :=
  components dir `prefix_of` components p.

(** No name along the path steps sideways or upwards. *)
Definition plain (p : string) : Prop :=
  Forall (fun seg => seg <> "." /\ seg <> "..") (components p).

(** A name that [normalizeString] keeps. *)
Definition properName (seg : string) : Prop :=
  noSlash seg = true /\ seg <> "" /\ seg <> "." /\ seg <> "..".

End Paths.

(** Further functions of Node's [path] module (POSIX) and the file names the
    services build with them. *)
Module PathNames.

(** [path.posix.normalize(p)] *)
Definition normalize (p : string) : string :=
  if String.eqb p "" then "."
  else
    let isAbs := Paths.isAbsolute p in
    let trailing := Paths.isAbsolute (String.rev p) in
    let body := Paths.normalizeString p (negb isAbs) in
    if String.eqb body "" then
      if isAbs then "/" else if trailing then "./" else "."
    else
      let body' := if trailing then body +:+ "/" else body in
      if isAbs then "/" +:+ body' else body'.

(** [path.posix.join(...parts)] *)
Definition join (parts : list string) : string :=
  match List.filter (fun s => negb (String.eqb s "")) parts with
  | [] => "."
  | kept => normalize (Paths.join kept)
  end.

(** The part of [s] from its last dot on, if it has a dot. *)
Fixpoint fromLastDot (s : string) : option string :=
  match s with
  | EmptyString => None
  | String c s' =>
      match fromLastDot s' with
      | Some e => Some e
      | None => if Ascii.eqb c "." then Some s else None
      end
  end.

(** [path.posix.extname(p)] *)
Definition extname (p : string) : string :=
  let base := List.last (Paths.components p) "" in
  if String.eqb base ".." then ""
  else match base with
       | String c rest =>
           match fromLastDot rest with
           | Some e => e
           | None => ""
           end
       | EmptyString => ""
       end.

(** [s.replace(".", "")] *)
Fixpoint dropFirstDot (s : string) : string :=
  match s with
  | EmptyString => EmptyString
  | String c s' => if Ascii.eqb c "." then s' else String c (dropFirstDot s')
  end.

(** [String(n).padStart(4, "0")] *)
Definition pad4 (n : Z) : string :=
  let s := pretty n in
  String.concat "" (replicate (4 - String.length s) "0") +:+ s.

(** [`slide-${pad4(deckIndex + 1)}`] *)
Definition slideDirName (deckIndex : Z) : string :=
  "slide-" +:+ pad4 (deckIndex + 1).

(** [`v${version}.${ext}`] *)
Definition versionFileName (version : Z) (ext : string) : string :=
  "v" +:+ pretty version +:+ "." +:+ ext.

End PathNames.

(** * projectDb.ts: the tables of a project database *)
Module Store.

(** The values the code writes to [slides.status]. *)
Inductive slide_status : Type :=
| pending
| generating_text
| text_ready
| generating_image
| ready
| error.

#[global] Instance slide_status_eq_dec : EqDecision slide_status.
Proof. solve_decision. Defined.

Record project_row : Type := {
  p_id : string;
  p_name : string;
  p_source_text : string
}.

(** A row of [outline_versions] or of [theme_versions]. *)
Record json_version_row : Type := {
  jv_id : string;
  jv_project_id : string;
  jv_version : Z;
  jv_json : string;
  jv_created_at : string
}.

Record slide_row : Type := {
  s_id : string;
  s_project_id : string;
  section_index : Z;
  slide_index : Z;
  title : string;
  summary : string;
  content_json : option string;
  status : slide_status;
  error_message : option string;
  updated_at : string
}.

Record image_version_row : Type := {
  iv_id : string;
  slide_id : string;
  version : Z;
  prompt_text : string;
  image_path : string;
  provider : option string;
  request_json : option string;
  response_json : option string;
  created_at : string
}.

(** Tables are lists of rows in insertion order. *)
Record db : Type := {
  projects : list project_row;
  outline_versions : list json_version_row;
  theme_versions : list json_version_row;
  slides : list slide_row;
  slide_image_versions : list image_version_row
}.

Definition with_slides (d : db) (rows : list slide_row) : db :=
  {| projects := projects d; outline_versions := outline_versions d;
     theme_versions := theme_versions d; slides := rows;
     slide_image_versions := slide_image_versions d |}.

Definition with_image_versions (d : db) (rows : list image_version_row) : db :=
  {| projects := projects d; outline_versions := outline_versions d;
     theme_versions := theme_versions d; slides := slides d;
     slide_image_versions := rows |}.

Definition with_outline_versions (d : db) (rows : list json_version_row) : db :=
  {| projects := projects d; outline_versions := rows;
     theme_versions := theme_versions d; slides := slides d;
     slide_image_versions := slide_image_versions d |}.

(** A callback given to [withProjectDb]: it reads and changes the database
    and returns or throws; what it changed before throwing stays changed
    (the code opens no transaction). *)
Definition sql (A : Type) : Type := db -> completion A * db.

#[global] Instance sql_ret : MRet sql := fun A a d => (Return a, d).

#[global] Instance sql_bind : MBind sql := fun A B f m d =>
  match m d with
  | (Return a, d') => f a d'
  | (Throw e, d') => (Throw e, d')
  end.

Definition sql_throw {A : Type} (e : thrown) : sql A := fun d => (Throw e, d).

(** A statement that cannot fail. *)
Definition sql_exec (f : db -> db) : sql unit := fun d => (Return tt, f d).

(** A query. *)
Definition sql_get {A : Type} (f : db -> A) : sql A := fun d => (Return (f d), d).

Definition uniqueFailed (column : string) : thrown :=
  ErrorObj ("UNIQUE constraint failed: " +:+ column).

Definition foreignKeyFailed : thrown := ErrorObj "FOREIGN KEY constraint failed".

(** ** Queries *)

(** [SELECT ... FROM slides WHERE id = ? AND project_id = ?] *)
Definition selectSlide (slideId projectId : string) (d : db) : option slide_row :=
  List.find (fun r => String.eqb (s_id r) slideId
                      && String.eqb (s_project_id r) projectId) (slides d).

(** [SELECT COUNT(1) FROM slides WHERE project_id = ? AND (section_index < ?
    OR (section_index = ? AND slide_index < ?))] *)
Definition countSlidesBefore (projectId : string) (sec idx : Z) (d : db) : Z :=
  Z.of_nat (length (List.filter
    (fun r => String.eqb (s_project_id r) projectId
              && ((section_index r <? sec)
                  || ((section_index r =? sec) && (slide_index r <? idx))))
    (slides d))).

(** The rows of [slide_image_versions] with [slide_id = ?], oldest first. *)
Definition versionsOf (slideId : string) (d : db) : list image_version_row :=
  List.filter (fun r => String.eqb (slide_id r) slideId) (slide_image_versions d).

Fixpoint maxOf (best : Z) (vs : list Z) : Z :=
  match vs with
  | [] => best
  | v :: vs' => maxOf (Z.max best v) vs'
  end.

(** [SELECT MAX(version) as v FROM slide_image_versions WHERE slide_id = ?];
    [None] is SQL's [NULL]. *)
Definition maxVersion (slideId : string) (d : db) : option Z :=
  match version <$> versionsOf slideId d with
  | [] => None
  | v :: vs => Some (maxOf v vs)
  end.

(** [(row?.v ? Number(row.v) : 0) + 1]; both [NULL] and [0] are falsy. *)
Definition nextImageVersion (slideId : string) (d : db) : Z :=
  match maxVersion slideId d with
  | Some v => if v =? 0 then 0 + 1 else v + 1
  | None => 0 + 1
  end.

Fixpoint latestOf (best : image_version_row) (rows : list image_version_row)
  : image_version_row :=
  match rows with
  | [] => best
  | r :: rows' => latestOf (if version best <? version r then r else best) rows'
  end.

(** [... WHERE slide_id = ? ORDER BY version DESC LIMIT 1] *)
Definition latestVersionRow (slideId : string) (d : db) : option image_version_row :=
  match versionsOf slideId d with
  | [] => None
  | r :: rows => Some (latestOf r rows)
  end.

(** [... FROM slide_image_versions WHERE slide_id = ? AND version = ?] *)
Definition selectVersion (slideId : string) (v : Z) (d : db)
  : option image_version_row :=
  List.find (fun r => String.eqb (slide_id r) slideId && (version r =? v))
            (slide_image_versions d).

Fixpoint latestJsonOf (best : json_version_row) (rows : list json_version_row)
  : json_version_row :=
  match rows with
  | [] => best
  | r :: rows' =>
      latestJsonOf (if jv_version best <? jv_version r then r else best) rows'
  end.

(** [SELECT theme_json FROM theme_versions WHERE project_id = ? ORDER BY
    version DESC LIMIT 1] *)
Definition latestThemeJson (projectId : string) (d : db) : option string :=
  match List.filter (fun r => String.eqb (jv_project_id r) projectId)
                    (theme_versions d) with
  | [] => None
  | r :: rows => Some (jv_json (latestJsonOf r rows))
  end.

(** [SELECT MAX(version) as v FROM outline_versions WHERE project_id = ?],
    then [(row?.v ? Number(row.v) : 0) + 1]. *)
Definition nextOutlineVersion (projectId : string) (d : db) : Z :=
  match jv_version <$> List.filter (fun r => String.eqb (jv_project_id r) projectId)
                                   (outline_versions d) with
  | [] => 0 + 1
  | v :: vs => if maxOf v vs =? 0 then 0 + 1 else maxOf v vs + 1
  end.

(** [... ORDER BY section_index ASC, slide_index ASC] *)
Definition deckOrder (a b : slide_row) : Prop :=
  section_index a < section_index b
  \/ (section_index a = section_index b /\ slide_index a <= slide_index b).

#[global] Instance deckOrder_dec : RelDecision deckOrder.
Proof. intros a b. unfold deckOrder. apply _. Defined.

(** [SELECT ... FROM slides WHERE project_id = ? ORDER BY section_index ASC,
    slide_index ASC] *)
Definition slidesOfProject (projectId : string) (d : db) : list slide_row :=
  merge_sort deckOrder
    (List.filter (fun r => String.eqb (s_project_id r) projectId) (slides d)).

(** ** Statements *)

(** What the [UPDATE] below makes of a row. *)
Definition updatedRow (slideId : string) (st : slide_status)
  (errorMessage contentJson : option string) (now : string) (r : slide_row)
  : slide_row :=
  if String.eqb (s_id r) slideId then
    {| s_id := s_id r; s_project_id := s_project_id r;
       section_index := section_index r; slide_index := slide_index r;
       title := title r; summary := summary r;
       content_json := match contentJson with
                       | Some c => Some c
                       | None => content_json r
                       end;
       status := st; error_message := errorMessage; updated_at := now |}
  else r.

(** [UPDATE slides SET status = @status, error_message = @error_message,
    content_json = COALESCE(@content_json, content_json), updated_at =
    @updated_at WHERE id = @id] *)
Definition updateSlide (slideId : string) (st : slide_status)
  (errorMessage contentJson : option string) (now : string) (d : db) : db :=
  with_slides d (updatedRow slideId st errorMessage contentJson now <$> slides d).

(** [INSERT INTO slide_image_versions ...]: [id] is the primary key and
    [slide_id] references [slides(id)] with foreign keys on. *)
Definition insertImageVersion (row : image_version_row) : sql unit := fun d =>
  if existsb (fun r => String.eqb (iv_id r) (iv_id row)) (slide_image_versions d)
  then (Throw (uniqueFailed "slide_image_versions.id"), d)
  else if negb (existsb (fun s => String.eqb (s_id s) (slide_id row)) (slides d))
  then (Throw foreignKeyFailed, d)
  else (Return tt, with_image_versions d (slide_image_versions d ++ [row])).

(** [DELETE FROM slide_image_versions WHERE slide_id = ?] *)
Definition deleteImageVersionsOf (slideId : string) : sql unit :=
  sql_exec (fun d =>
    with_image_versions d
      (List.filter (fun r => negb (String.eqb (slide_id r) slideId))
                   (slide_image_versions d))).

(** [DELETE FROM slides WHERE project_id = ?]: refused while a row of
    [slide_image_versions] references one of the slides. *)
Definition deleteSlidesOfProject (projectId : string) : sql unit := fun d =>
  if existsb (fun s => String.eqb (s_project_id s) projectId
                       && existsb (fun r => String.eqb (slide_id r) (s_id s))
                                  (slide_image_versions d))
             (slides d)
  then (Throw foreignKeyFailed, d)
  else (Return tt,
        with_slides d
          (List.filter (fun s => negb (String.eqb (s_project_id s) projectId))
                       (slides d))).

(** [INSERT INTO slides ...] *)
Definition insertSlide (row : slide_row) : sql unit := fun d =>
  if existsb (fun s => String.eqb (s_id s) (s_id row)) (slides d)
  then (Throw (uniqueFailed "slides.id"), d)
  else if negb (existsb (fun p => String.eqb (p_id p) (s_project_id row)) (projects d))
  then (Throw foreignKeyFailed, d)
  else (Return tt, with_slides d (slides d ++ [row])).

(** [INSERT INTO outline_versions ...] *)
Definition insertOutlineVersion (row : json_version_row) : sql unit := fun d =>
  if existsb (fun r => String.eqb (jv_id r) (jv_id row)) (outline_versions d)
  then (Throw (uniqueFailed "outline_versions.id"), d)
  else if negb (existsb (fun p => String.eqb (p_id p) (jv_project_id row)) (projects d))
  then (Throw foreignKeyFailed, d)
  else (Return tt, with_outline_versions d (outline_versions d ++ [row])).

(** The status of a slide and the message stored with it. *)
Definition slideState (slideId projectId : string) (d : db)
  : option (slide_status * option string) :=
  (fun r => (status r, error_message r)) <$> selectSlide slideId projectId d.

(** ** What the schema keeps true *)

(** Every image version belongs to a slide that exists. *)
Definition versionsHaveSlides (d : db) : Prop :=
  forall r, r ∈ slide_image_versions d ->
            exists s, s ∈ slides d /\ s_id s = slide_id r.

(** The versions of a slide, in the order they were inserted, are numbered
    [1, 2, ..., M]. *)
Definition numbered (slideId : string) (d : db) : Prop :=
  version <$> versionsOf slideId d
  = seqZ 1 (Z.of_nat (length (versionsOf slideId d))).

End Store.

(** * image/imageClient.ts, as far as the slide services see it *)
Module ImageClient.

Definition bytes : Type := list Byte.byte.

(** The files below the project roots, by absolute path. *)
Abbreviation files := (gmap string bytes).

Record image_gen_result : Type := {
  imagePath : string;      (** relative to the project root *)
  requestJson : string;    (** [JSON.stringify(image.requestJson)] *)
  responseJson : string;   (** [JSON.stringify(image.responseJson)] *)
  createdAt : string
}.

(** The extensions that [mimeToExt] returns (see [mimeToExt_extName]). *)
Inductive image_ext : Type := Jpg | Png | Webp | Gif | Bmp | Tiff.

Definition extName (x : image_ext) : string :=
  match x with
  | Jpg => "jpg"
  | Png => "png"
  | Webp => "webp"
  | Gif => "gif"
  | Bmp => "bmp"
  | Tiff => "tiff"
  end.

(** The last four characters of [`.${ext}`]. *)
Definition extEnd (x : image_ext) : string :=
  match x with
  | Jpg => ".jpg"
  | Png => ".png"
  | Webp => "webp"
  | Gif => ".gif"
  | Bmp => ".bmp"
  | Tiff => "tiff"
  end.

(** How far [writeJsonAtomic(cacheMetaPath, ...)] gets. *)
Inductive meta_write : Type :=
| MetaFailed (e : thrown)     (** nothing is written: [ensureDir] or the write
                                  of the temporary file throws *)
| RenameFailed (e : thrown)   (** the temporary file is written and
                                  [fs.rename] throws *)
| MetaWritten.

(** What the configuration, the cache and the image service make of one call
    of [generateImageToProject].
    - [CallFailed]: the call throws before it writes the image file (missing
      settings, a failed or timed-out request, a response without inline
      image data, an image file that cannot be written).
    - [CallWrote]: the call writes [data] to the file of this version and no
      other file.  It then returns when [image.cacheEnabled] is off or the
      image was found in the cache; with the cache on and an image from the
      service it throws [after], from [ensureDir(cacheDir)] or from the write
      of the cached image.
    - [CallStored]: the cache is on and the image came from the service, with
      a mime type that [mimeToExt] maps to [ext].  The call writes [data] to
      the file of this version and to [cache/image/<cacheKey>.<ext>], and
      then has [writeJsonAtomic] store [meta], the text of the cache entry,
      in [cache/image/<cacheKey>.json]. *)
Inductive image_call : Type :=
| CallFailed (e : thrown)
| CallWrote (ext : string) (data : bytes)
            (request response createdAt : string) (after : option thrown)
| CallStored (ext : image_ext) (data : bytes)
             (request response createdAt : string)
             (cacheKey : string) (meta : bytes) (written : meta_write).

(** The extension and the bytes of the image file that the call writes. *)
Definition imageOf (call : image_call) : option (string * bytes) :=
  match call with
  | CallFailed _ => None
  | CallWrote ext data _ _ _ _ => Some (ext, data)
  | CallStored ext data _ _ _ _ _ _ => Some (extName ext, data)
  end.

(** What the call throws, when it does. *)
Definition thrownBy (call : image_call) : option thrown :=
  match call with
  | CallFailed e => Some e
  | CallWrote _ _ _ _ _ after => after
  | CallStored _ _ _ _ _ _ _ (MetaFailed e) => Some e
  | CallStored _ _ _ _ _ _ _ (RenameFailed e) => Some e
  | CallStored _ _ _ _ _ _ _ MetaWritten => None
  end.

(** [fs.rename(oldPath, newPath)] of a file that exists. *)
Definition rename (oldPath newPath : string) (fs : files) : files :=
  match fs !! oldPath with
  | Some content => <[newPath := content]> (delete oldPath fs)
  | None => fs
  end.

(** [absOutPath] and the returned [imagePath]. *)
Definition absOutPath (projectRootPath : string) (deckIndex version : Z)
  (ext : string) : string :=
  PathNames.join [projectRootPath; "images"; PathNames.slideDirName deckIndex;
                  PathNames.versionFileName version ext].

Definition relPath (deckIndex version : Z) (ext : string) : string :=
  PathNames.join ["images"; PathNames.slideDirName deckIndex;
                  PathNames.versionFileName version ext].

(** [absCacheImagePath], [cacheMetaPath] and the [tmpPath] of
    [writeJsonAtomic]. *)
Definition absCacheImagePath (projectRootPath cacheKey ext : string) : string :=
  PathNames.join [projectRootPath;
                  PathNames.join ["cache"; "image"; cacheKey +:+ "." +:+ ext]].

Definition cacheMetaPath (projectRootPath cacheKey : string) : string :=
  PathNames.join [projectRootPath; "cache"; "image"; cacheKey +:+ ".json"].

Definition tmpPath (filePath : string) : string := filePath +:+ ".tmp".

Definition generateImageToProject
  (projectRootPath : string) (deckIndex version : Z) (call : image_call)
  (fs : files) : completion image_gen_result * files :=
  match call with
  | CallFailed e => (Throw e, fs)
  | CallWrote ext data request response at_ after =>
      let fs' := <[absOutPath projectRootPath deckIndex version ext := data]> fs in
      match after with
      | Some e => (Throw e, fs')
      | None =>
          (Return {| imagePath := relPath deckIndex version ext;
                     requestJson := request;
                     responseJson := response;
                     createdAt := at_ |}, fs')
      end
  | CallStored x data request response at_ cacheKey meta written =>
      let ext := extName x in
      let fs1 :=
        <[absCacheImagePath projectRootPath cacheKey ext := data]>
          (<[absOutPath projectRootPath deckIndex version ext := data]> fs) in
      let metaPath := cacheMetaPath projectRootPath cacheKey in
      match written with
      | MetaFailed e => (Throw e, fs1)
      | RenameFailed e => (Throw e, <[tmpPath metaPath := meta]> fs1)
      | MetaWritten =>
          (Return {| imagePath := relPath deckIndex version ext;
                     requestJson := request;
                     responseJson := response;
                     createdAt := at_ |},
           rename (tmpPath metaPath) metaPath (<[tmpPath metaPath := meta]> fs1))
      end
  end.

End ImageClient.

(** * slideService.ts *)
Module SlideService.
Import Store ImageClient.

(** The database and the files of one project. *)
Record disk : Type := {
  dbase : db;
  fsys : files
}.

(** [setSlideStatus(db, slideId, status, errorMessage)] *)
Definition setSlideStatus (slideId : string) (st : slide_status)
  (errorMessage : option string) (now : string) : sql unit :=
  sql_exec (updateSlide slideId st errorMessage None now).

(** The value of [a || b] for strings that may be [null]. *)
Definition orElse (a b : option string) : option string :=
  match a with
  | Some s => if String.eqb s "" then b else Some s
  | None => b
  end.

Definition truthy (a : option string) : bool :=
  match a with
  | Some s => negb (String.eqb s "")
  | None => false
  end.

Record slide_result : Type := {
  res_version : Z;
  res_promptText : string;
  res_imagePath : string
}.

Section Services.
(** [process.cwd()], which [path.resolve] falls back on. *)
Variable cwd : string.
(** [String.prototype.trim] *)
Variable trim : string -> string.
(** [tryParseJson] on the theme and on the content, the test that both are
    truthy, and [buildSlidePrompt] on them (which throws on values of the
    wrong shape): [None] is [null]. *)
Variable promptFromContent :
  option string -> string -> option string -> completion (option string).

(** ** [regenerateSlideImage] *)

Record regenerate_input : Type := {
  rg_projectId : string;
  rg_slideId : string;
  rg_promptText : option string
}.

Record regenerate_resolved : Type := {
  rg_deckIndex : Z;
  rg_slideTitle : string;
  rg_slideSummary : string;
  rg_status : slide_status;
  rg_contentJson : option string;
  rg_latestPromptText : option string;
  rg_themeJson : option string;
  rg_nextVersion : Z
}.

(** The first callback (lines 57-99). *)
Definition regenerate_read (input : regenerate_input) : sql regenerate_resolved :=
  fun d =>
    match selectSlide (rg_slideId input) (rg_projectId input) d with
    | None => (Throw (ErrorObj "页面不存在。"), d)
    | Some slide =>
        (Return
           {| rg_deckIndex :=
                countSlidesBefore (rg_projectId input)
                  (section_index slide) (slide_index slide) d;
              rg_slideTitle := title slide;
              rg_slideSummary := summary slide;
              rg_status := status slide;
              rg_contentJson := content_json slide;
              rg_latestPromptText :=
                match latestVersionRow (rg_slideId input) d with
                | Some latest =>
                    if String.eqb (prompt_text latest) "" then None
                    else Some (prompt_text latest)
                | None => None
                end;
              rg_themeJson := latestThemeJson (rg_projectId input) d;
              rg_nextVersion := nextImageVersion (rg_slideId input) d |}, d)
    end.

(** Lines 101-119: the prompt to use, or the complaint that there is none. *)
Definition regenerate_prompt (input : regenerate_input)
  (resolved : regenerate_resolved) : completion string :=
  let promptTextFromInput :=
    match rg_promptText input with
    | Some p => if String.eqb (trim p) "" then None else Some (trim p)
    | None => None
    end in
  match promptFromContent (rg_themeJson resolved) (rg_slideTitle resolved)
                          (rg_contentJson resolved) with
  | Throw e => Throw e
  | Return promptTextFromContent =>
      let promptText :=
        orElse promptTextFromInput
          (orElse (if bool_decide (rg_status resolved = text_ready)
                      && truthy promptTextFromContent
                   then promptTextFromContent else None)
             (orElse (rg_latestPromptText resolved)
                (orElse promptTextFromContent (Some "")))) in
      match promptText with
      | Some p => if String.eqb p "" then
                    Throw (ErrorObj "没有可用的提示词，无法重新生成。")
                  else Return p
      | None => Throw (ErrorObj "没有可用的提示词，无法重新生成。")
      end
  end.

(** Line 121. *)
Definition regenerate_mark (input : regenerate_input) (now : string) : sql unit :=
  setSlideStatus (rg_slideId input) generating_image None now.

(** The [catch] blocks of both services (lines 152-156 and 258-262). *)
Definition failSlide {A : Type} (slideId : string) (err : thrown) (now : string)
  (k : disk) : completion A * disk :=
  (Throw err,
   {| dbase := (setSlideStatus slideId error (Some (toErrorMessage err)) now
                  (dbase k)).2;
      fsys := fsys k |}).

(** The row that [regenerateSlideImage] inserts (lines 136-146). *)
Definition regenerateRow (input : regenerate_input)
  (resolved : regenerate_resolved) (promptText : string)
  (image : image_gen_result) (newId : string) : image_version_row :=
  {| iv_id := newId;
     slide_id := rg_slideId input;
     version := rg_nextVersion resolved;
     prompt_text := promptText;
     image_path := imagePath image;
     provider := Some "vectorengine";
     request_json := Some (requestJson image);
     response_json := Some (responseJson image);
     created_at := createdAt image |}.

(** The second callback of [regenerateSlideImage] (lines 131-149). *)
Definition regenerate_record (input : regenerate_input)
  (resolved : regenerate_resolved) (promptText : string)
  (image : image_gen_result) (newId now : string) : sql unit :=
  _ ← insertImageVersion (regenerateRow input resolved promptText image newId);
  setSlideStatus (rg_slideId input) ready None now.

(** The [try] statement of [regenerateSlideImage] (lines 123-156), once the
    image call has come back as [call]. *)
Definition regenerate_finish (projectRootPath : string)
  (input : regenerate_input) (resolved : regenerate_resolved)
  (promptText : string) (call : image_call) (newId now : string)
  (k : disk) : completion slide_result * disk :=
  match generateImageToProject projectRootPath (rg_deckIndex resolved)
          (rg_nextVersion resolved) call (fsys k) with
  | (Throw err, fs') =>
      failSlide (rg_slideId input) err now {| dbase := dbase k; fsys := fs' |}
  | (Return image, fs') =>
      match regenerate_record input resolved promptText image newId now (dbase k) with
      | (Throw err, d') =>
          failSlide (rg_slideId input) err now {| dbase := d'; fsys := fs' |}
      | (Return _, d') =>
          (Return {| res_version := rg_nextVersion resolved;
                     res_promptText := promptText;
                     res_imagePath := imagePath image |},
           {| dbase := d'; fsys := fs' |})
      end
  end.

(** [regenerateSlideImage], when nothing else runs between its steps. *)
Definition regenerateSlideImage (projectRootPath : string)
  (input : regenerate_input) (call : image_call) (newId now : string)
  (k : disk) : completion slide_result * disk :=
  match regenerate_read input (dbase k) with
  | (Throw e, d1) => (Throw e, {| dbase := d1; fsys := fsys k |})
  | (Return resolved, d1) =>
      match regenerate_prompt input resolved with
      | Throw e => (Throw e, {| dbase := d1; fsys := fsys k |})
      | Return promptText =>
          let d2 := (regenerate_mark input now d1).2 in
          regenerate_finish projectRootPath input resolved promptText call
            newId now {| dbase := d2; fsys := fsys k |}
      end
  end.

(** ** [restoreSlideImageVersion] *)

Record restore_input : Type := {
  rs_projectId : string;
  rs_slideId : string;
  rs_version : Z
}.

Record restore_resolved : Type := {
  rs_deckIndex : Z;
  rs_srcPromptText : string;
  rs_srcImagePath : string;
  rs_nextVersion : Z
}.

(** The first callback (lines 193-227). *)
Definition restore_read (input : restore_input) : sql restore_resolved :=
  fun d =>
    match selectSlide (rs_slideId input) (rs_projectId input) d with
    | None => (Throw (ErrorObj "页面不存在。"), d)
    | Some slide =>
        match selectVersion (rs_slideId input) (rs_version input) d with
        | None => (Throw (ErrorObj "图片版本不存在。"), d)
        | Some src =>
            (Return
               {| rs_deckIndex :=
                    countSlidesBefore (rs_projectId input)
                      (section_index slide) (slide_index slide) d;
                  rs_srcPromptText := prompt_text src;
                  rs_srcImagePath := image_path src;
                  rs_nextVersion := nextImageVersion (rs_slideId input) d |}, d)
        end
    end.

(** Line 229. *)
Definition restore_mark (input : restore_input) (now : string) : sql unit :=
  setSlideStatus (rs_slideId input) generating_image None now.

(** Lines 232-233. *)
Definition restore_destRelPath (resolved : restore_resolved) : string :=
  let ext :=
    let e := PathNames.dropFirstDot (PathNames.extname (rs_srcImagePath resolved)) in
    if String.eqb e "" then "png" else e in
  PathNames.join ["images"; PathNames.slideDirName (rs_deckIndex resolved);
                  PathNames.versionFileName (rs_nextVersion resolved) ext].

(** [fs.mkdir] and [fs.copyFile] (lines 236-237): [fault] is a failure of the
    file system other than a missing source file. *)
Definition copyFile (absSrc absDest : string) (fault : option thrown)
  (fs : files) : completion unit * files :=
  match fault with
  | Some e => (Throw e, fs)
  | None =>
      match fs !! absSrc with
      | Some data => (Return tt, <[absDest := data]> fs)
      | None => (Throw (ErrorObj ("ENOENT: no such file or directory, copyfile '"
                                    +:+ absSrc +:+ "'")), fs)
      end
  end.

(** The row that [restoreSlideImageVersion] inserts (lines 244-252). *)
Definition restoreRow (input : restore_input) (resolved : restore_resolved)
  (destRelPath newId now : string) : image_version_row :=
  {| iv_id := newId;
     slide_id := rs_slideId input;
     version := rs_nextVersion resolved;
     prompt_text := rs_srcPromptText resolved;
     image_path := destRelPath;
     provider := Some "restore";
     request_json := None;
     response_json := None;
     created_at := now |}.

(** The second callback of [restoreSlideImageVersion] (lines 239-255). *)
Definition restore_record (input : restore_input) (resolved : restore_resolved)
  (destRelPath newId now : string) : sql unit :=
  _ ← insertImageVersion (restoreRow input resolved destRelPath newId now);
  setSlideStatus (rs_slideId input) ready None now.

(** The [try] statement of [restoreSlideImageVersion] (lines 231-262). *)
Definition restore_finish (projectRootPath : string)
  (input : restore_input) (resolved : restore_resolved)
  (fault : option thrown) (newId now : string)
  (k : disk) : completion slide_result * disk :=
  let destRelPath := restore_destRelPath resolved in
  match Paths.ensureWithinProject cwd projectRootPath (rs_srcImagePath resolved) with
  | Throw err => failSlide (rs_slideId input) err now k
  | Return absSrc =>
      match Paths.ensureWithinProject cwd projectRootPath destRelPath with
      | Throw err => failSlide (rs_slideId input) err now k
      | Return absDest =>
          match copyFile absSrc absDest fault (fsys k) with
          | (Throw err, fs') =>
              failSlide (rs_slideId input) err now {| dbase := dbase k; fsys := fs' |}
          | (Return _, fs') =>
              match restore_record input resolved destRelPath newId now (dbase k) with
              | (Throw err, d') =>
                  failSlide (rs_slideId input) err now {| dbase := d'; fsys := fs' |}
              | (Return _, d') =>
                  (Return {| res_version := rs_nextVersion resolved;
                             res_promptText := rs_srcPromptText resolved;
                             res_imagePath := destRelPath |},
                   {| dbase := d'; fsys := fs' |})
              end
          end
      end
  end.


End Services.

End SlideService.

(** * jobs/jobStore.ts *)
Module Jobs.

Inductive job_status : Type :=
| queued
| running
| completed
| failed.

Inductive step_name : Type :=
| style
| outline
| content
| images
| slides.

Record progress : Type := {
  step : step_name;
  totalSlides : Z;
  completedSlides : Z;
  failedSlides : Z
}.

Record job : Type := {
  id : string;
  projectId : string;
  status : job_status;
  startedAt : string;
  finishedAt : option string;
  progress_ : option progress;
  error_ : option string
}.

(** The fields a [Partial<Job>] of the stage runners sets. *)
Record job_patch : Type := {
  set_status : option job_status;
  set_finishedAt : option string;
  set_progress : option progress
}.

(** The module-level [jobs] map. *)
Abbreviation registry := (gmap string job).

(** [{ ...job, ...patch }] *)
Definition patched (j : job) (patch : job_patch) : job :=
  {| id := id j;
     projectId := projectId j;
     status := default (status j) (set_status patch);
     startedAt := startedAt j;
     finishedAt := match set_finishedAt patch with
                   | Some t => Some t
                   | None => finishedAt j
                   end;
     progress_ := match set_progress patch with
                  | Some p => Some p
                  | None => progress_ j
                  end;
     error_ := error_ j |}.

Definition updateJob (jobId : string) (patch : job_patch) (jobs : registry)
  : completion job * registry :=
  match jobs !! jobId with
  | None => (Throw (ErrorObj "任务不存在"), jobs)
  | Some j => (Return (patched j patch), <[jobId := patched j patch]> jobs)
  end.

Definition progressPatch (p : progress) : job_patch :=
  {| set_status := None; set_finishedAt := None; set_progress := Some p |}.

End Jobs.

(** * jobs/generateJob.ts *)
Module Pipeline.
Import Store ImageClient.

(** [setSlideStatus(db, slideId, status, patch)] *)
Definition setSlideStatus (slideId : string) (st : slide_status)
  (errorMessage contentJson : option string) (now : string) : sql unit :=
  sql_exec (updateSlide slideId st errorMessage contentJson now).

(** [for (const x of xs) f(x)] inside a database callback. *)
Fixpoint sql_for {A : Type} (xs : list A) (f : A -> sql unit) : sql unit :=
  match xs with
  | [] => mret tt
  | x :: xs' => _ ← f x; sql_for xs' f
  end.

(** [clearSlides(db, projectId)] *)
Definition clearSlides (projectId : string) : sql unit :=
  slideIds ← sql_get (fun d =>
    s_id <$> List.filter (fun s => String.eqb (s_project_id s) projectId) (slides d));
  _ ← sql_for slideIds deleteImageVersionsOf;
  deleteSlidesOfProject projectId.

(** ** The Outline stage *)

Record outline_slide : Type := {
  os_title : string;
  os_summary : string
}.

Record outline_section : Type := {
  sec_title : string;
  sec_slides : list outline_slide
}.

Section OutlineCommit.
Variable projectId : string.
(** [randomUUID()] for the [k]-th slide row inserted. *)
Variable newSlideId : Z -> string.
Variable now : string.

(** [section.slides.forEach((slide, slideIndex) => ...)], from [slideIndex]
    on; the result is [deckIndex]. *)
Fixpoint insertSectionSlides (sectionIndex slideIndex : Z)
  (rows : list outline_slide) (deckIndex : Z) : sql Z :=
  match rows with
  | [] => mret deckIndex
  | slide :: rows' =>
      _ ← insertSlide
            {| s_id := newSlideId deckIndex;
               s_project_id := projectId;
               section_index := sectionIndex;
               slide_index := slideIndex;
               title := os_title slide;
               summary := os_summary slide;
               content_json := None;
               status := pending;
               error_message := None;
               updated_at := now |};
      insertSectionSlides sectionIndex (slideIndex + 1) rows' (deckIndex + 1)
  end.

(** [outline.sections.forEach((section, sectionIndex) => ...)] *)
Fixpoint insertSections (sectionIndex : Z) (sections : list outline_section)
  (deckIndex : Z) : sql Z :=
  match sections with
  | [] => mret deckIndex
  | section :: sections' =>
      deckIndex' ← insertSectionSlides sectionIndex 0 (sec_slides section) deckIndex;
      insertSections (sectionIndex + 1) sections' deckIndex'
  end.

(** The callback of [runGenerateOutlineStep] that stores a generated outline
    (lines 100-138); [outlineJson] is [JSON.stringify(outline)]. *)
Definition commitOutline (sections : list outline_section)
  (outlineJson newOutlineId : string) : sql Z :=
  outlineVersion ← sql_get (nextOutlineVersion projectId);
  _ ← clearSlides projectId;
  _ ← insertOutlineVersion
        {| jv_id := newOutlineId;
           jv_project_id := projectId;
           jv_version := outlineVersion;
           jv_json := outlineJson;
           jv_created_at := now |};
  insertSections 0 sections 0.

End OutlineCommit.

(** The slide rows that storing an outline inserts, in order. *)
Fixpoint sectionRows (projectId : string) (newSlideId : Z -> string)
  (now : string) (sectionIndex slideIndex : Z) (rows : list outline_slide)
  (deckIndex : Z) : list slide_row :=
  match rows with
  | [] => []
  | slide :: rows' =>
      {| s_id := newSlideId deckIndex; s_project_id := projectId;
         section_index := sectionIndex; slide_index := slideIndex;
         title := os_title slide; summary := os_summary slide;
         content_json := None; status := pending; error_message := None;
         updated_at := now |}
        :: sectionRows projectId newSlideId now sectionIndex (slideIndex + 1)
             rows' (deckIndex + 1)
  end.

Fixpoint outlineRowsFrom (projectId : string) (newSlideId : Z -> string)
  (now : string) (sectionIndex : Z) (sections : list outline_section)
  (deckIndex : Z) : list slide_row :=
  match sections with
  | [] => []
  | section :: sections' =>
      sectionRows projectId newSlideId now sectionIndex 0 (sec_slides section)
        deckIndex
        ++ outlineRowsFrom projectId newSlideId now (sectionIndex + 1) sections'
             (deckIndex + Z.of_nat (length (sec_slides section)))
  end.

Definition outlineRows (projectId : string) (newSlideId : Z -> string)
  (now : string) (sections : list outline_section) : list slide_row :=
  outlineRowsFrom projectId newSlideId now 0 sections 0.

(** The number of slides of an outline. *)
Definition slideCount (sections : list outline_section) : Z :=
  Z.of_nat (length (sections ≫= sec_slides)).

(** The ids of the slides of a project. *)
Definition slideIdsOf (projectId : string) (d : db) : list string :=
  s_id <$> List.filter (fun s => String.eqb (s_project_id s) projectId) (slides d).

(** ** The Images stage *)

Record world : Type := {
  disk_db : db;
  disk_fs : files;
  jobs : Jobs.registry
}.

Definition with_db (w : world) (d : db) : world :=
  {| disk_db := d; disk_fs := disk_fs w; jobs := jobs w |}.

Definition with_fs (w : world) (fs : files) : world :=
  {| disk_db := disk_db w; disk_fs := fs; jobs := jobs w |}.

Definition with_jobs (w : world) (js : Jobs.registry) : world :=
  {| disk_db := disk_db w; disk_fs := disk_fs w; jobs := js |}.

(** The variables of [runGenerateImagesStep] that its tasks share. *)
Record stage : Type := {
  now_world : world;
  completedSlides : Z;
  failedSlides : Z
}.

(** Where a task of the stage stands. *)
Inductive task_state : Type :=
| Awaiting (version : Z) (promptText : string)
| Fulfilled
| Rejected (e : thrown).

Section ImagesStage.
Context {theme slide_content : Type}.
(** [safeParseJson(raw, ThemeSchema)] *)
Variable parseTheme : string -> option theme.
(** [SlideContentSchema.parse(JSON.parse(raw))], [None] when it throws *)
Variable parseSlideContent : string -> option slide_content.
(** [buildSlidePrompt] on the title, bullets and image description *)
Variable buildSlidePrompt : theme -> string -> slide_content -> string.

Variable job : Jobs.job.
(** what [await resolveProjectRootPath(job.projectId)] comes to *)
Variable rootLookup : completion string.
(** the result of the image call of the task at each position of the deck *)
Variable calls : nat -> image_call.
(** [randomUUID()] in the task at each position *)
Variable newIds : nat -> string.
Variable now : string.

Record deck_slide : Type := {
  ds_id : string;
  ds_title : string;
  ds_content : option slide_content;
  ds_deckIndex : Z
}.

(** [requireLatestTheme] *)
Definition requireLatestTheme (d : db) : completion theme :=
  match latestThemeJson (Jobs.projectId job) d ≫= parseTheme with
  | Some t => Return t
  | None => Throw (ErrorObj "风格尚未生成")
  end.

(** Lines 255-277: the slides of the deck, in order, with their positions. *)
Definition deckSlides (d : db) : list deck_slide :=
  imap (fun idx r =>
          {| ds_id := s_id r;
             ds_title := title r;
             ds_content := content_json r ≫= parseSlideContent;
             ds_deckIndex := Z.of_nat idx |})
       (slidesOfProject (Jobs.projectId job) d).

Definition imagesProgress (total : nat) (stg : stage) : Jobs.job_patch :=
  Jobs.progressPatch
    {| Jobs.step := Jobs.images;
       Jobs.totalSlides := Z.of_nat total;
       Jobs.completedSlides := completedSlides stg;
       Jobs.failedSlides := failedSlides stg |}.

(** The [catch] block of a task (lines 331-336). *)
Definition task_catch (total : nat) (s : deck_slide) (err : thrown)
  (stg : stage) : task_state * stage :=
  let failed' := failedSlides stg + 1 in
  let w1 := with_db (now_world stg)
              (setSlideStatus (ds_id s) error (Some (toErrorMessage err)) None now
                 (disk_db (now_world stg))).2 in
  let stg1 := {| now_world := w1; completedSlides := completedSlides stg;
                 failedSlides := failed' |} in
  match Jobs.updateJob (Jobs.id job) (imagesProgress total stg1) (jobs w1) with
  | (Throw e, js) =>
      (Rejected e, {| now_world := with_jobs w1 js;
                      completedSlides := completedSlides stg;
                      failedSlides := failed' |})
  | (Return _, js) =>
      (Fulfilled, {| now_world := with_jobs w1 js;
                     completedSlides := completedSlides stg;
                     failedSlides := failed' |})
  end.

(** A task from its start to its first [await] (lines 285-302). *)
Definition task_begin (th : theme) (total : nat) (s : deck_slide)
  (stg : stage) : task_state * stage :=
  match ds_content s with
  | None => task_catch total s (ErrorObj "内容未生成") stg
  | Some c =>
      let promptText := buildSlidePrompt th (ds_title s) c in
      let d1 := (setSlideStatus (ds_id s) generating_image None None now
                   (disk_db (now_world stg))).2 in
      (Awaiting (nextImageVersion (ds_id s) d1) promptText,
       {| now_world := with_db (now_world stg) d1;
          completedSlides := completedSlides stg;
          failedSlides := failedSlides stg |})
  end.

(** The callback that records the image (lines 309-327). *)
Definition task_record (s : deck_slide) (version : Z) (promptText : string)
  (image : image_gen_result) (newId : string) : sql unit :=
  _ ← insertImageVersion
        {| iv_id := newId;
           slide_id := ds_id s;
           version := version;
           prompt_text := promptText;
           image_path := imagePath image;
           provider := Some "vectorengine";
           request_json := Some (requestJson image);
           response_json := Some (responseJson image);
           created_at := createdAt image |};
  setSlideStatus (ds_id s) ready None None now.

(** A task from the return of its image call to its end (lines 302-336). *)
Definition task_resume (projectRootPath : string) (total : nat) (idx : nat)
  (s : deck_slide) (version : Z) (promptText : string) (stg : stage)
  : task_state * stage :=
  let w := now_world stg in
  match generateImageToProject projectRootPath (ds_deckIndex s) version
          (calls idx) (disk_fs w) with
  | (Throw err, fs') =>
      task_catch total s err
        {| now_world := with_fs w fs'; completedSlides := completedSlides stg;
           failedSlides := failedSlides stg |}
  | (Return image, fs') =>
      match task_record s version promptText image (newIds idx) (disk_db w) with
      | (Throw err, d') =>
          task_catch total s err
            {| now_world := with_db (with_fs w fs') d';
               completedSlides := completedSlides stg;
               failedSlides := failedSlides stg |}
      | (Return _, d') =>
          let w1 := with_db (with_fs w fs') d' in
          let stg1 := {| now_world := w1;
                         completedSlides := completedSlides stg + 1;
                         failedSlides := failedSlides stg |} in
          match Jobs.updateJob (Jobs.id job) (imagesProgress total stg1) (jobs w1) with
          | (Throw err, js) =>
              task_catch total s err
                {| now_world := with_jobs w1 js;
                   completedSlides := completedSlides stg + 1;
                   failedSlides := failedSlides stg |}
          | (Return _, js) =>
              (Fulfilled, {| now_world := with_jobs w1 js;
                             completedSlides := completedSlides stg + 1;
                             failedSlides := failedSlides stg |})
          end
      end
  end.

(** [slides.map(async (s) => ...)]: every task runs to its first [await],
    in deck order. *)
Fixpoint beginAll (th : theme) (total : nat) (deck : list deck_slide)
  (stg : stage) : list task_state * stage :=
  match deck with
  | [] => ([], stg)
  | s :: deck' =>
      let '(t, stg1) := task_begin th total s stg in
      let '(ts, stg2) := beginAll th total deck' stg1 in
      (t :: ts, stg2)
  end.

(** The image calls come back in the order [order] (positions in the deck);
    [None] when [order] names a task that is not waiting. *)
Fixpoint resumeAll (projectRootPath : string) (total : nat)
  (deck : list deck_slide) (order : list nat)
  (tasks : list task_state) (stg : stage) : option (list task_state * stage) :=
  match order with
  | [] => Some (tasks, stg)
  | idx :: order' =>
      match deck !! idx, tasks !! idx with
      | Some s, Some (Awaiting version promptText) =>
          let '(t, stg1) :=
            task_resume projectRootPath total idx s version promptText stg in
          resumeAll projectRootPath total deck order' (<[idx := t]> tasks) stg1
      | _, _ => None
      end
  end.

Definition isAwaiting (t : task_state) : bool :=
  match t with Awaiting _ _ => true | _ => false end.

Fixpoint firstRejection (tasks : list task_state) : option thrown :=
  match tasks with
  | [] => None
  | Rejected e :: _ => Some e
  | _ :: tasks' => firstRejection tasks'
  end.

Definition startPatch : Jobs.job_patch :=
  {| Jobs.set_status := Some Jobs.running;
     Jobs.set_finishedAt := None;
     Jobs.set_progress :=
       Some {| Jobs.step := Jobs.images; Jobs.totalSlides := 0;
               Jobs.completedSlides := 0; Jobs.failedSlides := 0 |} |}.

Definition donePatch (total : nat) (stg : stage) : Jobs.job_patch :=
  {| Jobs.set_status := Some Jobs.completed;
     Jobs.set_finishedAt := Some now;
     Jobs.set_progress :=
       Some {| Jobs.step := Jobs.images; Jobs.totalSlides := Z.of_nat total;
               Jobs.completedSlides := completedSlides stg;
               Jobs.failedSlides := failedSlides stg |} |}.

(** [await Promise.all(tasks)] and what follows it (lines 339-341), once
    the image calls named by [order] have come back. *)
Definition awaitAll (total : nat) (tasks : list task_state) (stg : stage)
  : option (completion unit * world) :=
  match firstRejection tasks with
  | Some e => Some (Throw e, now_world stg)
  | None =>
      if existsb isAwaiting tasks then None
      else
        let w := now_world stg in
        match Jobs.updateJob (Jobs.id job) (donePatch total stg) (jobs w) with
        | (Throw e, js) => Some (Throw e, with_jobs w js)
        | (Return _, js) => Some (Return tt, with_jobs w js)
        end
  end.

(** The stage once the project root is known (lines 253-341). *)
Definition runImagesFrom (projectRootPath : string) (order : list nat)
  (w1 : world) : option (completion unit * world) :=
  match requireLatestTheme (disk_db w1) with
  | Throw e => Some (Throw e, w1)
  | Return th =>
      let deck := deckSlides (disk_db w1) in
      let total := length deck in
      if bool_decide (total = 0%nat) then
        Some (Throw (ErrorObj "没有页面可生成，请先生成大纲"), w1)
      else
        let stg0 := {| now_world := w1; completedSlides := 0; failedSlides := 0 |} in
        match Jobs.updateJob (Jobs.id job) (imagesProgress total stg0) (jobs w1) with
        | (Throw e, js1) => Some (Throw e, with_jobs w1 js1)
        | (Return _, js1) =>
            let '(tasks, stg1) :=
              beginAll th total deck
                {| now_world := with_jobs w1 js1;
                   completedSlides := 0; failedSlides := 0 |} in
            match resumeAll projectRootPath total deck order tasks stg1 with
            | None => None
            | Some (tasks', stg2) => awaitAll total tasks' stg2
            end
        end
  end.

(** [runGenerateImagesStep(job)], with the image calls coming back in the
    order [order].  [None]: the promise of the stage is still pending when
    [order] is used up (or [order] is no order of returns at all). *)
Definition runGenerateImagesStep (order : list nat) (w : world)
  : option (completion unit * world) :=
  match Jobs.updateJob (Jobs.id job) startPatch (jobs w) with
  | (Throw e, js) => Some (Throw e, with_jobs w js)
  | (Return _, js) =>
      match rootLookup with
      | Throw e => Some (Throw e, with_jobs w js)
      | Return projectRootPath =>
          runImagesFrom projectRootPath order (with_jobs w js)
      end
  end.

(** Why the task of slide [s] fails, if it does, when its image call comes
    back as [call] (and the row it inserts is accepted). *)
Definition taskFailure (s : deck_slide) (call : image_call) : option thrown :=
  match ds_content s with
  | None => Some (ErrorObj "内容未生成")
  | Some _ => thrownBy call
  end.

Definition hasContent (deck : list deck_slide) (idx : nat) : bool :=
  match deck !! idx with
  | Some s => match ds_content s with Some _ => true | None => false end
  | None => false
  end.

Definition failsAt (deck : list deck_slide) (idx : nat) : bool :=
  match deck !! idx with
  | Some s => match taskFailure s (calls idx) with Some _ => true | None => false end
  | None => false
  end.

(** The positions of the tasks that wait for an image call. *)
Definition awaited (deck : list deck_slide) : list nat :=
  List.filter (hasContent deck) (seq 0 (length deck)).

(** How a slide of the deck is expected to end. *)
Definition expectedState (s : deck_slide) (call : image_call)
  : slide_status * option string :=
  match taskFailure s call with
  | Some e => (error, Some (toErrorMessage e))
  | None => (ready, None)
  end.

(** The stage at a moment when exactly the tasks at the positions [done]
    have ended: the job is registered, the counters count them, their slides
    are in their final state, every slide of the deck still exists, and the
    rows added to [slide_image_versions] since [d0] are theirs. *)
Record tasksDone (deck : list deck_slide) (d0 : db) (done : list nat)
       (stg : stage) : Prop := {
  done_job : is_Some (jobs (now_world stg) !! Jobs.id job);
  done_range : forall i, i ∈ done -> (i < length deck)%nat;
  done_exist :
    forall i s, deck !! i = Some s ->
                is_Some (selectSlide (ds_id s) (Jobs.projectId job)
                           (disk_db (now_world stg)));
  done_rows :
    forall rowId,
      rowId ∈ iv_id <$> slide_image_versions (disk_db (now_world stg)) ->
      rowId ∈ iv_id <$> slide_image_versions d0
      \/ exists i, i ∈ done /\ rowId = newIds i;
  done_completed :
    completedSlides stg
    = Z.of_nat (length (List.filter (fun i => negb (failsAt deck i)) done));
  done_failed :
    failedSlides stg = Z.of_nat (length (List.filter (failsAt deck) done));
  done_states :
    forall i s, i ∈ done -> deck !! i = Some s ->
                slideState (ds_id s) (Jobs.projectId job) (disk_db (now_world stg))
                = Some (expectedState s (calls i))
}.

End ImagesStage.

End Pipeline.

(** * The three writers of [slide_image_versions], interleaved

    [regenerateSlideImage], [restoreSlideImageVersion] and the tasks of
    [runGenerateImagesStep] are asynchronous: between the callback that reads
    [MAX(version)] and the one that inserts the row, other requests and tasks
    run.  A state of the interleaving is the world together with the
    operations that are between two of their steps. *)
Module Writers.
Import Store ImageClient SlideService Pipeline.

Section Steps.
Context {theme slide_content : Type}.

(** An operation that has read its version number and has not ended yet,
    with the local variables it carries on. *)
Inductive pending : Type :=
| Regenerating (input : regenerate_input) (resolved : regenerate_resolved)
               (promptText : option string)
| Restoring (input : restore_input) (resolved : restore_resolved) (marked : bool)
| Generating (s : @deck_slide slide_content) (version : Z) (promptText : string).

Definition slideOf (op : pending) : string :=
  match op with
  | Regenerating input _ _ => rg_slideId input
  | Restoring input _ _ => rs_slideId input
  | Generating s _ _ => ds_id s
  end.

(** The version number the operation has computed for its row. *)
Definition versionOf (op : pending) : Z :=
  match op with
  | Regenerating _ resolved _ => rg_nextVersion resolved
  | Restoring _ resolved _ => rs_nextVersion resolved
  | Generating _ version _ => version
  end.

Record state : Type := {
  shared : stage;
  inflight : list pending
}.

Definition tables (st : state) : db := disk_db (now_world (shared st)).

Definition diskOf (stg : stage) : disk :=
  {| dbase := disk_db (now_world stg); fsys := disk_fs (now_world stg) |}.

Definition withDisk (stg : stage) (k : disk) : stage :=
  {| now_world := {| disk_db := dbase k; disk_fs := fsys k;
                     jobs := jobs (now_world stg) |};
     completedSlides := completedSlides stg;
     failedSlides := failedSlides stg |}.

Definition withTables (stg : stage) (d : db) : stage :=
  withDisk stg {| dbase := d; fsys := disk_fs (now_world stg) |}.

(** One step of one operation.  An operation starts on a slide only while no
    other operation on that slide is under way: requests for the same slide
    do not overlap. *)
Inductive step : state -> state -> Prop :=
| regenerate_reads stg ops input resolved :
    regenerate_read input (disk_db (now_world stg))
    = (Return resolved, disk_db (now_world stg)) ->
    rg_slideId input ∉ slideOf <$> ops ->
    step {| shared := stg; inflight := ops |}
         {| shared := stg; inflight := Regenerating input resolved None :: ops |}
| regenerate_has_no_prompt stg before after input resolved trim promptFromContent e :
    regenerate_prompt trim promptFromContent input resolved = Throw e ->
    step {| shared := stg;
            inflight := before ++ Regenerating input resolved None :: after |}
         {| shared := stg; inflight := before ++ after |}
| regenerate_marks stg before after input resolved trim promptFromContent p now :
    regenerate_prompt trim promptFromContent input resolved = Return p ->
    step {| shared := stg;
            inflight := before ++ Regenerating input resolved None :: after |}
         {| shared := withTables stg
                        (regenerate_mark input now (disk_db (now_world stg))).2;
            inflight := before ++ Regenerating input resolved (Some p) :: after |}
| regenerate_finishes stg before after input resolved p root call newId now :
    step {| shared := stg;
            inflight := before ++ Regenerating input resolved (Some p) :: after |}
         {| shared := withDisk stg
                        (regenerate_finish root input resolved p call newId now
                           (diskOf stg)).2;
            inflight := before ++ after |}
| restore_reads stg ops input resolved :
    restore_read input (disk_db (now_world stg))
    = (Return resolved, disk_db (now_world stg)) ->
    rs_slideId input ∉ slideOf <$> ops ->
    step {| shared := stg; inflight := ops |}
         {| shared := stg; inflight := Restoring input resolved false :: ops |}
| restore_marks stg before after input resolved now :
    step {| shared := stg;
            inflight := before ++ Restoring input resolved false :: after |}
         {| shared := withTables stg
                        (restore_mark input now (disk_db (now_world stg))).2;
            inflight := before ++ Restoring input resolved true :: after |}
| restore_finishes stg before after input resolved cwd root fault newId now :
    step {| shared := stg;
            inflight := before ++ Restoring input resolved true :: after |}
         {| shared := withDisk stg
                        (restore_finish cwd root input resolved fault newId now
                           (diskOf stg)).2;
            inflight := before ++ after |}
| task_begins stg ops (buildSlidePrompt : theme -> string -> slide_content -> string)
              job now th total s version promptText stg' :
    task_begin buildSlidePrompt job now th total s stg
    = (Awaiting version promptText, stg') ->
    ds_id s ∉ slideOf <$> ops ->
    step {| shared := stg; inflight := ops |}
         {| shared := stg'; inflight := Generating s version promptText :: ops |}
| task_has_no_content stg ops
                      (buildSlidePrompt : theme -> string -> slide_content -> string)
                      job now th total s stg' :
    ds_content s = None ->
    stg' = (task_begin buildSlidePrompt job now th total s stg).2 ->
    ds_id s ∉ slideOf <$> ops ->
    step {| shared := stg; inflight := ops |}
         {| shared := stg'; inflight := ops |}
| task_resumes stg before after job calls newIds now root total idx
               s version promptText :
    step {| shared := stg;
            inflight := before ++ Generating s version promptText :: after |}
         {| shared := (task_resume job calls newIds now root total idx s version
                         promptText stg).2;
            inflight := before ++ after |}.

(** The numbering of the versions, and what the operations under way have
    in hand: each is alone on its slide and holds the number after the last
    one recorded for it. *)
Definition orderly (d : db) (ops : list pending) : Prop :=
  (forall sid, numbered sid d)
  /\ (forall op, op ∈ ops ->
                 versionOf op
                 = Z.of_nat (length (versionsOf (slideOf op) d)) + 1)
  /\ NoDup (slideOf <$> ops).

(** The table of image versions after a step of [op]: as before, or with the
    row of [op] appended. *)
Definition grownBy (op : pending) (d d' : db) : Prop :=
  slide_image_versions d' = slide_image_versions d
  \/ exists row,
      slide_image_versions d' = slide_image_versions d ++ [row]
      /\ slide_id row = slideOf op
      /\ version row = versionOf op.

End Steps.

End Writers.

(** * A small project to try the services on *)
Module Sample.
Import Store.

Definition slideA : slide_row :=
  {| s_id := "slide-a"; s_project_id := "deck"; section_index := 0;
     slide_index := 0; title := "Cover"; summary := "Title page";
     content_json := Some "{cover}"; status := ready; error_message := None;
     updated_at := "t0" |}.

Definition slideB : slide_row :=
  {| s_id := "slide-b"; s_project_id := "deck"; section_index := 0;
     slide_index := 1; title := "Agenda"; summary := "Contents";
     content_json := None; status := text_ready; error_message := None;
     updated_at := "t0" |}.

Definition slideC : slide_row :=
  {| s_id := "slide-c"; s_project_id := "deck"; section_index := 1;
     slide_index := 0; title := "Thanks"; summary := "Closing";
     content_json := Some "{thanks}"; status := text_ready;
     error_message := None; updated_at := "t0" |}.

Definition versionA1 : image_version_row :=
  {| iv_id := "img-1"; slide_id := "slide-a"; version := 1;
     prompt_text := "a blue cover"; image_path := "images/slide-0001/v1.png";
     provider := Some "vectorengine"; request_json := Some "{}";
     response_json := Some "{}"; created_at := "t0" |}.

Definition versionA2 : image_version_row :=
  {| iv_id := "img-2"; slide_id := "slide-a"; version := 2;
     prompt_text := "a red cover"; image_path := "images/slide-0001/v2.png";
     provider := Some "vectorengine"; request_json := Some "{}";
     response_json := Some "{}"; created_at := "t1" |}.

Definition database : db :=
  {| projects := [{| p_id := "deck"; p_name := "Deck"; p_source_text := "brief" |}];
     outline_versions := [];
     theme_versions :=
       [{| jv_id := "theme-1"; jv_project_id := "deck"; jv_version := 1;
           jv_json := "{theme}"; jv_created_at := "t0" |}];
     slides := [slideA; slideB; slideC];
     slide_image_versions := [versionA1; versionA2] |}.

Definition root : string := "/home/u/deck".

Definition blue : ImageClient.bytes := [Byte.x89; Byte.x50; Byte.x01].
Definition red : ImageClient.bytes := [Byte.x89; Byte.x50; Byte.x02].

Definition files : ImageClient.files :=
  <["/home/u/deck/images/slide-0001/v1.png" := blue]>
    (<["/home/u/deck/images/slide-0001/v2.png" := red]> ∅).

Definition newOutline : list Pipeline.outline_section :=
  [{| Pipeline.sec_title := "Opening";
      Pipeline.sec_slides :=
        [{| Pipeline.os_title := "Cover"; Pipeline.os_summary := "Title" |};
         {| Pipeline.os_title := "Agenda"; Pipeline.os_summary := "Contents" |}] |}].

Definition freshSlideId (k : Z) : string := "new-" +:+ pretty k.

End Sample.

(** The sample project on disk, and requests on its first slide. *)
Module SampleRequests.

Definition disk : SlideService.disk :=
  {| SlideService.dbase := Sample.database; SlideService.fsys := Sample.files |}.

Definition restoreFirst : SlideService.restore_input :=
  {| SlideService.rs_projectId := "deck"; SlideService.rs_slideId := "slide-a";
     SlideService.rs_version := 1 |}.


Definition regenerateFirst : SlideService.regenerate_input :=
  {| SlideService.rg_projectId := "deck"; SlideService.rg_slideId := "slide-a";
     SlideService.rg_promptText := Some "a green cover" |}.

Definition timeout : thrown := ErrorObj "生图接口请求超时（120s）".

(** What the first callback of [regenerateSlideImage] reads for
    [regenerateFirst]. *)
Definition regenerateFirstResolved : SlideService.regenerate_resolved :=
  {| SlideService.rg_deckIndex := 0; SlideService.rg_slideTitle := "Cover";
     SlideService.rg_slideSummary := "Title page";
     SlideService.rg_status := Store.ready;
     SlideService.rg_contentJson := Some "{cover}";
     SlideService.rg_latestPromptText := Some "a red cover";
     SlideService.rg_themeJson := Some "{theme}";
     SlideService.rg_nextVersion := 3 |}.

End SampleRequests.

(** An interleaving on the sample project: a restoration of the first slide
    and a task of the Images stage on the third one. *)
Module SampleRun.
Import Pipeline.

Definition job : Jobs.job :=
  {| Jobs.id := "job-1"; Jobs.projectId := "deck"; Jobs.status := Jobs.queued;
     Jobs.startedAt := "t0"; Jobs.finishedAt := None; Jobs.progress_ := None;
     Jobs.error_ := None |}.

Definition stage0 : stage :=
  {| now_world := {| disk_db := Sample.database; disk_fs := Sample.files;
                     jobs := {["job-1" := job]} |};
     completedSlides := 0;
     failedSlides := 0 |}.

Definition restoreResolved : SlideService.restore_resolved :=
  {| SlideService.rs_deckIndex := 0;
     SlideService.rs_srcPromptText := "a blue cover";
     SlideService.rs_srcImagePath := "images/slide-0001/v1.png";
     SlideService.rs_nextVersion := 3 |}.

Definition build (th title content : string) : string :=
  th +:+ "|" +:+ title +:+ "|" +:+ content.

Definition first : @deck_slide string :=
  {| ds_id := "slide-a"; ds_title := "Cover"; ds_content := Some "{cover}";
     ds_deckIndex := 0 |}.

Definition second : @deck_slide string :=
  {| ds_id := "slide-b"; ds_title := "Agenda"; ds_content := None;
     ds_deckIndex := 1 |}.

Definition third : @deck_slide string :=
  {| ds_id := "slide-c"; ds_title := "Thanks"; ds_content := Some "{thanks}";
     ds_deckIndex := 2 |}.

Definition imageCalls (idx : nat) : ImageClient.image_call :=
  ImageClient.CallWrote "png" Sample.red "{req}" "{resp}" "t3" None.

Definition rowIds (idx : nat) : string := "img-c" +:+ pretty idx.

Definition begun : stage := (task_begin build job "t1" "{theme}" 3 third stage0).2.

Definition marked : stage :=
  Writers.withTables begun
    (SlideService.restore_mark SampleRequests.restoreFirst "t2"
       (disk_db (now_world begun))).2.

Definition resumed : stage :=
  (task_resume job imageCalls rowIds "t3" Sample.root 3 2 third 1
     (build "{theme}" "Thanks" "{thanks}") marked).2.

Definition restored : stage :=
  Writers.withDisk resumed
    (SlideService.restore_finish "/srv" Sample.root SampleRequests.restoreFirst
       restoreResolved None "img-3" "t4" (Writers.diskOf resumed)).2.

Definition start : @Writers.state string :=
  {| Writers.shared := stage0; Writers.inflight := [] |}.

Definition finish : @Writers.state string :=
  {| Writers.shared := restored; Writers.inflight := [] |}.

End SampleRun.

(** * projectState.ts and the listing of imageService.ts: what the views read *)
Module Views.
Import Store.

(** [safeParseJson(raw, schema)]: [parse] stands for [JSON.parse] followed by
    [schema.safeParse], [None] when either fails; an empty string is falsy
    and is not parsed at all. *)
Definition safeParseJson {T : Type} (parse : string -> option T)
  (raw : option string) : option T :=
  match raw with
  | Some s => if String.eqb s "" then None else parse s
  | None => None
  end.

(** [getProjectRow(db, projectId)] *)
Definition getProjectRow (projectId : string) : sql project_row := fun d =>
  match List.find (fun p => String.eqb (p_id p) projectId) (projects d) with
  | Some row => (Return row, d)
  | None => (Throw (ErrorObj "项目不存在。"), d)
  end.

(** [SELECT outline_json FROM outline_versions WHERE project_id = ? ORDER BY
    version DESC LIMIT 1] *)
Definition latestOutlineJson (projectId : string) (d : db) : option string :=
  match List.filter (fun r => String.eqb (jv_project_id r) projectId)
                    (outline_versions d) with
  | [] => None
  | r :: rows => Some (jv_json (latestJsonOf r rows))
  end.

(** [getLatestOutline(db, projectId)] *)
Definition getLatestOutline {T : Type} (parseOutline : string -> option T)
  (projectId : string) (d : db) : option T :=
  safeParseJson parseOutline (latestOutlineJson projectId d).

(** [getLatestTheme(db, projectId)] *)
Definition getLatestTheme {T : Type} (parseTheme : string -> option T)
  (projectId : string) (d : db) : option T :=
  safeParseJson parseTheme (latestThemeJson projectId d).

(** ** [listSlideImageVersions] *)

Record version_item : Type := {
  vi_version : Z;
  vi_promptText : string;
  vi_imagePath : string;
  vi_createdAt : string
}.

Definition versionItem (r : image_version_row) : version_item :=
  {| vi_version := version r; vi_promptText := prompt_text r;
     vi_imagePath := image_path r; vi_createdAt := created_at r |}.

(** [ORDER BY version DESC]; rows of equal version come in an order that
    SQLite does not fix, the sort below keeps one of them. *)
Definition newestFirst (a b : image_version_row) : Prop :=
  version b <= version a.

#[global] Instance newestFirst_dec : RelDecision newestFirst.
Proof. intros a b. unfold newestFirst. apply _. Defined.

(** The callback of [listSlideImageVersions]. *)
Definition listSlideImageVersions (projectId slideId : string)
  : sql (list version_item) := fun d =>
  match selectSlide slideId projectId d with
  | None => (Throw (ErrorObj "页面不存在。"), d)
  | Some _ =>
      (Return (versionItem <$> merge_sort newestFirst (versionsOf slideId d)), d)
  end.

(** ** [listSlides] *)

Record slide_list_item : Type := {
  li_id : string;
  li_sectionIndex : Z;
  li_slideIndex : Z;
  li_title : string;
  li_summary : string;
  li_status : slide_status;
  li_errorMessage : option string;
  li_updatedAt : string;
  li_imageVersion : option Z;
  li_imagePath : option string;
  li_promptText : option string
}.

(** [x ? String(x) : null] for a text column. *)
Definition nonEmpty (x : option string) : option string :=
  match x with
  | Some s => if String.eqb s "" then None else Some s
  | None => None
  end.

(** [(SELECT id FROM slide_image_versions WHERE slide_id = s.id ORDER BY
    version DESC LIMIT 1)] *)
Definition latestVersionId (slideId : string) (d : db) : option string :=
  iv_id <$> latestVersionRow slideId d.

(** [s LEFT JOIN slide_image_versions siv ON siv.id = (...)]: the rows that
    the slide [s] gives. *)
Definition joinLatest (d : db) (s : slide_row)
  : list (slide_row * option image_version_row) :=
  match List.filter
          (fun v => bool_decide (Some (iv_id v) = latestVersionId (s_id s) d))
          (slide_image_versions d) with
  | [] => [(s, None)]
  | vs => (fun v => (s, Some v)) <$> vs
  end.

(** [ORDER BY s.section_index ASC, s.slide_index ASC] on the joined rows. *)
Definition joinedOrder (a b : slide_row * option image_version_row) : Prop :=
  deckOrder a.1 b.1.

#[global] Instance joinedOrder_dec : RelDecision joinedOrder.
Proof. intros a b. unfold joinedOrder. apply _. Defined.

(** The rows of the query of [listSlides] (and of [listSlidesForExport]). *)
Definition slidesWithLatest (projectId : string) (d : db)
  : list (slide_row * option image_version_row) :=
  merge_sort joinedOrder
    (List.filter (fun s => String.eqb (s_project_id s) projectId) (slides d)
       ≫= joinLatest d).

Section ListSlides.
Context {theme slide_content : Type}.
(** [safeParseJson(raw, ThemeSchema)] and
    [safeParseJson(raw, SlideContentSchema)] on a non-empty string *)
Variable parseTheme : string -> option theme.
Variable parseSlideContent : string -> option slide_content.
Variable buildSlidePrompt : theme -> string -> slide_content -> string.

(** The [promptText] of an item: the stored one if there is one, else the
    one built from the theme and the content, if both are there. *)
Definition listedPrompt (th : option theme)
  (r : slide_row * option image_version_row) : option string :=
  match nonEmpty (prompt_text <$> r.2) with
  | Some p => Some p
  | None =>
      match th with
      | None => None
      | Some t =>
          match safeParseJson parseSlideContent (content_json r.1) with
          | None => None
          | Some c => Some (buildSlidePrompt t (title r.1) c)
          end
      end
  end.

Definition listItem (th : option theme)
  (r : slide_row * option image_version_row) : slide_list_item :=
  {| li_id := s_id r.1;
     li_sectionIndex := section_index r.1;
     li_slideIndex := slide_index r.1;
     li_title := title r.1;
     li_summary := summary r.1;
     li_status := status r.1;
     li_errorMessage := nonEmpty (error_message r.1);
     li_updatedAt := updated_at r.1;
     li_imageVersion := version <$> r.2;
     li_imagePath := nonEmpty (image_path <$> r.2);
     li_promptText := listedPrompt th r |}.

(** [listSlides(db, projectId)] *)
Definition listSlides (projectId : string) (d : db) : list slide_list_item :=
  listItem (getLatestTheme parseTheme projectId d)
    <$> slidesWithLatest projectId d.

End ListSlides.

End Views.

(** * The Style stage of jobs/generateJob.ts *)
Module StyleStage.
Import Store Pipeline.

Definition with_theme_versions (d : db) (rows : list json_version_row) : db :=
  {| projects := projects d; outline_versions := outline_versions d;
     theme_versions := rows; slides := slides d;
     slide_image_versions := slide_image_versions d |}.

(** [nextVersion(db, "theme_versions", projectId)] *)
Definition nextThemeVersion (projectId : string) (d : db) : Z :=
  match jv_version <$> List.filter (fun r => String.eqb (jv_project_id r) projectId)
                                   (theme_versions d) with
  | [] => 0 + 1
  | v :: vs => if maxOf v vs =? 0 then 0 + 1 else maxOf v vs + 1
  end.

(** [INSERT INTO theme_versions ...] *)
Definition insertThemeVersion (row : json_version_row) : sql unit := fun d =>
  if existsb (fun r => String.eqb (jv_id r) (jv_id row)) (theme_versions d)
  then (Throw (uniqueFailed "theme_versions.id"), d)
  else if negb (existsb (fun p => String.eqb (p_id p) (jv_project_id row)) (projects d))
  then (Throw foreignKeyFailed, d)
  else (Return tt, with_theme_versions d (theme_versions d ++ [row])).

(** The callback of [runGenerateStyle] that stores the theme (lines 73-85);
    [themeJson] is [JSON.stringify(theme)]. *)
Definition commitTheme (projectId themeJson newId now : string) : sql unit :=
  themeVersion ← sql_get (nextThemeVersion projectId);
  insertThemeVersion
    {| jv_id := newId; jv_project_id := projectId; jv_version := themeVersion;
       jv_json := themeJson; jv_created_at := now |}.

Definition stylePatch (st : Jobs.job_status) (finished : option string)
  : Jobs.job_patch :=
  {| Jobs.set_status := Some st;
     Jobs.set_finishedAt := finished;
     Jobs.set_progress :=
       Some {| Jobs.step := Jobs.style; Jobs.totalSlides := 0;
               Jobs.completedSlides := 0; Jobs.failedSlides := 0 |} |}.

Section RunGenerateStyle.
Context {theme outline : Type}.
(** [safeParseJson(raw, OutlineSchema)] on a non-empty string *)
Variable parseOutline : string -> option outline.
(** [JSON.stringify(theme)] *)
Variable stringifyTheme : theme -> string.
Variable job : Jobs.job.
(** what [await resolveProjectRootPath(job.projectId)] comes to *)
Variable rootLookup : completion string.
(** what [await createOpenAiClient()] comes to *)
Variable openAiClient : completion unit.
(** what [await generateTheme(client, model, input)] comes to, by the
    project name, the source text and the outline of [input] *)
Variable generateTheme : string -> string -> option outline -> completion theme.
Variable newId now : string.

(** [runGenerateStyle(job)] *)
Definition runGenerateStyle (w : world) : completion unit * world :=
  match Jobs.updateJob (Jobs.id job) (stylePatch Jobs.running None) (jobs w) with
  | (Throw e, js) => (Throw e, with_jobs w js)
  | (Return _, js) =>
      let w1 := with_jobs w js in
      match rootLookup with
      | Throw e => (Throw e, w1)
      | Return _ =>
          match Views.getProjectRow (Jobs.projectId job) (disk_db w1) with
          | (Throw e, _) => (Throw e, w1)
          | (Return project, _) =>
              let outline :=
                Views.getLatestOutline parseOutline (Jobs.projectId job)
                  (disk_db w1) in
              match openAiClient with
              | Throw e => (Throw e, w1)
              | Return _ =>
                  match generateTheme (p_name project) (p_source_text project)
                          outline with
                  | Throw e => (Throw e, w1)
                  | Return th =>
                      match commitTheme (Jobs.projectId job) (stringifyTheme th)
                              newId now (disk_db w1) with
                      | (Throw e, d') => (Throw e, with_db w1 d')
                      | (Return _, d') =>
                          let w2 := with_db w1 d' in
                          match Jobs.updateJob (Jobs.id job)
                                  (stylePatch Jobs.completed (Some now))
                                  (jobs w2) with
                          | (Throw e, js') => (Throw e, with_jobs w2 js')
                          | (Return _, js') => (Return tt, with_jobs w2 js')
                          end
                      end
                  end
              end
          end
      end
  end.

End RunGenerateStyle.

End StyleStage.

(** * jobs/jobStore.ts with its [Map], and the generate routes of server.ts *)
Module JobStore.

(** The module-level [jobs]: a JavaScript [Map] keeps its entries in the
    order in which their keys were first set. *)
Definition jobs_map : Type := list (string * Jobs.job).

(** [jobs.get(k)] *)
Definition mapGet (k : string) (m : jobs_map) : option Jobs.job :=
  snd <$> List.find (fun kv => String.eqb kv.1 k) m.

(** [jobs.set(k, v)]: the value of an existing key is replaced in place, a
    new key goes to the end. *)
Fixpoint mapSet (k : string) (v : Jobs.job) (m : jobs_map) : jobs_map :=
  match m with
  | [] => [(k, v)]
  | (k', v') :: m' =>
      if String.eqb k' k then (k', v) :: m' else (k', v') :: mapSet k v m'
  end.

(** The fields that the [Partial<Job>] of a caller of [updateJob] sets. *)
Record patch : Type := {
  p_status : option Jobs.job_status;
  p_finishedAt : option string;
  p_progress : option Jobs.progress;
  p_error : option string
}.

(** [{ ...job, ...patch }] *)
Definition patched (j : Jobs.job) (p : patch) : Jobs.job :=
  {| Jobs.id := Jobs.id j;
     Jobs.projectId := Jobs.projectId j;
     Jobs.status := default (Jobs.status j) (p_status p);
     Jobs.startedAt := Jobs.startedAt j;
     Jobs.finishedAt := match p_finishedAt p with
                        | Some t => Some t
                        | None => Jobs.finishedAt j
                        end;
     Jobs.progress_ := match p_progress p with
                       | Some g => Some g
                       | None => Jobs.progress_ j
                       end;
     Jobs.error_ := match p_error p with
                    | Some e => Some e
                    | None => Jobs.error_ j
                    end |}.

(** [createGenerateJob(projectId)]; [newId] is [randomUUID()]. *)
Definition createGenerateJob (newId now projectId : string) (m : jobs_map)
  : Jobs.job * jobs_map :=
  let job := {| Jobs.id := newId; Jobs.projectId := projectId;
                Jobs.status := Jobs.queued; Jobs.startedAt := now;
                Jobs.finishedAt := None; Jobs.progress_ := None;
                Jobs.error_ := None |} in
  (job, mapSet newId job m).

(** [getJob(jobId)] *)
Definition getJob (jobId : string) (m : jobs_map) : option Jobs.job :=
  mapGet jobId m.

(** [job.status === "queued" || job.status === "running"] *)
Definition isActive (st : Jobs.job_status) : bool :=
  match st with
  | Jobs.queued | Jobs.running => true
  | _ => false
  end.

Definition activeFor (projectId : string) (kv : string * Jobs.job) : bool :=
  String.eqb (Jobs.projectId kv.2) projectId && isActive (Jobs.status kv.2).

(** [findRunningGenerateJob(projectId)]: every job has type "generate". *)
Definition findRunningGenerateJob (projectId : string) (m : jobs_map)
  : option Jobs.job :=
  snd <$> List.find (activeFor projectId) m.

(** [updateJob(jobId, patch)] *)
Definition updateJob (jobId : string) (p : patch) (m : jobs_map)
  : completion Jobs.job * jobs_map :=
  match mapGet jobId m with
  | None => (Throw (ErrorObj "任务不存在"), m)
  | Some j => (Return (patched j p), mapSet jobId (patched j p) m)
  end.

(** ** The routes [POST /api/projects/:projectId/generate...] *)

Record started : Type := {
  r_jobId : string;
  r_status : Jobs.job_status
}.

Definition queuedPatch : patch :=
  {| p_status := Some Jobs.queued; p_finishedAt := None; p_progress := None;
     p_error := None |}.

(** The first statement of each of the five runners:
    [updateJob(job.id, { status: "running", progress: { step, ... } })]. *)
Definition runningPatch (step0 : Jobs.step_name) : patch :=
  {| p_status := Some Jobs.running; p_finishedAt := None;
     p_progress := Some {| Jobs.step := step0; Jobs.totalSlides := 0;
                           Jobs.completedSlides := 0; Jobs.failedSlides := 0 |};
     p_error := None |}.

(** The [.catch] of the routes:
    [updateJob(job.id, { status: "failed", finishedAt, error })]. *)
Definition failedPatch (now : string) (err : thrown) : patch :=
  {| p_status := Some Jobs.failed; p_finishedAt := Some now; p_progress := None;
     p_error := Some (toErrorMessage err) |}.

(** One of the generate routes up to its reply: [rootLookup] is what
    [await resolveProjectRootPath(projectId)] comes to, [step0] the step its
    runner starts with.  The runner is called without [await] and runs to
    its own first [await], that is through its first [updateJob]. *)
Definition postGenerate (step0 : Jobs.step_name) (rootLookup : completion string)
  (newId now projectId : string) (m : jobs_map)
  : completion started * jobs_map :=
  match rootLookup with
  | Throw e => (Throw e, m)
  | Return _ =>
      match findRunningGenerateJob projectId m with
      | Some running =>
          (Return {| r_jobId := Jobs.id running;
                     r_status := Jobs.status running |}, m)
      | None =>
          let '(job, m1) := createGenerateJob newId now projectId m in
          match updateJob (Jobs.id job) queuedPatch m1 with
          | (Throw e, m2) => (Throw e, m2)
          | (Return _, m2) =>
              (Return {| r_jobId := Jobs.id job; r_status := Jobs.queued |},
               (updateJob (Jobs.id job) (runningPatch step0) m2).2)
          end
      end
  end.

(** What happens to the store while the server runs: a route is called with
    a new job id, or some runner (or the [.catch] of a route) updates a job
    after its first statement: the progress, or the final status. *)
Inductive step : jobs_map -> jobs_map -> Prop :=
| step_post step0 rootLookup newId now projectId m :
    newId ∉ m.*1 ->
    step m (postGenerate step0 rootLookup newId now projectId m).2
| step_update jobId p m :
    p_status p <> Some Jobs.queued ->
    p_status p <> Some Jobs.running ->
    step m (updateJob jobId p m).2.

(** The stores that the server can be in, from the empty [Map] on. *)
Definition reachable (m : jobs_map) : Prop := rtc step [] m.

(** The jobs of a project that are queued or running. *)
Definition activeJobs (projectId : string) (m : jobs_map) : list Jobs.job :=
  snd <$> List.filter (activeFor projectId) m.

(** What the store keeps true. *)
Record orderly (m : jobs_map) : Prop := {
  keys_unique : NoDup m.*1;
  keys_are_ids : forall k j, (k, j) ∈ m -> Jobs.id j = k;
  one_active : forall pid, (length (activeJobs pid m) <= 1)%nat
}.

(** The registry that [Jobs.updateJob] works on. *)
Definition registryOf (m : jobs_map) : Jobs.registry := list_to_map m.

End JobStore.

(** * The Content stage of jobs/generateJob.ts *)
Module ContentStage.
Import Store Pipeline.

(** [outline.sections[sectionIndex]?.title], [None] when it is falsy. *)
Definition sectionTitleAt (sections : list outline_section) (sectionIndex : Z)
  : option string :=
  if sectionIndex <? 0 then None
  else match sections !! Z.to_nat sectionIndex with
       | Some sec =>
           if String.eqb (sec_title sec) "" then None else Some (sec_title sec)
       | None => None
       end.

Definition outlineMismatch : thrown :=
  ErrorObj "大纲结构与页面索引不一致，请先保存/重新生成大纲".

(** Where a task of the stage stands. *)
Inductive task : Type :=
| Waiting
| Settled
| Failed (e : thrown).

Section Stage.
Context {theme slide_content : Type}.
(** [safeParseJson(raw, OutlineSchema)] and [safeParseJson(raw, ThemeSchema)]
    on a non-empty string *)
Variable parseOutline : string -> option (list outline_section).
Variable parseTheme : string -> option theme.
(** [JSON.stringify(content)] *)
Variable stringifyContent : slide_content -> string.
Variable job : Jobs.job.
(** what [await resolveProjectRootPath(job.projectId)] and
    [await createOpenAiClient()] come to *)
Variable rootLookup : completion string.
Variable openAiClient : completion unit.
(** what [await generateSlideContent(client, model, input)] comes to in the
    task at each position of the deck *)
Variable contentCalls : nat -> completion slide_content.
Variable now : string.

(** [requireLatestOutline] *)
Definition requireLatestOutline (d : db) : completion (list outline_section) :=
  match Views.getLatestOutline parseOutline (Jobs.projectId job) d with
  | Some o => Return o
  | None => Throw (ErrorObj "大纲尚未生成")
  end.

Definition contentProgress (total : nat) (stg : stage) : Jobs.job_patch :=
  Jobs.progressPatch
    {| Jobs.step := Jobs.content;
       Jobs.totalSlides := Z.of_nat total;
       Jobs.completedSlides := completedSlides stg;
       Jobs.failedSlides := failedSlides stg |}.

(** The [catch] block of a task (lines 227-232). *)
Definition task_catch (total : nat) (s : slide_row) (err : thrown)
  (stg : stage) : task * stage :=
  let failed' := failedSlides stg + 1 in
  let w1 := with_db (now_world stg)
              (setSlideStatus (s_id s) error (Some (toErrorMessage err)) None now
                 (disk_db (now_world stg))).2 in
  let stg1 := {| now_world := w1; completedSlides := completedSlides stg;
                 failedSlides := failed' |} in
  match Jobs.updateJob (Jobs.id job) (contentProgress total stg1) (jobs w1) with
  | (Throw e, js) =>
      (Failed e, {| now_world := with_jobs w1 js;
                    completedSlides := completedSlides stg;
                    failedSlides := failed' |})
  | (Return _, js) =>
      (Settled, {| now_world := with_jobs w1 js;
                   completedSlides := completedSlides stg;
                   failedSlides := failed' |})
  end.

(** A task from its start to its [await] (lines 207-213). *)
Definition task_begin (sections : list outline_section) (total : nat)
  (s : slide_row) (stg : stage) : task * stage :=
  match sectionTitleAt sections (section_index s) with
  | None => task_catch total s outlineMismatch stg
  | Some _ =>
      (Waiting,
       {| now_world :=
            with_db (now_world stg)
              (setSlideStatus (s_id s) generating_text None None now
                 (disk_db (now_world stg))).2;
          completedSlides := completedSlides stg;
          failedSlides := failedSlides stg |})
  end.

(** A task from the return of the content agent to its end (lines 213-232). *)
Definition task_resume (total : nat) (idx : nat) (s : slide_row) (stg : stage)
  : task * stage :=
  match contentCalls idx with
  | Throw err => task_catch total s err stg
  | Return content =>
      let w1 := with_db (now_world stg)
                  (setSlideStatus (s_id s) text_ready None
                     (Some (stringifyContent content)) now
                     (disk_db (now_world stg))).2 in
      let stg1 := {| now_world := w1;
                     completedSlides := completedSlides stg + 1;
                     failedSlides := failedSlides stg |} in
      match Jobs.updateJob (Jobs.id job) (contentProgress total stg1) (jobs w1) with
      | (Throw err, js) =>
          task_catch total s err
            {| now_world := with_jobs w1 js;
               completedSlides := completedSlides stg + 1;
               failedSlides := failedSlides stg |}
      | (Return _, js) =>
          (Settled, {| now_world := with_jobs w1 js;
                       completedSlides := completedSlides stg + 1;
                       failedSlides := failedSlides stg |})
      end
  end.

(** [slides.map(async (s) => ...)]: every task runs to its [await], in deck
    order. *)
Fixpoint beginAll (sections : list outline_section) (total : nat)
  (deck : list slide_row) (stg : stage) : list task * stage :=
  match deck with
  | [] => ([], stg)
  | s :: deck' =>
      let '(t, stg1) := task_begin sections total s stg in
      let '(ts, stg2) := beginAll sections total deck' stg1 in
      (t :: ts, stg2)
  end.

(** The content agent answers in the order [order] (positions in the deck);
    [None] when [order] names a task that is not waiting. *)
Fixpoint resumeAll (total : nat) (deck : list slide_row) (order : list nat)
  (tasks : list task) (stg : stage) : option (list task * stage) :=
  match order with
  | [] => Some (tasks, stg)
  | idx :: order' =>
      match deck !! idx, tasks !! idx with
      | Some s, Some Waiting =>
          let '(t, stg1) := task_resume total idx s stg in
          resumeAll total deck order' (<[idx := t]> tasks) stg1
      | _, _ => None
      end
  end.

Definition isWaiting (t : task) : bool :=
  match t with Waiting => true | _ => false end.

Fixpoint firstFailure (tasks : list task) : option thrown :=
  match tasks with
  | [] => None
  | Failed e :: _ => Some e
  | _ :: tasks' => firstFailure tasks'
  end.

Definition startPatch : Jobs.job_patch :=
  {| Jobs.set_status := Some Jobs.running;
     Jobs.set_finishedAt := None;
     Jobs.set_progress :=
       Some {| Jobs.step := Jobs.content; Jobs.totalSlides := 0;
               Jobs.completedSlides := 0; Jobs.failedSlides := 0 |} |}.

Definition donePatch (total : nat) (stg : stage) : Jobs.job_patch :=
  {| Jobs.set_status := Some Jobs.completed;
     Jobs.set_finishedAt := Some now;
     Jobs.set_progress :=
       Some {| Jobs.step := Jobs.content; Jobs.totalSlides := Z.of_nat total;
               Jobs.completedSlides := completedSlides stg;
               Jobs.failedSlides := failedSlides stg |} |}.

(** [await Promise.all(tasks)] and what follows it (lines 235-237). *)
Definition awaitAll (total : nat) (tasks : list task) (stg : stage)
  : option (completion unit * world) :=
  match firstFailure tasks with
  | Some e => Some (Throw e, now_world stg)
  | None =>
      if existsb isWaiting tasks then None
      else
        let w := now_world stg in
        match Jobs.updateJob (Jobs.id job) (donePatch total stg) (jobs w) with
        | (Throw e, js) => Some (Throw e, with_jobs w js)
        | (Return _, js) => Some (Return tt, with_jobs w js)
        end
  end.

(** [runGenerateContentStep(job)], with the answers of the content agent
    coming in the order [order].  [None]: the promise of the stage is still
    pending when [order] is used up. *)
Definition runGenerateContentStep (order : list nat) (w : world)
  : option (completion unit * world) :=
  match Jobs.updateJob (Jobs.id job) startPatch (jobs w) with
  | (Throw e, js) => Some (Throw e, with_jobs w js)
  | (Return _, js) =>
      let w1 := with_jobs w js in
      match rootLookup with
      | Throw e => Some (Throw e, w1)
      | Return _ =>
          match Views.getProjectRow (Jobs.projectId job) (disk_db w1) with
          | (Throw e, _) => Some (Throw e, w1)
          | (Return _, _) =>
              match requireLatestOutline (disk_db w1) with
              | Throw e => Some (Throw e, w1)
              | Return sections =>
                  match requireLatestTheme parseTheme job (disk_db w1) with
                  | Throw e => Some (Throw e, w1)
                  | Return _ =>
                      let deck := slidesOfProject (Jobs.projectId job) (disk_db w1) in
                      let total := length deck in
                      if bool_decide (total = 0%nat) then
                        Some (Throw (ErrorObj "没有页面可生成，请先生成大纲"), w1)
                      else
                        let stg0 := {| now_world := w1; completedSlides := 0;
                                       failedSlides := 0 |} in
                        match Jobs.updateJob (Jobs.id job)
                                (contentProgress total stg0) (jobs w1) with
                        | (Throw e, js1) => Some (Throw e, with_jobs w1 js1)
                        | (Return _, js1) =>
                            let w2 := with_jobs w1 js1 in
                            match openAiClient with
                            | Throw e => Some (Throw e, w2)
                            | Return _ =>
                                let '(tasks, stg1) :=
                                  beginAll sections total deck
                                    {| now_world := w2; completedSlides := 0;
                                       failedSlides := 0 |} in
                                match resumeAll total deck order tasks stg1 with
                                | None => None
                                | Some (tasks', stg2) => awaitAll total tasks' stg2
                                end
                            end
                        end
                  end
              end
          end
      end
  end.

(** Why the task of slide [s] at position [idx] fails, if it does. *)
Definition taskFailure (sections : list outline_section) (s : slide_row)
  (idx : nat) : option thrown :=
  match sectionTitleAt sections (section_index s) with
  | None => Some outlineMismatch
  | Some _ =>
      match contentCalls idx with
      | Throw e => Some e
      | Return _ => None
      end
  end.

Definition hasSection (sections : list outline_section) (deck : list slide_row)
  (idx : nat) : bool :=
  match deck !! idx with
  | Some s => match sectionTitleAt sections (section_index s) with
              | Some _ => true
              | None => false
              end
  | None => false
  end.

Definition failsAt (sections : list outline_section) (deck : list slide_row)
  (idx : nat) : bool :=
  match deck !! idx with
  | Some s => match taskFailure sections s idx with
              | Some _ => true
              | None => false
              end
  | None => false
  end.

(** The positions of the tasks that wait for the content agent. *)
Definition awaited (sections : list outline_section) (deck : list slide_row)
  : list nat :=
  List.filter (hasSection sections deck) (seq 0 (length deck)).

(** The status, message and content of a slide. *)
Definition slideText (slideId : string) (d : db)
  : option (slide_status * option string * option string) :=
  (fun r => (status r, error_message r, content_json r))
    <$> selectSlide slideId (Jobs.projectId job) d.

(** How the slide [s] at position [idx] is expected to end. *)
Definition expectedText (sections : list outline_section) (s : slide_row)
  (idx : nat) : slide_status * option string * option string :=
  match sectionTitleAt sections (section_index s) with
  | None => (error, Some (toErrorMessage outlineMismatch), content_json s)
  | Some _ =>
      match contentCalls idx with
      | Throw e => (error, Some (toErrorMessage e), content_json s)
      | Return c => (text_ready, None, Some (stringifyContent c))
      end
  end.

(** The stage at a moment when exactly the tasks at the positions [done]
    have ended. *)
Record tasksDone (sections : list outline_section) (deck : list slide_row)
       (done : list nat) (stg : stage) : Prop := {
  done_job : is_Some (jobs (now_world stg) !! Jobs.id job);
  done_range : forall i, i ∈ done -> (i < length deck)%nat;
  done_kept :
    forall i s, i ∉ done -> deck !! i = Some s ->
                content_json <$> selectSlide (s_id s) (Jobs.projectId job)
                                   (disk_db (now_world stg))
                = Some (content_json s);
  done_exist :
    forall i s, deck !! i = Some s ->
                is_Some (selectSlide (s_id s) (Jobs.projectId job)
                           (disk_db (now_world stg)));
  done_completed :
    completedSlides stg
    = Z.of_nat (length (List.filter (fun i => negb (failsAt sections deck i)) done));
  done_failed :
    failedSlides stg
    = Z.of_nat (length (List.filter (failsAt sections deck) done));
  done_states :
    forall i s, i ∈ done -> deck !! i = Some s ->
                slideText (s_id s) (disk_db (now_world stg))
                = Some (expectedText sections s i)
}.

End Stage.

(** The image versions and the ids of the slides are the same at two
    moments of a stage. *)
Definition sameTables (stg stg' : stage) : Prop :=
  slide_image_versions (disk_db (now_world stg'))
  = slide_image_versions (disk_db (now_world stg))
  /\ s_id <$> slides (disk_db (now_world stg'))
     = s_id <$> slides (disk_db (now_world stg)).

End ContentStage.

(** * image/imageResponse.ts *)
Module ImageResponse.

(** [s.indexOf(",")] followed by [s.slice(comma + 1)]: the part of [s] after
    its first comma, [None] when [indexOf] gives [-1]. *)
Fixpoint afterFirstComma (s : string) : option string :=
  match s with
  | EmptyString => None
  | String c s' => if Ascii.eqb c "," then Some s' else afterFirstComma s'
  end.

Fixpoint hasComma (s : string) : bool :=
  match s with
  | EmptyString => false
  | String c s' => Ascii.eqb c "," || hasComma s'
  end.

Section Text.
(** JavaScript's [s.toLowerCase()] and [s.trim()]. *)
Variable toLowerCase : string -> string.
Variable trim : string -> string.

(** [decodeMaybeDataUrl(input)] *)
Definition decodeMaybeDataUrl (input : string) : string :=
  let trimmed := trim input in
  if negb (Paths.startsWith trimmed "data:") then trimmed
  else match afterFirstComma trimmed with
       | None => trimmed
       | Some rest => trim rest
       end.

(** [mimeToExt(mimeType)]; [None] is [null]. *)
Definition mimeToExt (mimeType : option string) : string :=
  let m := trim (toLowerCase (default "" mimeType)) in
  if String.eqb m "image/jpeg" || String.eqb m "image/jpg" then "jpg"
  else if String.eqb m "image/png" then "png"
  else if String.eqb m "image/webp" then "webp"
  else if String.eqb m "image/gif" then "gif"
  else if String.eqb m "image/bmp" then "bmp"
  else if String.eqb m "image/tiff" then "tiff"
  else "png".

(** [contentTypeFromExt(ext)] *)
Definition contentTypeFromExt (ext : string) : string :=
  let e := toLowerCase ext in
  if String.eqb e "jpg" || String.eqb e "jpeg" then "image/jpeg"
  else if String.eqb e "png" then "image/png"
  else if String.eqb e "webp" then "image/webp"
  else if String.eqb e "gif" then "image/gif"
  else if String.eqb e "bmp" then "image/bmp"
  else if String.eqb e "tiff" then "image/tiff"
  else if String.eqb e "pdf" then "application/pdf"
  else if String.eqb e "pptx" then
    "application/vnd.openxmlformats-officedocument.presentationml.presentation"
  else "application/octet-stream".

End Text.

(** The extensions that [mimeToExt] can give. *)
Definition imageExts : list string := ["jpg"; "png"; "webp"; "gif"; "bmp"; "tiff"].

(** The MIME type that goes with each of them. *)
Definition mimeOfExt (ext : string) : string :=
  if String.eqb ext "jpg" then "image/jpeg" else "image/" +:+ ext.

End ImageResponse.

(** * projectFilesServe.ts and the file route of server.ts *)
Module FileRoute.

Definition pathInvalid : thrown := ErrorObj "路径无效".

Section Serve.
Variable toLowerCase : string -> string.

(** [resolveSafeProjectFile(projectRootPath, relPath)], with
    [path.sep = "/"] and the working directory [cwd]; the result is
    [(absPath, contentType)]. *)
Definition resolveSafeProjectFile (cwd projectRootPath relPath : string)
  : completion (string * string) :=
  let cleaned := Paths.backslashesToSlashes (Paths.dropLeadingSlashes relPath) in
  let abs := Paths.resolve cwd [projectRootPath; cleaned] in
  let root := Paths.resolve cwd [projectRootPath] in
  if negb (Paths.startsWith abs (root +:+ "/")) && negb (String.eqb abs root) then
    Throw pathInvalid
  else
    let ext := PathNames.dropFirstDot (PathNames.extname abs) in
    Return (abs, ImageResponse.contentTypeFromExt toLowerCase ext).

(** What the route [GET /api/projects/:projectId/files/*] answers. *)
Inductive reply : Type :=
| Forbidden                                  (** 403 "禁止访问" *)
| NotFound (e : thrown)                      (** 404 with the error *)
| File (absPath contentType : string).       (** the stream of that file *)

(** The route; [relPath] is the part of the URL that [*] stands for and
    [rootLookup] what [await resolveProjectRootPath(projectId)] comes to. *)
Definition getProjectFile (cwd : string) (rootLookup : completion string)
  (relPath : string) : reply :=
  if negb (Paths.startsWith relPath "images/")
     && negb (Paths.startsWith relPath "exports/") then Forbidden
  else match rootLookup with
       | Throw e => NotFound e
       | Return projectRootPath =>
           match resolveSafeProjectFile cwd projectRootPath relPath with
           | Throw e => NotFound e
           | Return (absPath, contentType) => File absPath contentType
           end
       end.

End Serve.

End FileRoute.

(** ASCII stand-ins for the two string functions, enough for the strings of
    the samples. *)
Module AsciiText.

Definition lowerChar (c : ascii) : ascii :=
  let n := nat_of_ascii c in
  if (65 <=? n)%nat && (n <=? 90)%nat then ascii_of_nat (n + 32) else c.

Fixpoint toLowerCase (s : string) : string :=
  match s with
  | EmptyString => EmptyString
  | String c s' => String (lowerChar c) (toLowerCase s')
  end.

Definition isSpace (c : ascii) : bool :=
  let n := nat_of_ascii c in
  (n =? 32)%nat || ((9 <=? n)%nat && (n <=? 13)%nat).

Fixpoint trimStart (s : string) : string :=
  match s with
  | String c s' => if isSpace c then trimStart s' else s
  | EmptyString => EmptyString
  end.

Definition trim (s : string) : string :=
  String.rev (trimStart (String.rev (trimStart s))).

End AsciiText.

(** * server.ts: the routes that change the outline together with the slides *)
Module OutlineEdit.
Import Store Pipeline.

(** ** [OutlineSchema] of ai/schemas.ts: what [OutlineSchema.parse] accepts *)

Definition slideValid (s : outline_slide) : bool :=
  negb (String.eqb (os_title s) "") && negb (String.eqb (os_summary s) "").

Definition sectionValid (sec : outline_section) : bool :=
  negb (String.eqb (sec_title sec) "")
  && (1 <=? length (sec_slides sec))%nat
  && forallb slideValid (sec_slides sec).

Definition outlineValid (sections : list outline_section) : bool :=
  (1 <=? length sections)%nat && forallb sectionValid sections.

(** [arr[i]] for a number [i] read from an INTEGER column. *)
Definition itemAt {A : Type} (l : list A) (i : Z) : option A :=
  if i <? 0 then None else l !! Z.to_nat i.

(** ** The statements of the transaction *)

(** [DELETE FROM slides WHERE id = ? AND project_id = ?]: refused while a row
    of [slide_image_versions] references the slide. *)
Definition deleteSlideRow (slideId projectId : string) : sql unit := fun d =>
  if existsb (fun s => String.eqb (s_id s) slideId
                       && String.eqb (s_project_id s) projectId
                       && existsb (fun r => String.eqb (slide_id r) (s_id s))
                                  (slide_image_versions d))
             (slides d)
  then (Throw foreignKeyFailed, d)
  else (Return tt,
        with_slides d
          (List.filter (fun s => negb (String.eqb (s_id s) slideId
                                       && String.eqb (s_project_id s) projectId))
                       (slides d))).

Definition moved (r : slide_row) (sectionIndex slideIndex : Z) : slide_row :=
  {| s_id := s_id r; s_project_id := s_project_id r;
     section_index := sectionIndex; slide_index := slideIndex;
     title := title r; summary := summary r; content_json := content_json r;
     status := status r; error_message := error_message r;
     updated_at := updated_at r |}.

(** What [UPDATE slides SET section_index = section_index - 1 WHERE
    project_id = ? AND section_index > ?] makes of a row. *)
Definition sectionShiftedRow (projectId : string) (sectionIndex : Z)
  (r : slide_row) : slide_row :=
  if String.eqb (s_project_id r) projectId && (sectionIndex <? section_index r)
  then moved r (section_index r - 1) (slide_index r)
  else r.

Definition shiftSections (projectId : string) (sectionIndex : Z) (d : db) : db :=
  with_slides d (sectionShiftedRow projectId sectionIndex <$> slides d).

(** What [UPDATE slides SET slide_index = slide_index - 1 WHERE project_id = ?
    AND section_index = ? AND slide_index > ?] makes of a row. *)
Definition slideShiftedRow (projectId : string) (sectionIndex slideIndex : Z)
  (r : slide_row) : slide_row :=
  if String.eqb (s_project_id r) projectId
     && (section_index r =? sectionIndex)
     && (slideIndex <? slide_index r)
  then moved r (section_index r) (slide_index r - 1)
  else r.

Definition shiftSlides (projectId : string) (sectionIndex slideIndex : Z) (d : db)
  : db :=
  with_slides d (slideShiftedRow projectId sectionIndex slideIndex <$> slides d).

(** The [UPDATE] that the transaction runs. *)
Definition shiftedRow (projectId : string) (removedSection : bool)
  (sectionIndex slideIndex : Z) : slide_row -> slide_row :=
  if removedSection then sectionShiftedRow projectId sectionIndex
  else slideShiftedRow projectId sectionIndex slideIndex.

(** [db.transaction(fn)()]: what [fn] changed is rolled back when it
    throws. *)
Definition transaction {A : Type} (body : sql A) : sql A := fun d =>
  match body d with
  | (Return a, d') => (Return a, d')
  | (Throw e, _) => (Throw e, d)
  end.

(** ** The callback of [DELETE /api/projects/:projectId/slides/:slideId] *)

Definition noSlide : thrown := ErrorObj "页面不存在。".
Definition lastSlide : thrown := ErrorObj "至少需要保留 1 页，无法删除最后一页。".
Definition noOutline : thrown := ErrorObj "大纲尚未生成".
Definition indexMismatch : thrown := ErrorObj "大纲与页面索引不一致，请刷新后重试。".
Definition lastSection : thrown :=
  ErrorObj "至少需要保留 1 个章节与 1 页，无法删除最后一页。".

(** [nextOutline] after the two [splice]s, and [removedSection]. *)
Definition spliced (sections : list outline_section) (section : outline_section)
  (sectionIndex slideIndex : Z) : list outline_section * bool :=
  let remaining := delete (Z.to_nat slideIndex) (sec_slides section) in
  if (length remaining =? 0)%nat
  then (delete (Z.to_nat sectionIndex) sections, true)
  else (<[Z.to_nat sectionIndex :=
            {| sec_title := sec_title section; sec_slides := remaining |}]>
          sections,
        false).

(** [nextOutline] for the slide at a position, the outline itself when it
    has no such section. *)
Definition nextOutline (sections : list outline_section)
  (sectionIndex slideIndex : Z) : list outline_section :=
  match itemAt sections sectionIndex with
  | Some section => (spliced sections section sectionIndex slideIndex).1
  | None => sections
  end.

Section DeleteSlide.
(** [safeParseJson(raw, OutlineSchema)] on a non-empty string *)
Variable parseOutline : string -> option (list outline_section).
(** [JSON.stringify(nextOutline)] *)
Variable stringifyOutline : list outline_section -> string.
(** what [OutlineSchema.parse] throws for a value that it rejects *)
Variable zodError : list outline_section -> thrown.
Variable projectId slideId : string.
(** [randomUUID()] and [nowIso()] *)
Variable newId now : string.

(** The body of [tx]. *)
Definition deleteTransaction (next : list outline_section) (removedSection : bool)
  (sectionIndex slideIndex : Z) : sql unit :=
  _ ← deleteImageVersionsOf slideId;
  _ ← deleteSlideRow slideId projectId;
  _ ← sql_exec (if removedSection
                then shiftSections projectId sectionIndex
                else shiftSlides projectId sectionIndex slideIndex);
  outlineVersion ← sql_get (nextOutlineVersion projectId);
  insertOutlineVersion
    {| jv_id := newId; jv_project_id := projectId; jv_version := outlineVersion;
       jv_json := stringifyOutline next; jv_created_at := now |}.

Definition deleteSlide : sql unit := fun d =>
  match selectSlide slideId projectId d with
  | None => (Throw noSlide, d)
  | Some slide =>
      let slideCount :=
        Z.of_nat (length (List.filter
                            (fun r => String.eqb (s_project_id r) projectId)
                            (slides d))) in
      if slideCount <=? 1 then (Throw lastSlide, d)
      else
        match Views.getLatestOutline parseOutline projectId d with
        | None => (Throw noOutline, d)
        | Some outline =>
            if negb (outlineValid outline) then (Throw (zodError outline), d)
            else
              let sectionIndex := section_index slide in
              let slideIndex := slide_index slide in
              match itemAt outline sectionIndex with
              | None => (Throw indexMismatch, d)
              | Some section =>
                  match itemAt (sec_slides section) slideIndex with
                  | None => (Throw indexMismatch, d)
                  | Some _ =>
                      let '(next, removedSection) :=
                        spliced outline section sectionIndex slideIndex in
                      if (length next =? 0)%nat then (Throw lastSection, d)
                      else if negb (outlineValid next)
                      then (Throw (zodError next), d)
                      else transaction
                             (deleteTransaction next removedSection
                                sectionIndex slideIndex) d
                  end
              end
        end
  end.

End DeleteSlide.

(** ** The outline and the deck *)

Definition positionOf (r : slide_row) : Z * Z := (section_index r, slide_index r).

(** The positions of the slides of an outline whose first section has the
    index [sectionIndex]: section by section, slide by slide. *)
Fixpoint positionsFrom (sectionIndex : Z) (sections : list outline_section)
  : list (Z * Z) :=
  match sections with
  | [] => []
  | section :: sections' =>
      (pair sectionIndex <$> seqZ 0 (Z.of_nat (length (sec_slides section))))
        ++ positionsFrom (sectionIndex + 1) sections'
  end.

(** [ORDER BY section_index ASC, slide_index ASC] on positions. *)
Definition positionOrder (a b : Z * Z) : Prop :=
  a.1 < b.1 \/ (a.1 = b.1 /\ a.2 <= b.2).

(** What the two [UPDATE]s of the transaction make of a position. *)
Definition sectionShifted (sectionIndex : Z) (p : Z * Z) : Z * Z :=
  if sectionIndex <? p.1 then (p.1 - 1, p.2) else p.

Definition slideShifted (sectionIndex slideIndex : Z) (p : Z * Z) : Z * Z :=
  if (p.1 =? sectionIndex) && (slideIndex <? p.2) then (p.1, p.2 - 1) else p.

(** The deck of the project, in its order, has one slide at each position of
    the outline and no other. *)
Definition aligned (projectId : string) (sections : list outline_section)
  (d : db) : Prop :=
  positionOf <$> slidesOfProject projectId d = positionsFrom 0 sections.

(** The columns of a slide row that hold its text and its state. *)
Definition textOf (r : slide_row)
  : string * string * option string * slide_status * option string * string :=
  (title r, summary r, content_json r, status r, error_message r, updated_at r).

End OutlineEdit.

(** * The names of the image files *)
Module ImageFiles.

(** [path.posix.join("images", slideDirName(deckIndex), fileName)]: the
    [imagePath] that [generateImageToProject] returns and that the services
    store in [slide_image_versions.image_path]. *)
Definition imageRelPath (deckIndex version : Z) (ext : string) : string :=
  PathNames.join ["images"; PathNames.slideDirName deckIndex;
                  PathNames.versionFileName version ext].

(** [absOutPath], the file that [generateImageToProject] writes: [imagesDir =
    path.join(projectRootPath, "images")], [slideDir = path.join(imagesDir,
    slideDirName(deckIndex))], [path.join(slideDir, fileName)]. *)
Definition imageAbsPath (projectRootPath : string) (deckIndex version : Z)
  (ext : string) : string :=
  let imagesDir := PathNames.join [projectRootPath; "images"] in
  let slideDir := PathNames.join [imagesDir; PathNames.slideDirName deckIndex] in
  PathNames.join [slideDir; PathNames.versionFileName version ext].

Fixpoint allChars (p : ascii -> bool) (s : string) : bool :=
  match s with
  | EmptyString => true
  | String c s' => p c && allChars p s'
  end.

(** The characters of [String(n)] for an integer [n]. *)
Definition numeralChar (c : ascii) : bool :=
  existsb (Ascii.eqb c) ["0"; "1"; "2"; "3"; "4"; "5"; "6"; "7"; "8"; "9"; "-"]%char.

Definition numeral (s : string) : bool := allChars numeralChar s.

(** [s] without its leading zeros. *)
Fixpoint dropZeros (s : string) : string :=
  match s with
  | String c s' => if Ascii.eqb c "0" then dropZeros s' else s
  | EmptyString => EmptyString
  end.

(** The last character of [String c s]. *)
Fixpoint lastChar (s : string) (c : ascii) : ascii :=
  match s with
  | EmptyString => c
  | String c' s' => lastChar s' c'
  end.

End ImageFiles.

(** * ai/openaiClient.ts: [callChatJson] *)
Module ChatClient.

Definition emptyContent : thrown := ErrorObj "OpenAI 返回了空响应内容。".

Section CallChatJson.
Context {T json : Type}.
(** [completion.choices?.[0]?.message?.content] of the request made for an
    attempt; [None] when it is [undefined] or [null]. *)
Variable create : Z -> completion (option string).
(** [JSON.parse] *)
Variable jsonParse : string -> completion json.
(** [params.schema.safeParse(data)]: the data, or [parsed.error.message] *)
Variable safeParse : json -> T + string.
(** [String(err)] and [content.slice(0, 600)] *)
Variable stringOf : thrown -> string.
Variable slice600 : string -> string.

Definition unparsable (attempt : Z) (err : thrown) (content : string) : thrown :=
  ErrorObj ("OpenAI 返回的 JSON 无法解析（第 " +:+ pretty attempt +:+ " 次）："
            +:+ stringOf err +:+ String "010" "原始内容：" +:+ slice600 content).

Definition misshapen (attempt : Z) (message : string) : thrown :=
  ErrorObj ("OpenAI 返回的 JSON 结构不符合预期（第 " +:+ pretty attempt +:+ " 次）："
            +:+ message).

(** The function that [callChatJson] hands to [withRetries]. *)
Definition attemptFn (attempt : Z) : completion T :=
  match create attempt with
  | Throw e => Throw e
  | Return content =>
      match content with
      | None => Throw emptyContent
      | Some c =>
          if String.eqb c "" then Throw emptyContent
          else
            match jsonParse c with
            | Throw err => Throw (unparsable attempt err c)
            | Return data =>
                match safeParse data with
                | inl v => Return v
                | inr message => Throw (misshapen attempt message)
                end
            end
      end
  end.

(** [callChatJson(client, params)]; [lbl] is [params.label]. *)
Definition callChatJson (lbl : string)
  : option (completion T * list Retry.effect) :=
  Retry.withRetries 3 attemptFn
    (Some {| Retry.label := Some lbl; Retry.baseDelayMs := None |}).

(** The response of an attempt is one that [callChatJson] returns [v] for. *)
Definition accepted (attempt : Z) (v : T) : Prop :=
  exists content data,
    create attempt = Return (Some content) /\ content <> ""
    /\ jsonParse content = Return data /\ safeParse data = inl v.

End CallChatJson.

End ChatClient.

(** * exportService.ts: what [exportProject] checks before it writes *)
Module ExportChecks.
Import Store.

Record export_slide : Type := {
  ex_title : string;
  ex_summary : string;
  ex_contentJson : option string;
  ex_imagePath : option string
}.

(** [rows.map((r) => ...)] of [listSlidesForExport] *)
Definition exportSlide (r : slide_row * option image_version_row) : export_slide :=
  {| ex_title := title r.1;
     ex_summary := summary r.1;
     ex_contentJson := Views.nonEmpty (content_json r.1);
     ex_imagePath := Views.nonEmpty (image_path <$> r.2) |}.

(** [listSlidesForExport(projectRootPath, projectId)] *)
Definition listSlidesForExport (projectId : string) (d : db) : list export_slide :=
  exportSlide <$> Views.slidesWithLatest projectId d.

(** [Boolean(s.imagePath)] *)
Definition hasImage (s : export_slide) : bool :=
  match ex_imagePath s with Some _ => true | None => false end.

(** [slides.map((s, idx) => ({ idx, hasImage })).filter((v) => !v.hasImage)
    .map((v) => v.idx + 1)] *)
Definition missingImages (slides : list export_slide) : list Z :=
  (fun v : Z * bool => v.1 + 1)
    <$> List.filter (fun v : Z * bool => negb v.2)
          (imap (fun idx s => (Z.of_nat idx, hasImage s)) slides).

Definition noSlides : thrown := ErrorObj "没有可导出的页面，请先生成内容。".

Definition missingMessage (missing : list Z) : thrown :=
  ErrorObj ("以下页面尚未生成图片：" +:+ String.concat ", " (pretty <$> missing)
            +:+ "。请等待生图完成或重试失败页。").

(** [row?.name ? String(row.name) : "兴河PPT"] *)
Definition projectNameOf (projectId : string) (d : db) : string :=
  match List.find (fun p => String.eqb (p_id p) projectId) (projects d) with
  | Some row => if String.eqb (p_name row) "" then "兴河PPT" else p_name row
  | None => "兴河PPT"
  end.

(** [exportProject] up to the name of the project (lines 155-170): the
    slides to export and the name to file them under, unless it throws. *)
Definition exportChecks (rootLookup : completion string) (projectId : string)
  (d : db) : completion (list export_slide * string) :=
  match rootLookup with
  | Throw e => Throw e
  | Return _ =>
      let slides := listSlidesForExport projectId d in
      if (length slides =? 0)%nat then Throw noSlides
      else
        let missing := missingImages slides in
        if (0 <? length missing)%nat then Throw (missingMessage missing)
        else Return (slides, projectNameOf projectId d)
  end.

(** The slide at position [i] of the deck has no image to export. *)
Definition lacksImage (projectId : string) (d : db) (i : nat) : bool :=
  match slidesOfProject projectId d !! i with
  | Some s =>
      match Views.nonEmpty (image_path <$> latestVersionRow (s_id s) d) with
      | Some _ => false
      | None => true
      end
  | None => false
  end.

End ExportChecks.

(** * The Outline stage of jobs/generateJob.ts *)
Module OutlineStage.
Import Store Pipeline.

Definition outlinePatch (st : Jobs.job_status) (finished : option string)
  (slideCount : Z) : Jobs.job_patch :=
  {| Jobs.set_status := Some st;
     Jobs.set_finishedAt := finished;
     Jobs.set_progress :=
       Some {| Jobs.step := Jobs.outline; Jobs.totalSlides := slideCount;
               Jobs.completedSlides := slideCount; Jobs.failedSlides := 0 |} |}.

Section RunGenerateOutlineStep.
(** [JSON.stringify(outline)] *)
Variable stringifyOutline : list outline_section -> string.
Variable job : Jobs.job.
(** what [await resolveProjectRootPath(job.projectId)] and
    [await createOpenAiClient()] come to *)
Variable rootLookup : completion string.
Variable openAiClient : completion unit.
(** what [await generateOutline(client, model, input)] comes to, by the
    project name and the source text of [input] *)
Variable generateOutline : string -> string -> completion (list outline_section).
Variable newOutlineId : string.
Variable newSlideId : Z -> string.
Variable now : string.

(** [runGenerateOutlineStep(job)] *)
Definition runGenerateOutlineStep (w : world) : completion unit * world :=
  match Jobs.updateJob (Jobs.id job) (outlinePatch Jobs.running None 0) (jobs w) with
  | (Throw e, js) => (Throw e, with_jobs w js)
  | (Return _, js) =>
      let w1 := with_jobs w js in
      match rootLookup with
      | Throw e => (Throw e, w1)
      | Return _ =>
          match Views.getProjectRow (Jobs.projectId job) (disk_db w1) with
          | (Throw e, _) => (Throw e, w1)
          | (Return project, _) =>
              match openAiClient with
              | Throw e => (Throw e, w1)
              | Return _ =>
                  match generateOutline (p_name project) (p_source_text project) with
                  | Throw e => (Throw e, w1)
                  | Return sections =>
                      match commitOutline (Jobs.projectId job) newSlideId now
                              sections (stringifyOutline sections) newOutlineId
                              (disk_db w1) with
                      | (Throw e, d') => (Throw e, with_db w1 d')
                      | (Return slideCount, d') =>
                          let w2 := with_db w1 d' in
                          match Jobs.updateJob (Jobs.id job)
                                  (outlinePatch Jobs.completed (Some now) slideCount)
                                  (jobs w2) with
                          | (Throw e, js') => (Throw e, with_jobs w2 js')
                          | (Return _, js') => (Return tt, with_jobs w2 js')
                          end
                      end
                  end
              end
          end
      end
  end.

End RunGenerateOutlineStep.

End OutlineStage.

(** * configStore.ts and projectLocator.ts: the recent projects *)
Module Recents.

Record recent_project : Type := {
  rp_id : string;
  rp_name : string;
  rp_rootPath : string;
  rp_lastOpenedAt : string
}.

(** An [AppConfig]; [settings] stands for the fields [schemaVersion],
    [openai], [image] and [proxy]. *)
Record app_config {settings : Type} : Type := {
  cfg_settings : settings;
  recentProjects : list recent_project;
  lastOpenedProjectRootPath : option string
}.
Arguments app_config : clear implicits.

Section Config.
Context {settings : Type}.

(** What [upsertRecentProject(project)] saves when [loadConfig()] gives
    [config]. *)
Definition upsertRecentProject (project : recent_project)
  (config : app_config settings) : app_config settings :=
  let next :=
    List.filter (fun p => negb (String.eqb (rp_id p) (rp_id project)))
                (recentProjects config) in
  {| cfg_settings := cfg_settings config;
     recentProjects := take 20 (project :: next);
     lastOpenedProjectRootPath := Some (rp_rootPath project) |}.

(** What [setLastOpenedProjectRootPath(rootPath)] saves. *)
Definition setLastOpenedProjectRootPath (rootPath : option string)
  (config : app_config settings) : app_config settings :=
  {| cfg_settings := cfg_settings config;
     recentProjects := recentProjects config;
     lastOpenedProjectRootPath := rootPath |}.

Definition unknownProject : thrown :=
  ErrorObj "未知项目。请先在欢迎页打开该项目文件夹。".

(** [resolveProjectRootPath(projectId)] when [loadConfig()] gives [config];
    [readProjectJson root] is the [id] in the project file under [root], or
    what reading that file throws. *)
Definition resolveProjectRootPath (readProjectJson : string -> completion string)
  (config : app_config settings) (projectId : string) : completion string :=
  let fromRecent :=
    rp_rootPath <$> List.find (fun p => String.eqb (rp_id p) projectId)
                              (recentProjects config) in
  let fallback :=
    match lastOpenedProjectRootPath config with
    | Some last =>
        if String.eqb last "" then Throw unknownProject
        else match readProjectJson last with
             | Return pjId =>
                 if String.eqb pjId projectId then Return last
                 else Throw unknownProject
             | Throw _ => Throw unknownProject
             end
    | None => Throw unknownProject
    end in
  match fromRecent with
  | Some root => if String.eqb root "" then fallback else Return root
  | None => fallback
  end.

End Config.

End Recents.

(** * configStore.ts and ai/openaiClient.ts: the settings *)
Module Settings.

Record openai_settings : Type := {
  oa_baseURL : string;
  oa_apiKey : string;
  oa_model : string
}.

(** [image] as [AppConfigSchema] parses it; [None] is a field that is not
    there. *)
Record image_input : Type := {
  in_baseURL : string;
  in_apiKey : string;
  in_aspectRatio : string;
  in_imageSize : string;
  in_timeoutMs : option Z;
  in_timeoutSec : option Z;
  in_cacheEnabled : bool
}.

Record image_settings : Type := {
  im_baseURL : string;
  im_apiKey : string;
  im_aspectRatio : string;
  im_imageSize : string;
  im_timeoutSec : Z;
  im_cacheEnabled : bool
}.

Record proxy_settings : Type := {
  px_enabled : bool;
  px_host : string;
  px_port : Z
}.

(** What [AppConfigSchema] gives, without the recent projects. *)
Record config_input : Type := {
  ci_openai : openai_settings;
  ci_image : image_input;
  ci_proxy : proxy_settings
}.

(** An [AppConfig], without the recent projects. *)
Record config : Type := {
  c_openai : openai_settings;
  c_image : image_settings;
  c_proxy : proxy_settings
}.

(** The numbers that the schema lets through: [z.number().int().positive()]
    and [z.number().int().min(0).max(65535)]. *)
Definition schemaValid (ci : config_input) : Prop :=
  (forall ms, in_timeoutMs (ci_image ci) = Some ms -> 0 < ms)
  /\ (forall s, in_timeoutSec (ci_image ci) = Some s -> 0 < s)
  /\ 0 <= px_port (ci_proxy ci) <= 65535.

Section Normalize.
(** [String.prototype.trim] *)
Variable trim : string -> string.

(** [Math.round(ms / 1000)] for an integer [ms] *)
Definition roundedSeconds (ms : Z) : Z := (ms + 500) / 1000.

(** [normalizeToV3(config)] *)
Definition normalizeToV3 (ci : config_input) : config :=
  let timeoutSecRaw :=
    match in_timeoutSec (ci_image ci) with
    | Some s => s
    | None => match in_timeoutMs (ci_image ci) with
              | Some ms => roundedSeconds ms
              | None => 120
              end
    end in
  let timeoutSec := if 0 <? timeoutSecRaw then timeoutSecRaw else 120 in
  let proxyEnabled := px_enabled (ci_proxy ci) in
  let proxyHost := trim (px_host (ci_proxy ci)) in
  let proxyPort := px_port (ci_proxy ci) in
  {| c_openai := ci_openai ci;
     c_image := {| im_baseURL := in_baseURL (ci_image ci);
                   im_apiKey := in_apiKey (ci_image ci);
                   im_aspectRatio := in_aspectRatio (ci_image ci);
                   im_imageSize := in_imageSize (ci_image ci);
                   im_timeoutSec := timeoutSec;
                   im_cacheEnabled := in_cacheEnabled (ci_image ci) |};
     c_proxy := {| px_enabled := proxyEnabled
                                 && negb (String.eqb proxyHost "")
                                 && (0 <? proxyPort);
                   px_host := proxyHost;
                   px_port := if 0 <? proxyPort then proxyPort else 0 |} |}.

(** A saved [AppConfig] as the schema parses it when it is loaded again. *)
Definition reloaded (c : config) : config_input :=
  {| ci_openai := c_openai c;
     ci_image := {| in_baseURL := im_baseURL (c_image c);
                    in_apiKey := im_apiKey (c_image c);
                    in_aspectRatio := im_aspectRatio (c_image c);
                    in_imageSize := im_imageSize (c_image c);
                    in_timeoutMs := None;
                    in_timeoutSec := Some (im_timeoutSec (c_image c));
                    in_cacheEnabled := im_cacheEnabled (c_image c) |};
     ci_proxy := c_proxy c |}.

(** What [createOpenAiClient] builds its client from. *)
Record client_setup : Type := {
  cs_apiKey : string;
  cs_model : string;
  cs_baseURL : option string;
  cs_proxy : option (string * Z)
}.

Definition missingKey : thrown :=
  ErrorObj "缺少 OpenAI 密钥。请先在设置中填写 OpenAI 密钥。".
Definition missingModel : thrown :=
  ErrorObj "缺少 OpenAI 模型。请先在设置中填写 OpenAI 模型。".

(** [createOpenAiClient()] when [loadConfig()] gives [c] *)
Definition createOpenAiClient (c : config) : completion client_setup :=
  let apiKey := trim (oa_apiKey (c_openai c)) in
  let model := trim (oa_model (c_openai c)) in
  if String.eqb apiKey "" then Throw missingKey
  else if String.eqb model "" then Throw missingModel
  else
    let baseURL := trim (oa_baseURL (c_openai c)) in
    Return {| cs_apiKey := apiKey;
              cs_model := model;
              cs_baseURL := if String.eqb baseURL "" then None else Some baseURL;
              cs_proxy :=
                if px_enabled (c_proxy c)
                   && negb (String.eqb (px_host (c_proxy c)) "")
                   && (0 <? px_port (c_proxy c))
                then Some (px_host (c_proxy c), px_port (c_proxy c))
                else None |}.

End Normalize.

End Settings.

(** Further sample data: a third version of the first slide and a second
    theme. *)
Module SampleMore.
Import Store.

Definition versionA3 : image_version_row :=
  {| iv_id := "img-3"; slide_id := "slide-a"; version := 3;
     prompt_text := "a green cover"; image_path := "images/slide-0001/v3.png";
     provider := Some "vectorengine"; request_json := Some "{}";
     response_json := Some "{}"; created_at := "t2" |}.

Definition world : Pipeline.world := Pipeline.now_world SampleRun.stage0.

(** A theme agent that answers with the same theme whatever it is asked. *)
Definition themeAgent (projectName sourceText : string) (outline : option string)
  : completion string :=
  Return "{theme-2}".

(** The job store after a first outline job of the project has been started
    and has completed, and an images job has been started. *)
Definition completedPatch : JobStore.patch :=
  {| JobStore.p_status := Some Jobs.completed;
     JobStore.p_finishedAt := Some "t1";
     JobStore.p_progress := None; JobStore.p_error := None |}.

Definition jobsFirst : JobStore.jobs_map :=
  (JobStore.postGenerate Jobs.outline (Return Sample.root) "job-1" "t0" "deck" []).2.

Definition jobsDone : JobStore.jobs_map :=
  (JobStore.updateJob "job-1" completedPatch jobsFirst).2.

Definition jobsSecond : JobStore.jobs_map :=
  (JobStore.postGenerate Jobs.images (Return Sample.root) "job-2" "t2" "deck"
     jobsDone).2.

(** The sample project with a stored outline of one section: the third
    slide, in section 1, has no section in it. *)
Definition databaseWithOutline : db :=
  with_outline_versions Sample.database
    [{| jv_id := "outline-1"; jv_project_id := "deck"; jv_version := 1;
        jv_json := "{outline}"; jv_created_at := "t0" |}].

Definition worldWithOutline : Pipeline.world :=
  {| Pipeline.disk_db := databaseWithOutline; Pipeline.disk_fs := Sample.files;
     Pipeline.jobs := {["job-1" := SampleRun.job]} |}.

Definition parseOutline (raw : string) : option (list Pipeline.outline_section) :=
  Some Sample.newOutline.

(** A content agent that answers for the first slide and fails for the
    others. *)
Definition contentAgent (idx : nat) : completion string :=
  match idx with
  | O => Return "{cover-2}"
  | _ => Throw (ErrorObj "busy")
  end.

(** The sample project with the outline at whose positions its three slides
    stand, and that outline without its first slide. *)
Definition deckOutline : list Pipeline.outline_section :=
  [{| Pipeline.sec_title := "Opening";
      Pipeline.sec_slides :=
        [{| Pipeline.os_title := "Cover"; Pipeline.os_summary := "Title page" |};
         {| Pipeline.os_title := "Agenda"; Pipeline.os_summary := "Contents" |}] |};
   {| Pipeline.sec_title := "End";
      Pipeline.sec_slides :=
        [{| Pipeline.os_title := "Thanks"; Pipeline.os_summary := "Closing" |}] |}].

Definition shorterOutline : list Pipeline.outline_section :=
  [{| Pipeline.sec_title := "Opening";
      Pipeline.sec_slides :=
        [{| Pipeline.os_title := "Agenda"; Pipeline.os_summary := "Contents" |}] |};
   {| Pipeline.sec_title := "End";
      Pipeline.sec_slides :=
        [{| Pipeline.os_title := "Thanks"; Pipeline.os_summary := "Closing" |}] |}].

Definition parseDeckOutline (raw : string)
  : option (list Pipeline.outline_section) :=
  if String.eqb raw "{outline}" then Some deckOutline
  else if String.eqb raw "{shorter}" then Some shorterOutline
  else None.

Definition stringifyDeckOutline (sections : list Pipeline.outline_section)
  : string :=
  if (length sections =? 2)%nat
     && (length (sections ≫= Pipeline.sec_slides) =? 3)%nat
  then "{outline}" else "{shorter}".

(** A settings file of the first schema version: a timeout in milliseconds
    and a proxy whose host is blank. *)
Definition settingsFile : Settings.config_input :=
  {| Settings.ci_openai :=
       {| Settings.oa_baseURL := ""; Settings.oa_apiKey := "";
          Settings.oa_model := "gpt-4.1-mini" |};
     Settings.ci_image :=
       {| Settings.in_baseURL := ""; Settings.in_apiKey := "";
          Settings.in_aspectRatio := "16:9"; Settings.in_imageSize := "2K";
          Settings.in_timeoutMs := Some 400;
          Settings.in_timeoutSec := None;
          Settings.in_cacheEnabled := false |};
     Settings.ci_proxy :=
       {| Settings.px_enabled := true; Settings.px_host := "";
          Settings.px_port := 8080 |} |}.

(** An image call with the cache on: the image comes from the service and
    is stored under the key [5e1f]. *)
Definition cacheEntry : ImageClient.bytes := [Byte.x7b; Byte.x7d].

Definition storedCall : ImageClient.image_call :=
  ImageClient.CallStored ImageClient.Png Sample.red "{req}" "{resp}" "t3"
    "5e1f" cacheEntry ImageClient.MetaWritten.

End SampleMore.

(** * Properties of [withRetries] *)
Section RetryFacts.
Import Retry.
Context {T : Type}.
Variable attempts : Z.
Variable fn : Z -> completion T.
Variable opts : option retry_opts.
Variable errs : Z -> thrown.

Local Abbreviation loop := (loop attempts fn opts).
Local Abbreviation round := (failedRound attempts opts errs).

(** Inside the loop a pending [lastError] is never read: the [else] branch
    is only reachable at the first test. *)
Lemma loop_lastError_irrelevant fuel a last last' :
  a <= attempts -> loop fuel a last = loop fuel a last'.
Proof.
  intros Ha. destruct fuel as [|fuel]; simpl;
    destruct (Z.leb_spec a attempts); (reflexivity || lia).
Qed.

(** [d] failing attempts in a row, none of them the last allowed one. *)
Lemma loop_failed_rounds (d : nat) : forall a fuel last,
  (forall i, a <= i < a + Z.of_nat d -> fn i = Throw (errs i)) ->
  a + Z.of_nat d <= attempts ->
  (d <= fuel)%nat ->
  loop fuel a last =
    (fun r => (r.1, (seqZ a (Z.of_nat d) ≫= round) ++ r.2))
      <$> loop (fuel - d) (a + Z.of_nat d) last.
Proof.
  induction d as [|d IH]; intros a fuel last Hfail Hle Hfuel.
  - rewrite Z.add_0_r, Nat.sub_0_r. simpl.
    destruct (loop fuel a last) as [[c effs]|]; reflexivity.
  - destruct fuel as [|fuel]; [lia|].
    cbn [Retry.loop].
    destruct (Z.leb_spec a attempts); [|lia].
    rewrite (Hfail a) by lia.
    destruct (Z.leb_spec attempts a); [lia|].
    rewrite (IH (a + 1) fuel (Some (errs a))).
    2: { intros i Hi. apply Hfail. lia. }
    2, 3: lia.
    replace (a + 1 + Z.of_nat d) with (a + Z.of_nat (S d)) by lia.
    replace (S fuel - S d)%nat with (fuel - d)%nat by lia.
    rewrite (loop_lastError_irrelevant (fuel - d) _ (Some (errs a)) last) by lia.
    replace (Z.of_nat (S d)) with (Z.succ (Z.of_nat d)) by lia.
    rewrite (seqZ_cons a) by lia. rewrite Z.pred_succ.
    replace (Z.succ a) with (a + 1) by lia.
    destruct (Retry.loop attempts fn opts (fuel - d) (a + Z.succ (Z.of_nat d)) last)
      as [[c effs]|]; reflexivity.
Qed.

Lemma calls_rounds l k :
  calls ((l ≫= round) ++ [Call k]) = l ++ [k].
Proof.
  induction l as [|i l IH]; [reflexivity|].
  cbn. unfold calls in IH. rewrite IH. reflexivity.
Qed.

Lemma sleeps_rounds l k :
  sleeps ((l ≫= round) ++ [Call k]) = delayOf opts <$> l.
Proof.
  induction l as [|i l IH]; [reflexivity|].
  cbn. unfold sleeps in IH. rewrite IH. reflexivity.
Qed.

Lemma warnings_rounds l k :
  warnings ((l ≫= round) ++ [Call k])
  = (fun i => Warn (warnLabel opts) i attempts (errs i)) <$> l.
Proof.
  induction l as [|i l IH]; [reflexivity|].
  cbn. unfold warnings in IH. rewrite IH. reflexivity.
Qed.

(** The run that fails on attempts [1..k-1] and succeeds on attempt [k]. *)
Lemma withRetries_success k v :
  1 <= k <= attempts ->
  (forall i, 1 <= i < k -> fn i = Throw (errs i)) ->
  fn k = Return v ->
  withRetries attempts fn opts
  = Some (Return v, (seqZ 1 (k - 1) ≫= round) ++ [Call k]).
Proof.
  intros Hk Hfail Hok. unfold withRetries.
  rewrite (loop_failed_rounds (Z.to_nat (k - 1)) 1 _ None);
    rewrite ?Z2Nat.id by lia; try lia.
  2: { intros i Hi. apply Hfail. lia. }
  replace (1 + (k - 1)) with k by lia.
  destruct (Z.to_nat attempts - Z.to_nat (k - 1))%nat as [|fuel] eqn:Hf; [lia|].
  cbn [Retry.loop]. destruct (Z.leb_spec k attempts); [|lia].
  rewrite Hok. reflexivity.
Qed.

(** The run in which every allowed attempt fails. *)
Lemma withRetries_exhausted :
  1 <= attempts ->
  (forall i, 1 <= i <= attempts -> fn i = Throw (errs i)) ->
  withRetries attempts fn opts
  = Some (Throw (rethrown (Some (errs attempts))),
          (seqZ 1 (attempts - 1) ≫= round) ++ [Call attempts]).
Proof.
  intros Hk Hfail. unfold withRetries.
  rewrite (loop_failed_rounds (Z.to_nat (attempts - 1)) 1 _ None);
    rewrite ?Z2Nat.id by lia; try lia.
  2: { intros i Hi. apply Hfail. lia. }
  replace (1 + (attempts - 1)) with attempts by lia.
  destruct (Z.to_nat attempts - Z.to_nat (attempts - 1))%nat as [|fuel] eqn:Hf; [lia|].
  cbn [Retry.loop]. destruct (Z.leb_spec attempts attempts); [|lia].
  rewrite Hfail by lia. reflexivity.
Qed.

Lemma seqZ_snoc_last k : 1 <= k -> seqZ 1 (k - 1) ++ [k] = seqZ 1 k.
Proof.
  intros Hk. replace k with (Z.of_nat (S (Z.to_nat (k - 1)))) at 3 by lia.
  rewrite seqZ_S, Z2Nat.id by lia. do 2 f_equal. lia.
Qed.

End RetryFacts.

(** ** Claims about [withRetries] *)

(** C5. [withRetries attempts fn] returns the result of the first call of
    [fn] that succeeds, having called [fn] once per attempt up to it and
    slept [baseDelay * 2^(attempt-1)] after each failed one; when all of the
    [attempts] calls throw, [fn] has been called exactly [attempts] times and
    the last error is thrown again (an [Error] instance unchanged). *)
Theorem withRetries_first_success_or_last_error :
  forall (T : Type) (attempts : Z) (fn : Z -> completion T)
         (opts : option Retry.retry_opts) (errs : Z -> thrown),
    (forall k v,
        1 <= k <= attempts ->
        (forall i, 1 <= i < k -> fn i = Throw (errs i)) ->
        fn k = Return v ->
        exists effs,
          Retry.withRetries attempts fn opts = Some (Return v, effs)
          /\ Retry.calls effs = seqZ 1 k
          /\ Retry.sleeps effs
             = (fun i => Retry.baseDelay opts * 2 ^ (i - 1)) <$> seqZ 1 (k - 1))
    /\ (1 <= attempts ->
        (forall i, 1 <= i <= attempts -> fn i = Throw (errs i)) ->
        exists effs e,
          Retry.withRetries attempts fn opts = Some (Throw e, effs)
          /\ Retry.calls effs = seqZ 1 attempts
          /\ Retry.sleeps effs
             = (fun i => Retry.baseDelay opts * 2 ^ (i - 1))
                 <$> seqZ 1 (attempts - 1)
          /\ toErrorMessage e = toErrorMessage (errs attempts)
          /\ (forall m, errs attempts = ErrorObj m -> e = errs attempts)).
Proof.
  intros T attempts fn opts errs. split.
  - intros k v Hk Hfail Hok. eexists. split.
    + apply (withRetries_success attempts fn opts errs k v Hk Hfail Hok).
    + rewrite calls_rounds, sleeps_rounds, seqZ_snoc_last by lia. split; reflexivity.
  - intros Hn Hfail. eexists. eexists. split.
    + apply (withRetries_exhausted attempts fn opts errs Hn Hfail).
    + rewrite calls_rounds, sleeps_rounds, seqZ_snoc_last by lia.
      repeat split; try reflexivity.
      * destruct (errs attempts); reflexivity.
      * intros m Hm. rewrite Hm. reflexivity.
Qed.

Lemma withRetries_first_success_or_last_error_witness :
  (exists effs,
      Retry.withRetries 3 failsTwice themeAgentOpts = Some (Return "done", effs)
      /\ Retry.calls effs = [1; 2; 3]
      /\ Retry.sleeps effs = [300; 600])
  /\ (exists effs e,
         Retry.withRetries 3 alwaysFails themeAgentOpts = Some (Throw e, effs)
         /\ Retry.calls effs = [1; 2; 3]
         /\ Retry.sleeps effs = [300; 600]
         /\ toErrorMessage e = "down"
         /\ (forall m, ErrorObj "down" = ErrorObj m -> e = ErrorObj "down")).
Proof.
  split.
  - apply (proj1 (withRetries_first_success_or_last_error
                    string 3 failsTwice themeAgentOpts (fun _ => ErrorObj "busy")) 3 "done").
    + lia.
    + intros i Hi. unfold failsTwice. destruct (Z.ltb_spec i 3); [reflexivity | lia].
    + reflexivity.
  - apply (proj2 (withRetries_first_success_or_last_error
                    string 3 alwaysFails themeAgentOpts (fun _ => ErrorObj "down"))).
    + lia.
    + intros i Hi. reflexivity.
Defined.

(** C6 as stated fails: an operation that fails on all three attempts is
    called three times but only two warnings are logged. *)
Lemma withRetries_always_failing_logs_two_warnings :
  exists effs,
    Retry.withRetries 3 alwaysFails themeAgentOpts
    = Some (Throw (ErrorObj "down"), effs)
    /\ length (Retry.calls effs) = 3%nat
    /\ length (Retry.warnings effs) = 2%nat
    /\ length (Retry.warnings effs) <> 3%nat.
Proof.
  eexists. split; [reflexivity|]. cbn. repeat split. discriminate.
Qed.

(** C6, amended. [withRetries] logs one warning, carrying the caller's label
    (or ["withRetries"]), for every failed attempt that is followed by another
    attempt: [k - 1] warnings when attempt [k] is the first to succeed, and
    [attempts - 1] warnings when every attempt fails; the last allowed attempt
    fails without a warning. *)
Theorem withRetries_warns_before_each_retry :
  forall (T : Type) (attempts : Z) (fn : Z -> completion T)
         (opts : option Retry.retry_opts) (errs : Z -> thrown),
    (forall k v,
        1 <= k <= attempts ->
        (forall i, 1 <= i < k -> fn i = Throw (errs i)) ->
        fn k = Return v ->
        exists effs,
          Retry.withRetries attempts fn opts = Some (Return v, effs)
          /\ Retry.warnings effs
             = (fun i => Retry.Warn (Retry.warnLabel opts) i attempts (errs i))
                 <$> seqZ 1 (k - 1)
          /\ Z.of_nat (length (Retry.warnings effs)) = k - 1)
    /\ (1 <= attempts ->
        (forall i, 1 <= i <= attempts -> fn i = Throw (errs i)) ->
        exists effs e,
          Retry.withRetries attempts fn opts = Some (Throw e, effs)
          /\ Retry.warnings effs
             = (fun i => Retry.Warn (Retry.warnLabel opts) i attempts (errs i))
                 <$> seqZ 1 (attempts - 1)
          /\ Z.of_nat (length (Retry.warnings effs)) = attempts - 1)
    /\ (forall lbl d, Retry.warnLabel (Some {| Retry.label := Some lbl;
                                               Retry.baseDelayMs := d |}) = lbl).
Proof.
  intros T attempts fn opts errs. split; [|split].
  - intros k v Hk Hfail Hok. eexists. split.
    + apply (withRetries_success attempts fn opts errs k v Hk Hfail Hok).
    + rewrite warnings_rounds. split; [reflexivity|].
      rewrite length_fmap, length_seqZ. lia.
  - intros Hn Hfail. eexists. eexists. split.
    + apply (withRetries_exhausted attempts fn opts errs Hn Hfail).
    + rewrite warnings_rounds. split; [reflexivity|].
      rewrite length_fmap, length_seqZ. lia.
  - reflexivity.
Qed.

Lemma withRetries_warns_before_each_retry_witness :
  (exists effs,
      Retry.withRetries 3 failsTwice themeAgentOpts = Some (Return "done", effs)
      /\ Retry.warnings effs
         = [Retry.Warn "ThemeAgent" 1 3 (ErrorObj "busy");
            Retry.Warn "ThemeAgent" 2 3 (ErrorObj "busy")]
      /\ Z.of_nat (length (Retry.warnings effs)) = 2)
  /\ (exists effs e,
         Retry.withRetries 3 alwaysFails themeAgentOpts = Some (Throw e, effs)
         /\ Retry.warnings effs
            = [Retry.Warn "ThemeAgent" 1 3 (ErrorObj "down");
               Retry.Warn "ThemeAgent" 2 3 (ErrorObj "down")]
         /\ Z.of_nat (length (Retry.warnings effs)) = 2).
Proof.
  split.
  - apply (proj1 (withRetries_warns_before_each_retry
                    string 3 failsTwice themeAgentOpts (fun _ => ErrorObj "busy")) 3 "done").
    + lia.
    + intros i Hi. unfold failsTwice. destruct (Z.ltb_spec i 3); [reflexivity | lia].
    + reflexivity.
  - apply (proj1 (proj2 (withRetries_warns_before_each_retry
                    string 3 alwaysFails themeAgentOpts (fun _ => ErrorObj "down")))).
    + lia.
    + intros i Hi. reflexivity.
Defined.

(** * Properties of the concurrency limiter *)
Section LimiterFacts.
Import Limiter.
Variable N : Z.
Hypothesis Npos : 0 < N.

Ltac fields :=
  cbn [lim microtasks executing admitted settled
       maxConcurrency activeCount queue start_fn next initial].

Lemma filter_other_id (i : nat) (l : list nat) :
  i ∉ l -> filter (fun j => j <> i) l = l.
Proof.
  induction l as [|x l IH]; intros Hi; [reflexivity|].
  apply not_elem_of_cons in Hi as [Hx Hl].
  rewrite filter_cons_True by congruence. f_equal. auto.
Qed.

Lemma executing_without (i : nat) (l : list nat) :
  NoDup l -> i ∈ l -> l ≡ₚ i :: filter (fun j => j <> i) l.
Proof.
  induction l as [|x l IH]; intros Hnd Hi.
  - inversion Hi.
  - apply NoDup_cons in Hnd as [Hx Hnd].
    destruct (decide (x = i)) as [->|Hne].
    + rewrite filter_cons_False by (intros H; apply H; reflexivity).
      rewrite filter_other_id by assumption. reflexivity.
    + rewrite filter_cons_True by assumption.
      apply elem_of_cons in Hi as [Hi|Hi]; [congruence|].
      rewrite (IH Hnd Hi) at 1. apply Permutation_swap.
Qed.

Lemma consistent_NoDup_executing j st :
  consistent N j st -> NoDup (executing st).
Proof.
  intros H. assert (Hnd : NoDup (admitted st)).
  { assert (Hs : NoDup (seq 0 j)) by apply NoDup_seq.
    rewrite <- (cons_fifo _ _ _ H) in Hs. apply NoDup_app in Hs. tauto. }
  rewrite <- (cons_perm _ _ _ H) in Hnd. apply NoDup_app in Hnd. tauto.
Qed.

Lemma consistent_initial :
  consistent N 0 (initial {| maxConcurrency := N; activeCount := 0; queue := [] |}).
Proof. split; cbn; try reflexivity; try lia. congruence. Qed.

(** A call of [limit] made while no woken call is waiting to run. *)
Lemma consistent_limit_call j st :
  consistent N j st -> microtasks st = [] ->
  consistent N (S j) (limit_call j st) /\ microtasks (limit_call j st) = [].
Proof.
  intros [Hmax Hact Hbound Hfull Hfifo Hperm] Hmt.
  unfold limit_call. rewrite Hmax, Hact. rewrite Hmt in *.
  rewrite Nat.add_0_r in *. cbn [app] in Hfifo.
  destruct (Z.leb_spec N (Z.of_nat (length (executing st)))) as [Hge|Hlt].
  - split; [|fields; first [reflexivity | exact Hmt]]. split; fields; rewrite ?Hmt, ?Nat.add_0_r;
      try assumption; try reflexivity.
    + intros _. lia.
    + rewrite seq_S, <- Hfifo. cbn [app Nat.add]. rewrite app_assoc. reflexivity.
  - assert (Hq : queue (lim st) = []).
    { destruct (queue (lim st)) eqn:Hq; [reflexivity|].
      specialize (Hfull ltac:(congruence)). lia. }
    rewrite Hq, app_nil_r in Hfifo.
    split; [|fields; first [reflexivity | exact Hmt]].
    split; fields; rewrite ?Hmt, ?Hq, ?length_app, ?Nat.add_0_r; cbn [length app].
    + assumption.
    + lia.
    + lia.
    + congruence.
    + rewrite seq_S, <- Hfifo, app_nil_r. reflexivity.
    + rewrite <- Hperm. rewrite <- !app_assoc. apply Permutation_app_head.
      apply Permutation_app_comm.
Qed.

Lemma submitting_consistent j st :
  submitting N j st -> consistent N j st /\ microtasks st = [] /\ settled st = [].
Proof.
  induction 1 as [|j st Hs (Hc & Hmt & Hst)].
  - split; [apply consistent_initial | split; reflexivity].
  - destruct (consistent_limit_call j st Hc Hmt) as [Hc' Hmt'].
    split; [assumption | split; [assumption|]].
    unfold limit_call. destruct (_ <=? _); cbn; assumption.
Qed.

(** A continuation or a settlement keeps the state consistent and uses up
    some of the remaining work. *)
Lemma consistent_step K st ev st' :
  consistent N K st -> is_submit ev = false -> step st ev = Some st' ->
  consistent N K st' /\ (remaining st' < remaining st)%nat.
Proof.
  intros Hc Hev Hstep.
  pose proof (consistent_NoDup_executing _ _ Hc) as Hnd.
  destruct Hc as [Hmax Hact Hbound Hfull Hfifo Hperm].
  destruct ev as [i| |i o]; [discriminate| |]; cbn [step] in Hstep.
  - unfold limit_resume in Hstep.
    destruct (microtasks st) as [|w rest] eqn:Hmt; [discriminate|].
    injection Hstep as <-. unfold remaining. fields. rewrite ?Hmt.
    cbn [length] in *. rewrite !length_app. cbn [length].
    split; [|lia].
    split; fields; rewrite ?length_app; cbn [length].
    + assumption.
    + lia.
    + lia.
    + intros Hq. specialize (Hfull Hq). lia.
    + rewrite <- Hfifo, <- app_assoc. reflexivity.
    + rewrite <- Hperm. rewrite <- !app_assoc. apply Permutation_app_head.
      apply Permutation_app_comm.
  - unfold limit_settle in Hstep. case_bool_decide as Hi; [|discriminate].
    injection Hstep as <-.
    pose proof (executing_without i _ Hnd Hi) as Hrm.
    pose proof (Permutation_length Hrm) as Hlen. cbn [length] in Hlen.
    assert (Hperm' :
              filter (fun j => j <> i) (executing st) ++ (settled st ++ [(i, o)]).*1
              ≡ₚ admitted st).
    { rewrite fmap_app. cbn [fmap list_fmap fst].
      rewrite <- Hperm. rewrite Hrm at 2.
      rewrite app_assoc, <- Permutation_cons_append. reflexivity. }
    unfold next, remaining. fields.
    destruct (queue (lim st)) as [|w q] eqn:Hq; fields.
    + split; [|cbn [length]; lia].
      split; fields.
      * assumption.
      * lia.
      * lia.
      * congruence.
      * assumption.
      * assumption.
    + specialize (Hfull ltac:(congruence)). cbn [length] in *.
      split; [|rewrite length_app; cbn [length]; lia].
      split; fields; rewrite ?length_app; cbn [length].
      * assumption.
      * lia.
      * lia.
      * intros _. lia.
      * rewrite <- Hfifo, <- !app_assoc. reflexivity.
      * assumption.
Qed.

Lemma draining_consistent K st : draining N K st -> consistent N K st.
Proof.
  induction 1 as [st Hs|st ev st' Hd IH Hev Hstep].
  - apply submitting_consistent. assumption.
  - apply (consistent_step K st ev st' IH Hev Hstep).
Qed.

Lemma reachable_consistent K st :
  reachable_in_burst N K st -> exists j, (j <= K)%nat /\ consistent N j st.
Proof.
  intros [(j & Hj & Hs)|Hd].
  - exists j. split; [assumption|]. apply submitting_consistent. assumption.
  - exists K. split; [lia|]. apply draining_consistent. assumption.
Qed.

(** Either some continuation or settlement can happen, or all the work
    is done. *)
Lemma consistent_progress K st :
  consistent N K st ->
  (exists ev st', is_submit ev = false /\ step st ev = Some st')
  \/ (executing st = [] /\ microtasks st = [] /\ queue (lim st) = []
      /\ admitted st = seq 0 K /\ (settled st).*1 ≡ₚ seq 0 K).
Proof.
  intros [Hmax Hact Hbound Hfull Hfifo Hperm].
  destruct (microtasks st) as [|w rest] eqn:Hmt.
  - destruct (executing st) as [|i ex] eqn:Hex.
    + right. assert (Hq : queue (lim st) = []).
      { destruct (queue (lim st)) eqn:Hq; [reflexivity|].
        specialize (Hfull ltac:(congruence)). cbn in Hfull. lia. }
      rewrite Hq, app_nil_r in Hfifo. cbn in Hfifo, Hperm.
      repeat split; try assumption. rewrite Hperm. rewrite Hfifo. reflexivity.
    + left. exists (Settle i Fulfilled). cbn. unfold limit_settle.
      rewrite Hex. rewrite bool_decide_true by (left). eauto.
  - left. exists Resume. cbn. unfold limit_resume. rewrite Hmt. eauto.
Qed.

End LimiterFacts.

Lemma draining_run N K st sched st' :
  Limiter.draining N K st ->
  forallb (fun ev => negb (Limiter.is_submit ev)) sched = true ->
  Limiter.run st sched = Some st' ->
  Limiter.draining N K st'.
Proof.
  revert st. induction sched as [|ev sched IH]; intros st Hd Hall Hrun.
  - injection Hrun as <-. assumption.
  - cbn in Hall, Hrun. apply andb_prop in Hall as [Hev Hall].
    destruct (Limiter.step st ev) as [st1|] eqn:Hstep; [|discriminate].
    apply (IH st1); try assumption.
    apply (Limiter.draining_step N K st ev st1); try assumption.
    destruct (Limiter.is_submit ev); [discriminate | reflexivity].
Qed.

Lemma draining_run_bounded N K st sched st' :
  0 < N ->
  Limiter.draining N K st ->
  forallb (fun ev => negb (Limiter.is_submit ev)) sched = true ->
  Limiter.run st sched = Some st' ->
  (length sched + Limiter.remaining st' <= Limiter.remaining st)%nat.
Proof.
  intros HN. revert st. induction sched as [|ev sched IH]; intros st Hd Hall Hrun.
  - injection Hrun as <-. cbn. lia.
  - cbn in Hall, Hrun. apply andb_prop in Hall as [Hev Hall].
    destruct (Limiter.step st ev) as [st1|] eqn:Hstep; [|discriminate].
    assert (Hev' : Limiter.is_submit ev = false)
      by (destruct (Limiter.is_submit ev); [discriminate | reflexivity]).
    pose proof (draining_consistent N HN K st Hd) as Hc.
    destruct (consistent_step N K st ev st1 Hc Hev' Hstep) as [_ Hlt].
    specialize (IH st1 (Limiter.draining_step N K st ev st1 Hd Hev' Hstep) Hall Hrun).
    cbn [length]. lia.
Qed.

(** ** The limiter under a burst of calls *)

(** X27. For [K] calls of [limit] made in one synchronous stretch on a fresh
    limiter of capacity [N > 0], with no call after them: at every instant
    at most [N] operations are executing; operations start in the order they
    were submitted, those still waiting keep that order; an operation that
    settles, fulfilled or rejected, gives its slot back; and every schedule
    of continuations and settlements is finite and can only stop when all
    [K] have settled. *)
Theorem limiter_burst_bounded_fifo_and_completes :
  forall (N : Z) (K : nat) (st : Limiter.loop_state),
    0 < N ->
    Limiter.reachable_in_burst N K st ->
    Z.of_nat (length (Limiter.executing st)) <= N
    /\ (exists j, (j <= K)%nat
                  /\ Limiter.admitted st ++ Limiter.microtasks st
                       ++ Limiter.queue (Limiter.lim st) = seq 0 j)
    /\ (Limiter.draining N K st ->
        (forall i o,
            i ∈ Limiter.executing st ->
            exists st',
              Limiter.step st (Limiter.Settle i o) = Some st'
              /\ Limiter.draining N K st'
              /\ Limiter.activeCount (Limiter.lim st')
                 = Limiter.activeCount (Limiter.lim st) - 1
              /\ (i, o) ∈ Limiter.settled st')
        /\ (forall sched st',
               forallb (fun ev => negb (Limiter.is_submit ev)) sched = true ->
               Limiter.run st sched = Some st' ->
               (length sched + Limiter.remaining st' <= Limiter.remaining st)%nat)
        /\ ((exists ev st',
                Limiter.is_submit ev = false /\ Limiter.step st ev = Some st')
            \/ (Limiter.executing st = []
                /\ Limiter.admitted st = seq 0 K
                /\ (Limiter.settled st).*1 ≡ₚ seq 0 K))).
Proof.
  intros N K st HN Hreach.
  destruct (reachable_consistent N HN K st Hreach) as (j & Hj & Hc).
  split; [|split].
  - pose proof (Limiter.cons_bound _ _ _ Hc). lia.
  - exists j. split; [assumption|]. apply (Limiter.cons_fifo _ _ _ Hc).
  - intros Hd. split; [|split].
    + intros i o Hi.
      assert (Hstep : Limiter.step st (Limiter.Settle i o)
                      = Some (Limiter.next
                                {| Limiter.lim := Limiter.lim st;
                                   Limiter.microtasks := Limiter.microtasks st;
                                   Limiter.executing :=
                                     filter (fun j => j <> i) (Limiter.executing st);
                                   Limiter.admitted := Limiter.admitted st;
                                   Limiter.settled := Limiter.settled st ++ [(i, o)] |})).
      { cbn. unfold Limiter.limit_settle. rewrite bool_decide_true by assumption.
        reflexivity. }
      eexists. split; [exact Hstep|]. split; [|split].
      * apply (Limiter.draining_step N K st (Limiter.Settle i o) _ Hd eq_refl Hstep).
      * unfold Limiter.next. cbn.
        destruct (Limiter.queue (Limiter.lim st)); reflexivity.
      * unfold Limiter.next. cbn.
        destruct (Limiter.queue (Limiter.lim st)); cbn;
          apply elem_of_app; right; left.
    + intros sched st' Hall Hrun.
      apply (draining_run_bounded N K st sched st' HN Hd Hall Hrun).
    + pose proof (draining_consistent N HN K st Hd) as HcK.
      destruct (consistent_progress N HN K st HcK) as [Hgo|(Hex & _ & _ & Had & Hall)].
      * left. assumption.
      * right. auto.
Qed.

Lemma limiter_burst_bounded_fifo_and_completes_witness :
  Limiter.run Limiter.three_submitted Limiter.first_rejected_third_woken
  = Some Limiter.third_running
  /\ Z.of_nat (length (Limiter.executing Limiter.third_running)) <= 2
  /\ Limiter.admitted Limiter.third_running = [0; 1; 2]%nat.
Proof.
  assert (Hrun : Limiter.run Limiter.three_submitted Limiter.first_rejected_third_woken
                 = Some Limiter.third_running) by (vm_compute; reflexivity).
  assert (Hd : Limiter.draining 2 3 Limiter.third_running).
  { apply (draining_run 2 3 Limiter.three_submitted
             Limiter.first_rejected_third_woken); [|reflexivity|exact Hrun].
    apply Limiter.draining_start. unfold Limiter.three_submitted.
    repeat constructor. }
  destruct (limiter_burst_bounded_fifo_and_completes
              2 3 Limiter.third_running ltac:(lia) (or_intror Hd))
    as (Hbound & (j & Hj & Hfifo) & _).
  split; [exact Hrun|]. split; [exact Hbound|]. reflexivity.
Defined.

(** C10. [createConcurrencyLimiter] returns a limiter exactly for the
    positive integers; every other number (fractions, zero, negatives, [NaN],
    the infinities) makes it throw at once. *)
Theorem createConcurrencyLimiter_only_positive_integers :
  forall (numberToString : Limiter.js_number -> string) (x : Limiter.js_number),
    (forall n, Limiter.positive_integer x n ->
               Limiter.createConcurrencyLimiter numberToString x
               = Return {| Limiter.maxConcurrency := Z.pos n;
                           Limiter.activeCount := 0;
                           Limiter.queue := [] |})
    /\ ((forall n, ~ Limiter.positive_integer x n) ->
        Limiter.createConcurrencyLimiter numberToString x
        = Throw (ErrorObj ("maxConcurrency must be a positive integer, got: "
                             +:+ numberToString x))).
Proof.
  intros show x. split.
  - intros n (q & -> & Hq). unfold Limiter.createConcurrencyLimiter. cbn.
    assert (Hfl : Qfloor q = Z.pos n) by (rewrite Hq; apply Qfloor_Z).
    rewrite Hfl.
    assert (H1 : Qeq_bool (inject_Z (Z.pos n)) q = true)
      by (apply Qeq_bool_iff; symmetry; exact Hq).
    assert (H2 : Qle_bool q 0 = false).
    { destruct (Qle_bool q 0) eqn:Hle; [|reflexivity].
      apply Qle_bool_iff in Hle. rewrite Hq in Hle.
      change 0%Q with (inject_Z 0) in Hle. rewrite <- Zle_Qle in Hle. lia. }
    rewrite H1, H2. reflexivity.
  - intros Hnot. unfold Limiter.createConcurrencyLimiter.
    destruct x as [| | |q]; try reflexivity. cbn.
    destruct (Qeq_bool (inject_Z (Qfloor q)) q) eqn:Hint; [|reflexivity].
    destruct (Qle_bool q 0) eqn:Hle; [reflexivity|]. exfalso.
    apply Qeq_bool_iff in Hint.
    assert (Hpos : 0 < Qfloor q).
    { destruct (Z.ltb_spec 0 (Qfloor q)) as [H|H]; [assumption|].
      assert (Hq0 : (q <= 0)%Q).
      { rewrite <- Hint. change 0%Q with (inject_Z 0). rewrite <- Zle_Qle. exact H. }
      apply Qle_bool_iff in Hq0. congruence. }
    destruct (Qfloor q) as [|p|p] eqn:Hf; try lia.
    apply (Hnot p). exists q. split; [reflexivity | symmetry; exact Hint].
Qed.

Lemma createConcurrencyLimiter_only_positive_integers_witness :
  Limiter.createConcurrencyLimiter (fun _ => "5") (Limiter.Finite (10 # 2))
  = Return {| Limiter.maxConcurrency := 5; Limiter.activeCount := 0;
              Limiter.queue := [] |}
  /\ Limiter.createConcurrencyLimiter (fun _ => "2.5") (Limiter.Finite (5 # 2))
     = Throw (ErrorObj "maxConcurrency must be a positive integer, got: 2.5")
  /\ Limiter.createConcurrencyLimiter (fun _ => "NaN") Limiter.NaN
     = Throw (ErrorObj "maxConcurrency must be a positive integer, got: NaN")
  /\ Limiter.createConcurrencyLimiter (fun _ => "Infinity") Limiter.PosInfinity
     = Throw (ErrorObj "maxConcurrency must be a positive integer, got: Infinity").
Proof.
  assert (Hfrac : forall n, ~ Limiter.positive_integer (Limiter.Finite (5 # 2)) n).
  { intros n (q & Heq & Hq). injection Heq as <-.
    unfold Qeq in Hq. cbn in Hq. lia. }
  assert (Hnan : forall n, ~ Limiter.positive_integer Limiter.NaN n)
    by (intros n (q & Heq & _); discriminate).
  assert (Hinf : forall n, ~ Limiter.positive_integer Limiter.PosInfinity n)
    by (intros n (q & Heq & _); discriminate).
  split; [|split; [|split]].
  - apply (proj1 (createConcurrencyLimiter_only_positive_integers
                    (fun _ => "5") (Limiter.Finite (10 # 2))) 5%positive).
    exists (10 # 2)%Q. split; reflexivity.
  - apply (proj2 (createConcurrencyLimiter_only_positive_integers
                    (fun _ => "2.5") (Limiter.Finite (5 # 2))) Hfrac).
  - apply (proj2 (createConcurrencyLimiter_only_positive_integers
                    (fun _ => "NaN") Limiter.NaN) Hnan).
  - apply (proj2 (createConcurrencyLimiter_only_positive_integers
                    (fun _ => "Infinity") Limiter.PosInfinity) Hinf).
Defined.

(** ** Calls that arrive while earlier ones run *)

(** C4. The limiter does not keep the bound, nor the order, for a call of
    [limit] that arrives between the settlement of an operation and the
    continuation of the waiter it woke: [next] has already lowered
    [activeCount], so the late call starts at once, and the woken waiter
    then starts too without testing [activeCount] again.  With capacity 1
    and three calls, two operations are executing together and call 2 has
    started before call 1; on the limiter of capacity 5 of the image
    service, six operations are executing together and call 6 has started
    before call 5. *)
Theorem limiter_late_call_exceeds_capacity :
  (exists st,
      Limiter.run
        (Limiter.initial {| Limiter.maxConcurrency := 1;
                            Limiter.activeCount := 0;
                            Limiter.queue := [] |})
        Limiter.late_call = Some st
      /\ Limiter.executing st = [2; 1]%nat
      /\ Limiter.maxConcurrency (Limiter.lim st)
         < Z.of_nat (length (Limiter.executing st))
      /\ Limiter.admitted st = [0; 2; 1]%nat
      /\ Limiter.settled st = [(0%nat, Limiter.Fulfilled)])
  /\ (exists st,
         Limiter.run (Limiter.initial Limiter.limitImageGen)
           Limiter.late_image_call = Some st
         /\ Limiter.executing st = [1; 2; 3; 4; 6; 5]%nat
         /\ Limiter.maxConcurrency (Limiter.lim st)
            < Z.of_nat (length (Limiter.executing st))
         /\ Limiter.admitted st = [0; 1; 2; 3; 4; 6; 5]%nat
         /\ Limiter.settled st = [(0%nat, Limiter.Fulfilled)]).
Proof.
  split; eexists; (split; [vm_compute; reflexivity|]); cbn; repeat split; lia.
Qed.

(** * Properties of the path guard *)
Section PathFacts.
Import Paths.

Lemma append_nil (b : string) : "" +:+ b = b.
Proof. reflexivity. Qed.

Lemma append_cons (c : ascii) (a b : string) :
  String c a +:+ b = String c (a +:+ b).
Proof. reflexivity. Qed.

Lemma append_assoc (a b c : string) : (a +:+ b) +:+ c = a +:+ (b +:+ c).
Proof.
  induction a as [|x a IH]; [reflexivity|].
  rewrite !append_cons, IH. reflexivity.
Qed.

Lemma startsWith_append s p :
  startsWith s p = true -> exists r, s = p +:+ r.
Proof.
  revert s. induction p as [|a p IH]; intros s H.
  - exists s. reflexivity.
  - destruct s as [|b s]; [discriminate|]. cbn in H.
    apply andb_prop in H as [Hab Hrest].
    apply Ascii.eqb_eq in Hab as ->.
    destruct (IH s Hrest) as [r ->]. exists r. reflexivity.
Qed.

Lemma split_nonempty s : split s <> [].
Proof.
  destruct s as [|c s]; cbn; [discriminate|].
  destruct (isSlash c); [discriminate|]. destruct (split s); discriminate.
Qed.

Lemma split_append_slash x y :
  split (x +:+ String "/" y) = split x ++ split y.
Proof.
  induction x as [|c x IH]; [reflexivity|].
  rewrite append_cons. cbn [split].
  destruct (isSlash c); rewrite IH; [reflexivity|].
  pose proof (split_nonempty x). destruct (split x); [congruence | reflexivity].
Qed.

Lemma components_append_slash x y :
  components (x +:+ String "/" y) = components x ++ components y.
Proof. unfold components. rewrite split_append_slash. apply List.filter_app. Qed.

(** What the two string tests of the guard mean for the names along the
    paths. *)
Lemma guard_within abs root :
  startsWith abs (root +:+ "/") = true \/ String.eqb abs root = true ->
  within root abs.
Proof.
  intros [H|H]; unfold within.
  - apply startsWith_append in H as [r ->].
    rewrite append_assoc, append_cons, append_nil.
    rewrite components_append_slash. apply prefix_app_r. reflexivity.
  - apply String.eqb_eq in H as ->. reflexivity.
Qed.

Lemma split_noSlash seg : noSlash seg = true -> split seg = [seg].
Proof.
  induction seg as [|c seg IH]; cbn; [reflexivity|]. intros H.
  apply andb_prop in H as [Hc Hseg]. destruct (isSlash c); [discriminate|].
  rewrite (IH Hseg). reflexivity.
Qed.

Lemma split_join segs :
  Forall (fun seg => noSlash seg = true) segs -> segs <> [] ->
  split (join segs) = segs.
Proof.
  induction 1 as [|seg segs Hseg Hall IH]; intros Hne; [congruence|].
  destruct segs as [|seg' segs'].
  - cbn. apply split_noSlash. assumption.
  - change (join (seg :: seg' :: segs'))
      with (seg +:+ "/" +:+ join (seg' :: segs')).
    rewrite append_cons, append_nil, split_append_slash.
    rewrite (split_noSlash seg Hseg), IH by discriminate. reflexivity.
Qed.

Lemma normalizeOnto_proper stack segs :
  Forall properName stack ->
  Forall (fun seg => noSlash seg = true) segs ->
  Forall properName (normalizeOnto false stack segs).
Proof.
  intros Hstack Hsegs. revert stack Hstack.
  induction Hsegs as [|seg segs Hseg Hall IH]; intros stack Hstack; cbn.
  - apply Forall_rev. assumption.
  - destruct (String.eqb_spec seg ""); cbn; [auto|].
    destruct (String.eqb_spec seg "."); cbn; [auto|].
    destruct (String.eqb_spec seg "..").
    + destruct stack as [|top below]; [auto|].
      destruct (String.eqb top ".."); [auto|].
      apply IH. apply Forall_cons in Hstack. tauto.
    + apply IH. constructor; [|assumption]. repeat split; assumption.
Qed.

Lemma split_all_noSlash s : Forall (fun seg => noSlash seg = true) (split s).
Proof.
  induction s as [|c s IH]; cbn; [repeat constructor|].
  destruct (isSlash c) eqn:Hc; [constructor; [reflexivity | assumption]|].
  destruct (split s) as [|seg rest]; [repeat constructor; cbn; rewrite Hc; reflexivity|].
  apply Forall_cons in IH as [Hseg Hrest].
  constructor; [cbn; rewrite Hc, Hseg; reflexivity | assumption].
Qed.

Lemma gather_absolute cwd rargs acc :
  isAbsolute cwd = true -> (gather cwd rargs acc).2 = true.
Proof.
  intros Hcwd. revert acc. induction rargs as [|p rest IH]; intros acc; cbn.
  - destruct (String.eqb_spec cwd ""); [subst; discriminate | assumption].
  - destruct (String.eqb p ""); [apply IH|].
    destruct (isAbsolute p); [reflexivity | apply IH].
Qed.

Lemma components_rooted segs :
  Forall properName segs -> components ("/" +:+ join segs) = segs.
Proof.
  intros Hall. unfold components. rewrite append_cons, append_nil.
  cbn [split isSlash].
  change (Ascii.eqb "/" "/") with true. cbn [List.filter String.eqb negb].
  assert (Hkeep : List.filter (fun seg => negb (String.eqb seg "")) segs = segs).
  { clear -Hall. induction Hall as [|seg segs (_ & Hne & _) _ IH]; [reflexivity|].
    cbn. destruct (String.eqb_spec seg ""); [congruence|]. cbn. f_equal. exact IH. }
  destruct segs as [|seg segs']; [reflexivity|].
  rewrite split_join; [exact Hkeep | | discriminate].
  eapply Forall_impl; [exact Hall|]. intros ? (? & _). assumption.
Qed.

(** From an absolute working directory, [resolve] gives a rooted path of
    proper names. *)
Lemma resolve_plain cwd args :
  isAbsolute cwd = true -> plain (resolve cwd args).
Proof.
  intros Hcwd. unfold resolve, plain.
  pose proof (gather_absolute cwd (rev args) "" Hcwd) as Habs.
  destruct (gather cwd (rev args) "") as [path abs]. cbn in Habs. subst abs.
  cbn [negb]. unfold normalizeString.
  pose proof (normalizeOnto_proper [] (split path) (List.Forall_nil _)
                (split_all_noSlash path)) as Hprop.
  rewrite components_rooted by assumption.
  eapply Forall_impl; [exact Hprop|]. intros seg (_ & _ & ? & ?). split; assumption.
Qed.

End PathFacts.

(** C9. [ensureWithinProject] returns only the resolved path of its argument
    and only when that path is the project root or lies below it; whenever
    the resolved path escapes the root it throws.  (With an absolute working
    directory the resolved paths have no [.] or [..] left in them, so lying
    below the root is a matter of names alone.) *)
Theorem ensureWithinProject_fails_closed :
  forall (cwd projectRootPath relPath : string),
    (forall abs,
        Paths.ensureWithinProject cwd projectRootPath relPath = Return abs ->
        abs = Paths.target cwd projectRootPath relPath
        /\ Paths.within (Paths.resolve cwd [projectRootPath]) abs)
    /\ (~ Paths.within (Paths.resolve cwd [projectRootPath])
                       (Paths.target cwd projectRootPath relPath) ->
        Paths.ensureWithinProject cwd projectRootPath relPath
        = Throw Paths.invalidPath)
    /\ (Paths.isAbsolute cwd = true ->
        Paths.plain (Paths.resolve cwd [projectRootPath])
        /\ Paths.plain (Paths.target cwd projectRootPath relPath)).
Proof.
  intros cwd root rel.
  assert (Hret : forall abs,
             Paths.ensureWithinProject cwd root rel = Return abs ->
             abs = Paths.target cwd root rel
             /\ Paths.within (Paths.resolve cwd [root]) abs).
  { intros abs H. unfold Paths.ensureWithinProject in H. fold (Paths.target cwd root rel) in H.
    destruct (Paths.startsWith (Paths.target cwd root rel)
                (Paths.resolve cwd [root] +:+ "/")) eqn:Hsw;
      destruct (String.eqb (Paths.target cwd root rel) (Paths.resolve cwd [root])) eqn:Heq;
      cbn in H; try discriminate; injection H as <-;
      (split; [reflexivity | apply guard_within; auto]). }
  split; [exact Hret|]. split.
  - intros Hout.
    destruct (Paths.ensureWithinProject cwd root rel) as [abs|e] eqn:Hres.
    + destruct (Hret abs eq_refl) as [-> Hin]. contradiction.
    + unfold Paths.ensureWithinProject in Hres.
      destruct (negb _ && negb _); [congruence | discriminate].
  - intros Hcwd. split; apply resolve_plain; assumption.
Qed.

Lemma ensureWithinProject_fails_closed_witness :
  Paths.ensureWithinProject "/srv" "/home/u/deck" "../../etc/passwd"
  = Throw Paths.invalidPath
  /\ Paths.ensureWithinProject "/srv" "/home/u/deck" "../decks/v1.png"
     = Throw Paths.invalidPath
  /\ Paths.within "/home/u/deck" "/home/u/deck/images/slide-0001/v1.png"
  /\ Paths.plain "/home/u/deck/images/slide-0001/v1.png".
Proof.
  split; [|split; [|split]].
  - apply (proj1 (proj2 (ensureWithinProject_fails_closed
                           "/srv" "/home/u/deck" "../../etc/passwd"))).
    intros [k Hk]. vm_compute in Hk. discriminate.
  - apply (proj1 (proj2 (ensureWithinProject_fails_closed
                           "/srv" "/home/u/deck" "../decks/v1.png"))).
    intros [k Hk]. vm_compute in Hk. discriminate.
  - apply (proj1 (ensureWithinProject_fails_closed
                    "/srv" "/home/u/deck" "images/slide-0001/v1.png")
             "/home/u/deck/images/slide-0001/v1.png").
    vm_compute. reflexivity.
  - apply (proj2 (proj2 (ensureWithinProject_fails_closed
                           "/srv" "/home/u/deck" "images/slide-0001/v1.png"))).
    reflexivity.
Defined.

Section RouteFacts.
Import Paths.

Lemma properName_kept seg :
  properName seg ->
  String.eqb seg "" = false /\ String.eqb seg "." = false
  /\ String.eqb seg ".." = false.
Proof.
  intros (_ & H1 & H2 & H3).
  repeat split; apply String.eqb_neq; assumption.
Qed.

(** [normalizeString] keeps proper names as they come. *)
Lemma normalizeOnto_push allow segs : forall stack rest,
  Forall properName segs ->
  normalizeOnto allow stack (segs ++ rest)
  = normalizeOnto allow (rev segs ++ stack) rest.
Proof.
  induction segs as [|seg segs IH]; intros stack rest Hall; [reflexivity|].
  apply Forall_cons in Hall as [Hseg Hall].
  destruct (properName_kept seg Hseg) as (H1 & H2 & H3).
  cbn [app normalizeOnto]. rewrite H1, H2, H3. cbn [orb].
  rewrite (IH _ _ Hall). cbn [rev]. rewrite <- app_assoc. reflexivity.
Qed.

Lemma normalizeOnto_skip allow stack rest :
  normalizeOnto allow stack ("" :: rest) = normalizeOnto allow stack rest.
Proof. reflexivity. Qed.

Lemma normalizeOnto_keep allow stack seg rest :
  properName seg ->
  normalizeOnto allow stack (seg :: rest) = normalizeOnto allow (seg :: stack) rest.
Proof.
  intros Hseg. destruct (properName_kept seg Hseg) as (H1 & H2 & H3).
  cbn [normalizeOnto]. rewrite H1, H2, H3. reflexivity.
Qed.

Lemma normalizeOnto_up allow top stack rest :
  properName top ->
  normalizeOnto allow (top :: stack) (".." :: rest) = normalizeOnto allow stack rest.
Proof.
  intros Htop. destruct (properName_kept top Htop) as (_ & _ & H3).
  cbn [normalizeOnto]. change (String.eqb ".." "") with false.
  change (String.eqb ".." ".") with false. change (String.eqb ".." "..") with true.
  cbn [orb]. rewrite H3. reflexivity.
Qed.

Lemma normalizeOnto_end allow stack : normalizeOnto allow stack [] = rev stack.
Proof. reflexivity. Qed.

Lemma proper_noSlash segs :
  Forall properName segs -> Forall (fun seg => noSlash seg = true) segs.
Proof.
  intros H. eapply Forall_impl; [exact H|]. intros seg [Hs _]. exact Hs.
Qed.

(** The segments of a rooted path of proper names followed by more. *)
Lemma split_rooted segs rest :
  Forall properName segs -> segs <> [] ->
  split (("/" +:+ join segs) +:+ "/" +:+ rest) = "" :: segs ++ split rest.
Proof.
  intros Hall Hne. rewrite append_assoc, append_cons, append_nil.
  cbn [split isSlash]. change (Ascii.eqb "/" "/") with true. cbn [andb]. f_equal.
  change ("/" +:+ rest) with (String "/" rest).
  rewrite split_append_slash, (split_join _ (proper_noSlash _ Hall) Hne).
  reflexivity.
Qed.

Lemma isAbsolute_rooted x : isAbsolute ("/" +:+ x) = true.
Proof. reflexivity. Qed.

(** The last step of the loop of [resolve] at an absolute path. *)
Lemma gather_at_root cwd root acc :
  isAbsolute root = true ->
  gather cwd [root] acc = (root +:+ "/" +:+ acc, true).
Proof.
  intros Habs. cbn [gather]. rewrite Habs.
  destruct root; [discriminate | reflexivity].
Qed.

(** A rooted path of proper names resolves to itself. *)
Lemma resolve_root cwd segs :
  Forall properName segs -> segs <> [] ->
  resolve cwd ["/" +:+ join segs] = "/" +:+ join segs.
Proof.
  intros Hall Hne. unfold resolve. cbn [rev app].
  rewrite (gather_at_root cwd _ "" (isAbsolute_rooted _)). cbn [negb].
  unfold normalizeString. rewrite (split_rooted _ _ Hall Hne).
  change (split "") with [""]. rewrite normalizeOnto_skip.
  rewrite (normalizeOnto_push false segs [] _ Hall), app_nil_r.
  rewrite normalizeOnto_skip, normalizeOnto_end, rev_involutive.
  reflexivity.
Qed.

Lemma join_snoc l x : l <> [] -> join (l ++ [x]) = join l +:+ "/" +:+ x.
Proof.
  induction l as [|y l IH]; intros Hl; [congruence|].
  destruct l as [|z l]; [reflexivity|].
  change (join ((y :: z :: l) ++ [x])) with (y +:+ "/" +:+ join ((z :: l) ++ [x])).
  rewrite IH by discriminate.
  change (join (y :: z :: l)) with (y +:+ "/" +:+ join (z :: l)).
  rewrite !append_assoc. reflexivity.
Qed.

(** A relative path that goes into a folder and straight out of it again
    resolves to a file right below the root. *)
Lemma resolve_in_and_out cwd segs dir f :
  Forall properName segs -> segs <> [] -> properName dir -> properName f ->
  resolve cwd ["/" +:+ join segs; dir +:+ "/../" +:+ f]
  = ("/" +:+ join segs) +:+ "/" +:+ f.
Proof.
  intros Hall Hne Hdir Hf. unfold resolve. cbn [rev app].
  assert (Hrel : String.eqb (dir +:+ "/../" +:+ f) "" = false).
  { destruct Hdir as (_ & Hd & _). destruct dir; [congruence | reflexivity]. }
  assert (Hnabs : isAbsolute (dir +:+ "/../" +:+ f) = false).
  { destruct Hdir as (Hd & Hd' & _). destruct dir as [|c dir]; [congruence|].
    cbn in Hd. apply andb_prop in Hd as [Hc _].
    rewrite append_cons. cbn [isAbsolute].
    destruct (isSlash c); [discriminate | reflexivity]. }
  change (gather cwd [dir +:+ "/../" +:+ f; "/" +:+ join segs] "")
    with (if String.eqb (dir +:+ "/../" +:+ f) ""
          then gather cwd ["/" +:+ join segs] ""
          else if isAbsolute (dir +:+ "/../" +:+ f)
               then ((dir +:+ "/../" +:+ f) +:+ "/" +:+ "", true)
               else gather cwd ["/" +:+ join segs]
                      ((dir +:+ "/../" +:+ f) +:+ "/" +:+ "")).
  rewrite Hrel, Hnabs.
  rewrite (gather_at_root cwd _ _ (isAbsolute_rooted _)). cbn [negb].
  unfold normalizeString. rewrite (split_rooted _ _ Hall Hne).
  replace ((dir +:+ "/../" +:+ f) +:+ "/" +:+ "")
    with (dir +:+ String "/" (".." +:+ String "/" (f +:+ String "/" "")))
    by (rewrite !append_assoc; reflexivity).
  rewrite !split_append_slash.
  rewrite (split_noSlash dir (proj1 Hdir)), (split_noSlash f (proj1 Hf)).
  change (split "..") with [".."]. change (split "") with [""].
  cbn [app]. rewrite normalizeOnto_skip.
  rewrite (normalizeOnto_push false segs [] _ Hall), app_nil_r.
  rewrite (normalizeOnto_keep _ _ _ _ Hdir), (normalizeOnto_up _ _ _ _ Hdir).
  rewrite (normalizeOnto_keep _ _ _ _ Hf), normalizeOnto_skip, normalizeOnto_end.
  cbn [rev]. rewrite rev_involutive, (join_snoc _ _ Hne).
  rewrite !append_assoc. reflexivity.
Qed.

End RouteFacts.

(** * The names of the image files *)
Section NumeralFacts.
Import ImageFiles.

Lemma pretty_N_char_numeral x : numeralChar (pretty_N_char x) = true.
Proof.
  destruct x as [|p]; [reflexivity|].
  do 4 (try destruct p as [p|p|]); reflexivity.
Qed.

Lemma pretty_N_go_numeral x : forall s,
  numeral s = true -> numeral (pretty_N_go x s) = true.
Proof.
  induction x as [x IH] using (well_founded_induction N.lt_wf_0). intros s Hs.
  destruct (decide (x = 0%N)) as [->|Hx]; [rewrite pretty_N_go_0; exact Hs|].
  rewrite pretty_N_go_step by lia. apply IH.
  - apply N.div_lt; lia.
  - cbn [numeral allChars]. rewrite pretty_N_char_numeral. exact Hs.
Qed.

(** [String(n)] of a positive number does not start with a zero. *)
Lemma pretty_N_go_head x : forall s,
  (0 < x)%N ->
  exists c r, pretty_N_go x s = String c r /\ c <> "0"%char.
Proof.
  induction x as [x IH] using (well_founded_induction N.lt_wf_0). intros s Hx.
  rewrite pretty_N_go_step by lia.
  destruct (decide (x `div` 10 = 0)%N) as [Hz|Hz].
  - rewrite Hz, pretty_N_go_0. eexists. eexists. split; [reflexivity|].
    intros Hc. change "0"%char with (pretty_N_char 0) in Hc.
    apply pretty_N_char_inj in Hc; [|apply N.mod_lt; lia | lia].
    apply N.div_small_iff in Hz; [|lia].
    rewrite N.mod_small in Hc by lia. lia.
  - apply IH; [apply N.div_lt; lia | apply N.neq_0_lt_0, Hz].
Qed.

Lemma pretty_Z_numeral (n : Z) : numeral (pretty n) = true.
Proof.
  destruct n as [|p|p]; [reflexivity| |];
    unfold pretty, pretty_Z, pretty, pretty_positive, pretty, pretty_N;
    (destruct (decide (N.pos p = 0%N)) as [Hp|_]; [discriminate Hp|]).
  - apply pretty_N_go_numeral. reflexivity.
  - change ("-" +:+ pretty_N_go (N.pos p) "")
      with (String "-" (pretty_N_go (N.pos p) "")).
    cbn [numeral allChars]. apply pretty_N_go_numeral. reflexivity.
Qed.

Lemma pretty_Z_head (n : Z) :
  n <> 0 -> exists c r, pretty n = String c r /\ c <> "0"%char.
Proof.
  destruct n as [|p|p]; [congruence| |]; intros _;
    unfold pretty, pretty_Z, pretty, pretty_positive, pretty, pretty_N;
    (destruct (decide (N.pos p = 0%N)) as [Hp|_]; [discriminate Hp|]).
  - apply pretty_N_go_head. lia.
  - eexists. eexists. split; [reflexivity | discriminate].
Qed.

End NumeralFacts.

Section NameFacts.
Import Paths PathNames ImageFiles.

Lemma allChars_append p a b : allChars p (a +:+ b) = allChars p a && allChars p b.
Proof.
  induction a as [|c a IH]; [reflexivity|].
  rewrite append_cons. cbn [allChars]. rewrite IH, andb_assoc. reflexivity.
Qed.

Lemma noSlash_allChars s : noSlash s = allChars (fun c => negb (isSlash c)) s.
Proof. induction s as [|c s IH]; [reflexivity|]. cbn. rewrite IH. reflexivity. Qed.

Lemma noSlash_append a b : noSlash (a +:+ b) = noSlash a && noSlash b.
Proof. rewrite !noSlash_allChars. apply allChars_append. Qed.

Lemma numeral_without ch s :
  numeralChar ch = false ->
  numeral s = true -> allChars (fun c => negb (Ascii.eqb c ch)) s = true.
Proof.
  intros Hch. induction s as [|c s IH]; [reflexivity|]. cbn [numeral allChars].
  intros H. apply andb_prop in H as [Hc Hs]. rewrite (IH Hs), andb_true_r.
  destruct (Ascii.eqb_spec c ch) as [->|_]; [congruence | reflexivity].
Qed.

Lemma numeral_noSlash s : numeral s = true -> noSlash s = true.
Proof. rewrite noSlash_allChars. apply (numeral_without "/"). reflexivity. Qed.

(** Two strings cut at the first occurrence of a character. *)
Lemma cut_at ch a : forall b x y,
  allChars (fun c => negb (Ascii.eqb c ch)) a = true ->
  allChars (fun c => negb (Ascii.eqb c ch)) b = true ->
  a +:+ String ch x = b +:+ String ch y -> a = b /\ x = y.
Proof.
  induction a as [|c a IH]; intros [|c' b] x y Ha Hb Heq.
  - rewrite !append_nil in Heq. injection Heq as ->. auto.
  - rewrite append_nil, append_cons in Heq. injection Heq as <- _.
    cbn in Hb. rewrite Ascii.eqb_refl in Hb. discriminate.
  - rewrite append_nil, append_cons in Heq. injection Heq as -> _.
    cbn in Ha. rewrite Ascii.eqb_refl in Ha. discriminate.
  - rewrite !append_cons in Heq. injection Heq as -> Heq.
    cbn in Ha, Hb. apply andb_prop in Ha as [_ Ha]. apply andb_prop in Hb as [_ Hb].
    destruct (IH b x y Ha Hb Heq) as [-> ->]. auto.
Qed.

Lemma append_cancel_l a : forall b c, a +:+ b = a +:+ c -> b = c.
Proof.
  induction a as [|x a IH]; intros b c H; [exact H|].
  rewrite !append_cons in H. injection H as H. apply IH, H.
Qed.

Lemma zeros_S k :
  String.concat "" (replicate (S k) "0")
  = String "0" (String.concat "" (replicate k "0")).
Proof. destruct k; reflexivity. Qed.

Lemma dropZeros_zeros k s :
  dropZeros (String.concat "" (replicate k "0") +:+ s) = dropZeros s.
Proof.
  induction k as [|k IH]; [reflexivity|].
  rewrite zeros_S, append_cons. cbn [dropZeros].
  change (Ascii.eqb "0" "0") with true. exact IH.
Qed.

Lemma numeral_zeros k : numeral (String.concat "" (replicate k "0")) = true.
Proof. induction k as [|k IH]; [reflexivity|]. rewrite zeros_S. exact IH. Qed.

Lemma pad4_numeral n : numeral (pad4 n) = true.
Proof.
  unfold pad4, numeral. rewrite allChars_append.
  fold (numeral (pretty n)).
  fold (numeral (String.concat "" (replicate (4 - String.length (pretty n)) "0"))).
  rewrite numeral_zeros, pretty_Z_numeral. reflexivity.
Qed.

Lemma dropZeros_pad4 n : n <> 0 -> dropZeros (pad4 n) = pretty n.
Proof.
  intros Hn. unfold pad4. rewrite dropZeros_zeros.
  destruct (pretty_Z_head n Hn) as (c & r & -> & Hc). cbn [dropZeros].
  destruct (Ascii.eqb_spec c "0"); [contradiction | reflexivity].
Qed.

(** [pad4] gives different strings for different numbers. *)
Lemma pad4_inj n m : pad4 n = pad4 m -> n = m.
Proof.
  intros H. apply (f_equal dropZeros) in H.
  destruct (decide (n = 0)) as [->|Hn], (decide (m = 0)) as [->|Hm];
    [reflexivity | | |].
  - rewrite (dropZeros_pad4 m Hm) in H.
    destruct (pretty_Z_head m Hm) as (c & r & Hr & _). rewrite Hr in H.
    discriminate H.
  - rewrite (dropZeros_pad4 n Hn) in H.
    destruct (pretty_Z_head n Hn) as (c & r & Hr & _). rewrite Hr in H.
    discriminate H.
  - rewrite (dropZeros_pad4 n Hn), (dropZeros_pad4 m Hm) in H.
    apply (inj pretty). exact H.
Qed.

Lemma slideDirName_proper d : properName (slideDirName d).
Proof.
  unfold slideDirName.
  change ("slide-" +:+ pad4 (d + 1))
    with (String "s" (String "l" (String "i" (String "d" (String "e"
            (String "-" (pad4 (d + 1)))))))).
  split; [|split; [discriminate | split; discriminate]].
  cbn [noSlash]. apply numeral_noSlash, pad4_numeral.
Qed.

Lemma versionFileName_proper v ext :
  noSlash ext = true -> properName (versionFileName v ext).
Proof.
  intros Hext. unfold versionFileName.
  change ("v" +:+ pretty v +:+ "." +:+ ext)
    with (String "v" (pretty v +:+ String "." ext)).
  split; [|split; [discriminate | split; discriminate]].
  cbn [noSlash]. rewrite noSlash_append. cbn [noSlash].
  rewrite (numeral_noSlash _ (pretty_Z_numeral v)), Hext. reflexivity.
Qed.

Lemma slideDirName_inj d d' : slideDirName d = slideDirName d' -> d = d'.
Proof.
  unfold slideDirName. intros H. apply append_cancel_l, pad4_inj in H. lia.
Qed.

Lemma versionFileName_inj v ext v' ext' :
  versionFileName v ext = versionFileName v' ext' -> v = v' /\ ext = ext'.
Proof.
  unfold versionFileName. intros H. apply append_cancel_l in H.
  change ("." +:+ ext) with (String "." ext) in H.
  change ("." +:+ ext') with (String "." ext') in H.
  apply cut_at in H as [Hv ->];
    [|apply (numeral_without "."); [reflexivity | apply pretty_Z_numeral]..].
  split; [|reflexivity]. apply (inj pretty). exact Hv.
Qed.

End NameFacts.

Section JoinFacts.
Import Paths PathNames ImageFiles.

Lemma rev_app_lastChar s : forall c acc,
  exists r, String.rev_app (String c s) acc = String (lastChar s c) r.
Proof.
  induction s as [|c' s IH]; intros c acc; [eexists; reflexivity|].
  destruct (IH c' (String c acc)) as [r Hr]. exists r. exact Hr.
Qed.

Lemma lastChar_append a : forall b c,
  lastChar (a +:+ b) c = lastChar b (lastChar a c).
Proof.
  induction a as [|x a IH]; intros b c; [reflexivity|].
  rewrite append_cons. cbn [lastChar]. apply IH.
Qed.

Lemma lastChar_noSlash s : forall c,
  noSlash s = true -> isSlash c = false -> isSlash (lastChar s c) = false.
Proof.
  induction s as [|x s IH]; intros c Hs Hc; [exact Hc|].
  cbn in Hs. apply andb_prop in Hs as [Hx Hs]. apply negb_true_iff in Hx.
  cbn [lastChar]. apply IH; assumption.
Qed.

(** A path that ends in a proper name does not end in a slash. *)
Lemma no_trailing_slash p seg :
  properName seg -> isAbsolute (String.rev (p +:+ seg)) = false.
Proof.
  intros (Hns & Hne & _). destruct seg as [|x seg]; [congruence|].
  cbn in Hns. apply andb_prop in Hns as [Hx Hns]. apply negb_true_iff in Hx.
  assert (Hlast : forall c, isSlash (lastChar (p +:+ String x seg) c) = false).
  { intros c. rewrite lastChar_append. cbn [lastChar].
    apply lastChar_noSlash; assumption. }
  destruct (p +:+ String x seg) as [|c q] eqn:Hq.
  - destruct p; discriminate Hq.
  - unfold String.rev. destruct (rev_app_lastChar q c "") as [r ->].
    cbn [isAbsolute]. apply (Hlast c).
Qed.

Lemma join_last segs seg :
  exists p, Paths.join (segs ++ [seg]) = p +:+ seg.
Proof.
  destruct segs as [|x segs]; [exists ""; reflexivity|].
  exists (Paths.join (x :: segs) +:+ "/").
  rewrite join_snoc by discriminate. rewrite append_assoc. reflexivity.
Qed.

Lemma join_app l k :
  l <> [] -> k <> [] ->
  Paths.join (l ++ k) = Paths.join l +:+ "/" +:+ Paths.join k.
Proof.
  intros Hl Hk. induction l as [|x l IH]; [congruence|].
  destruct l as [|y l].
  - destruct k; [congruence | reflexivity].
  - change (Paths.join ((x :: y :: l) ++ k))
      with (x +:+ "/" +:+ Paths.join ((y :: l) ++ k)).
    rewrite IH by discriminate.
    change (Paths.join (x :: y :: l)) with (x +:+ "/" +:+ Paths.join (y :: l)).
    rewrite !append_assoc. reflexivity.
Qed.

Lemma filter_proper segs :
  Forall properName segs ->
  List.filter (fun s => negb (String.eqb s "")) segs = segs.
Proof.
  induction 1 as [|seg segs Hseg _ IH]; [reflexivity|]. cbn [List.filter].
  destruct (properName_kept seg Hseg) as (-> & _). cbn [negb]. rewrite IH.
  reflexivity.
Qed.

Lemma join_nonempty seg segs :
  seg <> "" -> String.eqb (Paths.join (seg :: segs)) "" = false.
Proof.
  intros Hne. destruct seg as [|c seg]; [congruence|].
  destruct segs; reflexivity.
Qed.

Lemma join_relative seg segs :
  properName seg -> isAbsolute (Paths.join (seg :: segs)) = false.
Proof.
  intros (Hns & Hne & _). destruct seg as [|c seg]; [congruence|].
  cbn in Hns. apply andb_prop in Hns as [Hc _]. apply negb_true_iff in Hc.
  destruct segs; exact Hc.
Qed.

Lemma normalizeOnto_names allow segs :
  Forall properName segs -> normalizeOnto allow [] segs = segs.
Proof.
  intros Hall. rewrite <- (app_nil_r segs) at 1.
  rewrite (normalizeOnto_push _ _ _ _ Hall), normalizeOnto_end, app_nil_r.
  apply rev_involutive.
Qed.

(** [path.posix.join] of proper names puts slashes between them. *)
Lemma posix_join_proper segs :
  Forall properName segs -> segs <> [] -> PathNames.join segs = Paths.join segs.
Proof.
  intros Hall Hne. unfold PathNames.join. rewrite (filter_proper _ Hall).
  destruct segs as [|seg segs]; [congruence|].
  pose proof (Forall_inv Hall) as Hseg.
  unfold normalize.
  rewrite join_nonempty by (destruct Hseg as (_ & H & _); exact H).
  rewrite (join_relative _ _ Hseg).
  assert (Htrail : isAbsolute (String.rev (Paths.join (seg :: segs))) = false).
  { destruct (exists_last Hne) as (l & x & Hlx). rewrite Hlx.
    destruct (join_last l x) as [p ->]. apply no_trailing_slash.
    rewrite Hlx in Hall. apply Forall_app in Hall as [_ Hx].
    exact (Forall_inv Hx). }
  rewrite Htrail. unfold normalizeString.
  rewrite (split_join _ (proper_noSlash _ Hall) Hne).
  cbn [negb]. rewrite (normalizeOnto_names true _ Hall). rewrite join_nonempty by (destruct Hseg as (_ & H & _); exact H).
  reflexivity.
Qed.

(** [path.join] of a rooted path of proper names and more proper names. *)
Lemma posix_join_rooted segs tail :
  Forall properName segs -> segs <> [] ->
  Forall properName tail -> tail <> [] ->
  PathNames.join (("/" +:+ Paths.join segs) :: tail)
  = ("/" +:+ Paths.join segs) +:+ "/" +:+ Paths.join tail.
Proof.
  intros Hsegs Hne Htail Hnt. unfold PathNames.join.
  cbn [List.filter]. change (String.eqb ("/" +:+ Paths.join segs) "") with false.
  cbn [negb]. rewrite (filter_proper _ Htail).
  destruct tail as [|t tail]; [congruence|].
  change (Paths.join (("/" +:+ Paths.join segs) :: t :: tail))
    with (("/" +:+ Paths.join segs) +:+ "/" +:+ Paths.join (t :: tail)).
  unfold normalize.
  change (String.eqb (("/" +:+ Paths.join segs) +:+ "/" +:+ Paths.join (t :: tail)) "")
    with false.
  change (isAbsolute (("/" +:+ Paths.join segs) +:+ "/" +:+ Paths.join (t :: tail)))
    with true.
  assert (Htrail : isAbsolute (String.rev (("/" +:+ Paths.join segs) +:+ "/"
                                             +:+ Paths.join (t :: tail))) = false).
  { destruct (exists_last Hnt) as (l & x & Hlx). rewrite Hlx.
    destruct (join_last l x) as [p ->]. rewrite <- !append_assoc.
    apply no_trailing_slash.
    rewrite Hlx in Htail. apply Forall_app in Htail as [_ Hx].
    exact (Forall_inv Hx). }
  rewrite Htrail. unfold normalizeString. cbn [negb].
  rewrite (split_rooted _ _ Hsegs Hne).
  rewrite (split_join _ (proper_noSlash _ Htail) Hnt).
  rewrite normalizeOnto_skip.
  rewrite normalizeOnto_names by (apply Forall_app; split; assumption).
  rewrite (join_app segs (t :: tail) Hne Hnt).
  assert (Hbody : String.eqb (Paths.join segs +:+ "/" +:+ Paths.join (t :: tail)) ""
                  = false).
  { destruct segs as [|s segs]; [congruence|].
    pose proof (Forall_inv Hsegs) as (_ & Hs & _).
    destruct s as [|c s]; [congruence|]. destruct segs; reflexivity. }
  rewrite Hbody. rewrite append_assoc. reflexivity.
Qed.

Lemma posix_join_rooted_name segs name :
  Forall properName segs -> segs <> [] -> properName name ->
  PathNames.join ["/" +:+ Paths.join segs; name]
  = "/" +:+ Paths.join (segs ++ [name]).
Proof.
  intros Hsegs Hne Hname.
  rewrite (posix_join_rooted segs [name] Hsegs Hne) by (auto; discriminate).
  rewrite (join_snoc segs name Hne), append_assoc. reflexivity.
Qed.

End JoinFacts.

(** * Properties of the tables and of the Outline stage *)
Section StoreFacts.
Import Store.

Lemma existsb_eqb_elem {A : Type} (f : A -> string) (k : string) (l : list A) :
  existsb (fun x => String.eqb (f x) k) l = true <-> k ∈ f <$> l.
Proof.
  induction l as [|x l IH]; cbn.
  - split; [discriminate | intros H; inversion H].
  - rewrite orb_true_iff, IH, elem_of_cons, String.eqb_eq. intuition congruence.
Qed.

Lemma existsb_eqb_not_elem {A : Type} (f : A -> string) (k : string) (l : list A) :
  existsb (fun x => String.eqb (f x) k) l = false <-> k ∉ f <$> l.
Proof.
  rewrite <- existsb_eqb_elem. destruct (existsb _ l); intuition congruence.
Qed.

Lemma filter_all_true {A : Type} (l : list A) : List.filter (fun _ => true) l = l.
Proof. induction l as [|x l IH]; cbn; congruence. Qed.

Lemma filter_twice {A : Type} (f g : A -> bool) (l : list A) :
  List.filter f (List.filter g l) = List.filter (fun x => g x && f x) l.
Proof.
  induction l as [|x l IH]; cbn; [reflexivity|].
  destruct (g x); cbn; [destruct (f x)|]; rewrite IH; reflexivity.
Qed.

Lemma elem_of_filter_bool {A : Type} (f : A -> bool) (l : list A) (x : A) :
  x ∈ List.filter f l <-> x ∈ l /\ f x = true.
Proof. rewrite !list_elem_of_In. apply List.filter_In. Qed.

Lemma with_image_versions_same d : with_image_versions d (slide_image_versions d) = d.
Proof. destruct d; reflexivity. Qed.

End StoreFacts.

Section OutlineFacts.
Import Store Pipeline.

(** Deleting the versions of the slides [ids], one slide after the other. *)
Lemma sql_for_deleteImageVersions ids d :
  sql_for ids deleteImageVersionsOf d
  = (Return tt,
     with_image_versions d
       (List.filter (fun r => negb (existsb (String.eqb (slide_id r)) ids))
                    (slide_image_versions d))).
Proof.
  revert d. induction ids as [|i ids IH]; intros d.
  - cbn. rewrite filter_all_true, with_image_versions_same. reflexivity.
  - cbn [sql_for]. unfold mbind, sql_bind.
    unfold deleteImageVersionsOf at 1, sql_exec. rewrite IH. cbn.
    rewrite filter_twice. f_equal. f_equal.
    apply List.filter_ext. intros r. rewrite negb_orb. reflexivity.
Qed.

(** [clearSlides] goes through, and what it leaves. *)
Lemma clearSlides_result pid d :
  clearSlides pid d
  = (Return tt,
     with_slides
       (with_image_versions d
          (List.filter
             (fun r => negb (existsb (String.eqb (slide_id r)) (slideIdsOf pid d)))
             (slide_image_versions d)))
       (List.filter (fun s => negb (String.eqb (s_project_id s) pid)) (slides d))).
Proof.
  unfold clearSlides, mbind, sql_bind, sql_get.
  fold (slideIdsOf pid d). rewrite sql_for_deleteImageVersions.
  unfold deleteSlidesOfProject. cbn [slides slide_image_versions with_image_versions].
  match goal with |- context [if ?c then _ else _] => destruct c eqn:Hfk end;
    [|reflexivity].
  exfalso. apply existsb_exists in Hfk as (s & Hs & Hrefd).
  apply andb_prop in Hrefd as [Hpid Hrefd].
  apply existsb_exists in Hrefd as (r & Hr & Heq).
  apply List.filter_In in Hr as [_ Hkeep].
  apply negb_true_iff in Hkeep.
  assert (Hin : existsb (String.eqb (slide_id r)) (slideIdsOf pid d) = true).
  { apply existsb_exists. exists (s_id s). split; [|exact Heq].
    unfold slideIdsOf. apply list_elem_of_In, list_elem_of_fmap.
    exists s. split; [reflexivity|]. apply elem_of_filter_bool.
    split; [apply list_elem_of_In; exact Hs | exact Hpid]. }
  congruence.
Qed.

Section Inserting.
Variable pid : string.
Variable newSlideId : Z -> string.
Variable now : string.

Lemma insertSectionSlides_result rows : forall sec idx deck d,
  pid ∈ p_id <$> projects d ->
  (forall k, deck <= k < deck + Z.of_nat (length rows) ->
             newSlideId k ∉ s_id <$> slides d) ->
  (forall j k, deck <= j < deck + Z.of_nat (length rows) ->
               deck <= k < deck + Z.of_nat (length rows) ->
               newSlideId j = newSlideId k -> j = k) ->
  insertSectionSlides pid newSlideId now sec idx rows deck d
  = (Return (deck + Z.of_nat (length rows)),
     with_slides d (slides d ++ sectionRows pid newSlideId now sec idx rows deck)).
Proof.
  induction rows as [|slide rows IH]; intros sec idx deck d Hproj Hfresh Hinj.
  - cbn. rewrite Z.add_0_r, app_nil_r. destruct d; reflexivity.
  - cbn [insertSectionSlides sectionRows]. unfold mbind, sql_bind.
    unfold insertSlide at 1. cbn [s_id s_project_id].
    assert (Hpk : existsb (fun s => String.eqb (s_id s) (newSlideId deck)) (slides d)
                  = false).
    { apply existsb_eqb_not_elem. apply Hfresh. cbn [length]. lia. }
    assert (Hfk : existsb (fun p => String.eqb (p_id p) pid) (projects d) = true)
      by (apply existsb_eqb_elem; exact Hproj).
    rewrite Hpk, Hfk. cbn [negb].
    rewrite IH.
    + cbn [length slides with_slides projects outline_versions theme_versions
           slide_image_versions].
      f_equal; [f_equal; lia|].
      rewrite <- app_assoc. reflexivity.
    + exact Hproj.
    + intros k Hk. cbn [slides with_slides]. rewrite fmap_app. cbn.
      rewrite elem_of_app, list_elem_of_singleton. intros [Hin|Heq].
      * revert Hin. apply Hfresh. cbn [length]. lia.
      * apply Hinj in Heq; cbn [length]; lia.
    + intros j k Hj Hk. apply Hinj; cbn [length]; lia.
Qed.

Lemma length_sectionRows rows sec idx deck :
  length (sectionRows pid newSlideId now sec idx rows deck) = length rows.
Proof.
  revert idx deck. induction rows as [|r rows IH]; intros idx deck; cbn;
    [reflexivity | rewrite IH; reflexivity].
Qed.

Lemma sectionRows_ids rows sec idx deck :
  s_id <$> sectionRows pid newSlideId now sec idx rows deck
  = newSlideId <$> seqZ deck (Z.of_nat (length rows)).
Proof.
  revert idx deck. induction rows as [|r rows IH]; intros idx deck; [reflexivity|].
  cbn [sectionRows length fmap list_fmap s_id].
  rewrite (seqZ_cons deck) by lia. cbn [fmap list_fmap]. f_equal.
  replace (Z.pred (Z.of_nat (S (length rows)))) with (Z.of_nat (length rows)) by lia.
  replace (Z.succ deck) with (deck + 1) by lia. apply IH.
Qed.

Lemma insertSections_result sections : forall sec deck d,
  pid ∈ p_id <$> projects d ->
  (forall k, deck <= k < deck + slideCount sections ->
             newSlideId k ∉ s_id <$> slides d) ->
  (forall j k, deck <= j < deck + slideCount sections ->
               deck <= k < deck + slideCount sections ->
               newSlideId j = newSlideId k -> j = k) ->
  insertSections pid newSlideId now sec sections deck d
  = (Return (deck + slideCount sections),
     with_slides d (slides d ++ outlineRowsFrom pid newSlideId now sec sections deck)).
Proof.
  induction sections as [|section sections IH]; intros sec deck d Hproj Hfresh Hinj.
  - cbn. unfold slideCount. cbn. rewrite Z.add_0_r, app_nil_r. destruct d; reflexivity.
  - assert (Hcount : slideCount (section :: sections)
                     = Z.of_nat (length (sec_slides section)) + slideCount sections).
    { unfold slideCount. cbn. rewrite length_app. lia. }
    assert (Hnn : 0 <= slideCount sections) by (unfold slideCount; lia).
    cbn [insertSections outlineRowsFrom]. unfold mbind, sql_bind.
    rewrite insertSectionSlides_result.
    + rewrite IH.
      * cbn [slides with_slides]. rewrite Hcount. f_equal; [f_equal; lia|].
        rewrite <- app_assoc. reflexivity.
      * exact Hproj.
      * intros k Hk. cbn [slides with_slides]. rewrite fmap_app, elem_of_app.
        intros [Hin|Hin].
        -- revert Hin. apply Hfresh. lia.
        -- rewrite sectionRows_ids in Hin.
           apply list_elem_of_fmap in Hin as (j & Heq & Hj).
           apply elem_of_seqZ in Hj. apply Hinj in Heq; lia.
      * intros j k Hj Hk. apply Hinj; lia.
    + exact Hproj.
    + intros k Hk. apply Hfresh. lia.
    + intros j k Hj Hk. apply Hinj; lia.
Qed.

Lemma outlineRowsFrom_pending sections : forall sec deck,
  Forall (fun r => status r = pending /\ s_project_id r = pid
                   /\ content_json r = None /\ error_message r = None)
         (outlineRowsFrom pid newSlideId now sec sections deck).
Proof.
  induction sections as [|section sections IH]; intros sec deck; cbn;
    [constructor|].
  apply Forall_app. split; [|apply IH].
  generalize 0 at 1. generalize deck.
  induction (sec_slides section) as [|r rows IHr]; intros deck' idx; cbn;
    constructor; auto.
Qed.

End Inserting.

End OutlineFacts.

(** C8. Storing a generated outline first deletes every slide row of the
    project together with every image version of those slides, and then
    inserts the new slide rows, all [pending]; afterwards every image version
    still belongs to a slide that exists. *)
Theorem commitOutline_replaces_slides_and_versions :
  forall (pid : string) (newSlideId : Z -> string) (now : string)
         (sections : list Pipeline.outline_section)
         (outlineJson newOutlineId : string) (d : Store.db),
    pid ∈ Store.p_id <$> Store.projects d ->
    Store.versionsHaveSlides d ->
    newOutlineId ∉ Store.jv_id <$> Store.outline_versions d ->
    (forall k, 0 <= k < Pipeline.slideCount sections ->
               newSlideId k ∉ Store.s_id <$> Store.slides d) ->
    (forall j k, 0 <= j < Pipeline.slideCount sections ->
                 0 <= k < Pipeline.slideCount sections ->
                 newSlideId j = newSlideId k -> j = k) ->
    exists cleared d',
      Pipeline.clearSlides pid d = (Return tt, cleared)
      /\ Store.slides cleared
         = List.filter (fun s => negb (String.eqb (Store.s_project_id s) pid))
                       (Store.slides d)
      /\ Store.slide_image_versions cleared
         = List.filter
             (fun r => negb (existsb (String.eqb (Store.slide_id r))
                                     (Pipeline.slideIdsOf pid d)))
             (Store.slide_image_versions d)
      /\ Pipeline.commitOutline pid newSlideId now sections outlineJson newOutlineId d
         = (Return (Pipeline.slideCount sections), d')
      /\ Store.slides d'
         = Store.slides cleared ++ Pipeline.outlineRows pid newSlideId now sections
      /\ Forall (fun r => Store.status r = Store.pending
                          /\ Store.s_project_id r = pid)
                (Pipeline.outlineRows pid newSlideId now sections)
      /\ Store.slide_image_versions d' = Store.slide_image_versions cleared
      /\ Store.versionsHaveSlides d'.
Proof.
  intros pid newSlideId now sections outlineJson newOutlineId d
         Hproj Hfk Hout Hfresh Hinj.
  pose proof (clearSlides_result pid d) as Hclear.
  set (cleared := Store.with_slides _ _) in Hclear.
  assert (Hsl : Store.slides cleared
                = List.filter (fun s => negb (String.eqb (Store.s_project_id s) pid))
                              (Store.slides d)) by reflexivity.
  assert (Hvs : Store.slide_image_versions cleared
                = List.filter
                    (fun r => negb (existsb (String.eqb (Store.slide_id r))
                                            (Pipeline.slideIdsOf pid d)))
                    (Store.slide_image_versions d)) by reflexivity.
  set (withOutline :=
         Store.with_outline_versions cleared
           (Store.outline_versions cleared
              ++ [{| Store.jv_id := newOutlineId; Store.jv_project_id := pid;
                     Store.jv_version := Store.nextOutlineVersion pid d;
                     Store.jv_json := outlineJson;
                     Store.jv_created_at := now |}])).
  assert (Hrun : Pipeline.commitOutline pid newSlideId now sections outlineJson
                   newOutlineId d
                 = (Return (Pipeline.slideCount sections),
                    Store.with_slides withOutline
                      (Store.slides withOutline
                         ++ Pipeline.outlineRows pid newSlideId now sections))).
  { unfold Pipeline.commitOutline, mbind, Store.sql_bind, Store.sql_get.
    rewrite Hclear. unfold Store.insertOutlineVersion. cbn [Store.jv_id Store.jv_project_id].
    assert (Hpk : existsb (fun r => String.eqb (Store.jv_id r) newOutlineId)
                          (Store.outline_versions cleared) = false)
      by (apply existsb_eqb_not_elem; exact Hout).
    assert (Hpr : existsb (fun p => String.eqb (Store.p_id p) pid)
                          (Store.projects cleared) = true)
      by (apply existsb_eqb_elem; exact Hproj).
    rewrite Hpk, Hpr. cbn [negb]. fold withOutline.
    rewrite (insertSections_result pid newSlideId now sections 0 0 withOutline).
    - reflexivity.
    - exact Hproj.
    - intros k Hk Hin. apply (Hfresh k Hk).
      change (Store.slides withOutline) with (Store.slides cleared) in Hin.
      rewrite Hsl in Hin. apply list_elem_of_fmap in Hin as (s & -> & Hs).
      apply elem_of_filter_bool in Hs as [Hs _].
      apply list_elem_of_fmap. exists s. split; [reflexivity | exact Hs].
    - intros j k Hj Hk. apply Hinj; lia. }
  exists cleared. eexists. split; [exact Hclear|].
  split; [exact Hsl|]. split; [exact Hvs|]. split; [exact Hrun|].
  split; [reflexivity|]. split.
  { eapply Forall_impl; [apply outlineRowsFrom_pending|].
    intros r (? & ? & _). split; assumption. }
  split; [reflexivity|].
  intros r Hr. cbn [Store.slide_image_versions Store.with_slides] in Hr.
  change (Store.slide_image_versions withOutline)
    with (Store.slide_image_versions cleared) in Hr.
  rewrite Hvs in Hr. apply elem_of_filter_bool in Hr as [Hr Hkeep].
  destruct (Hfk r Hr) as (s & Hs & Hid).
  exists s. split; [|exact Hid].
  cbn [Store.slides Store.with_slides]. apply elem_of_app. left.
  change (Store.slides withOutline) with (Store.slides cleared). rewrite Hsl.
  apply elem_of_filter_bool. split; [exact Hs|].
  destruct (String.eqb_spec (Store.s_project_id s) pid) as [Hp|]; [|reflexivity].
  exfalso. apply negb_true_iff in Hkeep.
  assert (Hin : existsb (String.eqb (Store.slide_id r)) (Pipeline.slideIdsOf pid d)
                = true).
  { apply existsb_exists. exists (Store.s_id s). split.
    - unfold Pipeline.slideIdsOf. apply list_elem_of_In, list_elem_of_fmap.
      exists s. split; [reflexivity|]. apply elem_of_filter_bool.
      split; [exact Hs|]. apply String.eqb_eq. exact Hp.
    - apply String.eqb_eq. symmetry. exact Hid. }
  congruence.
Qed.

Lemma sample_versionsHaveSlides : Store.versionsHaveSlides Sample.database.
Proof.
  intros r Hr. exists Sample.slideA. split; [left|].
  cbn in Hr. rewrite !elem_of_cons in Hr.
  destruct Hr as [->|[->|Hr]]; [reflexivity | reflexivity | inversion Hr].
Qed.

Lemma commitOutline_replaces_slides_and_versions_witness :
  exists cleared d',
    Pipeline.clearSlides "deck" Sample.database = (Return tt, cleared)
    /\ Store.slides cleared = []
    /\ Store.slide_image_versions cleared = []
    /\ Pipeline.commitOutline "deck" Sample.freshSlideId "t2" Sample.newOutline
         "{outline}" "outline-1" Sample.database
       = (Return 2, d')
    /\ Store.status <$> Store.slides d' = [Store.pending; Store.pending]
    /\ Store.slide_image_versions d' = []
    /\ Store.versionsHaveSlides d'.
Proof.
  assert (Hrange : forall k, 0 <= k < Pipeline.slideCount Sample.newOutline ->
                             k = 0 \/ k = 1).
  { intros k Hk. unfold Pipeline.slideCount in Hk. cbn in Hk. lia. }
  destruct (commitOutline_replaces_slides_and_versions
              "deck" Sample.freshSlideId "t2" Sample.newOutline
              "{outline}" "outline-1" Sample.database)
    as (cleared & d' & Hclear & Hsl & Hvs & Hrun & Hsl' & Hpend & Hvs' & Hfk').
  - cbn. left.
  - exact sample_versionsHaveSlides.
  - cbn. inversion 1.
  - intros k Hk Hin. apply list_elem_of_In in Hin.
    destruct (Hrange k Hk) as [-> | ->]; vm_compute in Hin;
      destruct Hin as [H|[H|[H|[]]]]; discriminate.
  - intros j k Hj Hk.
    destruct (Hrange j Hj) as [-> | ->]; destruct (Hrange k Hk) as [-> | ->];
      vm_compute; intros H; try reflexivity; discriminate.
  - exists cleared, d'. split; [exact Hclear|].
    split; [rewrite Hsl; reflexivity|].
    split; [rewrite Hvs; reflexivity|].
    split; [exact Hrun|].
    split; [rewrite Hsl', Hsl; reflexivity|].
    split; [rewrite Hvs', Hvs; reflexivity | exact Hfk'].
Defined.

(** * The files that [generateImageToProject] writes *)
Section PathSuffix.
Import Paths PathNames ImageFiles.

Lemma length_append a b :
  String.length (a +:+ b) = (String.length a + String.length b)%nat.
Proof.
  induction a as [|c a IH]; [reflexivity|].
  rewrite append_cons. cbn [String.length]. rewrite IH. reflexivity.
Qed.

(** Two strings with ends of the same length have the same end. *)
Lemma same_end a : forall b p q,
  a +:+ p = b +:+ q -> String.length p = String.length q -> p = q.
Proof.
  induction a as [|c a IH]; intros [|c' b] p q Heq Hlen.
  - exact Heq.
  - rewrite append_nil in Heq. rewrite Heq, append_cons in Hlen.
    cbn [String.length] in Hlen. rewrite length_append in Hlen. lia.
  - rewrite append_nil in Heq. rewrite <- Heq, append_cons in Hlen.
    cbn [String.length] in Hlen. rewrite length_append in Hlen. lia.
  - rewrite !append_cons in Heq. injection Heq as _ Heq. apply (IH b); assumption.
Qed.

(** The last segment of a path that ends in [suf]. *)
Lemma split_end w suf :
  noSlash suf = true ->
  exists init c, split (w +:+ suf) = init ++ [c +:+ suf] /\ noSlash c = true.
Proof.
  intros Hsuf. induction w as [|ch w (init & c & Heq & Hc)].
  - exists [], "". rewrite append_nil. split; [apply split_noSlash, Hsuf | reflexivity].
  - rewrite append_cons. cbn [split]. rewrite Heq.
    destruct (isSlash ch) eqn:Hch.
    + exists ("" :: init), c. split; [reflexivity | exact Hc].
    + destruct init as [|seg init].
      * exists [], (String ch c). split; [reflexivity|].
        cbn [noSlash]. rewrite Hch, Hc. reflexivity.
      * exists (String ch seg :: init), c. split; [reflexivity | exact Hc].
Qed.

Lemma long_name_kept x :
  (3 <= String.length x)%nat ->
  String.eqb x "" || String.eqb x "." = false /\ String.eqb x ".." = false.
Proof.
  intros Hlen.
  destruct (String.eqb_spec x "") as [->|_]; [cbn in Hlen; lia|].
  destruct (String.eqb_spec x ".") as [->|_]; [cbn in Hlen; lia|].
  destruct (String.eqb_spec x "..") as [->|_]; [cbn in Hlen; lia|].
  split; reflexivity.
Qed.

(** [normalizeString] keeps a last segment that is a name. *)
Lemma normalizeOnto_snoc allow segs x :
  (3 <= String.length x)%nat ->
  forall stack,
    normalizeOnto allow stack (segs ++ [x]) = normalizeOnto allow stack segs ++ [x].
Proof.
  intros Hlen. destruct (long_name_kept x Hlen) as [H1 H2].
  induction segs as [|seg segs IH]; intros stack.
  - cbn [app normalizeOnto]. rewrite H1, H2. cbn [rev]. reflexivity.
  - cbn [app normalizeOnto].
    destruct (String.eqb seg "" || String.eqb seg "."); [apply IH|].
    destruct (String.eqb seg ".."); [|apply IH].
    destruct stack as [|top below]; [apply IH|].
    destruct (String.eqb top ".."); apply IH.
Qed.

(** [path.posix.normalize] keeps the end of a path whose end is the end of
    a name. *)
Lemma normalize_end w suf :
  noSlash suf = true -> (3 <= String.length suf)%nat ->
  exists pre, normalize (w +:+ suf) = pre +:+ suf.
Proof.
  intros Hns Hlen.
  assert (Hproper : properName suf).
  { split; [exact Hns|]. repeat split; intros ->; cbn in Hlen; lia. }
  unfold normalize.
  assert (Hne : String.eqb (w +:+ suf) "" = false).
  { apply String.eqb_neq. intros H. apply (f_equal String.length) in H.
    rewrite length_append in H. cbn in H. lia. }
  rewrite Hne, (no_trailing_slash w suf Hproper).
  unfold normalizeString.
  destruct (split_end w suf Hns) as (init & c & -> & Hc).
  rewrite normalizeOnto_snoc by (rewrite length_append; lia).
  destruct (join_last (normalizeOnto (negb (isAbsolute (w +:+ suf))) [] init)
              (c +:+ suf)) as [p ->].
  assert (Hbody : String.eqb (p +:+ c +:+ suf) "" = false).
  { apply String.eqb_neq. intros H. apply (f_equal String.length) in H.
    rewrite !length_append in H. cbn in H. lia. }
  rewrite Hbody.
  destruct (isAbsolute (w +:+ suf)).
  - exists ("/" +:+ p +:+ c). rewrite !append_assoc. reflexivity.
  - exists (p +:+ c). rewrite !append_assoc. reflexivity.
Qed.

(** [path.join] keeps the end of its last argument, when that is the end
    of a name. *)
Lemma posix_join_end parts s suf :
  noSlash suf = true -> (3 <= String.length suf)%nat ->
  exists pre, PathNames.join (parts ++ [s +:+ suf]) = pre +:+ suf.
Proof.
  intros Hns Hlen. unfold PathNames.join.
  rewrite List.filter_app. cbn [List.filter].
  assert (Hne : String.eqb (s +:+ suf) "" = false).
  { apply String.eqb_neq. intros H. apply (f_equal String.length) in H.
    rewrite length_append in H. cbn in H. lia. }
  rewrite Hne. cbn [negb].
  destruct (join_last (List.filter (fun s0 => negb (String.eqb s0 "")) parts)
              (s +:+ suf)) as [p Hp].
  destruct (List.filter _ parts ++ [s +:+ suf]) as [|k kept] eqn:Hkept.
  { destruct (List.filter _ parts); discriminate Hkept. }
  rewrite Hp, <- append_assoc. apply normalize_end; assumption.
Qed.

End PathSuffix.

Section CacheFiles.
Import Paths PathNames ImageClient.

Lemma extName_end x s : exists s', s +:+ "." +:+ extName x = s' +:+ extEnd x.
Proof.
  destruct x; cbn [extName extEnd];
    first [ exists s; reflexivity
          | exists (s +:+ "."); rewrite <- append_assoc; reflexivity ].
Qed.

Lemma extEnd_name x : noSlash (extEnd x) = true /\ String.length (extEnd x) = 4%nat.
Proof. destruct x; split; reflexivity. Qed.

Lemma absOutPath_end root deckIndex version x :
  exists pre, absOutPath root deckIndex version (extName x) = pre +:+ extEnd x.
Proof.
  unfold absOutPath, versionFileName.
  destruct (extName_end x ("v" +:+ pretty version)) as [s' Hs].
  rewrite append_assoc in Hs. rewrite Hs.
  destruct (extEnd_name x) as [Hns Hlen].
  apply (posix_join_end [root; "images"; slideDirName deckIndex] s' (extEnd x));
    [exact Hns | lia].
Qed.

Lemma absCacheImagePath_end root cacheKey x :
  exists pre, absCacheImagePath root cacheKey (extName x) = pre +:+ extEnd x.
Proof.
  unfold absCacheImagePath.
  destruct (extEnd_name x) as [Hns Hlen].
  destruct (extName_end x cacheKey) as [s' Hs]. rewrite Hs.
  destruct (posix_join_end ["cache"; "image"] s' (extEnd x) Hns ltac:(lia))
    as [pre Hpre].
  change (["cache"; "image"] ++ [s' +:+ extEnd x])
    with ["cache"; "image"; s' +:+ extEnd x] in Hpre.
  rewrite Hpre.
  apply (posix_join_end [root] pre (extEnd x)); [exact Hns | lia].
Qed.

Lemma cacheMetaPath_end root cacheKey :
  exists pre, cacheMetaPath root cacheKey = pre +:+ "json".
Proof.
  unfold cacheMetaPath.
  replace (cacheKey +:+ ".json") with ((cacheKey +:+ ".") +:+ "json")
    by (rewrite append_assoc; reflexivity).
  apply (posix_join_end [root; "cache"; "image"] (cacheKey +:+ ".") "json");
    [reflexivity | cbn; lia].
Qed.

Lemma tmpPath_end p : tmpPath p = p +:+ ".tmp".
Proof. reflexivity. Qed.

(** A path that ends like an image file is neither the cache entry nor its
    temporary file. *)
Lemma image_end_not_meta root cacheKey x pre :
  pre +:+ extEnd x <> cacheMetaPath root cacheKey
  /\ pre +:+ extEnd x <> tmpPath (cacheMetaPath root cacheKey).
Proof.
  destruct (cacheMetaPath_end root cacheKey) as [q Hq].
  destruct (extEnd_name x) as [_ Hlen]. split; intros Heq.
  - rewrite Hq in Heq. apply same_end in Heq; [|rewrite Hlen; reflexivity].
    destruct x; discriminate Heq.
  - rewrite tmpPath_end in Heq. apply same_end in Heq; [|rewrite Hlen; reflexivity].
    destruct x; discriminate Heq.
Qed.

Lemma tmpPath_other p : tmpPath p <> p.
Proof.
  intros H. apply (f_equal String.length) in H. unfold tmpPath in H.
  rewrite length_append in H. cbn in H. lia.
Qed.

(** What [writeJsonAtomic] leaves: the entry under its name, nothing under
    the temporary name. *)
Lemma rename_written (tmp dest : string) (content : bytes) (fs : files) :
  tmp <> dest ->
  rename tmp dest (<[tmp := content]> fs)
  = <[dest := content]> (delete tmp fs).
Proof.
  intros Hne. unfold rename. rewrite lookup_insert_eq.
  rewrite delete_insert_eq. reflexivity.
Qed.

(** The image file of the version holds the bytes of the call, whatever
    else the call wrote. *)
Lemma generateImageToProject_file root deckIndex version call fs ext data :
  imageOf call = Some (ext, data) ->
  (generateImageToProject root deckIndex version call fs).2
    !! absOutPath root deckIndex version ext = Some data.
Proof.
  destruct call as [e | ext0 data0 rq rs at_ after
                   | x data0 rq rs at_ key meta written];
    cbn [imageOf]; intros Hcall; [discriminate| |].
  - injection Hcall as -> ->. cbn [generateImageToProject].
    destruct after; cbn [snd]; apply lookup_insert_eq.
  - injection Hcall as <- ->. cbn [generateImageToProject].
    destruct (absOutPath_end root deckIndex version x) as [pre Hpre].
    destruct (image_end_not_meta root key x pre) as [Hmeta Htmp].
    rewrite <- Hpre in Hmeta, Htmp.
    assert (Hfs1 : (<[absCacheImagePath root key (extName x) := data]>
                      (<[absOutPath root deckIndex version (extName x) := data]> fs))
                     !! absOutPath root deckIndex version (extName x) = Some data).
    { apply lookup_insert_Some.
      destruct (decide (absCacheImagePath root key (extName x)
                        = absOutPath root deckIndex version (extName x)))
        as [Heq|Hne]; [left; auto|].
      right. split; [exact Hne | apply lookup_insert_eq]. }
    destruct written as [e|e|]; cbn [snd].
    + exact Hfs1.
    + rewrite lookup_insert_ne by congruence. exact Hfs1.
    + rewrite rename_written by apply tmpPath_other.
      rewrite lookup_insert_ne by congruence.
      rewrite lookup_delete_ne by congruence. exact Hfs1.
Qed.

(** A call that returns: with the cache off or an image from the cache, or
    with the image and its cache entry stored. *)
Lemma generateImageToProject_returns root deckIndex version call fs
      ext data request response at_ :
  call = CallWrote ext data request response at_ None
  \/ (exists x cacheKey meta,
         ext = extName x
         /\ call = CallStored x data request response at_ cacheKey meta MetaWritten) ->
  imageOf call = Some (ext, data)
  /\ generateImageToProject root deckIndex version call fs
     = (Return {| imagePath := relPath deckIndex version ext;
                  requestJson := request;
                  responseJson := response;
                  createdAt := at_ |},
        (generateImageToProject root deckIndex version call fs).2).
Proof.
  intros [-> | (x & key & meta & -> & ->)]; split; reflexivity.
Qed.

(** The files of a call that stores its image in the cache. *)
Lemma generateImageToProject_cache root deckIndex version fs
      x data request response at_ cacheKey meta :
  let fs' :=
    (generateImageToProject root deckIndex version
       (CallStored x data request response at_ cacheKey meta MetaWritten) fs).2 in
  let cached := absCacheImagePath root cacheKey (extName x) in
  let entry := cacheMetaPath root cacheKey in
  fs' !! cached = Some data
  /\ fs' !! entry = Some meta
  /\ fs' !! tmpPath entry = None
  /\ (forall path,
         path <> absOutPath root deckIndex version (extName x) ->
         path <> cached -> path <> entry -> path <> tmpPath entry ->
         fs' !! path = fs !! path).
Proof.
  intros fs' cached entry. subst fs'. cbn [generateImageToProject snd].
  fold cached entry.
  rewrite rename_written by apply tmpPath_other.
  destruct (absCacheImagePath_end root cacheKey x) as [pre Hpre].
  destruct (image_end_not_meta root cacheKey x pre) as [Hmeta Htmp].
  fold cached in Hpre. fold entry in Hmeta, Htmp. rewrite <- Hpre in Hmeta, Htmp.
  split; [|split; [|split]].
  - rewrite lookup_insert_ne by congruence.
    rewrite lookup_delete_ne by congruence. apply lookup_insert_eq.
  - apply lookup_insert_eq.
  - rewrite lookup_insert_ne by (intros H; symmetry in H; revert H; apply tmpPath_other).
    apply lookup_delete_eq.
  - intros path H1 H2 H3 H4.
    rewrite lookup_insert_ne by congruence.
    rewrite lookup_delete_ne by congruence.
    rewrite !lookup_insert_ne by congruence. reflexivity.
Qed.

End CacheFiles.

(** * Properties of the slide services *)
Section TableFacts.
Import Store.

Lemma find_fmap_same {A : Type} (p : A -> bool) (f : A -> A) (l : list A) :
  (forall x, p (f x) = p x) -> List.find p (f <$> l) = f <$> List.find p l.
Proof.
  intros Hp. induction l as [|x l IH]; cbn; [reflexivity|].
  rewrite Hp. destruct (p x); [reflexivity | exact IH].
Qed.

Lemma updatedRow_id sid st e c now r : s_id (updatedRow sid st e c now r) = s_id r.
Proof. unfold updatedRow. destruct (String.eqb _ _); reflexivity. Qed.

Lemma updatedRow_project sid st e c now r :
  s_project_id (updatedRow sid st e c now r) = s_project_id r.
Proof. unfold updatedRow. destruct (String.eqb _ _); reflexivity. Qed.

Lemma updatedRow_hit sid st e c now r :
  s_id r = sid ->
  status (updatedRow sid st e c now r) = st
  /\ error_message (updatedRow sid st e c now r) = e.
Proof.
  intros <-. unfold updatedRow. rewrite String.eqb_refl. split; reflexivity.
Qed.

Lemma updatedRow_miss sid st e c now r :
  s_id r <> sid -> updatedRow sid st e c now r = r.
Proof.
  intros H. unfold updatedRow.
  destruct (String.eqb_spec (s_id r) sid); [contradiction | reflexivity].
Qed.

Lemma selectSlide_updateSlide sid pid sid' st e c now d :
  selectSlide sid pid (updateSlide sid' st e c now d)
  = updatedRow sid' st e c now <$> selectSlide sid pid d.
Proof.
  unfold selectSlide, updateSlide. cbn [slides with_slides].
  apply find_fmap_same. intros r.
  rewrite updatedRow_id, updatedRow_project. reflexivity.
Qed.

Lemma selectSlide_id sid pid d r : selectSlide sid pid d = Some r -> s_id r = sid.
Proof.
  intros H. apply List.find_some in H as [_ H].
  apply andb_prop in H as [H _]. apply String.eqb_eq. exact H.
Qed.

Lemma selectSlide_elem sid pid d r :
  selectSlide sid pid d = Some r -> sid ∈ s_id <$> slides d.
Proof.
  intros H. pose proof (selectSlide_id _ _ _ _ H) as <-.
  apply List.find_some in H as [H _].
  apply list_elem_of_fmap. exists r. split; [reflexivity|].
  apply list_elem_of_In. exact H.
Qed.

Lemma updateSlide_ids sid st e c now d :
  s_id <$> slides (updateSlide sid st e c now d) = s_id <$> slides d.
Proof.
  unfold updateSlide. cbn [slides with_slides].
  rewrite <- list_fmap_compose. apply list_fmap_ext.
  intros i r _. cbn. apply updatedRow_id.
Qed.

(** The status and message of a slide after an update of that slide. *)
Lemma selectSlide_after_update sid pid st e c now d r :
  selectSlide sid pid d = Some r ->
  exists r', selectSlide sid pid (updateSlide sid st e c now d) = Some r'
             /\ status r' = st /\ error_message r' = e.
Proof.
  intros H. rewrite selectSlide_updateSlide, H. cbn.
  eexists. split; [reflexivity|].
  apply updatedRow_hit. apply (selectSlide_id _ _ _ _ H).
Qed.

Lemma maxOf_seqZ (m : nat) : forall b,
  maxOf b (seqZ (b + 1) (Z.of_nat m)) = b + Z.of_nat m.
Proof.
  induction m as [|m IH]; intros b.
  - rewrite seqZ_nil by lia. cbn. lia.
  - rewrite (seqZ_cons (b + 1)) by lia. cbn [maxOf].
    replace (Z.max b (b + 1)) with (b + 1) by lia.
    replace (Z.pred (Z.of_nat (S m))) with (Z.of_nat m) by lia.
    replace (Z.succ (b + 1)) with (b + 1 + 1) by lia.
    rewrite IH. lia.
Qed.

Lemma maxVersion_numbered sid d :
  numbered sid d ->
  default 0 (maxVersion sid d) = Z.of_nat (length (versionsOf sid d)).
Proof.
  unfold numbered, maxVersion. intros H. rewrite H.
  destruct (length (versionsOf sid d)) as [|m]; [rewrite seqZ_nil by lia; reflexivity|].
  rewrite (seqZ_cons 1) by lia. cbn [default].
  assert (Hm : Z.pred (Z.of_nat (S m)) = Z.of_nat m) by lia. rewrite Hm.
  change (Z.succ 1) with (1 + 1). rewrite maxOf_seqZ. unfold id. lia.
Qed.

Lemma nextImageVersion_default sid d :
  nextImageVersion sid d = default 0 (maxVersion sid d) + 1.
Proof.
  unfold nextImageVersion. destruct (maxVersion sid d) as [v|]; cbn; [|reflexivity].
  destruct (Z.eqb_spec v 0); [subst; reflexivity | reflexivity].
Qed.

(** Under the numbering, the next version is the count plus one. *)
Lemma nextImageVersion_numbered sid d :
  numbered sid d ->
  nextImageVersion sid d = Z.of_nat (length (versionsOf sid d)) + 1.
Proof.
  intros H. rewrite nextImageVersion_default, (maxVersion_numbered _ _ H).
  reflexivity.
Qed.

Lemma insertImageVersion_cases row d :
  insertImageVersion row d
  = (Return tt, with_image_versions d (slide_image_versions d ++ [row]))
  \/ exists e, insertImageVersion row d = (Throw e, d).
Proof.
  unfold insertImageVersion.
  destruct (existsb _ (slide_image_versions d)); [right; eauto|].
  destruct (negb _); [right; eauto | left; reflexivity].
Qed.

Lemma insertImageVersion_ok row d :
  iv_id row ∉ iv_id <$> slide_image_versions d ->
  slide_id row ∈ s_id <$> slides d ->
  insertImageVersion row d
  = (Return tt, with_image_versions d (slide_image_versions d ++ [row])).
Proof.
  intros Hpk Hfk. unfold insertImageVersion.
  apply existsb_eqb_not_elem in Hpk. apply existsb_eqb_elem in Hfk.
  rewrite Hpk, Hfk. reflexivity.
Qed.

Lemma versionsOf_snoc sid d row :
  versionsOf sid (with_image_versions d (slide_image_versions d ++ [row]))
  = versionsOf sid d ++ (if String.eqb (slide_id row) sid then [row] else []).
Proof.
  unfold versionsOf. cbn [slide_image_versions with_image_versions].
  rewrite List.filter_app. cbn. destruct (String.eqb _ _); reflexivity.
Qed.

Lemma versionsOf_updateSlide sid sid' st e c now d :
  versionsOf sid (updateSlide sid' st e c now d) = versionsOf sid d.
Proof. reflexivity. Qed.

(** Appending the next version keeps the numbering. *)
Lemma numbered_snoc sid d row :
  numbered sid d ->
  (slide_id row = sid -> version row = Z.of_nat (length (versionsOf sid d)) + 1) ->
  numbered sid (with_image_versions d (slide_image_versions d ++ [row])).
Proof.
  unfold numbered. intros Hnum Hver. rewrite versionsOf_snoc.
  destruct (String.eqb_spec (slide_id row) sid) as [Heq|Hne].
  - rewrite fmap_app, length_app, Hnum. cbn [fmap list_fmap length].
    rewrite (Hver Heq).
    replace (Z.of_nat (length (versionsOf sid d) + 1))
      with (Z.of_nat (length (versionsOf sid d)) + 1) by lia.
    rewrite seqZ_app by lia. f_equal.
    rewrite seqZ_cons by lia. rewrite seqZ_nil by lia. f_equal. lia.
  - rewrite app_nil_r. exact Hnum.
Qed.

End TableFacts.

Section ServiceFacts.
Import Store ImageClient SlideService.

(** What the [catch] blocks leave behind. *)
Lemma failSlide_effect {A : Type} sid pid (e : thrown) now k :
  (@failSlide A sid e now k).1 = Throw e
  /\ slide_image_versions (dbase (@failSlide A sid e now k).2)
     = slide_image_versions (dbase k)
  /\ fsys (@failSlide A sid e now k).2 = fsys k
  /\ (forall slide,
         selectSlide sid pid (dbase k) = Some slide ->
         exists slide',
           selectSlide sid pid (dbase (@failSlide A sid e now k).2) = Some slide'
           /\ status slide' = error
           /\ error_message slide' = Some (toErrorMessage e)).
Proof.
  unfold failSlide, setSlideStatus, sql_exec. cbn.
  repeat split. intros slide Hs.
  apply (selectSlide_after_update _ _ error (Some (toErrorMessage e)) None now _ _ Hs).
Qed.

(** The two ways a recording callback can end. *)
Lemma record_cases row sid now d :
  (_ ← insertImageVersion row; setSlideStatus sid ready None now) d
  = (Return tt,
     updateSlide sid ready None None now
       (with_image_versions d (slide_image_versions d ++ [row])))
  \/ exists e,
      (_ ← insertImageVersion row; setSlideStatus sid ready None now) d
      = (Throw e, d).
Proof.
  unfold mbind, sql_bind.
  destruct (insertImageVersion_cases row d) as [-> | (e & ->)].
  - left. reflexivity.
  - right. exists e. reflexivity.
Qed.

(** How [regenerate_finish] can end: with the [catch] block on the database
    as it was, or with the row of this attempt appended after its image file
    was written. *)
Lemma regenerate_finish_cases root input resolved promptText call newId now k :
  (exists e fs',
      regenerate_finish root input resolved promptText call newId now k
      = failSlide (rg_slideId input) e now {| dbase := dbase k; fsys := fs' |})
  \/ (exists ext data request response at_,
         imageOf call = Some (ext, data)
         /\ thrownBy call = None
         /\ let image :=
              {| imagePath := PathNames.join
                                ["images"; PathNames.slideDirName (rg_deckIndex resolved);
                                 PathNames.versionFileName (rg_nextVersion resolved) ext];
                 requestJson := request; responseJson := response;
                 createdAt := at_ |} in
            regenerate_finish root input resolved promptText call newId now k
            = (Return {| res_version := rg_nextVersion resolved;
                         res_promptText := promptText;
                         res_imagePath := imagePath image |},
               {| dbase :=
                    updateSlide (rg_slideId input) ready None None now
                      (with_image_versions (dbase k)
                         (slide_image_versions (dbase k)
                            ++ [regenerateRow input resolved promptText image newId]));
                  fsys := (generateImageToProject root (rg_deckIndex resolved)
                             (rg_nextVersion resolved) call (fsys k)).2 |})).
Proof.
  unfold regenerate_finish.
  destruct call as [e | ext data request response at_ [e|]
                   | x data request response at_ key meta [e|e|]];
    cbn [generateImageToProject]; try (left; eauto; fail).
  - unfold regenerate_record.
    match goal with
    | |- context [(_ ← insertImageVersion ?row; setSlideStatus ?sid ready None ?t) ?d] =>
        destruct (record_cases row sid t d) as [Hok | (e & Hbad)]
    end.
    + right. exists ext, data, request, response, at_.
      split; [reflexivity|]. split; [reflexivity|].
      cbn zeta. rewrite Hok. reflexivity.
    + left. rewrite Hbad. eauto.
  - unfold regenerate_record.
    match goal with
    | |- context [(_ ← insertImageVersion ?row; setSlideStatus ?sid ready None ?t) ?d] =>
        destruct (record_cases row sid t d) as [Hok | (e & Hbad)]
    end.
    + right. exists (extName x), data, request, response, at_.
      split; [reflexivity|]. split; [reflexivity|].
      cbn zeta. rewrite Hok. reflexivity.
    + left. rewrite Hbad. eauto.
Qed.

Lemma restore_finish_cases cwd root input resolved fault newId now k :
  (exists e fs',
      restore_finish cwd root input resolved fault newId now k
      = failSlide (rs_slideId input) e now {| dbase := dbase k; fsys := fs' |})
  \/ (exists absSrc absDest data,
         Paths.ensureWithinProject cwd root (rs_srcImagePath resolved) = Return absSrc
         /\ Paths.ensureWithinProject cwd root (restore_destRelPath resolved)
            = Return absDest
         /\ fault = None
         /\ fsys k !! absSrc = Some data
         /\ restore_finish cwd root input resolved fault newId now k
            = (Return {| res_version := rs_nextVersion resolved;
                         res_promptText := rs_srcPromptText resolved;
                         res_imagePath := restore_destRelPath resolved |},
               {| dbase :=
                    updateSlide (rs_slideId input) ready None None now
                      (with_image_versions (dbase k)
                         (slide_image_versions (dbase k)
                            ++ [restoreRow input resolved (restore_destRelPath resolved)
                                  newId now]));
                  fsys := <[absDest := data]> (fsys k) |})).
Proof.
  unfold restore_finish. cbn zeta.
  destruct (Paths.ensureWithinProject cwd root (rs_srcImagePath resolved))
    as [absSrc|e]; [|left; exists e, (fsys k); destruct k; reflexivity].
  destruct (Paths.ensureWithinProject cwd root (restore_destRelPath resolved))
    as [absDest|e]; [|left; exists e, (fsys k); destruct k; reflexivity].
  unfold copyFile. destruct fault as [e|]; [left; eauto|].
  destruct (fsys k !! absSrc) as [data|] eqn:Hfile; [|left; eauto].
  unfold restore_record.
  match goal with
  | |- context [(_ ← insertImageVersion ?row; setSlideStatus ?sid ready None ?t) ?d] =>
      destruct (record_cases row sid t d) as [Hok | (e & Hbad)]
  end.
  - right. exists absSrc, absDest, data.
    repeat split; try reflexivity; try exact Hfile.
    rewrite Hok. reflexivity.
  - left. rewrite Hbad. eauto.
Qed.

End ServiceFacts.



(** C3. A regeneration or a restoration that fails after the slide was
    marked leaves the table of image versions as it
    was and the slide in status [error] with the message of the failure; and
    whenever one of the services does insert a row, the image file of that
    row has been written before. *)
Theorem failed_attempt_leaves_error_and_no_row :
  forall (cwd root newId now : string),
    (forall input resolved promptText call k e k',
        SlideService.regenerate_finish root input resolved promptText call
          newId now k = (Throw e, k') ->
        Store.slide_image_versions (SlideService.dbase k')
        = Store.slide_image_versions (SlideService.dbase k)
        /\ forall slide,
            Store.selectSlide (SlideService.rg_slideId input)
              (SlideService.rg_projectId input) (SlideService.dbase k)
            = Some slide ->
            exists slide',
              Store.selectSlide (SlideService.rg_slideId input)
                (SlideService.rg_projectId input) (SlideService.dbase k')
              = Some slide'
              /\ Store.status slide' = Store.error
              /\ Store.error_message slide' = Some (toErrorMessage e))
    /\ (forall input resolved fault k e k',
           SlideService.restore_finish cwd root input resolved fault newId now k
           = (Throw e, k') ->
           Store.slide_image_versions (SlideService.dbase k')
           = Store.slide_image_versions (SlideService.dbase k)
           /\ forall slide,
               Store.selectSlide (SlideService.rs_slideId input)
                 (SlideService.rs_projectId input) (SlideService.dbase k)
               = Some slide ->
               exists slide',
                 Store.selectSlide (SlideService.rs_slideId input)
                   (SlideService.rs_projectId input) (SlideService.dbase k')
                 = Some slide'
                 /\ Store.status slide' = Store.error
                 /\ Store.error_message slide' = Some (toErrorMessage e))
    /\ (forall input resolved promptText call k r k',
           SlideService.regenerate_finish root input resolved promptText call
             newId now k = (Return r, k') ->
           exists ext data row,
             ImageClient.imageOf call = Some (ext, data)
             /\ ImageClient.thrownBy call = None
             /\ Store.slide_image_versions (SlideService.dbase k')
                = Store.slide_image_versions (SlideService.dbase k) ++ [row]
             /\ Store.image_path row = SlideService.res_imagePath r
             /\ SlideService.fsys k'
                  !! PathNames.join
                       [root; "images";
                        PathNames.slideDirName (SlideService.rg_deckIndex resolved);
                        PathNames.versionFileName
                          (SlideService.rg_nextVersion resolved) ext]
                = Some data)
    /\ (forall input resolved fault k r k',
           SlideService.restore_finish cwd root input resolved fault newId now k
           = (Return r, k') ->
           exists absSrc absDest data row,
             Paths.ensureWithinProject cwd root
               (SlideService.rs_srcImagePath resolved) = Return absSrc
             /\ SlideService.fsys k !! absSrc = Some data
             /\ Store.slide_image_versions (SlideService.dbase k')
                = Store.slide_image_versions (SlideService.dbase k) ++ [row]
             /\ Store.image_path row = SlideService.res_imagePath r
             /\ Paths.ensureWithinProject cwd root (Store.image_path row)
                = Return absDest
             /\ SlideService.fsys k' !! absDest = Some data).
Proof.
  intros cwd root newId now. split; [|split; [|split]].
  - intros input resolved promptText call k e k' Hrun.
    destruct (regenerate_finish_cases root input resolved promptText call newId now k)
      as [(e0 & fs' & Hfail) | (ext & data & rq & rs & at_ & _ & _ & Hok)].
    + rewrite Hfail in Hrun.
      destruct (failSlide_effect (A := SlideService.slide_result)
                  (SlideService.rg_slideId input) (SlideService.rg_projectId input)
                  e0 now {| SlideService.dbase := SlideService.dbase k;
                            SlideService.fsys := fs' |})
        as (Hthrow & Hrows & _ & Hstatus).
      rewrite Hrun in Hthrow, Hrows, Hstatus. cbn [fst snd] in *.
      injection Hthrow as ->. split; [exact Hrows | exact Hstatus].
    + cbn zeta in Hok. rewrite Hok in Hrun. discriminate.
  - intros input resolved fault k e k' Hrun.
    destruct (restore_finish_cases cwd root input resolved fault newId now k)
      as [(e0 & fs' & Hfail) | (absSrc & absDest & data & _ & _ & _ & _ & Hok)].
    + rewrite Hfail in Hrun.
      destruct (failSlide_effect (A := SlideService.slide_result)
                  (SlideService.rs_slideId input) (SlideService.rs_projectId input)
                  e0 now {| SlideService.dbase := SlideService.dbase k;
                            SlideService.fsys := fs' |})
        as (Hthrow & Hrows & _ & Hstatus).
      rewrite Hrun in Hthrow, Hrows, Hstatus. cbn [fst snd] in *.
      injection Hthrow as ->. split; [exact Hrows | exact Hstatus].
    + rewrite Hok in Hrun. discriminate.
  - intros input resolved promptText call k r k' Hrun.
    destruct (regenerate_finish_cases root input resolved promptText call newId now k)
      as [(e0 & fs' & Hfail) | (ext & data & rq & rs & at_ & Hcall & Hreturns & Hok)].
    + rewrite Hfail in Hrun. discriminate.
    + cbn zeta in Hok. rewrite Hok in Hrun. injection Hrun as <- <-.
      exists ext, data. eexists. split; [exact Hcall|]. split; [exact Hreturns|].
      cbn [SlideService.dbase SlideService.fsys].
      split; [reflexivity|]. split; [reflexivity|].
      apply (generateImageToProject_file root _ _ call _ ext data Hcall).
  - intros input resolved fault k r k' Hrun.
    destruct (restore_finish_cases cwd root input resolved fault newId now k)
      as [(e0 & fs' & Hfail)
         | (absSrc & absDest & data & Hgs & Hgd & _ & Hfile & Hok)].
    + rewrite Hfail in Hrun. discriminate.
    + rewrite Hok in Hrun. injection Hrun as <- <-.
      exists absSrc, absDest, data. eexists. split; [exact Hgs|].
      split; [exact Hfile|]. cbn [SlideService.dbase SlideService.fsys].
      split; [reflexivity|]. split; [reflexivity|].
      split; [exact Hgd | apply lookup_insert_eq].
Qed.

Lemma failed_attempt_leaves_error_and_no_row_witness :
  SlideService.regenerate_read SampleRequests.regenerateFirst Sample.database
  = (Return SampleRequests.regenerateFirstResolved, Sample.database)
  /\ exists k',
      SlideService.regenerate_finish Sample.root SampleRequests.regenerateFirst
        SampleRequests.regenerateFirstResolved
        "a green cover" (ImageClient.CallFailed SampleRequests.timeout)
        "img-3" "t2" SampleRequests.disk
      = (Throw SampleRequests.timeout, k')
      /\ Store.slide_image_versions (SlideService.dbase k')
         = [Sample.versionA1; Sample.versionA2]
      /\ exists slide',
          Store.selectSlide "slide-a" "deck" (SlideService.dbase k') = Some slide'
          /\ Store.status slide' = Store.error
          /\ Store.error_message slide' = Some "生图接口请求超时（120s）".
Proof.
  split; [vm_compute; reflexivity|].
  eexists. split; [reflexivity|].
  destruct (proj1 (failed_attempt_leaves_error_and_no_row "/srv" Sample.root
                     "img-3" "t2")
              SampleRequests.regenerateFirst SampleRequests.regenerateFirstResolved
              "a green cover"
              (ImageClient.CallFailed SampleRequests.timeout)
              SampleRequests.disk SampleRequests.timeout _ eq_refl)
    as [Hrows Hstatus].
  split; [exact Hrows|].
  apply (Hstatus Sample.slideA). reflexivity.
Defined.

(** * The numbering of image versions under interleaving *)
Section WriterFacts.
Import Store ImageClient SlideService Pipeline Writers.
Context {theme slide_content : Type}.

Local Abbreviation pending := (@Writers.pending slide_content).

Lemma versionsOf_same d d' sid :
  slide_image_versions d' = slide_image_versions d ->
  versionsOf sid d' = versionsOf sid d.
Proof. unfold versionsOf. intros ->. reflexivity. Qed.

Lemma orderly_same (d d' : db) (ops : list pending) :
  slide_image_versions d' = slide_image_versions d ->
  orderly d ops -> orderly d' ops.
Proof.
  intros Hsame (Hnum & Hheld & Hnd). split; [|split; [|exact Hnd]].
  - intros sid. unfold numbered. rewrite (versionsOf_same d d' sid Hsame).
    apply Hnum.
  - intros op Hop. rewrite (versionsOf_same d d' _ Hsame). apply Hheld, Hop.
Qed.

(** An operation starts on a slide no other operation is working on. *)
Lemma orderly_start (d : db) (ops : list pending) (op : pending) :
  orderly d ops ->
  slideOf op ∉ slideOf <$> ops ->
  versionOf op = nextImageVersion (slideOf op) d ->
  orderly d (op :: ops).
Proof.
  intros (Hnum & Hheld & Hnd) Hfree Hver. split; [exact Hnum|]. split.
  - intros op' Hop'. apply elem_of_cons in Hop' as [->|Hop'].
    + rewrite Hver. apply nextImageVersion_numbered, Hnum.
    + apply Hheld, Hop'.
  - cbn. apply NoDup_cons. split; assumption.
Qed.

(** An operation goes on with the same slide and number. *)
Lemma orderly_carry (d : db) (before after : list pending) (op op' : pending) :
  slideOf op' = slideOf op -> versionOf op' = versionOf op ->
  orderly d (before ++ op :: after) ->
  orderly d (before ++ op' :: after).
Proof.
  intros Hs Hv (Hnum & Hheld & Hnd). split; [exact Hnum|]. split.
  - intros o Ho. apply elem_of_app in Ho as [Ho|Ho].
    + apply Hheld. apply elem_of_app. left. exact Ho.
    + apply elem_of_cons in Ho as [->|Ho].
      * rewrite Hs, Hv. apply Hheld. apply elem_of_app. right. left.
      * apply Hheld. apply elem_of_app. right. right. exact Ho.
  - rewrite fmap_app in *. cbn in *. rewrite Hs. exact Hnd.
Qed.

(** An operation ends, having appended its row or not. *)
Lemma orderly_end (d d' : db) (before after : list pending) (op : pending) :
  grownBy op d d' ->
  orderly d (before ++ op :: after) ->
  orderly d' (before ++ after).
Proof.
  intros Hgrow (Hnum & Hheld & Hnd).
  assert (Hperm : before ++ op :: after ≡ₚ op :: (before ++ after))
    by (symmetry; apply Permutation_middle).
  assert (Hnd' : NoDup (slideOf op :: (slideOf <$> before ++ after))).
  { change (NoDup (slideOf <$> op :: (before ++ after))).
    rewrite <- Hperm. exact Hnd. }
  apply NoDup_cons in Hnd' as [Hfree Hnd'].
  assert (Hrest : forall o, o ∈ before ++ after -> o ∈ before ++ op :: after).
  { intros o Ho. rewrite Hperm. right. exact Ho. }
  destruct Hgrow as [Hsame | (row & Hrows & Hslide & Hver)].
  - apply (orderly_same d d' _ Hsame). split; [exact Hnum|].
    split; [|exact Hnd']. intros o Ho. apply Hheld, Hrest, Ho.
  - assert (Hd' : forall sid,
               versionsOf sid d'
               = versionsOf sid d
                   ++ (if String.eqb (slide_id row) sid then [row] else [])).
    { intros sid. unfold versionsOf. rewrite Hrows, List.filter_app. cbn.
      destruct (String.eqb _ _); reflexivity. }
    split; [|split; [|exact Hnd']].
    + intros sid. unfold numbered. rewrite Hd'.
      destruct (String.eqb_spec (slide_id row) sid) as [Heq|Hne].
      * rewrite fmap_app, length_app, (Hnum sid). cbn [fmap list_fmap length].
        rewrite Hver. rewrite (Hheld op) by (rewrite Hperm; left).
        rewrite <- Hslide, Heq.
        replace (Z.of_nat (length (versionsOf sid d) + 1))
          with (Z.of_nat (length (versionsOf sid d)) + 1) by lia.
        rewrite seqZ_app by lia. f_equal.
        rewrite seqZ_cons by lia. rewrite seqZ_nil by lia. f_equal. lia.
      * rewrite app_nil_r. apply Hnum.
    + intros o Ho. rewrite Hd'.
      destruct (String.eqb_spec (slide_id row) (slideOf o)) as [Heq|Hne].
      * exfalso. apply Hfree. rewrite <- Hslide, Heq.
        apply list_elem_of_fmap. exists o. split; [reflexivity | exact Ho].
      * rewrite app_nil_r. apply Hheld, Hrest, Ho.
Qed.

(** ** What each step does to the table *)

Lemma regenerate_read_version input d resolved d' :
  regenerate_read input d = (Return resolved, d') ->
  rg_nextVersion resolved = nextImageVersion (rg_slideId input) d.
Proof.
  unfold regenerate_read. destruct (selectSlide _ _ d); [|discriminate].
  intros H. injection H as <- _. reflexivity.
Qed.

Lemma restore_read_version input d resolved d' :
  restore_read input d = (Return resolved, d') ->
  rs_nextVersion resolved = nextImageVersion (rs_slideId input) d.
Proof.
  unfold restore_read. destruct (selectSlide _ _ d); [|discriminate].
  destruct (selectVersion _ _ d); [|discriminate].
  intros H. injection H as <- _. reflexivity.
Qed.

Lemma regenerate_finish_grows root input resolved p call newId now k :
  grownBy (Regenerating (slide_content := slide_content) input resolved (Some p))
    (dbase k)
    (dbase (regenerate_finish root input resolved p call newId now k).2).
Proof.
  destruct (regenerate_finish_cases root input resolved p call newId now k)
    as [(e & fs' & ->) | (ext & data & rq & rs & at_ & _ & _ & Hok)].
  - left. reflexivity.
  - cbn zeta in Hok. rewrite Hok. right. eexists. split; [reflexivity|].
    split; reflexivity.
Qed.

Lemma restore_finish_grows cwd root input resolved fault newId now k :
  grownBy (Restoring (slide_content := slide_content) input resolved true)
    (dbase k)
    (dbase (restore_finish cwd root input resolved fault newId now k).2).
Proof.
  destruct (restore_finish_cases cwd root input resolved fault newId now k)
    as [(e & fs' & ->) | (absSrc & absDest & data & _ & _ & _ & _ & ->)].
  - left. reflexivity.
  - right. eexists. split; [reflexivity|]. split; reflexivity.
Qed.

Lemma task_catch_tables (job : Jobs.job) now total
      (s : @deck_slide slide_content) e stg :
  slide_image_versions (disk_db (now_world (task_catch job now total s e stg).2))
  = slide_image_versions (disk_db (now_world stg)).
Proof.
  unfold task_catch. destruct (Jobs.updateJob _ _ _) as [[?|?] ?]; reflexivity.
Qed.

Lemma task_begin_tables
      (build : theme -> string -> slide_content -> string)
      (job : Jobs.job) now th total (s : @deck_slide slide_content) stg :
  slide_image_versions
    (disk_db (now_world (task_begin build job now th total s stg).2))
  = slide_image_versions (disk_db (now_world stg)).
Proof.
  unfold task_begin. destruct (ds_content s); [reflexivity|].
  apply task_catch_tables.
Qed.

Lemma task_begin_version
      (build : theme -> string -> slide_content -> string)
      (job : Jobs.job) now th total (s : @deck_slide slide_content) stg v p stg' :
  task_begin build job now th total s stg = (Awaiting v p, stg') ->
  v = nextImageVersion (ds_id s) (disk_db (now_world stg)).
Proof.
  unfold task_begin. destruct (ds_content s).
  - intros H. injection H as <- _ _. reflexivity.
  - unfold task_catch. destruct (Jobs.updateJob _ _ _) as [[?|?] ?]; discriminate.
Qed.

Lemma task_resume_grows (job : Jobs.job) calls newIds now root total idx
      (s : @deck_slide slide_content) v p stg :
  grownBy (Generating s v p) (disk_db (now_world stg))
    (disk_db (now_world (task_resume job calls newIds now root total idx s v p stg).2)).
Proof.
  unfold task_resume.
  destruct (generateImageToProject _ _ _ _ _) as [[image|e] fs'].
  2: { left. rewrite task_catch_tables. reflexivity. }
  unfold task_record, Pipeline.setSlideStatus.
  match goal with
  | |- context [(_ ← insertImageVersion ?row; sql_exec ?f) ?d] =>
      destruct (insertImageVersion_cases row d) as [Hok | (e & Hbad)];
      unfold mbind, sql_bind; [rewrite Hok | rewrite Hbad]
  end.
  - right. eexists. split.
    + unfold sql_exec.
      destruct (Jobs.updateJob _ _ _) as [[?|?] ?];
        [|rewrite task_catch_tables]; reflexivity.
    + split; reflexivity.
  - left. rewrite task_catch_tables. reflexivity.
Qed.

(** Every step keeps the numbering and leaves the rows that were there. *)
Lemma step_orderly (st st' : @Writers.state slide_content) :
  @Writers.step theme slide_content st st' ->
  orderly (tables st) (inflight st) ->
  orderly (tables st') (inflight st')
  /\ slide_image_versions (tables st)
       `prefix_of` slide_image_versions (tables st').
Proof.
  assert (Hgrow_prefix : forall (op : pending) d d',
             grownBy op d d' ->
             slide_image_versions d `prefix_of` slide_image_versions d').
  { intros op d d' [-> | (row & -> & _)]; [reflexivity | apply prefix_app_r; reflexivity]. }
  destruct 1; unfold tables; cbn [shared inflight]; intros Hinv.
  - split; [|reflexivity].
    apply orderly_start; [exact Hinv | assumption |].
    cbn. eapply regenerate_read_version. eassumption.
  - split; [|reflexivity].
    eapply orderly_end; [|exact Hinv]. left. reflexivity.
  - split; [|reflexivity].
    apply (orderly_same (disk_db (now_world stg))); [reflexivity|].
    eapply orderly_carry; [| |exact Hinv]; reflexivity.
  - pose proof (regenerate_finish_grows root input resolved p call newId now (diskOf stg))
      as Hg.
    split; [|apply (Hgrow_prefix _ _ _ Hg)].
    eapply orderly_end; [exact Hg | exact Hinv].
  - split; [|reflexivity].
    apply orderly_start; [exact Hinv | assumption |].
    cbn. eapply restore_read_version. eassumption.
  - split; [|reflexivity].
    apply (orderly_same (disk_db (now_world stg))); [reflexivity|].
    eapply orderly_carry; [| |exact Hinv]; reflexivity.
  - pose proof (restore_finish_grows cwd root input resolved fault newId now (diskOf stg))
      as Hg.
    split; [|apply (Hgrow_prefix _ _ _ Hg)].
    eapply orderly_end; [exact Hg | exact Hinv].
  - pose proof (task_begin_tables buildSlidePrompt job now th total s stg) as Hsame.
    rewrite H in Hsame. cbn [snd] in Hsame.
    split; [|rewrite Hsame; reflexivity].
    apply (orderly_same (disk_db (now_world stg))); [exact Hsame|].
    apply orderly_start; [exact Hinv | assumption |].
    cbn. eapply task_begin_version. eassumption.
  - subst stg'.
    pose proof (task_begin_tables buildSlidePrompt job now th total s stg) as Hsame.
    split; [|rewrite Hsame; reflexivity].
    apply (orderly_same (disk_db (now_world stg))); [exact Hsame | exact Hinv].
  - lazymatch goal with
    | |- context [task_resume ?j ?c ?n ?t ?r ?tot ?i ?sl ?v ?p ?sg] =>
        pose proof (task_resume_grows j c n t r tot i sl v p sg) as Hg
    end.
    split; [|apply (Hgrow_prefix _ _ _ Hg)].
    eapply orderly_end; [exact Hg | exact Hinv].
Qed.

End WriterFacts.

(** C1. Starting from tables in which the versions of every slide are
    numbered [1..M], and with at most one operation under way per slide,
    every interleaving of the steps of [regenerateSlideImage],
    [restoreSlideImageVersion] and the tasks of the Images stage keeps it so:
    the versions of each slide, in insertion order, are [1, 2, ..., M]; the
    rows that were in the table stay, unchanged and in place; and each
    operation under way holds the maximum version of its slide plus one. *)
Theorem image_versions_numbered_under_interleaving :
  forall (theme slide_content : Type)
         (st0 st : @Writers.state slide_content),
    Writers.inflight st0 = [] ->
    (forall sid, Store.numbered sid (Writers.tables st0)) ->
    rtc (@Writers.step theme slide_content) st0 st ->
    (forall sid,
        Store.version <$> Store.versionsOf sid (Writers.tables st)
        = seqZ 1 (Z.of_nat (length (Store.versionsOf sid (Writers.tables st)))))
    /\ Store.slide_image_versions (Writers.tables st0)
         `prefix_of` Store.slide_image_versions (Writers.tables st)
    /\ (forall op,
           op ∈ Writers.inflight st ->
           Writers.versionOf op
           = default 0 (Store.maxVersion (Writers.slideOf op) (Writers.tables st)) + 1)
    /\ NoDup (Writers.slideOf <$> Writers.inflight st).
Proof.
  intros theme slide_content st0 st Hnone Hnum Hrun.
  assert (Hinv : Writers.orderly (Writers.tables st) (Writers.inflight st)
                 /\ Store.slide_image_versions (Writers.tables st0)
                      `prefix_of` Store.slide_image_versions (Writers.tables st)).
  { revert st Hrun. apply rtc_ind_r.
    - split; [|reflexivity]. rewrite Hnone.
      split; [exact Hnum|]. split; [|constructor].
      intros op Hop. inversion Hop.
    - intros y z Hxy Hstep [Hord Hpre].
      destruct (step_orderly y z Hstep Hord) as [Hord' Hpre'].
      split; [exact Hord' | etrans; eassumption]. }
  destruct Hinv as [(Hnum' & Hheld & Hnd) Hpre].
  split; [exact Hnum'|]. split; [exact Hpre|]. split; [|exact Hnd].
  intros op Hop. rewrite (maxVersion_numbered _ _ (Hnum' _)). apply Hheld, Hop.
Qed.

Lemma sample_numbered sid : Store.numbered sid Sample.database.
Proof.
  unfold Store.numbered, Store.versionsOf. cbn [Store.slide_image_versions
    Sample.database List.filter Sample.versionA1 Sample.versionA2 Store.slide_id].
  destruct (String.eqb "slide-a" sid); reflexivity.
Qed.

Lemma sample_run :
  rtc (@Writers.step string string) SampleRun.start SampleRun.finish.
Proof.
  eapply rtc_l.
  { apply (Writers.restore_reads SampleRun.stage0 []
             SampleRequests.restoreFirst SampleRun.restoreResolved).
    - vm_compute. reflexivity.
    - cbn. inversion 1. }
  eapply rtc_l.
  { apply (Writers.task_begins (theme := string) SampleRun.stage0 _ SampleRun.build
             SampleRun.job "t1" "{theme}" 3%nat SampleRun.third 1
             (SampleRun.build "{theme}" "Thanks" "{thanks}") SampleRun.begun).
    - vm_compute. reflexivity.
    - cbn. rewrite list_elem_of_singleton. discriminate. }
  eapply rtc_l.
  { apply (Writers.restore_marks SampleRun.begun
             [Writers.Generating SampleRun.third 1
                (SampleRun.build "{theme}" "Thanks" "{thanks}")] []
             SampleRequests.restoreFirst SampleRun.restoreResolved "t2"). }
  eapply rtc_l.
  { apply (Writers.task_resumes SampleRun.marked []
             [Writers.Restoring SampleRequests.restoreFirst SampleRun.restoreResolved true]
             SampleRun.job SampleRun.imageCalls SampleRun.rowIds "t3" Sample.root
             3%nat 2%nat SampleRun.third 1
             (SampleRun.build "{theme}" "Thanks" "{thanks}")). }
  eapply rtc_l.
  { apply (Writers.restore_finishes SampleRun.resumed [] []
             SampleRequests.restoreFirst SampleRun.restoreResolved
             "/srv" Sample.root None "img-3" "t4"). }
  apply rtc_refl.
Qed.

Lemma image_versions_numbered_under_interleaving_witness :
  Store.version <$> Store.versionsOf "slide-a" (Writers.tables SampleRun.finish)
  = seqZ 1 (Z.of_nat (length (Store.versionsOf "slide-a"
                                (Writers.tables SampleRun.finish))))
  /\ Store.version <$> Store.versionsOf "slide-a" (Writers.tables SampleRun.finish)
     = [1; 2; 3]
  /\ Store.version <$> Store.versionsOf "slide-c" (Writers.tables SampleRun.finish)
     = [1]
  /\ [Sample.versionA1; Sample.versionA2]
       `prefix_of` Store.slide_image_versions (Writers.tables SampleRun.finish).
Proof.
  destruct (image_versions_numbered_under_interleaving string string
              SampleRun.start SampleRun.finish eq_refl sample_numbered sample_run)
    as (Hnum & Hpre & _).
  split; [apply Hnum|]. split; [vm_compute; reflexivity|].
  split; [vm_compute; reflexivity | exact Hpre].
Defined.

(** * Properties of the Images stage *)
Section JobFacts.

Lemma updateJob_registered jobId patch (js : Jobs.registry) j :
  js !! jobId = Some j ->
  Jobs.updateJob jobId patch js
  = (Return (Jobs.patched j patch), <[jobId := Jobs.patched j patch]> js).
Proof. intros H. unfold Jobs.updateJob. rewrite H. reflexivity. Qed.

End JobFacts.

Section SlideStateFacts.
Import Store.

Lemma slideState_update_same sid pid st e c now d :
  is_Some (selectSlide sid pid d) ->
  slideState sid pid (updateSlide sid st e c now d) = Some (st, e).
Proof.
  intros [r Hr]. unfold slideState. rewrite selectSlide_updateSlide, Hr. cbn.
  destruct (updatedRow_hit sid st e c now r (selectSlide_id _ _ _ _ Hr)) as [-> ->].
  reflexivity.
Qed.

Lemma slideState_update_other sid sid' pid st e c now d :
  sid <> sid' ->
  slideState sid pid (updateSlide sid' st e c now d) = slideState sid pid d.
Proof.
  intros Hne. unfold slideState. rewrite selectSlide_updateSlide.
  destruct (selectSlide sid pid d) as [r|] eqn:Hr; [|reflexivity]. cbn.
  rewrite updatedRow_miss; [reflexivity|].
  rewrite (selectSlide_id _ _ _ _ Hr). exact Hne.
Qed.

Lemma selectSlide_update_is_Some sid sid' pid st e c now d :
  is_Some (selectSlide sid pid d) ->
  is_Some (selectSlide sid pid (updateSlide sid' st e c now d)).
Proof.
  intros [r Hr]. rewrite selectSlide_updateSlide, Hr. cbn. eauto.
Qed.

End SlideStateFacts.

Section CountingFacts.
Context {A : Type}.

Lemma filter_length_perm (f : A -> bool) (l k : list A) :
  l ≡ₚ k -> length (List.filter f l) = length (List.filter f k).
Proof.
  induction 1 as [|x l k _ IH|x y l|l k m _ IH1 _ IH2]; cbn.
  - reflexivity.
  - destruct (f x); cbn; congruence.
  - destruct (f x), (f y); reflexivity.
  - congruence.
Qed.

Lemma filter_split_perm (h : A -> bool) (l : list A) :
  List.filter (fun x => negb (h x)) l ++ List.filter h l ≡ₚ l.
Proof.
  induction l as [|x l IH]; cbn; [reflexivity|].
  destruct (h x); cbn.
  - rewrite <- Permutation_middle. constructor. exact IH.
  - constructor. exact IH.
Qed.

Lemma NoDup_filter_bool (f : A -> bool) (l : list A) :
  NoDup l -> NoDup (List.filter f l).
Proof. intros H. apply NoDup_ListNoDup, List.NoDup_filter, NoDup_ListNoDup, H. Qed.

Lemma fmap_imap_same {B C : Type} (f : B -> C) (h : A -> C) (l : list A) :
  forall g : nat -> A -> B,
    (forall i x, f (g i x) = h x) -> f <$> imap g l = h <$> l.
Proof.
  induction l as [|x l IH]; intros g Hg; [reflexivity|].
  cbn. rewrite Hg. f_equal. apply IH. intros i y. apply Hg.
Qed.

End CountingFacts.

Section DeckFacts.
Import Store Pipeline.
Context {slide_content : Type}.
Variable parseSlideContent : string -> option slide_content.
Variable job : Jobs.job.

Lemma deckSlides_ids d :
  ds_id <$> deckSlides parseSlideContent job d
  = s_id <$> slidesOfProject (Jobs.projectId job) d.
Proof. unfold deckSlides. apply fmap_imap_same. reflexivity. Qed.

(** [id] is the primary key of [slides]: no two slides of a deck share it. *)
Lemma slidesOfProject_NoDup pid d :
  NoDup (s_id <$> slides d) -> NoDup (s_id <$> slidesOfProject pid d).
Proof.
  intros H. unfold slidesOfProject. rewrite merge_sort_Permutation.
  induction (slides d) as [|r l IH]; cbn; [constructor|].
  cbn in H. apply NoDup_cons in H as [Hr Hl].
  destruct (String.eqb _ _); [|apply IH, Hl].
  cbn. apply NoDup_cons. split; [|apply IH, Hl].
  intros Hin. apply Hr. apply list_elem_of_fmap in Hin as (x & -> & Hx).
  apply list_elem_of_fmap. exists x. split; [reflexivity|].
  apply elem_of_filter_bool in Hx as [Hx _]. exact Hx.
Qed.

Lemma deckSlides_exist d i s :
  deckSlides parseSlideContent job d !! i = Some s ->
  is_Some (selectSlide (ds_id s) (Jobs.projectId job) d).
Proof.
  unfold deckSlides. rewrite list_lookup_imap. intros H.
  destruct (slidesOfProject _ d !! i) as [r|] eqn:Hr; [|discriminate].
  cbn in H. injection H as <-. cbn [ds_id].
  apply list_elem_of_lookup_2 in Hr. unfold slidesOfProject in Hr.
  rewrite merge_sort_Permutation in Hr.
  apply elem_of_filter_bool in Hr as [Hin Hp].
  unfold selectSlide. destruct (List.find _ _) eqn:Hf; [eauto|].
  apply list_elem_of_In in Hin. pose proof (List.find_none _ _ Hf r Hin) as Hn.
  cbn in Hn. rewrite String.eqb_refl, Hp in Hn. discriminate.
Qed.

End DeckFacts.

Section ImagesFacts.
Import Store ImageClient Pipeline.
Context {theme slide_content : Type}.
Variable build : theme -> string -> slide_content -> string.
Variable job : Jobs.job.
Variable calls : nat -> image_call.
Variable newIds : nat -> string.
Variable now root : string.
Variable deck : list (@deck_slide slide_content).
Variable d0 : db.
Hypothesis deck_ids : NoDup (ds_id <$> deck).
Hypothesis fresh :
  forall i, (i < length deck)%nat ->
            newIds i ∉ iv_id <$> slide_image_versions d0.
Hypothesis distinct :
  forall i j, (i < length deck)%nat -> (j < length deck)%nat ->
              newIds i = newIds j -> i = j.

Local Abbreviation ok := (tasksDone job calls newIds deck d0).
Local Abbreviation fails := (failsAt calls deck).

Lemma other_slide i j s t :
  deck !! i = Some s -> deck !! j = Some t -> i <> j -> ds_id s <> ds_id t.
Proof.
  intros Hi Hj Hne Heq. apply Hne.
  apply (NoDup_lookup (ds_id <$> deck) i j (ds_id s) deck_ids).
  - rewrite list_lookup_fmap, Hi. reflexivity.
  - rewrite list_lookup_fmap, Hj, Heq. reflexivity.
Qed.

Lemma fails_of_failure i s e :
  deck !! i = Some s -> taskFailure s (calls i) = Some e -> fails i = true.
Proof. intros Hi He. unfold failsAt. rewrite Hi, He. reflexivity. Qed.

Lemma fails_of_success i s :
  deck !! i = Some s -> taskFailure s (calls i) = None -> fails i = false.
Proof. intros Hi He. unfold failsAt. rewrite Hi, He. reflexivity. Qed.

(** The slide of a task that is not done yet goes to an intermediate
    status: nothing that is recorded of the done tasks changes. *)
Lemma ok_touch done stg i s st e c :
  ok done stg -> i ∉ done -> deck !! i = Some s ->
  ok done {| now_world := with_db (now_world stg)
                            (updateSlide (ds_id s) st e c now
                               (disk_db (now_world stg)));
             completedSlides := completedSlides stg;
             failedSlides := failedSlides stg |}.
Proof.
  intros [Hjob Hrange Hexist Hrows Hcomp Hfail Hstates] Hi Hs.
  split; cbn [now_world with_db disk_db jobs completedSlides failedSlides];
    try assumption.
  - intros j t Ht. apply selectSlide_update_is_Some. eapply Hexist, Ht.
  - intros j t Hj Ht. rewrite slideState_update_other; [apply Hstates; assumption|].
    apply (other_slide j i t s Ht Hs). intros ->. contradiction.
Qed.

(** Only the tables, the registry and the counters matter. *)
Lemma ok_ext done stg stg' :
  disk_db (now_world stg') = disk_db (now_world stg) ->
  jobs (now_world stg') = jobs (now_world stg) ->
  completedSlides stg' = completedSlides stg ->
  failedSlides stg' = failedSlides stg ->
  ok done stg -> ok done stg'.
Proof.
  intros Hd Hj Hc Hf [Hjob Hrange Hexist Hrows Hcomp Hfail Hstates].
  split; rewrite ?Hd, ?Hj, ?Hc, ?Hf; assumption.
Qed.

(** A task ends with its slide in its final state. *)
Lemma ok_finish done stg stg' i s (failed : bool) :
  ok done stg -> i ∉ done -> deck !! i = Some s ->
  fails i = failed ->
  is_Some (jobs (now_world stg') !! Jobs.id job) ->
  (forall sid, is_Some (selectSlide sid (Jobs.projectId job)
                          (disk_db (now_world stg))) ->
               is_Some (selectSlide sid (Jobs.projectId job)
                          (disk_db (now_world stg')))) ->
  (forall sid, sid <> ds_id s ->
               slideState sid (Jobs.projectId job) (disk_db (now_world stg'))
               = slideState sid (Jobs.projectId job) (disk_db (now_world stg))) ->
  slideState (ds_id s) (Jobs.projectId job) (disk_db (now_world stg'))
  = Some (expectedState s (calls i)) ->
  (forall rowId,
      rowId ∈ iv_id <$> slide_image_versions (disk_db (now_world stg')) ->
      rowId ∈ iv_id <$> slide_image_versions (disk_db (now_world stg))
      \/ rowId = newIds i) ->
  completedSlides stg' = completedSlides stg + (if failed then 0 else 1) ->
  failedSlides stg' = failedSlides stg + (if failed then 1 else 0) ->
  ok (done ++ [i]) stg'.
Proof.
  intros [Hjob Hrange Hexist Hrows Hcomp Hfail Hstates] Hi Hs Hf Hjs Hkeep Hother
         Hmine Hnew Hc' Hf'.
  split.
  - exact Hjs.
  - intros j Hj. apply elem_of_app in Hj as [Hj|Hj]; [apply Hrange, Hj|].
    apply list_elem_of_singleton in Hj as ->. apply lookup_lt_Some in Hs. exact Hs.
  - intros j t Ht. apply Hkeep. eapply Hexist, Ht.
  - intros rowId Hin. destruct (Hnew rowId Hin) as [Hold | ->].
    + destruct (Hrows rowId Hold) as [H0 | (j & Hj & ->)]; [left; exact H0|].
      right. exists j. split; [apply elem_of_app; left; exact Hj | reflexivity].
    + right. exists i. split; [apply elem_of_app; right; left | reflexivity].
  - rewrite Hc', List.filter_app, length_app. cbn [List.filter]. rewrite Hf, Hcomp.
    destruct failed; cbn [negb length]; lia.
  - rewrite Hf', List.filter_app, length_app. cbn [List.filter]. rewrite Hf, Hfail.
    destruct failed; cbn [length]; lia.
  - intros j t Hj Ht. apply elem_of_app in Hj as [Hj|Hj].
    + rewrite Hother; [apply Hstates; assumption|].
      apply (other_slide j i t s Ht Hs). intros ->. contradiction.
    + apply list_elem_of_singleton in Hj as ->.
      rewrite Hs in Ht. injection Ht as <-. exact Hmine.
Qed.

(** Only which tasks have ended matters, not in which order they did. *)
Lemma ok_perm done done' stg : done ≡ₚ done' -> ok done stg -> ok done' stg.
Proof.
  intros Hp [Hjob Hrange Hexist Hrows Hcomp Hfail Hstates]. split.
  - exact Hjob.
  - intros i Hi. apply Hrange. rewrite Hp. exact Hi.
  - exact Hexist.
  - intros rowId Hin.
    destruct (Hrows rowId Hin) as [H0|(i & Hi & ->)]; [left; exact H0|].
    right. exists i. split; [rewrite <- Hp; exact Hi | reflexivity].
  - rewrite Hcomp. f_equal. apply filter_length_perm, Hp.
  - rewrite Hfail. f_equal. apply filter_length_perm, Hp.
  - intros i s Hi Hs. apply Hstates; [rewrite Hp; exact Hi | exact Hs].
Qed.

(** The [catch] block of a task that fails with [e]. *)
Lemma task_catch_done done stg total i s e :
  ok done stg -> i ∉ done -> deck !! i = Some s ->
  taskFailure s (calls i) = Some e ->
  exists stg',
    task_catch job now total s e stg = (Fulfilled, stg')
    /\ ok (done ++ [i]) stg'.
Proof.
  intros Hok Hi Hs He. pose proof Hok as [[j Hj] _ Hexist _ _ _ _].
  unfold task_catch.
  cbn [now_world with_db jobs completedSlides failedSlides].
  rewrite (updateJob_registered _ _ _ j Hj).
  eexists. split; [reflexivity|].
  apply (ok_finish done stg _ i s true Hok Hi Hs);
    cbn [now_world with_db with_jobs disk_db jobs completedSlides failedSlides].
  - apply (fails_of_failure i s e Hs He).
  - rewrite lookup_insert_eq. eauto.
  - intros sid Hsome. unfold setSlideStatus, sql_exec. cbn [snd].
    apply selectSlide_update_is_Some, Hsome.
  - intros sid Hne. unfold setSlideStatus, sql_exec. cbn [snd].
    apply slideState_update_other, Hne.
  - unfold setSlideStatus, sql_exec. cbn [snd].
    rewrite slideState_update_same by (eapply Hexist, Hs).
    unfold expectedState. rewrite He. reflexivity.
  - intros rowId Hin. left. exact Hin.
  - lia.
  - lia.
Qed.

(** A task up to its first [await]. *)
Lemma task_begin_done done stg th total i s :
  ok done stg -> i ∉ done -> deck !! i = Some s ->
  match ds_content s with
  | None =>
      exists stg',
        task_begin build job now th total s stg = (Fulfilled, stg')
        /\ ok (done ++ [i]) stg'
  | Some c =>
      exists v stg',
        task_begin build job now th total s stg
        = (Awaiting v (build th (ds_title s) c), stg')
        /\ ok done stg'
  end.
Proof.
  intros Hok Hi Hs. unfold task_begin.
  destruct (ds_content s) as [c|] eqn:Hc.
  - eexists. eexists. split; [reflexivity|].
    apply (ok_touch done stg i s generating_image None None Hok Hi Hs).
  - apply (task_catch_done done stg total i s _ Hok Hi Hs).
    unfold taskFailure. rewrite Hc. reflexivity.
Qed.

(** A task from the return of its image call on. *)
Lemma task_resume_done done stg total i s c v p :
  ok done stg -> i ∉ done -> deck !! i = Some s ->
  ds_content s = Some c ->
  exists stg',
    task_resume job calls newIds now root total i s v p stg = (Fulfilled, stg')
    /\ ok (done ++ [i]) stg'.
Proof.
  intros Hok Hi Hs Hc. pose proof Hok as [[j Hj] Hrange Hexist Hrows _ _ _].
  unfold task_resume.
  destruct (calls i) as [e | ext data rq rs at_ [e|]
                        | x data rq rs at_ key meta [e|e|]] eqn:Hcall;
    cbn [generateImageToProject];
    try (apply (task_catch_done done _ total i s e); [|exact Hi|exact Hs|];
         [apply (ok_ext done stg); try reflexivity; exact Hok
         |unfold taskFailure; rewrite Hc, Hcall; reflexivity]).
  - unfold task_record, mbind, sql_bind.
    rewrite insertImageVersion_ok.
    + unfold Pipeline.setSlideStatus, sql_exec.
      cbn [now_world with_db with_fs with_jobs disk_db jobs].
      rewrite (updateJob_registered _ _ _ j Hj).
      eexists. split; [reflexivity|].
      apply (ok_finish done stg _ i s false Hok Hi Hs);
        cbn [now_world with_db with_jobs disk_db jobs completedSlides failedSlides].
      * apply (fails_of_success i s Hs). unfold taskFailure.
        rewrite Hc, Hcall. reflexivity.
      * rewrite lookup_insert_eq. eauto.
      * intros sid Hsome. apply selectSlide_update_is_Some. exact Hsome.
      * intros sid Hne. rewrite slideState_update_other by exact Hne. reflexivity.
      * rewrite slideState_update_same by (eapply Hexist, Hs).
        unfold expectedState, taskFailure. rewrite Hc, Hcall. reflexivity.
      * intros rowId Hin. cbn [slide_image_versions updateSlide with_slides
                                with_image_versions] in Hin.
        rewrite fmap_app in Hin. apply elem_of_app in Hin as [Hin|Hin];
          [left; exact Hin | right].
        apply list_elem_of_singleton in Hin. exact Hin.
      * lia.
      * lia.
    + cbn [iv_id]. intros Hin.
      destruct (Hrows _ Hin) as [H0 | (k & Hk & Heq)].
      * revert H0. apply fresh. apply lookup_lt_Some in Hs. exact Hs.
      * apply distinct in Heq; [subst k; contradiction| |apply Hrange, Hk].
        apply lookup_lt_Some in Hs. exact Hs.
    + cbn [slide_id]. destruct (Hexist i s Hs) as [r Hr].
      apply (selectSlide_elem _ _ _ _ Hr).
  - unfold task_record, mbind, sql_bind.
    rewrite insertImageVersion_ok.
    + unfold Pipeline.setSlideStatus, sql_exec.
      cbn [now_world with_db with_fs with_jobs disk_db jobs].
      rewrite (updateJob_registered _ _ _ j Hj).
      eexists. split; [reflexivity|].
      apply (ok_finish done stg _ i s false Hok Hi Hs);
        cbn [now_world with_db with_jobs disk_db jobs completedSlides failedSlides].
      * apply (fails_of_success i s Hs). unfold taskFailure.
        rewrite Hc, Hcall. reflexivity.
      * rewrite lookup_insert_eq. eauto.
      * intros sid Hsome. apply selectSlide_update_is_Some. exact Hsome.
      * intros sid Hne. rewrite slideState_update_other by exact Hne. reflexivity.
      * rewrite slideState_update_same by (eapply Hexist, Hs).
        unfold expectedState, taskFailure. rewrite Hc, Hcall. reflexivity.
      * intros rowId Hin. cbn [slide_image_versions updateSlide with_slides
                                with_image_versions] in Hin.
        rewrite fmap_app in Hin. apply elem_of_app in Hin as [Hin|Hin];
          [left; exact Hin | right].
        apply list_elem_of_singleton in Hin. exact Hin.
      * lia.
      * lia.
    + cbn [iv_id]. intros Hin.
      destruct (Hrows _ Hin) as [H0 | (k & Hk & Heq)].
      * revert H0. apply fresh. apply lookup_lt_Some in Hs. exact Hs.
      * apply distinct in Heq; [subst k; contradiction| |apply Hrange, Hk].
        apply lookup_lt_Some in Hs. exact Hs.
    + cbn [slide_id]. destruct (Hexist i s Hs) as [r Hr].
      apply (selectSlide_elem _ _ _ _ Hr).
Qed.

(** All tasks run to their first [await], in deck order. *)
Lemma beginAll_done th total : forall rest m done stg,
  (forall k s, rest !! k = Some s -> deck !! (m + k)%nat = Some s) ->
  ok done stg ->
  (forall i, i ∈ done -> (i < m)%nat) ->
  exists ts stg',
    beginAll build job now th total rest stg = (ts, stg')
    /\ ok (done ++ List.filter (fun i => negb (hasContent deck i))
                               (seq m (length rest))) stg'
    /\ length ts = length rest
    /\ (forall k, (k < length rest)%nat -> hasContent deck (m + k) = true ->
                  exists v p, ts !! k = Some (Awaiting v p))
    /\ (forall k t, ts !! k = Some t -> hasContent deck (m + k) = false ->
                    t = Fulfilled).
Proof.
  induction rest as [|s rest IH]; intros m done stg Hdeck Hok Hlt.
  - exists [], stg. cbn. rewrite app_nil_r.
    split; [reflexivity|]. split; [exact Hok|]. split; [reflexivity|]. split.
    + intros k Hk. lia.
    + intros k t Hk. inversion Hk.
  - assert (Hs : deck !! m = Some s).
    { specialize (Hdeck 0%nat s eq_refl). rewrite Nat.add_0_r in Hdeck. exact Hdeck. }
    assert (Hm : m ∉ done) by (intros Hin; apply Hlt in Hin; lia).
    assert (Hdeck' : forall k t, rest !! k = Some t -> deck !! (S m + k)%nat = Some t).
    { intros k t Hk. specialize (Hdeck (S k) t Hk).
      replace (S m + k)%nat with (m + S k)%nat by lia. exact Hdeck. }
    pose proof (task_begin_done done stg th total m s Hok Hm Hs) as Hbegin.
    cbn [beginAll length seq List.filter].
    unfold hasContent at 1. rewrite Hs.
    destruct (ds_content s) as [c|] eqn:Hc.
    + destruct Hbegin as (v & stg1 & Hrun & Hok1). rewrite Hrun.
      destruct (IH (S m) done stg1 Hdeck' Hok1) as (ts & stg2 & Hrest & Hok2 & Hlen & Haw & Hful).
      { intros i Hi. apply Hlt in Hi. lia. }
      rewrite Hrest. eexists. eexists. split; [reflexivity|].
      cbn [negb]. split; [exact Hok2|]. split; [cbn; rewrite Hlen; reflexivity|].
      split.
      * intros [|k] Hk Hcont; [cbn; eauto|].
        cbn. apply Haw; [lia|]. replace (S m + k)%nat with (m + S k)%nat by lia.
        exact Hcont.
      * intros [|k] t Hk Hcont.
        -- exfalso. rewrite Nat.add_0_r in Hcont. unfold hasContent in Hcont.
           rewrite Hs, Hc in Hcont. discriminate.
        -- cbn in Hk. apply (Hful k t Hk).
           replace (S m + k)%nat with (m + S k)%nat by lia. exact Hcont.
    + destruct Hbegin as (stg1 & Hrun & Hok1). rewrite Hrun.
      destruct (IH (S m) (done ++ [m]) stg1 Hdeck' Hok1)
        as (ts & stg2 & Hrest & Hok2 & Hlen & Haw & Hful).
      { intros i Hi. apply elem_of_app in Hi as [Hi|Hi]; [apply Hlt in Hi; lia|].
        apply list_elem_of_singleton in Hi as ->. lia. }
      rewrite Hrest. eexists. eexists. split; [reflexivity|].
      cbn [negb]. rewrite <- app_assoc in Hok2.
      split; [exact Hok2|]. split; [cbn; rewrite Hlen; reflexivity|].
      split.
      * intros [|k] Hk Hcont.
        -- exfalso. rewrite Nat.add_0_r in Hcont. unfold hasContent in Hcont.
           rewrite Hs, Hc in Hcont. discriminate.
        -- cbn. apply Haw; [lia|]. replace (S m + k)%nat with (m + S k)%nat by lia.
           exact Hcont.
      * intros [|k] t Hk Hcont; [cbn in Hk; congruence|].
        cbn in Hk. apply (Hful k t Hk).
        replace (S m + k)%nat with (m + S k)%nat by lia. exact Hcont.
Qed.

(** The image calls come back in any order of the waiting tasks. *)
Lemma resumeAll_done total : forall order done tasks stg,
  ok done stg ->
  NoDup order ->
  (forall i, i ∈ order -> i ∉ done) ->
  (forall i, i ∈ order ->
             hasContent deck i = true
             /\ exists v p, tasks !! i = Some (Awaiting v p)) ->
  exists tasks' stg',
    resumeAll job calls newIds now root total deck order tasks stg
    = Some (tasks', stg')
    /\ ok (done ++ order) stg'
    /\ (forall k t, tasks' !! k = Some t ->
                    t = Fulfilled \/ ((k ∉ order) /\ tasks !! k = Some t)).
Proof.
  induction order as [|idx order IH]; intros done tasks stg Hok Hnd Hnew Hwait.
  - exists tasks, stg. cbn. rewrite app_nil_r. split; [reflexivity|].
    split; [exact Hok|]. intros k t Hk. right. split; [inversion 1 | exact Hk].
  - apply NoDup_cons in Hnd as [Hidx Hnd].
    assert (Hhere : idx ∈ idx :: order) by left.
    destruct (Hwait idx Hhere) as (Hcont & v & p & Htask).
    unfold hasContent in Hcont.
    destruct (deck !! idx) as [s|] eqn:Hs; [|discriminate].
    destruct (ds_content s) as [c|] eqn:Hc; [|discriminate].
    destruct (task_resume_done done stg total idx s c v p Hok
                (Hnew idx Hhere) Hs Hc) as (stg1 & Hrun & Hok1).
    cbn [resumeAll]. rewrite Hs, Htask, Hrun.
    destruct (IH (done ++ [idx]) (<[idx := Fulfilled]> tasks) stg1 Hok1 Hnd)
      as (tasks' & stg2 & Hrest & Hok2 & Htasks).
    { intros i Hi Hin. apply elem_of_app in Hin as [Hin|Hin].
      - apply (Hnew i); [right; exact Hi | exact Hin].
      - apply list_elem_of_singleton in Hin as ->. contradiction. }
    { intros i Hi.
      assert (Hthere : i ∈ idx :: order) by (right; exact Hi).
      destruct (Hwait i Hthere) as (Hci & vi & pi & Hti).
      split; [exact Hci|]. exists vi, pi.
      rewrite list_lookup_insert_ne; [exact Hti|]. intros ->. contradiction. }
    exists tasks', stg2. split; [exact Hrest|].
    rewrite <- app_assoc in Hok2. split; [exact Hok2|].
    intros k t Hk. destruct (Htasks k t Hk) as [-> | [Hnot Hk']]; [left; reflexivity|].
    destruct (decide (k = idx)) as [->|Hne].
    + left. rewrite list_lookup_insert_eq in Hk'.
      * congruence.
      * apply lookup_lt_Some in Htask. exact Htask.
    + right. rewrite list_lookup_insert_ne in Hk' by congruence.
      split; [|exact Hk']. intros Hin. apply elem_of_cons in Hin as [->|Hin];
        contradiction.
Qed.

(** Once every task is fulfilled the stage marks the job completed. *)
Lemma awaitAll_done total tasks stg j :
  Forall (fun t => t = Fulfilled) tasks ->
  jobs (now_world stg) !! Jobs.id job = Some j ->
  awaitAll job now total tasks stg
  = Some (Return tt,
          with_jobs (now_world stg)
            (<[Jobs.id job := Jobs.patched j (donePatch now total stg)]>
               (jobs (now_world stg)))).
Proof.
  intros Hall Hj. unfold awaitAll.
  assert (Hrej : firstRejection tasks = None
                 /\ existsb isAwaiting tasks = false).
  { induction Hall as [|t ts -> _ IH]; [split; reflexivity | exact IH]. }
  destruct Hrej as [Hrej Hwait].
  rewrite Hrej, Hwait, (updateJob_registered _ _ _ j Hj). reflexivity.
Qed.

End ImagesFacts.

(** * The Images stage as a whole *)

(** C7. When [runGenerateImagesStep] runs over a non-empty deck whose job is
    registered and whose theme exists, and every image call that was started
    comes back (in any order [order]), the stage returns normally whatever
    the tasks did: the job ends with status [completed] and the counters
    [totalSlides] = size of the deck, [completedSlides] = number of tasks
    that succeeded, [failedSlides] = number of tasks that failed; the slide
    of every failed task (missing content, failed image call) is in status
    [error] with the message of its failure, and every other slide is in
    status [ready]. *)
Theorem images_stage_isolates_failures
  {theme slide_content : Type}
  (parseTheme : string -> option theme)
  (parseSlideContent : string -> option slide_content)
  (build : theme -> string -> slide_content -> string)
  (job : Jobs.job) (calls : nat -> ImageClient.image_call)
  (newIds : nat -> string) (now root : string)
  (order : list nat) (w : Pipeline.world) (j : Jobs.job) (th : theme) :
  let deck := Pipeline.deckSlides parseSlideContent job (Pipeline.disk_db w) in
  let n := length deck in
  Pipeline.jobs w !! Jobs.id job = Some j ->
  Pipeline.requireLatestTheme parseTheme job (Pipeline.disk_db w) = Return th ->
  deck <> [] ->
  NoDup (Store.s_id <$> Store.slides (Pipeline.disk_db w)) ->
  (forall i, (i < n)%nat ->
             newIds i ∉ Store.iv_id
                        <$> Store.slide_image_versions (Pipeline.disk_db w)) ->
  (forall i k, (i < n)%nat -> (k < n)%nat -> newIds i = newIds k -> i = k) ->
  order ≡ₚ Pipeline.awaited deck ->
  exists w' j',
    Pipeline.runGenerateImagesStep parseTheme parseSlideContent build job
      (Return root) calls newIds now order w
    = Some (Return tt, w')
    /\ Pipeline.jobs w' !! Jobs.id job = Some j'
    /\ Jobs.status j' = Jobs.completed
    /\ Jobs.progress_ j'
       = Some {| Jobs.step := Jobs.images;
                 Jobs.totalSlides := Z.of_nat n;
                 Jobs.completedSlides :=
                   Z.of_nat (length (List.filter
                                       (fun i => negb (Pipeline.failsAt calls deck i))
                                       (seq 0 n)));
                 Jobs.failedSlides :=
                   Z.of_nat (length (List.filter (Pipeline.failsAt calls deck)
                                                 (seq 0 n))) |}
    /\ (forall i s e,
           deck !! i = Some s ->
           Pipeline.taskFailure s (calls i) = Some e ->
           Store.slideState (Pipeline.ds_id s) (Jobs.projectId job)
             (Pipeline.disk_db w')
           = Some (Store.error, Some (toErrorMessage e)))
    /\ (forall i s,
           deck !! i = Some s ->
           Pipeline.taskFailure s (calls i) = None ->
           Store.slideState (Pipeline.ds_id s) (Jobs.projectId job)
             (Pipeline.disk_db w')
           = Some (Store.ready, None)).
Proof.
  intros deck n Hj Hth Hne Hnd Hfresh Hdist Hperm.
  assert (Hids : NoDup (Pipeline.ds_id <$> deck)).
  { unfold deck. rewrite deckSlides_ids. apply slidesOfProject_NoDup, Hnd. }
  assert (Hn : n <> 0%nat).
  { unfold n. destruct deck; [contradiction | discriminate]. }
  unfold Pipeline.runGenerateImagesStep.
  rewrite (updateJob_registered _ _ _ j Hj).
  unfold Pipeline.runImagesFrom.
  cbn [Pipeline.disk_db Pipeline.with_jobs Pipeline.jobs Pipeline.disk_fs].
  rewrite Hth. fold deck. fold n.
  rewrite (bool_decide_eq_false_2 _ Hn).
  rewrite (updateJob_registered _ _ _ (Jobs.patched j Pipeline.startPatch))
    by apply lookup_insert_eq.
  match goal with
  | |- context [Pipeline.beginAll _ _ _ _ _ _ ?stg] => set (stg0 := stg)
  end.
  assert (Hok0 : Pipeline.tasksDone job calls newIds deck (Pipeline.disk_db w)
                   [] stg0).
  { split; unfold stg0;
      cbn [Pipeline.now_world Pipeline.jobs Pipeline.disk_db Pipeline.with_jobs
           Pipeline.completedSlides Pipeline.failedSlides].
    - rewrite lookup_insert_eq. eauto.
    - intros i Hi. inversion Hi.
    - intros i s Hs. apply (deckSlides_exist _ _ _ i s Hs).
    - intros rowId Hin. left. exact Hin.
    - reflexivity.
    - reflexivity.
    - intros i s Hi. inversion Hi. }
  destruct (beginAll_done build job calls newIds now deck (Pipeline.disk_db w)
              Hids th n deck 0 [] stg0)
    as (ts & stg1 & Hbegin & Hok1 & Hlen & Haw & Hful).
  { intros k s Hk. exact Hk. }
  { exact Hok0. }
  { intros i Hi. inversion Hi. }
  rewrite Hbegin. fold n in Hok1. cbn [app] in Hok1.
  destruct (resumeAll_done job calls newIds now root deck (Pipeline.disk_db w)
              Hids Hfresh Hdist n order _ ts stg1 Hok1)
    as (ts' & stg2 & Hres & Hok2 & Hts').
  { rewrite Hperm. apply NoDup_filter_bool, NoDup_seq. }
  { intros i Hi Hin. rewrite Hperm in Hi.
    apply elem_of_filter_bool in Hi as [_ Hi].
    apply elem_of_filter_bool in Hin as [_ Hin].
    rewrite Hi in Hin. discriminate. }
  { intros i Hi. rewrite Hperm in Hi.
    apply elem_of_filter_bool in Hi as [Hi Hc]. split; [exact Hc|].
    apply elem_of_seq in Hi. apply (Haw i); [lia | exact Hc]. }
  rewrite Hres.
  assert (Hall : Forall (fun t => t = Pipeline.Fulfilled) ts').
  { apply Forall_lookup. intros k t Hk.
    destruct (Hts' k t Hk) as [->|[Hnot Hk0]]; [reflexivity|].
    apply (Hful k t Hk0). cbn [Nat.add].
    destruct (Pipeline.hasContent deck k) eqn:Hc; [|reflexivity].
    exfalso. apply Hnot. rewrite Hperm. apply elem_of_filter_bool.
    split; [|exact Hc]. apply elem_of_seq. apply lookup_lt_Some in Hk0.
    fold n. lia. }
  assert (Hok3 : Pipeline.tasksDone job calls newIds deck (Pipeline.disk_db w)
                   (seq 0 n) stg2).
  { refine (ok_perm job calls newIds deck _ _ _ stg2 _ Hok2).
    rewrite Hperm. apply filter_split_perm. }
  destruct Hok3 as [[j2 Hj2] _ _ _ Hcomp Hfail Hstates].
  rewrite (awaitAll_done job now n ts' stg2 j2 Hall Hj2).
  eexists. eexists. split; [reflexivity|].
  cbn [Pipeline.jobs Pipeline.with_jobs Pipeline.disk_db].
  split; [apply lookup_insert_eq|]. split; [reflexivity|]. split.
  - cbn [Jobs.progress_ Jobs.patched Jobs.set_progress Pipeline.donePatch].
    rewrite Hcomp, Hfail. reflexivity.
  - split.
    + intros i s e Hs He. rewrite (Hstates i s).
      * unfold Pipeline.expectedState. rewrite He. reflexivity.
      * apply elem_of_seq. apply lookup_lt_Some in Hs. fold n in Hs. lia.
      * exact Hs.
    + intros i s Hs He. rewrite (Hstates i s).
      * unfold Pipeline.expectedState. rewrite He. reflexivity.
      * apply elem_of_seq. apply lookup_lt_Some in Hs. fold n in Hs. lia.
      * exact Hs.
Qed.

(** On the sample project the second slide has no content: its task fails
    at once, the two others wait for their images, which come back in the
    reverse order. *)
Lemma images_stage_isolates_failures_witness :
  exists w' j',
    Pipeline.runGenerateImagesStep Some Some SampleRun.build SampleRun.job
      (Return Sample.root) SampleRun.imageCalls SampleRun.rowIds "t5"
      [2; 0]%nat (Pipeline.now_world SampleRun.stage0)
    = Some (Return tt, w')
    /\ Pipeline.jobs w' !! "job-1" = Some j'
    /\ Jobs.status j' = Jobs.completed
    /\ Jobs.progress_ j'
       = Some {| Jobs.step := Jobs.images; Jobs.totalSlides := 3;
                 Jobs.completedSlides := 2; Jobs.failedSlides := 1 |}
    /\ Store.slideState "slide-a" "deck" (Pipeline.disk_db w')
       = Some (Store.ready, None)
    /\ Store.slideState "slide-b" "deck" (Pipeline.disk_db w')
       = Some (Store.error, Some "内容未生成")
    /\ Store.slideState "slide-c" "deck" (Pipeline.disk_db w')
       = Some (Store.ready, None).
Proof.
  destruct (images_stage_isolates_failures
              Some Some SampleRun.build SampleRun.job SampleRun.imageCalls
              SampleRun.rowIds "t5" Sample.root [2; 0]%nat
              (Pipeline.now_world SampleRun.stage0) SampleRun.job "{theme}")
    as (w' & j' & Hrun & Hj & Hstatus & Hprogress & Herror & Hready).
  - reflexivity.
  - reflexivity.
  - intros H. vm_compute in H. discriminate H.
  - refine (bool_decide_unpack _ _). vm_compute. exact I.
  - intros i Hi Hin. vm_compute in Hi.
    destruct i as [|[|[|i]]]; [| | |lia];
      apply list_elem_of_In in Hin; vm_compute in Hin;
      destruct Hin as [Hin|[Hin|[]]]; discriminate Hin.
  - intros i k Hi Hk Heq. vm_compute in Hi, Hk.
    destruct i as [|[|[|i]]], k as [|[|[|k]]];
      try lia; try reflexivity; vm_compute in Heq; discriminate Heq.
  - vm_compute. apply perm_swap.
  - exists w', j'. split; [exact Hrun|]. split; [exact Hj|].
    split; [exact Hstatus|]. split; [exact Hprogress|].
    split; [|split].
    + exact (Hready 0%nat SampleRun.first eq_refl eq_refl).
    + exact (Herror 1%nat SampleRun.second (ErrorObj "内容未生成") eq_refl eq_refl).
    + exact (Hready 2%nat SampleRun.third eq_refl eq_refl).
Defined.

(** * Properties of the views and of the Style stage *)
Section SortFacts.
Context {A B : Type} (f : A -> B).
Context (R1 : relation A) (R2 : relation B).
Context `{!RelDecision R1, !RelDecision R2}.
Hypothesis related : forall x y, R1 x y <-> R2 (f x) (f y).

Lemma list_merge_fmap l1 : forall l2,
  f <$> list_merge R1 l1 l2 = list_merge R2 (f <$> l1) (f <$> l2).
Proof.
  induction l1 as [|x1 l1 IH1]; intros l2.
  - rewrite fmap_nil, !list_merge_nil_l. reflexivity.
  - induction l2 as [|x2 l2 IH2].
    + rewrite fmap_nil, !list_merge_nil_r. reflexivity.
    + rewrite !fmap_cons, !list_merge_cons.
      destruct (decide (R1 x1 x2)) as [H1|H1], (decide (R2 (f x1) (f x2))) as [H2|H2].
      * rewrite fmap_cons, IH1. reflexivity.
      * exfalso. apply H2, related, H1.
      * exfalso. apply H1, related, H2.
      * rewrite fmap_cons. f_equal. exact IH2.
Qed.

Local Abbreviation mapStack :=
  (fmap (M := list) (fmap (M := option) (fmap (M := list) f))).

Lemma merge_list_to_stack_fmap st : forall l,
  mapStack (merge_list_to_stack R1 st l)
  = merge_list_to_stack R2 (mapStack st) (f <$> l).
Proof.
  induction st as [|[l'|] st IH]; intros l; cbn; [reflexivity| |reflexivity].
  rewrite IH, list_merge_fmap. reflexivity.
Qed.

Lemma merge_stack_fmap st :
  f <$> merge_stack R1 st = merge_stack R2 (mapStack st).
Proof.
  induction st as [|[l'|] st IH]; cbn; [reflexivity| |exact IH].
  rewrite list_merge_fmap, IH. reflexivity.
Qed.

Lemma merge_sort_aux_fmap l : forall st,
  f <$> merge_sort_aux R1 st l
  = merge_sort_aux R2 (mapStack st) (f <$> l).
Proof.
  induction l as [|x l IH]; intros st; cbn.
  - apply merge_stack_fmap.
  - rewrite IH, merge_list_to_stack_fmap. reflexivity.
Qed.

(** Sorting commutes with a map that carries one order to the other. *)
Lemma merge_sort_fmap l :
  f <$> merge_sort R1 l = merge_sort R2 (f <$> l).
Proof. unfold merge_sort. rewrite merge_sort_aux_fmap. reflexivity. Qed.

End SortFacts.

Section VersionListFacts.
Import Store Views.

#[local] Instance newestFirst_trans : Transitive newestFirst.
Proof. intros a b c. unfold newestFirst. lia. Qed.

#[local] Instance newestFirst_total : Total newestFirst.
Proof. intros a b. unfold newestFirst. lia. Qed.

(** Rows whose versions count up from [a], read backwards, are sorted
    newest first. *)
Lemma counted_reverse_sorted (l : list image_version_row) : forall a,
  version <$> l = seqZ a (Z.of_nat (length l)) ->
  StronglySorted newestFirst (reverse l)
  /\ forall x, x ∈ l -> a <= version x.
Proof.
  induction l as [|x l IH]; intros a Hl.
  - split; [constructor | intros x Hx; inversion Hx].
  - cbn [length] in Hl. rewrite (seqZ_cons a) in Hl by lia.
    cbn [fmap list_fmap] in Hl. injection Hl as Hx Hl.
    replace (Z.pred (Z.of_nat (S (length l)))) with (Z.of_nat (length l)) in Hl by lia.
    destruct (IH _ Hl) as [Hsorted Hlow].
    split.
    + rewrite reverse_cons. apply StronglySorted_app_2.
      * intros x1 x2 H1 H2. apply list_elem_of_singleton in H2 as ->.
        rewrite elem_of_reverse in H1. apply Hlow in H1.
        unfold newestFirst. lia.
      * exact Hsorted.
      * repeat constructor.
    + intros y Hy. apply elem_of_cons in Hy as [->|Hy]; [lia|].
      apply Hlow in Hy. lia.
Qed.

Lemma fmap_NoDup_inj {X Y : Type} (g : X -> Y) (l : list X) x y :
  NoDup (g <$> l) -> x ∈ l -> y ∈ l -> g x = g y -> x = y.
Proof.
  intros Hnd Hx Hy Heq.
  apply list_elem_of_lookup in Hx as [i Hi]. apply list_elem_of_lookup in Hy as [j Hj].
  assert (i = j) as ->.
  { apply (NoDup_lookup (g <$> l) i j (g x) Hnd); rewrite list_lookup_fmap.
    - rewrite Hi. reflexivity.
    - rewrite Hj, Heq. reflexivity. }
  congruence.
Qed.

(** The versions of a slide that are numbered [1..M] are listed from [M]
    down to [1]. *)
Lemma numbered_newest_first sid d :
  numbered sid d ->
  merge_sort newestFirst (versionsOf sid d) = reverse (versionsOf sid d).
Proof.
  intros Hnum.
  destruct (counted_reverse_sorted (versionsOf sid d) 1 Hnum) as [Hsorted _].
  apply (StronglySorted_unique_strong newestFirst).
  - intros x1 x2 H1 H2 Hle1 Hle2. unfold newestFirst in *.
    rewrite merge_sort_Permutation in H1. rewrite elem_of_reverse in H2.
    apply (fmap_NoDup_inj version (versionsOf sid d)); [|assumption|assumption|lia].
    rewrite Hnum. apply NoDup_seqZ.
  - apply StronglySorted_merge_sort; apply _.
  - exact Hsorted.
  - rewrite merge_sort_Permutation, reverse_Permutation. reflexivity.
Qed.

Lemma versionsOf_other_snoc sid sid' d row :
  slide_id row = sid -> sid' <> sid ->
  versionsOf sid' (with_image_versions d (slide_image_versions d ++ [row]))
  = versionsOf sid' d.
Proof.
  intros Hrow Hne. rewrite versionsOf_snoc.
  destruct (String.eqb_spec (slide_id row) sid') as [Heq|_];
    [congruence | apply app_nil_r].
Qed.

Lemma version_latestOf rows : forall best,
  version (latestOf best rows) = maxOf (version best) (version <$> rows).
Proof.
  induction rows as [|r rows IH]; intros best; cbn; [reflexivity|].
  rewrite IH. destruct (Z.ltb_spec (version best) (version r)); f_equal; lia.
Qed.

Lemma latestOf_elem rows : forall best,
  latestOf best rows ∈ best :: rows.
Proof.
  induction rows as [|r rows IH]; intros best; cbn; [left|].
  destruct (version best <? version r).
  - right. apply IH.
  - specialize (IH best). apply elem_of_cons in IH as [->|IH];
      [left | right; right; exact IH].
Qed.

(** [ORDER BY version DESC LIMIT 1] and [MAX(version)] agree. *)
Lemma latestVersionRow_max sid d :
  version <$> latestVersionRow sid d = maxVersion sid d.
Proof.
  unfold latestVersionRow, maxVersion.
  destruct (versionsOf sid d) as [|r rows]; [reflexivity|].
  cbn. rewrite version_latestOf. reflexivity.
Qed.

Lemma latestVersionRow_elem sid d r :
  latestVersionRow sid d = Some r -> r ∈ slide_image_versions d.
Proof.
  unfold latestVersionRow. intros H.
  destruct (versionsOf sid d) as [|r0 rows] eqn:Hv; [discriminate|].
  injection H as <-.
  pose proof (latestOf_elem rows r0) as Hin. rewrite <- Hv in Hin.
  apply elem_of_filter_bool in Hin as [Hin _]. exact Hin.
Qed.

(** The primary key picks one row. *)
Lemma filter_by_key (l : list image_version_row) r :
  NoDup (iv_id <$> l) -> r ∈ l ->
  List.filter (fun v => bool_decide (Some (iv_id v) = Some (iv_id r))) l = [r].
Proof.
  induction l as [|x l IH]; intros Hnd Hr; [inversion Hr|].
  cbn in Hnd. apply NoDup_cons in Hnd as [Hx Hnd]. cbn [List.filter].
  apply elem_of_cons in Hr as [<-|Hr].
  - rewrite bool_decide_true by reflexivity. f_equal.
    clear IH. induction l as [|y l IH]; [reflexivity|].
    cbn [List.filter]. apply not_elem_of_cons in Hx as [Hne Hx].
    apply NoDup_cons in Hnd as [_ Hnd].
    rewrite bool_decide_false by congruence. apply IH; assumption.
  - rewrite bool_decide_false; [apply IH; assumption|].
    intros [= Heq]. apply Hx. rewrite Heq.
    apply list_elem_of_fmap. exists r. split; [reflexivity | exact Hr].
Qed.

(** With unique ids every slide gives one joined row, with its newest
    version if it has one. *)
Lemma joinLatest_one d s :
  NoDup (iv_id <$> slide_image_versions d) ->
  joinLatest d s = [(s, latestVersionRow (s_id s) d)].
Proof.
  intros Hnd. unfold joinLatest, latestVersionId.
  destruct (latestVersionRow (s_id s) d) as [r|] eqn:Hr; cbn [fmap option_fmap option_map].
  - rewrite (filter_by_key _ r Hnd (latestVersionRow_elem _ _ _ Hr)). reflexivity.
  - clear Hnd Hr. induction (slide_image_versions d) as [|x l IH]; [reflexivity|].
    cbn [List.filter]. rewrite bool_decide_false by discriminate. exact IH.
Qed.

Lemma slidesWithLatest_rows pid d :
  NoDup (iv_id <$> slide_image_versions d) ->
  slidesWithLatest pid d
  = (fun s => (s, latestVersionRow (s_id s) d)) <$> slidesOfProject pid d.
Proof.
  intros Hnd. unfold slidesWithLatest, slidesOfProject.
  rewrite (merge_sort_fmap (fun s => (s, latestVersionRow (s_id s) d))
             deckOrder joinedOrder) by reflexivity.
  f_equal.
  induction (List.filter _ (slides d)) as [|s l IH]; [reflexivity|].
  cbn [mbind list_bind fmap list_fmap]. rewrite (joinLatest_one d s Hnd).
  cbn [app]. f_equal. exact IH.
Qed.

End VersionListFacts.

Section ThemeFacts.
Import Store Pipeline StyleStage.

Lemma maxOf_ge vs : forall b, b <= maxOf b vs.
Proof.
  induction vs as [|v vs IH]; intros b; cbn; [lia|].
  specialize (IH (Z.max b v)). lia.
Qed.

Lemma maxOf_elem_le vs : forall b v, v ∈ vs -> v <= maxOf b vs.
Proof.
  induction vs as [|x vs IH]; intros b v Hv; [inversion Hv|]. cbn.
  apply elem_of_cons in Hv as [->|Hv].
  - pose proof (maxOf_ge vs (Z.max b x)). lia.
  - apply IH, Hv.
Qed.

Lemma jv_version_latestJsonOf rows : forall best,
  jv_version (latestJsonOf best rows)
  = maxOf (jv_version best) (jv_version <$> rows).
Proof.
  induction rows as [|r rows IH]; intros best; cbn; [reflexivity|].
  rewrite IH. destruct (Z.ltb_spec (jv_version best) (jv_version r)); f_equal; lia.
Qed.

Lemma latestJsonOf_snoc rows r : forall best,
  latestJsonOf best (rows ++ [r])
  = if jv_version (latestJsonOf best rows) <? jv_version r then r
    else latestJsonOf best rows.
Proof.
  induction rows as [|x rows IH]; intros best; cbn; [reflexivity|]. apply IH.
Qed.

(** The version that [nextVersion] gives lies above every stored one. *)
Lemma nextThemeVersion_above pid d r rows :
  List.filter (fun x => String.eqb (jv_project_id x) pid) (theme_versions d)
  = r :: rows ->
  jv_version (latestJsonOf r rows) < nextThemeVersion pid d.
Proof.
  intros H. unfold nextThemeVersion. rewrite H. cbn [fmap list_fmap].
  rewrite jv_version_latestJsonOf.
  destruct (Z.eqb_spec (maxOf (jv_version r) (jv_version <$> rows)) 0); lia.
Qed.

(** Storing a theme under the next version makes it the latest one. *)
Lemma latestThemeJson_snoc pid d row :
  jv_project_id row = pid ->
  jv_version row = nextThemeVersion pid d ->
  latestThemeJson pid (with_theme_versions d (theme_versions d ++ [row]))
  = Some (jv_json row).
Proof.
  intros Hpid Hver. unfold latestThemeJson.
  cbn [theme_versions with_theme_versions]. rewrite List.filter_app.
  cbn [List.filter]. rewrite Hpid, String.eqb_refl.
  destruct (List.filter _ (theme_versions d)) as [|r rows] eqn:Hrows;
    [reflexivity|].
  cbn [app]. rewrite latestJsonOf_snoc.
  pose proof (nextThemeVersion_above pid d r rows Hrows) as Habove.
  rewrite <- Hver in Habove.
  destruct (Z.ltb_spec (jv_version (latestJsonOf r rows)) (jv_version row));
    [reflexivity | lia].
Qed.

Lemma latestThemeJson_other pid pid' d row :
  jv_project_id row = pid -> pid' <> pid ->
  latestThemeJson pid' (with_theme_versions d (theme_versions d ++ [row]))
  = latestThemeJson pid' d.
Proof.
  intros Hpid Hne. unfold latestThemeJson.
  cbn [theme_versions with_theme_versions]. rewrite List.filter_app.
  cbn [List.filter]. rewrite Hpid.
  destruct (String.eqb_spec pid pid') as [Heq|_]; [congruence|].
  rewrite app_nil_r. reflexivity.
Qed.

Lemma commitTheme_ok pid json newId now d :
  newId ∉ jv_id <$> theme_versions d ->
  pid ∈ p_id <$> projects d ->
  commitTheme pid json newId now d
  = (Return tt,
     with_theme_versions d
       (theme_versions d
          ++ [{| jv_id := newId; jv_project_id := pid;
                 jv_version := nextThemeVersion pid d; jv_json := json;
                 jv_created_at := now |}])).
Proof.
  intros Hpk Hfk. unfold commitTheme, mbind, sql_bind, sql_get, insertThemeVersion.
  cbn [jv_id jv_project_id].
  apply existsb_eqb_not_elem in Hpk. apply existsb_eqb_elem in Hfk.
  rewrite Hpk, Hfk. reflexivity.
Qed.

Lemma getProjectRow_elem pid d p :
  Views.getProjectRow pid d = (Return p, d) -> pid ∈ p_id <$> projects d.
Proof.
  unfold Views.getProjectRow. intros H.
  destruct (List.find _ (projects d)) as [row|] eqn:Hf; [|discriminate].
  injection H as <-. apply List.find_some in Hf as [Hin Heq].
  apply String.eqb_eq in Heq. subst pid.
  apply list_elem_of_fmap. exists row. split; [reflexivity|].
  apply list_elem_of_In. exact Hin.
Qed.

End ThemeFacts.

(** X1. [listSlideImageVersions] on a slide of the project whose versions are
    numbered [1..M] returns the [M] stored versions from the newest down to
    version 1, each with the prompt, path and date of its row, and leaves the
    database as it is. *)
Theorem listSlideImageVersions_newest_first :
  forall (projectId slideId : string) (d : Store.db) (s : Store.slide_row),
    Store.selectSlide slideId projectId d = Some s ->
    Store.numbered slideId d ->
    Views.listSlideImageVersions projectId slideId d
    = (Return (Views.versionItem <$> reverse (Store.versionsOf slideId d)), d)
    /\ Views.vi_version
         <$> (Views.versionItem <$> reverse (Store.versionsOf slideId d))
       = reverse (seqZ 1 (Z.of_nat (length (Store.versionsOf slideId d)))).
Proof.
  intros pid sid d s Hs Hnum. split.
  - unfold Views.listSlideImageVersions. rewrite Hs.
    rewrite (numbered_newest_first sid d Hnum). reflexivity.
  - rewrite <- list_fmap_compose, fmap_reverse. f_equal. exact Hnum.
Qed.

Lemma listSlideImageVersions_newest_first_witness :
  Views.listSlideImageVersions "deck" "slide-a" Sample.database
  = (Return [Views.versionItem Sample.versionA2;
             Views.versionItem Sample.versionA1], Sample.database).
Proof.
  exact (proj1 (listSlideImageVersions_newest_first
                  "deck" "slide-a" Sample.database Sample.slideA
                  eq_refl eq_refl)).
Defined.

(** X2. Once one of the writers has recorded a row for a slide under the
    next version of that slide, the listing of that slide shows the new row
    first, followed by the previous listing, and the listings of all other
    slides stay as they were. *)
Theorem recorded_version_is_listed_first :
  forall (projectId slideId : string) (d : Store.db) (s : Store.slide_row)
         (row : Store.image_version_row),
    Store.selectSlide slideId projectId d = Some s ->
    Store.numbered slideId d ->
    Store.slide_id row = slideId ->
    Store.version row = Store.nextImageVersion slideId d ->
    Store.iv_id row ∉ Store.iv_id <$> Store.slide_image_versions d ->
    exists d' old,
      Store.insertImageVersion row d = (Return tt, d')
      /\ Views.listSlideImageVersions projectId slideId d = (Return old, d)
      /\ Views.listSlideImageVersions projectId slideId d'
         = (Return (Views.versionItem row :: old), d')
      /\ (forall otherProject other,
             other <> slideId ->
             (Views.listSlideImageVersions otherProject other d').1
             = (Views.listSlideImageVersions otherProject other d).1).
Proof.
  intros pid sid d s row Hs Hnum Hrow Hver Hfresh.
  assert (Hok : Store.insertImageVersion row d
                = (Return tt,
                   Store.with_image_versions d
                     (Store.slide_image_versions d ++ [row]))).
  { apply insertImageVersion_ok; [exact Hfresh|].
    rewrite Hrow. apply (selectSlide_elem _ _ _ _ Hs). }
  assert (Hnum' : Store.numbered sid
                    (Store.with_image_versions d
                       (Store.slide_image_versions d ++ [row]))).
  { apply numbered_snoc; [exact Hnum|]. intros _.
    rewrite Hver. apply nextImageVersion_numbered, Hnum. }
  eexists. eexists. split; [exact Hok|].
  split; [unfold Views.listSlideImageVersions; rewrite Hs; reflexivity|].
  split.
  - unfold Views.listSlideImageVersions.
    change (Store.selectSlide sid pid
              (Store.with_image_versions d (Store.slide_image_versions d ++ [row])))
      with (Store.selectSlide sid pid d).
    rewrite Hs.
    rewrite (numbered_newest_first sid _ Hnum'), (numbered_newest_first sid d Hnum).
    rewrite versionsOf_snoc, Hrow, String.eqb_refl, reverse_app. reflexivity.
  - intros pid' other Hne. unfold Views.listSlideImageVersions.
    change (Store.selectSlide other pid'
              (Store.with_image_versions d (Store.slide_image_versions d ++ [row])))
      with (Store.selectSlide other pid' d).
    destruct (Store.selectSlide other pid' d); [|reflexivity]. cbn [fst].
    rewrite (versionsOf_other_snoc sid other d row Hrow Hne). reflexivity.
Qed.

Lemma recorded_version_is_listed_first_witness :
  exists d',
    Store.insertImageVersion SampleMore.versionA3 Sample.database = (Return tt, d')
    /\ Views.listSlideImageVersions "deck" "slide-a" d'
       = (Return [Views.versionItem SampleMore.versionA3;
                  Views.versionItem Sample.versionA2;
                  Views.versionItem Sample.versionA1], d').
Proof.
  destruct (recorded_version_is_listed_first
              "deck" "slide-a" Sample.database Sample.slideA SampleMore.versionA3
              eq_refl (sample_numbered _) eq_refl eq_refl)
    as (d' & old & Hins & Hold & Hnew & _).
  - intros Hin. apply list_elem_of_In in Hin. vm_compute in Hin.
    destruct Hin as [H|[H|[]]]; discriminate H.
  - exists d'. split; [exact Hins|].
    vm_compute in Hold. injection Hold as <-. exact Hnew.
Defined.

(** X3. With unique row ids in [slide_image_versions], [listSlides] gives one
    item per slide of the project, in deck order; the item of a slide carries
    that slide's title, status and message, and as image version and path
    those of the highest version stored for the slide, or none if the slide
    has no version yet. *)
Theorem listSlides_one_item_per_slide :
  forall (theme slide_content : Type)
         (parseTheme : string -> option theme)
         (parseSlideContent : string -> option slide_content)
         (buildSlidePrompt : theme -> string -> slide_content -> string)
         (projectId : string) (d : Store.db),
    NoDup (Store.iv_id <$> Store.slide_image_versions d) ->
    Views.li_id
      <$> Views.listSlides parseTheme parseSlideContent buildSlidePrompt projectId d
    = Store.s_id <$> Store.slidesOfProject projectId d
    /\ forall i s,
        Store.slidesOfProject projectId d !! i = Some s ->
        exists item,
          Views.listSlides parseTheme parseSlideContent buildSlidePrompt
            projectId d !! i = Some item
          /\ Views.li_id item = Store.s_id s
          /\ Views.li_title item = Store.title s
          /\ Views.li_status item = Store.status s
          /\ Views.li_errorMessage item = Views.nonEmpty (Store.error_message s)
          /\ Views.li_imageVersion item = Store.maxVersion (Store.s_id s) d
          /\ Views.li_imagePath item
             = Views.nonEmpty
                 (Store.image_path <$> Store.latestVersionRow (Store.s_id s) d).
Proof.
  intros theme slide_content parseTheme parseContent build pid d Hnd.
  unfold Views.listSlides. rewrite (slidesWithLatest_rows pid d Hnd). split.
  - rewrite <- !list_fmap_compose. reflexivity.
  - intros i s Hs. eexists. split.
    + rewrite !list_lookup_fmap, Hs. reflexivity.
    + cbn. rewrite latestVersionRow_max. repeat split; reflexivity.
Qed.

Lemma listSlides_one_item_per_slide_witness :
  Views.li_id
    <$> Views.listSlides Some Some SampleRun.build "deck" Sample.database
  = ["slide-a"; "slide-b"; "slide-c"]
  /\ Views.li_imageVersion
       <$> Views.listSlides Some Some SampleRun.build "deck" Sample.database
     = [Some 2; None; None].
Proof.
  assert (Hnd : NoDup (Store.iv_id <$> Store.slide_image_versions Sample.database)).
  { refine (bool_decide_unpack _ _). vm_compute. exact I. }
  destruct (listSlides_one_item_per_slide
              string string Some Some SampleRun.build "deck" Sample.database Hnd)
    as [Hids _].
  split; [exact Hids | reflexivity].
Defined.

(** X4. When the job is registered, the project root is found, the project
    row exists, the client can be built, the theme agent answers with a theme
    and the new row id is free, [runGenerateStyle] returns normally: the job
    is completed with zero counters, [theme_versions] has gained exactly one
    row, under a version above every earlier version of the project, holding
    the generated theme, so that [requireLatestTheme] (by which the Images
    stage reads the theme) now gives that theme; the other tables are as
    they were. *)
Theorem runGenerateStyle_stores_latest_theme :
  forall (theme outline : Type)
         (parseOutline : string -> option outline)
         (parseTheme : string -> option theme)
         (stringifyTheme : theme -> string)
         (job : Jobs.job) (root : string)
         (generateTheme : string -> string -> option outline -> completion theme)
         (newId now : string) (w : Pipeline.world)
         (j : Jobs.job) (project : Store.project_row) (th : theme),
    Pipeline.jobs w !! Jobs.id job = Some j ->
    Views.getProjectRow (Jobs.projectId job) (Pipeline.disk_db w)
    = (Return project, Pipeline.disk_db w) ->
    generateTheme (Store.p_name project) (Store.p_source_text project)
      (Views.getLatestOutline parseOutline (Jobs.projectId job) (Pipeline.disk_db w))
    = Return th ->
    newId ∉ Store.jv_id <$> Store.theme_versions (Pipeline.disk_db w) ->
    parseTheme (stringifyTheme th) = Some th ->
    exists w' j' row,
      StyleStage.runGenerateStyle parseOutline stringifyTheme job (Return root)
        (Return tt) generateTheme newId now w
      = (Return tt, w')
      /\ Pipeline.jobs w' !! Jobs.id job = Some j'
      /\ Jobs.status j' = Jobs.completed
      /\ Jobs.finishedAt j' = Some now
      /\ Jobs.progress_ j'
         = Some {| Jobs.step := Jobs.style; Jobs.totalSlides := 0;
                   Jobs.completedSlides := 0; Jobs.failedSlides := 0 |}
      /\ Store.theme_versions (Pipeline.disk_db w')
         = Store.theme_versions (Pipeline.disk_db w) ++ [row]
      /\ Store.jv_json row = stringifyTheme th
      /\ Forall (fun r => Store.jv_project_id r = Jobs.projectId job ->
                          Store.jv_version r < Store.jv_version row)
                (Store.theme_versions (Pipeline.disk_db w))
      /\ Pipeline.requireLatestTheme parseTheme job (Pipeline.disk_db w') = Return th
      /\ Store.slides (Pipeline.disk_db w') = Store.slides (Pipeline.disk_db w)
      /\ Store.slide_image_versions (Pipeline.disk_db w')
         = Store.slide_image_versions (Pipeline.disk_db w)
      /\ Store.outline_versions (Pipeline.disk_db w')
         = Store.outline_versions (Pipeline.disk_db w).
Proof.
  intros theme outline parseOutline parseTheme stringify job root generate
         newId now w j project th Hj Hproject Hgen Hfresh Hparse.
  unfold StyleStage.runGenerateStyle.
  rewrite (updateJob_registered _ _ _ j Hj).
  cbn [Pipeline.disk_db Pipeline.with_jobs Pipeline.jobs].
  rewrite Hproject, Hgen.
  rewrite (commitTheme_ok _ _ _ _ _ Hfresh (getProjectRow_elem _ _ _ Hproject)).
  cbn [Pipeline.disk_db Pipeline.with_jobs Pipeline.with_db Pipeline.jobs].
  rewrite (updateJob_registered _ _ _
             (Jobs.patched j (StyleStage.stylePatch Jobs.running None)))
    by apply lookup_insert_eq.
  eexists. eexists. eexists. split; [reflexivity|].
  cbn [Pipeline.disk_db Pipeline.with_jobs Pipeline.with_db Pipeline.jobs].
  split; [apply lookup_insert_eq|].
  split; [reflexivity|]. split; [reflexivity|]. split; [reflexivity|].
  split; [reflexivity|]. split; [reflexivity|]. split; [|split].
  - apply Forall_forall. intros r Hr Hpid. cbn [Store.jv_version].
    assert (Hin : r ∈ List.filter
                        (fun x => String.eqb (Store.jv_project_id x)
                                    (Jobs.projectId job))
                        (Store.theme_versions (Pipeline.disk_db w))).
    { apply elem_of_filter_bool. split; [exact Hr|].
      rewrite Hpid. apply String.eqb_refl. }
    destruct (List.filter _ (Store.theme_versions (Pipeline.disk_db w)))
      as [|r0 rows] eqn:Hrows; [inversion Hin|].
    pose proof (nextThemeVersion_above _ _ r0 rows Hrows) as Habove.
    rewrite jv_version_latestJsonOf in Habove.
    apply elem_of_cons in Hin as [->|Hin].
    + pose proof (maxOf_ge (Store.jv_version <$> rows) (Store.jv_version r0)). lia.
    + pose proof (maxOf_elem_le (Store.jv_version <$> rows) (Store.jv_version r0)
                    (Store.jv_version r)) as Hle.
      specialize (Hle ltac:(apply list_elem_of_fmap; eauto)). lia.
  - unfold Pipeline.requireLatestTheme.
    rewrite latestThemeJson_snoc by reflexivity.
    cbn [Store.jv_json mbind option_bind]. rewrite Hparse. reflexivity.
  - repeat split; reflexivity.
Qed.

Lemma runGenerateStyle_stores_latest_theme_witness :
  exists w',
    StyleStage.runGenerateStyle Some (fun th : string => th) SampleRun.job
      (Return Sample.root) (Return tt) SampleMore.themeAgent "theme-2" "t9"
      SampleMore.world
    = (Return tt, w')
    /\ Pipeline.requireLatestTheme Some SampleRun.job (Pipeline.disk_db w')
       = Return "{theme-2}".
Proof.
  destruct (runGenerateStyle_stores_latest_theme
              string string Some Some (fun th : string => th) SampleRun.job
              Sample.root SampleMore.themeAgent "theme-2" "t9" SampleMore.world
              SampleRun.job
              {| Store.p_id := "deck"; Store.p_name := "Deck";
                 Store.p_source_text := "brief" |}
              "{theme-2}")
    as (w' & j' & row & Hrun & _ & _ & _ & _ & _ & _ & _ & Hlatest & _).
  - reflexivity.
  - reflexivity.
  - reflexivity.
  - intros Hin. apply list_elem_of_In in Hin. vm_compute in Hin.
    destruct Hin as [H|[]]; discriminate H.
  - reflexivity.
  - exists w'. split; [exact Hrun | exact Hlatest].
Defined.

(** * Properties of the job store and of the generate routes *)
Section JobStoreFacts.
Import JobStore.

Lemma mapGet_fresh k m : k ∉ m.*1 -> mapGet k m = None.
Proof.
  unfold mapGet. induction m as [|[k' v'] m IH]; intros Hk; [reflexivity|].
  cbn in Hk. apply not_elem_of_cons in Hk as [Hne Hk]. cbn.
  destruct (String.eqb_spec k' k) as [Heq|_]; [congruence | apply IH, Hk].
Qed.

Lemma mapGet_elem k m j : mapGet k m = Some j -> (k, j) ∈ m.
Proof.
  unfold mapGet. intros H.
  destruct (List.find _ m) as [[k' v']|] eqn:Hf; [|discriminate].
  cbn in H. injection H as ->. apply List.find_some in Hf as [Hin Heq].
  cbn in Heq. apply String.eqb_eq in Heq. subst k'.
  apply list_elem_of_In. exact Hin.
Qed.

Lemma mapSet_fresh k v m : k ∉ m.*1 -> mapSet k v m = m ++ [(k, v)].
Proof.
  induction m as [|[k' v'] m IH]; intros Hk; [reflexivity|].
  cbn in Hk. apply not_elem_of_cons in Hk as [Hne Hk]. cbn.
  destruct (String.eqb_spec k' k) as [Heq|_]; [congruence|].
  rewrite (IH Hk). reflexivity.
Qed.

Lemma mapGet_snoc k v m : k ∉ m.*1 -> mapGet k (m ++ [(k, v)]) = Some v.
Proof.
  unfold mapGet. induction m as [|[k' v'] m IH]; intros Hk; cbn.
  - rewrite String.eqb_refl. reflexivity.
  - cbn in Hk. apply not_elem_of_cons in Hk as [Hne Hk].
    destruct (String.eqb_spec k' k) as [Heq|_]; [congruence | apply IH, Hk].
Qed.

Lemma mapSet_snoc k v v' m :
  k ∉ m.*1 -> mapSet k v' (m ++ [(k, v)]) = m ++ [(k, v')].
Proof.
  induction m as [|[k0 v0] m IH]; intros Hk; cbn.
  - rewrite String.eqb_refl. reflexivity.
  - cbn in Hk. apply not_elem_of_cons in Hk as [Hne Hk].
    destruct (String.eqb_spec k0 k) as [Heq|_]; [congruence|].
    rewrite (IH Hk). reflexivity.
Qed.

Lemma mapSet_keys k v m : is_Some (mapGet k m) -> (mapSet k v m).*1 = m.*1.
Proof.
  unfold mapGet. induction m as [|[k' v'] m IH]; cbn; intros [j Hj];
    [discriminate|].
  destruct (String.eqb_spec k' k) as [Heq|_]; [reflexivity|].
  cbn. f_equal. apply IH. eauto.
Qed.

Lemma mapGet_mapSet k v m : mapGet k (mapSet k v m) = Some v.
Proof.
  unfold mapGet. induction m as [|[k' v'] m IH]; cbn.
  - rewrite String.eqb_refl. reflexivity.
  - destruct (String.eqb_spec k' k) as [Heq|Hne]; cbn.
    + rewrite Heq, String.eqb_refl. reflexivity.
    + destruct (String.eqb_spec k' k); [contradiction | exact IH].
Qed.

Lemma mapGet_mapSet_ne k k' v m : k' <> k -> mapGet k' (mapSet k v m) = mapGet k' m.
Proof.
  unfold mapGet. intros Hne. induction m as [|[k0 v0] m IH]; cbn.
  - destruct (String.eqb_spec k k'); [congruence | reflexivity].
  - destruct (String.eqb_spec k0 k) as [Heq|Hne0]; cbn.
    + subst k0. destruct (String.eqb_spec k k'); [congruence | reflexivity].
    + destruct (String.eqb_spec k0 k'); [reflexivity | exact IH].
Qed.

(** The registry of the stage runners is this [Map], seen by key. *)
Lemma registryOf_lookup k m : registryOf m !! k = mapGet k m.
Proof.
  unfold registryOf, mapGet. induction m as [|[k' v'] m IH]; [reflexivity|].
  cbn. destruct (String.eqb_spec k' k) as [->|Hne].
  - apply lookup_insert_eq.
  - rewrite lookup_insert_ne by exact Hne. exact IH.
Qed.

Lemma registryOf_mapSet k v m : registryOf (mapSet k v m) = <[k := v]> (registryOf m).
Proof.
  unfold registryOf. induction m as [|[k' v'] m IH]; [reflexivity|].
  cbn. destruct (String.eqb_spec k' k) as [->|Hne]; cbn.
  - rewrite insert_insert_eq. reflexivity.
  - rewrite IH. apply insert_insert_ne. congruence.
Qed.

(** [updateJob] on the [Map] and on the registry agree for the patches of
    the stage runners. *)
Lemma updateJob_registry k st fin prog m :
  let p := {| p_status := st; p_finishedAt := fin; p_progress := prog;
              p_error := None |} in
  let q := {| Jobs.set_status := st; Jobs.set_finishedAt := fin;
              Jobs.set_progress := prog |} in
  Jobs.updateJob k q (registryOf m)
  = ((updateJob k p m).1, registryOf (updateJob k p m).2).
Proof.
  intros p q. unfold Jobs.updateJob, updateJob. rewrite registryOf_lookup.
  destruct (mapGet k m) as [j|]; [|reflexivity].
  cbn [fst snd]. rewrite registryOf_mapSet. reflexivity.
Qed.

Lemma find_filter_head {X : Type} (f : X -> bool) (l : list X) :
  List.find f l = head (List.filter f l).
Proof.
  induction l as [|x l IH]; [reflexivity|]. cbn.
  destruct (f x); [reflexivity | exact IH].
Qed.

Lemma findRunning_head pid m :
  findRunningGenerateJob pid m = head (activeJobs pid m).
Proof.
  unfold findRunningGenerateJob, activeJobs. rewrite find_filter_head.
  destruct (List.filter _ m); reflexivity.
Qed.

Lemma activeJobs_snoc pid m k j :
  activeJobs pid (m ++ [(k, j)])
  = activeJobs pid m ++ (if activeFor pid (k, j) then [j] else []).
Proof.
  unfold activeJobs. rewrite List.filter_app, fmap_app. cbn.
  destruct (activeFor pid (k, j)); reflexivity.
Qed.

(** Replacing a job by one that is active only if the old one was cannot
    add an active job. *)
Lemma activeJobs_mapSet_le pid k j j' m :
  mapGet k m = Some j ->
  (activeFor pid (k, j') = true -> activeFor pid (k, j) = true) ->
  (length (activeJobs pid (mapSet k j' m)) <= length (activeJobs pid m))%nat.
Proof.
  unfold activeJobs, mapGet. intros Hget Himp. rewrite !length_fmap.
  induction m as [|[k0 v0] m IH]; [discriminate|].
  cbn in Hget |- *. destruct (String.eqb_spec k0 k) as [->|Hne].
  - cbn in Hget. injection Hget as ->. cbn [List.filter].
    change (activeFor pid (k, j')) with (activeFor pid (k, j')) in *.
    destruct (activeFor pid (k, j')) eqn:Hnew.
    + rewrite (Himp eq_refl). reflexivity.
    + destruct (activeFor pid (k, j)); cbn; lia.
  - cbn [List.filter]. specialize (IH Hget).
    destruct (activeFor pid (k0, v0)); cbn; lia.
Qed.

Lemma updateJob_snoc k p j m :
  k ∉ m.*1 ->
  updateJob k p (m ++ [(k, j)]) = (Return (patched j p), m ++ [(k, patched j p)]).
Proof.
  intros Hk. unfold updateJob.
  rewrite (mapGet_snoc _ _ _ Hk), (mapSet_snoc _ _ _ _ Hk). reflexivity.
Qed.

(** What a route makes of a store without an active job of the project. *)
Lemma postGenerate_new step0 root newId now pid m :
  newId ∉ m.*1 ->
  activeJobs pid m = [] ->
  postGenerate step0 (Return root) newId now pid m
  = (Return {| r_jobId := newId; r_status := Jobs.queued |},
     m ++ [(newId,
            {| Jobs.id := newId; Jobs.projectId := pid;
               Jobs.status := Jobs.running; Jobs.startedAt := now;
               Jobs.finishedAt := None;
               Jobs.progress_ :=
                 Some {| Jobs.step := step0; Jobs.totalSlides := 0;
                         Jobs.completedSlides := 0; Jobs.failedSlides := 0 |};
               Jobs.error_ := None |})]).
Proof.
  intros Hfresh Hnone. unfold postGenerate.
  rewrite findRunning_head, Hnone. cbn [head].
  unfold createGenerateJob. cbn [Jobs.id]. rewrite (mapSet_fresh _ _ _ Hfresh).
  rewrite (updateJob_snoc _ _ _ _ Hfresh), (updateJob_snoc _ _ _ _ Hfresh).
  reflexivity.
Qed.

Lemma postGenerate_cases step0 rootLookup newId now pid m :
  newId ∉ m.*1 ->
  (postGenerate step0 rootLookup newId now pid m).2 = m
  \/ (activeJobs pid m = []
      /\ exists j, (postGenerate step0 rootLookup newId now pid m).2
                   = m ++ [(newId, j)]
                   /\ Jobs.id j = newId /\ Jobs.projectId j = pid).
Proof.
  intros Hfresh. destruct rootLookup as [root|e]; [|left; reflexivity].
  destruct (activeJobs pid m) as [|j0 rest] eqn:Hact.
  - right. split; [reflexivity|].
    rewrite (postGenerate_new step0 root newId now pid m Hfresh Hact).
    eexists. split; [reflexivity|]. split; reflexivity.
  - left. unfold postGenerate. rewrite findRunning_head, Hact. reflexivity.
Qed.

Lemma patched_id j p : Jobs.id (patched j p) = Jobs.id j.
Proof. reflexivity. Qed.

Lemma mapSet_elem k v m k' j' :
  (k', j') ∈ mapSet k v m -> (k', j') ∈ m \/ (k' = k /\ j' = v).
Proof.
  induction m as [|[k0 v0] m IH]; cbn; intros H.
  - apply list_elem_of_singleton in H. injection H as -> ->. right. split; reflexivity.
  - destruct (String.eqb_spec k0 k) as [->|Hne].
    + apply elem_of_cons in H as [H|H].
      * injection H as -> ->. right. split; reflexivity.
      * left. right. exact H.
    + apply elem_of_cons in H as [H|H]; [left; rewrite H; left|].
      destruct (IH H) as [Hin|Heq]; [left; right; exact Hin | right; exact Heq].
Qed.

Lemma step_orderly_jobs m m' : step m m' -> orderly m -> orderly m'.
Proof.
  intros Hstep [Hnd Hids Hone]. destruct Hstep as [step0 rl newId now pid m Hfresh|id p m Hq Hr].
  - destruct (postGenerate_cases step0 rl newId now pid m Hfresh)
      as [->|(Hnone & j & -> & Hid & Hpid)]; [split; assumption|].
    split.
    + rewrite fmap_app. cbn. apply NoDup_app. split; [exact Hnd|]. split.
      * intros k Hk Hin. apply list_elem_of_singleton in Hin as ->. contradiction.
      * apply NoDup_singleton.
    + intros k j' Hin. apply elem_of_app in Hin as [Hin|Hin]; [apply Hids, Hin|].
      apply list_elem_of_singleton in Hin. injection Hin as -> ->. exact Hid.
    + intros pid'. rewrite activeJobs_snoc, length_app.
      destruct (activeFor pid' (newId, j)) eqn:Hact; [|cbn; specialize (Hone pid'); lia].
      unfold activeFor in Hact. cbn in Hact. apply andb_prop in Hact as [Hp _].
      apply String.eqb_eq in Hp. rewrite Hpid in Hp. subst pid'.
      rewrite Hnone. cbn. lia.
  - unfold updateJob. destruct (mapGet id m) as [j|] eqn:Hget; [|split; assumption].
    cbn [snd]. split.
    + rewrite mapSet_keys by eauto. exact Hnd.
    + intros k j' Hin. apply mapSet_elem in Hin as [Hin|[-> ->]]; [apply Hids, Hin|].
      rewrite patched_id. apply Hids, mapGet_elem, Hget.
    + intros pid. etransitivity; [|apply (Hone pid)].
      apply (activeJobs_mapSet_le pid id j); [exact Hget|].
      unfold activeFor. cbn. intros Hact. apply andb_prop in Hact as [Hp Ha].
      rewrite Hp. cbn.
      destruct (p_status p) as [[]|]; cbn in Ha |- *;
        try discriminate; try contradiction; exact Ha.
Qed.

Lemma reachable_orderly m : reachable m -> orderly m.
Proof.
  unfold reachable. intros Hrun. revert m Hrun. apply rtc_ind_r.
  - split; cbn; [constructor | intros k j H; inversion H | intros; lia].
  - intros m m' _ Hstep Hord. exact (step_orderly_jobs m m' Hstep Hord).
Qed.

End JobStoreFacts.

(** X5. Whatever routes are called and whatever the runners report, the job
    store never holds two queued or running jobs of one project; its keys
    are distinct and every job is stored under its own id. *)
Theorem generate_routes_single_flight :
  forall m : JobStore.jobs_map,
    JobStore.reachable m ->
    NoDup m.*1
    /\ (forall k j, (k, j) ∈ m -> Jobs.id j = k)
    /\ forall projectId, (length (JobStore.activeJobs projectId m) <= 1)%nat.
Proof.
  intros m Hreach. destruct (reachable_orderly m Hreach) as [H1 H2 H3].
  split; [exact H1|]. split; [exact H2 | exact H3].
Qed.

Lemma generate_routes_single_flight_witness :
  (length (JobStore.activeJobs "deck" SampleMore.jobsSecond) <= 1)%nat
  /\ SampleMore.jobsSecond.*1 = ["job-1"; "job-2"].
Proof.
  assert (Hreach : JobStore.reachable SampleMore.jobsSecond).
  { unfold JobStore.reachable.
    apply (rtc_l _ _ SampleMore.jobsFirst).
    { apply (JobStore.step_post Jobs.outline (Return Sample.root) "job-1" "t0"
               "deck" []). inversion 1. }
    apply (rtc_l _ _ SampleMore.jobsDone).
    { apply (JobStore.step_update "job-1" SampleMore.completedPatch
               SampleMore.jobsFirst); discriminate. }
    apply rtc_once.
    apply (JobStore.step_post Jobs.images (Return Sample.root) "job-2" "t2"
             "deck" SampleMore.jobsDone).
    intros Hin. apply list_elem_of_In in Hin. vm_compute in Hin.
    destruct Hin as [H|[]]; discriminate H. }
  split; [|reflexivity].
  apply (generate_routes_single_flight SampleMore.jobsSecond Hreach).
Defined.

(** X6. A generate route called for a project that has a queued or running
    job answers with the id and status of the first such job and leaves the
    store alone.  Called with a new id for a project without one, it appends
    one job, stored under the new id and already marked running with the zero
    counters of the runner's first step, while its answer still says
    "queued"; from then on [findRunningGenerateJob] finds that job. *)
Theorem postGenerate_starts_or_joins :
  forall (step0 : Jobs.step_name) (root newId now projectId : string)
         (m : JobStore.jobs_map),
    newId ∉ m.*1 ->
    match JobStore.activeJobs projectId m with
    | j :: _ =>
        JobStore.postGenerate step0 (Return root) newId now projectId m
        = (Return {| JobStore.r_jobId := Jobs.id j;
                     JobStore.r_status := Jobs.status j |}, m)
    | [] =>
        exists job,
          JobStore.postGenerate step0 (Return root) newId now projectId m
          = (Return {| JobStore.r_jobId := newId;
                       JobStore.r_status := Jobs.queued |},
             m ++ [(newId, job)])
          /\ Jobs.id job = newId
          /\ Jobs.projectId job = projectId
          /\ Jobs.status job = Jobs.running
          /\ Jobs.startedAt job = now
          /\ Jobs.finishedAt job = None
          /\ Jobs.progress_ job
             = Some {| Jobs.step := step0; Jobs.totalSlides := 0;
                       Jobs.completedSlides := 0; Jobs.failedSlides := 0 |}
          /\ JobStore.getJob newId (m ++ [(newId, job)]) = Some job
          /\ JobStore.findRunningGenerateJob projectId (m ++ [(newId, job)])
             = Some job
    end.
Proof.
  intros step0 root newId now pid m Hfresh.
  destruct (JobStore.activeJobs pid m) as [|j rest] eqn:Hact.
  - eexists. split; [apply (postGenerate_new _ _ _ _ _ _ Hfresh Hact)|].
    repeat (split; [reflexivity|]). split.
    + apply (mapGet_snoc _ _ _ Hfresh).
    + rewrite findRunning_head, activeJobs_snoc, Hact.
      unfold JobStore.activeFor. cbn. rewrite String.eqb_refl. reflexivity.
  - unfold JobStore.postGenerate. rewrite findRunning_head, Hact. reflexivity.
Qed.

Lemma postGenerate_starts_or_joins_witness :
  JobStore.postGenerate Jobs.content (Return Sample.root) "job-3" "t3" "deck"
    SampleMore.jobsSecond
  = (Return {| JobStore.r_jobId := "job-2"; JobStore.r_status := Jobs.running |},
     SampleMore.jobsSecond).
Proof.
  assert (Hfresh : "job-3" ∉ SampleMore.jobsSecond.*1).
  { intros Hin. apply list_elem_of_In in Hin. vm_compute in Hin.
    destruct Hin as [H|[H|[]]]; discriminate H. }
  exact (postGenerate_starts_or_joins Jobs.content Sample.root "job-3" "t3"
           "deck" SampleMore.jobsSecond Hfresh).
Defined.

(** X7. [updateJob] on an id that is not in the store throws "任务不存在" and
    changes nothing.  On a stored job it returns the job merged with the
    patch; [getJob] then gives that merged job for this id and what it gave
    before for every other id, and the order of the jobs in the store is as
    before. *)
Theorem updateJob_then_getJob :
  forall (jobId : string) (p : JobStore.patch) (m : JobStore.jobs_map),
    match JobStore.getJob jobId m with
    | None => JobStore.updateJob jobId p m = (Throw (ErrorObj "任务不存在"), m)
    | Some j =>
        exists m',
          JobStore.updateJob jobId p m = (Return (JobStore.patched j p), m')
          /\ JobStore.getJob jobId m' = Some (JobStore.patched j p)
          /\ (forall k, k <> jobId -> JobStore.getJob k m' = JobStore.getJob k m)
          /\ m'.*1 = m.*1
          /\ Jobs.id (JobStore.patched j p) = Jobs.id j
          /\ Jobs.projectId (JobStore.patched j p) = Jobs.projectId j
          /\ Jobs.startedAt (JobStore.patched j p) = Jobs.startedAt j
    end.
Proof.
  intros jobId p m. unfold JobStore.getJob, JobStore.updateJob.
  destruct (JobStore.mapGet jobId m) as [j|] eqn:Hget; [|reflexivity].
  eexists. split; [reflexivity|]. split; [apply mapGet_mapSet|].
  split; [intros k Hk; apply mapGet_mapSet_ne, Hk|].
  split; [apply mapSet_keys; eauto|]. repeat split; reflexivity.
Qed.

(** * Properties of the Content stage *)
Section SlideTextFacts.
Import Store.

Lemma content_update_none sid pid sid' st e now d :
  content_json <$> selectSlide sid pid (updateSlide sid' st e None now d)
  = content_json <$> selectSlide sid pid d.
Proof.
  rewrite selectSlide_updateSlide.
  destruct (selectSlide sid pid d) as [r|]; [|reflexivity]. cbn.
  unfold updatedRow. destruct (String.eqb _ _); reflexivity.
Qed.

Lemma content_update_other sid pid sid' st e c now d :
  sid <> sid' ->
  content_json <$> selectSlide sid pid (updateSlide sid' st e c now d)
  = content_json <$> selectSlide sid pid d.
Proof.
  intros Hne. rewrite selectSlide_updateSlide.
  destruct (selectSlide sid pid d) as [r|] eqn:Hr; [|reflexivity]. cbn.
  rewrite updatedRow_miss; [reflexivity|].
  rewrite (selectSlide_id _ _ _ _ Hr). exact Hne.
Qed.

End SlideTextFacts.

Section ContentFacts.
Import Store Pipeline ContentStage.
Context {slide_content : Type}.
Variable stringify : slide_content -> string.
Variable job : Jobs.job.
Variable calls : nat -> completion slide_content.
Variable now : string.
Variable sections : list outline_section.
Variable deck : list slide_row.
Hypothesis deck_ids : NoDup (s_id <$> deck).

Local Abbreviation ok := (tasksDone stringify job calls sections deck).
Local Abbreviation fails := (failsAt calls sections deck).
Local Abbreviation text := (slideText job).

Lemma text_update_same sid st e c d k :
  content_json <$> selectSlide sid (Jobs.projectId job) d = Some k ->
  text sid (updateSlide sid st e c now d)
  = Some (st, e, match c with Some x => Some x | None => k end).
Proof.
  unfold slideText. rewrite selectSlide_updateSlide.
  destruct (selectSlide sid (Jobs.projectId job) d) as [r|] eqn:Hr; [|discriminate].
  cbn. intros [= <-]. unfold updatedRow.
  rewrite (selectSlide_id _ _ _ _ Hr), String.eqb_refl. cbn.
  destruct c; reflexivity.
Qed.

Lemma text_update_other sid sid' st e c d :
  sid <> sid' -> text sid (updateSlide sid' st e c now d) = text sid d.
Proof.
  intros Hne. unfold slideText. rewrite selectSlide_updateSlide.
  destruct (selectSlide sid (Jobs.projectId job) d) as [r|] eqn:Hr; [|reflexivity].
  cbn. rewrite updatedRow_miss; [reflexivity|].
  rewrite (selectSlide_id _ _ _ _ Hr). exact Hne.
Qed.

Lemma other_row i k s t :
  deck !! i = Some s -> deck !! k = Some t -> i <> k -> s_id s <> s_id t.
Proof.
  intros Hi Hk Hne Heq. apply Hne.
  apply (NoDup_lookup (s_id <$> deck) i k (s_id s) deck_ids).
  - rewrite list_lookup_fmap, Hi. reflexivity.
  - rewrite list_lookup_fmap, Hk, Heq. reflexivity.
Qed.

(** Only which tasks have ended matters, not in which order they did. *)
Lemma content_ok_perm done done' stg : done ≡ₚ done' -> ok done stg -> ok done' stg.
Proof.
  intros Hp [Hjob Hrange Hkept Hexist Hcomp Hfail Hstates]. split.
  - exact Hjob.
  - intros i Hi. apply Hrange. rewrite Hp. exact Hi.
  - intros i s Hi. apply Hkept. rewrite Hp. exact Hi.
  - exact Hexist.
  - rewrite Hcomp. f_equal. apply filter_length_perm, Hp.
  - rewrite Hfail. f_equal. apply filter_length_perm, Hp.
  - intros i s Hi Hs. apply Hstates; [rewrite Hp; exact Hi | exact Hs].
Qed.

(** An update of the slide of a task that has not ended, which leaves the
    content alone, keeps what is recorded of the stage. *)
Lemma content_ok_touch done stg i s st e :
  ok done stg -> i ∉ done -> deck !! i = Some s ->
  ok done {| now_world := with_db (now_world stg)
                            (updateSlide (s_id s) st e None now
                               (disk_db (now_world stg)));
             completedSlides := completedSlides stg;
             failedSlides := failedSlides stg |}.
Proof.
  intros [Hjob Hrange Hkept Hexist Hcomp Hfail Hstates] Hi Hs.
  split; cbn [now_world with_db disk_db jobs completedSlides failedSlides];
    try assumption.
  - intros k t Hk Ht. rewrite content_update_none. apply (Hkept k t Hk Ht).
  - intros k t Ht. apply selectSlide_update_is_Some. eapply Hexist, Ht.
  - intros k t Hk Ht. rewrite text_update_other; [apply Hstates; assumption|].
    apply (other_row k i t s Ht Hs). intros ->. contradiction.
Qed.

(** A task ends: its slide gets its final state by one update, the job
    stays registered, one counter goes up. *)
Lemma content_ok_finish done stg i s st e c js (failed : bool) :
  ok done stg -> i ∉ done -> deck !! i = Some s ->
  fails i = failed ->
  expectedText stringify calls sections s i
  = (st, e, match c with Some x => Some x | None => content_json s end) ->
  is_Some (js !! Jobs.id job) ->
  ok (done ++ [i])
     {| now_world :=
          with_jobs (with_db (now_world stg)
                       (updateSlide (s_id s) st e c now (disk_db (now_world stg))))
                    js;
        completedSlides := completedSlides stg + (if failed then 0 else 1);
        failedSlides := failedSlides stg + (if failed then 1 else 0) |}.
Proof.
  intros [Hjob Hrange Hkept Hexist Hcomp Hfail Hstates] Hi Hs Hf Hexp Hjs.
  split; cbn [now_world with_db with_jobs disk_db jobs completedSlides failedSlides].
  - exact Hjs.
  - intros k Hk. apply elem_of_app in Hk as [Hk|Hk]; [apply Hrange, Hk|].
    apply list_elem_of_singleton in Hk as ->. apply lookup_lt_Some in Hs. exact Hs.
  - intros k t Hk Ht. apply not_elem_of_app in Hk as [Hk Hne].
    apply not_elem_of_cons in Hne as [Hne _].
    rewrite content_update_other; [apply (Hkept k t Hk Ht)|].
    apply (other_row k i t s Ht Hs Hne).
  - intros k t Ht. apply selectSlide_update_is_Some. eapply Hexist, Ht.
  - rewrite List.filter_app, length_app. cbn [List.filter]. rewrite Hf, Hcomp.
    destruct failed; cbn [negb length]; lia.
  - rewrite List.filter_app, length_app. cbn [List.filter]. rewrite Hf, Hfail.
    destruct failed; cbn [length]; lia.
  - intros k t Hk Ht. apply elem_of_app in Hk as [Hk|Hk].
    + rewrite text_update_other; [apply Hstates; assumption|].
      apply (other_row k i t s Ht Hs). intros ->. contradiction.
    + apply list_elem_of_singleton in Hk as ->.
      rewrite Hs in Ht. injection Ht as <-.
      rewrite (text_update_same _ _ _ _ _ (content_json s) (Hkept i s Hi Hs)).
      rewrite Hexp. reflexivity.
Qed.

Lemma content_fails_of i s e :
  deck !! i = Some s -> taskFailure calls sections s i = Some e -> fails i = true.
Proof. intros Hi He. unfold failsAt. rewrite Hi, He. reflexivity. Qed.

(** The [catch] block of a task that fails with [e]. *)
Lemma content_catch_done done stg total i s e :
  ok done stg -> i ∉ done -> deck !! i = Some s ->
  taskFailure calls sections s i = Some e ->
  exists stg',
    task_catch job now total s e stg = (Settled, stg')
    /\ ok (done ++ [i]) stg'.
Proof.
  intros Hok Hi Hs He. pose proof Hok as [[j Hj] _ _ _ _ _ _].
  unfold task_catch. unfold setSlideStatus, sql_exec. cbn [snd].
  cbn [now_world with_db jobs completedSlides failedSlides].
  rewrite (updateJob_registered _ _ _ j Hj).
  eexists. split; [reflexivity|].
  replace (completedSlides stg) with (completedSlides stg + 0) at 2 by lia.
  apply (content_ok_finish done stg i s error (Some (toErrorMessage e)) None _ true
           Hok Hi Hs).
  - apply (content_fails_of i s e Hs He).
  - unfold expectedText. unfold taskFailure in He.
    destruct (sectionTitleAt sections (section_index s)); [|congruence].
    destruct (calls i); congruence.
  - rewrite lookup_insert_eq. eauto.
Qed.

(** A task up to its [await]. *)
Lemma content_begin_done done stg total i s :
  ok done stg -> i ∉ done -> deck !! i = Some s ->
  match sectionTitleAt sections (section_index s) with
  | None =>
      exists stg',
        task_begin job now sections total s stg = (Settled, stg')
        /\ ok (done ++ [i]) stg'
  | Some _ =>
      exists stg',
        task_begin job now sections total s stg = (Waiting, stg')
        /\ ok done stg'
  end.
Proof.
  intros Hok Hi Hs. unfold task_begin.
  destruct (sectionTitleAt sections (section_index s)) as [ttl|] eqn:Hsec.
  - eexists. split; [reflexivity|].
    apply (content_ok_touch done stg i s generating_text None Hok Hi Hs).
  - apply (content_catch_done done stg total i s _ Hok Hi Hs).
    unfold taskFailure. rewrite Hsec. reflexivity.
Qed.

(** A task from the answer of the content agent on. *)
Lemma content_resume_done done stg total i s :
  ok done stg -> i ∉ done -> deck !! i = Some s ->
  hasSection sections deck i = true ->
  exists stg',
    task_resume stringify job calls now total i s stg = (Settled, stg')
    /\ ok (done ++ [i]) stg'.
Proof.
  intros Hok Hi Hs Hsec. pose proof Hok as [[j Hj] _ _ _ _ _ _].
  unfold hasSection in Hsec. rewrite Hs in Hsec.
  destruct (sectionTitleAt sections (section_index s)) as [ttl|] eqn:Htitle;
    [|discriminate].
  unfold task_resume. destruct (calls i) as [c|e] eqn:Hcall.
  - unfold setSlideStatus, sql_exec. cbn [snd].
    cbn [now_world with_db jobs completedSlides failedSlides].
    rewrite (updateJob_registered _ _ _ j Hj).
    eexists. split; [reflexivity|].
    replace (failedSlides stg) with (failedSlides stg + 0) at 2 by lia.
    apply (content_ok_finish done stg i s text_ready None (Some (stringify c)) _
             false Hok Hi Hs).
    + unfold failsAt, taskFailure. rewrite Hs, Htitle, Hcall. reflexivity.
    + unfold expectedText. rewrite Htitle, Hcall. reflexivity.
    + rewrite lookup_insert_eq. eauto.
  - apply (content_catch_done done stg total i s e Hok Hi Hs).
    unfold taskFailure. rewrite Htitle, Hcall. reflexivity.
Qed.

(** All tasks run to their [await], in deck order. *)
Lemma content_beginAll_done total : forall rest m done stg,
  (forall k s, rest !! k = Some s -> deck !! (m + k)%nat = Some s) ->
  ok done stg ->
  (forall i, i ∈ done -> (i < m)%nat) ->
  exists ts stg',
    beginAll job now sections total rest stg = (ts, stg')
    /\ ok (done ++ List.filter (fun i => negb (hasSection sections deck i))
                               (seq m (length rest))) stg'
    /\ length ts = length rest
    /\ (forall k, (k < length rest)%nat ->
                  hasSection sections deck (m + k) = true ->
                  ts !! k = Some Waiting)
    /\ (forall k t, ts !! k = Some t ->
                    hasSection sections deck (m + k) = false -> t = Settled).
Proof.
  induction rest as [|s rest IH]; intros m done stg Hdeck Hok Hlt.
  - exists [], stg. cbn. rewrite app_nil_r.
    split; [reflexivity|]. split; [exact Hok|]. split; [reflexivity|]. split.
    + intros k Hk. lia.
    + intros k t Hk. inversion Hk.
  - assert (Hs : deck !! m = Some s).
    { specialize (Hdeck 0%nat s eq_refl). rewrite Nat.add_0_r in Hdeck. exact Hdeck. }
    assert (Hm : m ∉ done) by (intros Hin; apply Hlt in Hin; lia).
    assert (Hdeck' : forall k t, rest !! k = Some t -> deck !! (S m + k)%nat = Some t).
    { intros k t Hk. specialize (Hdeck (S k) t Hk).
      replace (S m + k)%nat with (m + S k)%nat by lia. exact Hdeck. }
    pose proof (content_begin_done done stg total m s Hok Hm Hs) as Hbegin.
    cbn [beginAll length seq List.filter].
    unfold hasSection at 1. rewrite Hs.
    destruct (sectionTitleAt sections (section_index s)) as [ttl|] eqn:Hc.
    + destruct Hbegin as (stg1 & Hrun & Hok1). rewrite Hrun.
      destruct (IH (S m) done stg1 Hdeck' Hok1)
        as (ts & stg2 & Hrest & Hok2 & Hlen & Haw & Hful).
      { intros i Hi. apply Hlt in Hi. lia. }
      rewrite Hrest. eexists. eexists. split; [reflexivity|].
      cbn [negb]. split; [exact Hok2|]. split; [cbn; rewrite Hlen; reflexivity|].
      split.
      * intros [|k] Hk Hcont; [reflexivity|].
        cbn. apply Haw; [cbn in Hk; lia|].
        replace (S m + k)%nat with (m + S k)%nat by lia. exact Hcont.
      * intros [|k] t Hk Hcont.
        -- exfalso. rewrite Nat.add_0_r in Hcont. unfold hasSection in Hcont.
           rewrite Hs, Hc in Hcont. discriminate.
        -- cbn in Hk. apply (Hful k t Hk).
           replace (S m + k)%nat with (m + S k)%nat by lia. exact Hcont.
    + destruct Hbegin as (stg1 & Hrun & Hok1). rewrite Hrun.
      destruct (IH (S m) (done ++ [m]) stg1 Hdeck' Hok1)
        as (ts & stg2 & Hrest & Hok2 & Hlen & Haw & Hful).
      { intros i Hi. apply elem_of_app in Hi as [Hi|Hi]; [apply Hlt in Hi; lia|].
        apply list_elem_of_singleton in Hi as ->. lia. }
      rewrite Hrest. eexists. eexists. split; [reflexivity|].
      cbn [negb]. rewrite <- app_assoc in Hok2.
      split; [exact Hok2|]. split; [cbn; rewrite Hlen; reflexivity|].
      split.
      * intros [|k] Hk Hcont.
        -- exfalso. rewrite Nat.add_0_r in Hcont. unfold hasSection in Hcont.
           rewrite Hs, Hc in Hcont. discriminate.
        -- cbn. apply Haw; [cbn in Hk; lia|].
           replace (S m + k)%nat with (m + S k)%nat by lia. exact Hcont.
      * intros [|k] t Hk Hcont; [cbn in Hk; congruence|].
        cbn in Hk. apply (Hful k t Hk).
        replace (S m + k)%nat with (m + S k)%nat by lia. exact Hcont.
Qed.

(** The answers come in any order of the waiting tasks. *)
Lemma content_resumeAll_done total : forall order done tasks stg,
  ok done stg ->
  NoDup order ->
  (forall i, i ∈ order -> i ∉ done) ->
  (forall i, i ∈ order ->
             hasSection sections deck i = true /\ tasks !! i = Some Waiting) ->
  exists tasks' stg',
    resumeAll stringify job calls now total deck order tasks stg
    = Some (tasks', stg')
    /\ ok (done ++ order) stg'
    /\ (forall k t, tasks' !! k = Some t ->
                    t = Settled \/ ((k ∉ order) /\ tasks !! k = Some t)).
Proof.
  induction order as [|idx order IH]; intros done tasks stg Hok Hnd Hnew Hwait.
  - exists tasks, stg. cbn. rewrite app_nil_r. split; [reflexivity|].
    split; [exact Hok|]. intros k t Hk. right. split; [inversion 1 | exact Hk].
  - apply NoDup_cons in Hnd as [Hidx Hnd].
    assert (Hhere : idx ∈ idx :: order) by left.
    destruct (Hwait idx Hhere) as (Hcont & Htask).
    pose proof Hcont as Hcont'. unfold hasSection in Hcont'.
    destruct (deck !! idx) as [s|] eqn:Hs; [|discriminate].
    destruct (content_resume_done done stg total idx s Hok (Hnew idx Hhere) Hs Hcont)
      as (stg1 & Hrun & Hok1).
    cbn [resumeAll]. rewrite Hs, Htask, Hrun.
    destruct (IH (done ++ [idx]) (<[idx := Settled]> tasks) stg1 Hok1 Hnd)
      as (tasks' & stg2 & Hrest & Hok2 & Htasks).
    { intros i Hi Hin. apply elem_of_app in Hin as [Hin|Hin].
      - apply (Hnew i); [right; exact Hi | exact Hin].
      - apply list_elem_of_singleton in Hin as ->. contradiction. }
    { intros i Hi.
      assert (Hthere : i ∈ idx :: order) by (right; exact Hi).
      destruct (Hwait i Hthere) as (Hci & Hti).
      split; [exact Hci|].
      rewrite list_lookup_insert_ne; [exact Hti|]. intros ->. contradiction. }
    exists tasks', stg2. split; [exact Hrest|].
    rewrite <- app_assoc in Hok2. split; [exact Hok2|].
    intros k t Hk. destruct (Htasks k t Hk) as [-> | [Hnot Hk']]; [left; reflexivity|].
    destruct (decide (k = idx)) as [->|Hne].
    + left. rewrite list_lookup_insert_eq in Hk'.
      * congruence.
      * apply lookup_lt_Some in Htask. exact Htask.
    + right. rewrite list_lookup_insert_ne in Hk' by congruence.
      split; [|exact Hk']. intros Hin. apply elem_of_cons in Hin as [->|Hin];
        contradiction.
Qed.

(** Once every task has settled the stage marks the job completed. *)
Lemma content_awaitAll_done total tasks stg j :
  Forall (fun t => t = Settled) tasks ->
  jobs (now_world stg) !! Jobs.id job = Some j ->
  awaitAll job now total tasks stg
  = Some (Return tt,
          with_jobs (now_world stg)
            (<[Jobs.id job := Jobs.patched j (donePatch now total stg)]>
               (jobs (now_world stg)))).
Proof.
  intros Hall Hj. unfold awaitAll.
  assert (Hrej : firstFailure tasks = None /\ existsb isWaiting tasks = false).
  { induction Hall as [|t ts -> _ IH]; [split; reflexivity | exact IH]. }
  destruct Hrej as [Hrej Hwait].
  rewrite Hrej, Hwait, (updateJob_registered _ _ _ j Hj). reflexivity.
Qed.

End ContentFacts.

(** The tasks change rows of [slides] only, and none of their ids. *)
Section ContentTablesFacts.
Import Store Pipeline ContentStage.
Context {slide_content : Type}.
Variable stringify : slide_content -> string.
Variable job : Jobs.job.
Variable calls : nat -> completion slide_content.
Variable now : string.
Variable sections : list outline_section.

Lemma sameTables_refl stg : sameTables stg stg.
Proof. split; reflexivity. Qed.

Lemma sameTables_trans a b c : sameTables a b -> sameTables b c -> sameTables a c.
Proof. intros [H1 H2] [H3 H4]. split; congruence. Qed.

Lemma content_catch_ids total s e stg t stg' :
  task_catch job now total s e stg = (t, stg') -> sameTables stg stg'.
Proof.
  unfold task_catch. destruct (Jobs.updateJob _ _ _) as [[?|?] js];
    intros [= _ <-]; (split; [reflexivity | apply updateSlide_ids]).
Qed.

Lemma content_task_begin_ids total s stg t stg' :
  task_begin job now sections total s stg = (t, stg') -> sameTables stg stg'.
Proof.
  unfold task_begin. destruct (sectionTitleAt _ _).
  - intros [= _ <-]. split; [reflexivity | apply updateSlide_ids].
  - apply content_catch_ids.
Qed.

Lemma content_task_resume_ids total i s stg t stg' :
  task_resume stringify job calls now total i s stg = (t, stg') ->
  sameTables stg stg'.
Proof.
  unfold task_resume. destruct (calls i) as [c|e]; [|apply content_catch_ids].
  destruct (Jobs.updateJob _ _ _) as [[?|?] js].
  - intros [= _ <-]. split; [reflexivity | apply updateSlide_ids].
  - intros H. apply content_catch_ids in H.
    eapply sameTables_trans; [|exact H].
    split; [reflexivity | apply updateSlide_ids].
Qed.

Lemma content_begin_ids total : forall deck stg ts stg',
  beginAll job now sections total deck stg = (ts, stg') -> sameTables stg stg'.
Proof.
  induction deck as [|s deck IH]; intros stg ts stg'; cbn.
  - intros [= _ <-]. apply sameTables_refl.
  - destruct (task_begin _ _ _ _ _ _) as [t stg1] eqn:H1.
    destruct (beginAll _ _ _ _ _ _) as [ts2 stg2] eqn:H2.
    intros [= _ <-]. eapply sameTables_trans.
    + apply (content_task_begin_ids _ _ _ _ _ H1).
    + apply (IH _ _ _ H2).
Qed.

Lemma content_slides_ids total deck : forall order tasks stg tasks' stg',
  resumeAll stringify job calls now total deck order tasks stg
  = Some (tasks', stg') ->
  sameTables stg stg'.
Proof.
  induction order as [|idx order IH]; intros tasks stg tasks' stg'; cbn.
  - intros [= _ <-]. apply sameTables_refl.
  - destruct (deck !! idx) as [s|]; [|discriminate].
    destruct (tasks !! idx) as [[| |]|]; try discriminate.
    destruct (task_resume _ _ _ _ _ _ _ _) as [t stg1] eqn:H1.
    intros H. eapply sameTables_trans.
    + apply (content_task_resume_ids _ _ _ _ _ _ H1).
    + apply (IH _ _ _ _ H).
Qed.

End ContentTablesFacts.

Section ProjectSlidesFacts.
Import Store.

(** With unique slide ids, a slide of the project is the row that a lookup
    by its id finds. *)
Lemma selectSlide_of_project pid d s :
  NoDup (s_id <$> slides d) ->
  s ∈ slidesOfProject pid d ->
  selectSlide (s_id s) pid d = Some s.
Proof.
  intros Hnd Hs. unfold slidesOfProject in Hs. rewrite merge_sort_Permutation in Hs.
  apply elem_of_filter_bool in Hs as [Hin Hp].
  unfold selectSlide. destruct (List.find _ (slides d)) as [r|] eqn:Hf.
  - apply List.find_some in Hf as [Hr Heq]. apply andb_prop in Heq as [Hid _].
    apply String.eqb_eq in Hid. apply list_elem_of_In in Hr. f_equal.
    apply (fmap_NoDup_inj s_id (slides d)); assumption.
  - apply list_elem_of_In in Hin. pose proof (List.find_none _ _ Hf s Hin) as Hn.
    cbn in Hn. rewrite String.eqb_refl, Hp in Hn. discriminate.
Qed.

End ProjectSlidesFacts.

(** X8. When [runGenerateContentStep] runs for a registered job on a project
    that has its row, an outline, a theme and a non-empty deck, the client
    can be built, and every call of the content agent that was started comes
    back (in any order [order]), the stage returns normally whatever the
    tasks did: the job ends completed with [totalSlides] = size of the deck,
    [completedSlides] = number of tasks that succeeded and [failedSlides] =
    number that failed; the slide of a failed task (no section for it in the
    outline, or a failed agent call) is in status [error] with the message of
    its failure and keeps the content it had; every other slide is in status
    [text_ready] without message and holds the generated content. *)
Theorem content_stage_isolates_failures :
  forall (theme slide_content : Type)
         (parseOutline : string -> option (list Pipeline.outline_section))
         (parseTheme : string -> option theme)
         (stringifyContent : slide_content -> string)
         (job : Jobs.job) (root : string)
         (contentCalls : nat -> completion slide_content)
         (now : string) (order : list nat) (w : Pipeline.world)
         (j : Jobs.job) (project : Store.project_row)
         (sections : list Pipeline.outline_section) (th : theme),
    let deck := Store.slidesOfProject (Jobs.projectId job) (Pipeline.disk_db w) in
    let n := length deck in
    Pipeline.jobs w !! Jobs.id job = Some j ->
    Views.getProjectRow (Jobs.projectId job) (Pipeline.disk_db w)
    = (Return project, Pipeline.disk_db w) ->
    Views.getLatestOutline parseOutline (Jobs.projectId job) (Pipeline.disk_db w)
    = Some sections ->
    Pipeline.requireLatestTheme parseTheme job (Pipeline.disk_db w) = Return th ->
    deck <> [] ->
    NoDup (Store.s_id <$> Store.slides (Pipeline.disk_db w)) ->
    order ≡ₚ ContentStage.awaited sections deck ->
    exists w' j',
      ContentStage.runGenerateContentStep parseOutline parseTheme stringifyContent
        job (Return root) (Return tt) contentCalls now order w
      = Some (Return tt, w')
      /\ Pipeline.jobs w' !! Jobs.id job = Some j'
      /\ Jobs.status j' = Jobs.completed
      /\ Jobs.progress_ j'
         = Some {| Jobs.step := Jobs.content;
                   Jobs.totalSlides := Z.of_nat n;
                   Jobs.completedSlides :=
                     Z.of_nat (length (List.filter
                                         (fun i => negb (ContentStage.failsAt
                                                           contentCalls sections deck i))
                                         (seq 0 n)));
                   Jobs.failedSlides :=
                     Z.of_nat (length (List.filter
                                         (ContentStage.failsAt contentCalls sections deck)
                                         (seq 0 n))) |}
      /\ (forall i s e,
             deck !! i = Some s ->
             ContentStage.taskFailure contentCalls sections s i = Some e ->
             ContentStage.slideText job (Store.s_id s) (Pipeline.disk_db w')
             = Some (Store.error, Some (toErrorMessage e), Store.content_json s))
      /\ (forall i s c,
             deck !! i = Some s ->
             ContentStage.taskFailure contentCalls sections s i = None ->
             contentCalls i = Return c ->
             ContentStage.slideText job (Store.s_id s) (Pipeline.disk_db w')
             = Some (Store.text_ready, None, Some (stringifyContent c)))
      /\ Store.slide_image_versions (Pipeline.disk_db w')
         = Store.slide_image_versions (Pipeline.disk_db w)
      /\ Store.s_id <$> Store.slides (Pipeline.disk_db w')
         = Store.s_id <$> Store.slides (Pipeline.disk_db w).
Proof.
  intros theme slide_content parseOutline parseTheme stringify job root calls
         now order w j project sections th deck n Hj Hproject Houtline Hth Hne
         Hnd Hperm.
  assert (Hids : NoDup (Store.s_id <$> deck)).
  { apply slidesOfProject_NoDup, Hnd. }
  assert (Hn : n <> 0%nat).
  { unfold n. destruct deck; [contradiction | discriminate]. }
  unfold ContentStage.runGenerateContentStep.
  rewrite (updateJob_registered _ _ _ j Hj).
  cbn [Pipeline.disk_db Pipeline.with_jobs Pipeline.jobs Pipeline.disk_fs].
  rewrite Hproject. unfold ContentStage.requireLatestOutline.
  rewrite Houtline, Hth. fold deck. fold n.
  rewrite (bool_decide_eq_false_2 _ Hn).
  rewrite (updateJob_registered _ _ _ (Jobs.patched j ContentStage.startPatch))
    by apply lookup_insert_eq.
  match goal with
  | |- context [ContentStage.beginAll _ _ _ _ _ ?stg] => set (stg0 := stg)
  end.
  assert (Hok0 : ContentStage.tasksDone stringify job calls sections deck [] stg0).
  { split; unfold stg0;
      cbn [Pipeline.now_world Pipeline.jobs Pipeline.disk_db Pipeline.with_jobs
           Pipeline.completedSlides Pipeline.failedSlides].
    - rewrite lookup_insert_eq. eauto.
    - intros i Hi. inversion Hi.
    - intros i s _ Hs. apply list_elem_of_lookup_2 in Hs.
      rewrite (selectSlide_of_project _ _ s Hnd Hs). reflexivity.
    - intros i s Hs. apply list_elem_of_lookup_2 in Hs.
      rewrite (selectSlide_of_project _ _ s Hnd Hs). eauto.
    - reflexivity.
    - reflexivity.
    - intros i s Hi. inversion Hi. }
  destruct (content_beginAll_done stringify job calls now sections deck Hids
              n deck 0 [] stg0)
    as (ts & stg1 & Hbegin & Hok1 & Hlen & Haw & Hful).
  { intros k s Hk. exact Hk. }
  { exact Hok0. }
  { intros i Hi. inversion Hi. }
  rewrite Hbegin. fold n in Hok1. cbn [app] in Hok1.
  destruct (content_resumeAll_done stringify job calls now sections deck Hids
              n order _ ts stg1 Hok1)
    as (ts' & stg2 & Hres & Hok2 & Hts').
  { rewrite Hperm. apply NoDup_filter_bool, NoDup_seq. }
  { intros i Hi Hin. rewrite Hperm in Hi.
    apply elem_of_filter_bool in Hi as [_ Hi].
    apply elem_of_filter_bool in Hin as [_ Hin].
    rewrite Hi in Hin. discriminate. }
  { intros i Hi. rewrite Hperm in Hi.
    apply elem_of_filter_bool in Hi as [Hi Hc]. split; [exact Hc|].
    apply elem_of_seq in Hi. apply (Haw i); [lia | exact Hc]. }
  rewrite Hres.
  assert (Hall : Forall (fun t => t = ContentStage.Settled) ts').
  { apply Forall_lookup. intros k t Hk.
    destruct (Hts' k t Hk) as [->|[Hnot Hk0]]; [reflexivity|].
    apply (Hful k t Hk0). cbn [Nat.add].
    destruct (ContentStage.hasSection sections deck k) eqn:Hc; [|reflexivity].
    exfalso. apply Hnot. rewrite Hperm. apply elem_of_filter_bool.
    split; [|exact Hc]. apply elem_of_seq. apply lookup_lt_Some in Hk0.
    fold n. lia. }
  assert (Hok3 : ContentStage.tasksDone stringify job calls sections deck
                   (seq 0 n) stg2).
  { refine (content_ok_perm stringify job calls sections deck _ _ stg2 _ Hok2).
    rewrite Hperm. apply filter_split_perm. }
  assert (Hsame2 : ContentStage.sameTables stg1 stg2)
    by (eapply content_slides_ids; exact Hres).
  assert (Hsame1 : ContentStage.sameTables stg0 stg1)
    by (eapply content_begin_ids; exact Hbegin).
  destruct Hok3 as [[j2 Hj2] _ _ _ Hcomp Hfail Hstates].
  rewrite (content_awaitAll_done job now n ts' stg2 j2 Hall Hj2).
  eexists. eexists. split; [reflexivity|].
  cbn [Pipeline.jobs Pipeline.with_jobs Pipeline.disk_db].
  split; [apply lookup_insert_eq|]. split; [reflexivity|]. split; [|split; [|split]].
  - cbn [Jobs.progress_ Jobs.patched Jobs.set_progress ContentStage.donePatch].
    rewrite Hcomp, Hfail. reflexivity.
  - intros i s e Hs He. rewrite (Hstates i s).
    + unfold ContentStage.expectedText. unfold ContentStage.taskFailure in He.
      destruct (ContentStage.sectionTitleAt sections (Store.section_index s));
        [|congruence].
      destruct (calls i); congruence.
    + apply elem_of_seq. apply lookup_lt_Some in Hs. fold n in Hs. lia.
    + exact Hs.
  - intros i s c Hs He Hc. rewrite (Hstates i s).
    + unfold ContentStage.expectedText. unfold ContentStage.taskFailure in He.
      destruct (ContentStage.sectionTitleAt sections (Store.section_index s));
        [|congruence].
      rewrite Hc. reflexivity.
    + apply elem_of_seq. apply lookup_lt_Some in Hs. fold n in Hs. lia.
    + exact Hs.
  - destruct Hsame1 as [Hv1 Hi1], Hsame2 as [Hv2 Hi2].
    unfold stg0 in Hv1, Hi1.
    cbn [Pipeline.now_world Pipeline.disk_db Pipeline.with_jobs] in Hv1, Hi1.
    split; [rewrite Hv2, Hv1 | rewrite Hi2, Hi1]; reflexivity.
Qed.

(** On the sample project the outline has no section for the third slide,
    and the agent fails for the second one; the two calls come back in the
    reverse order. *)
Lemma content_stage_isolates_failures_witness :
  exists w' j',
    ContentStage.runGenerateContentStep SampleMore.parseOutline Some
      (fun c : string => c) SampleRun.job (Return Sample.root) (Return tt)
      SampleMore.contentAgent "t5" [1; 0]%nat SampleMore.worldWithOutline
    = Some (Return tt, w')
    /\ Pipeline.jobs w' !! "job-1" = Some j'
    /\ Jobs.status j' = Jobs.completed
    /\ Jobs.progress_ j'
       = Some {| Jobs.step := Jobs.content; Jobs.totalSlides := 3;
                 Jobs.completedSlides := 1; Jobs.failedSlides := 2 |}
    /\ ContentStage.slideText SampleRun.job "slide-a" (Pipeline.disk_db w')
       = Some (Store.text_ready, None, Some "{cover-2}")
    /\ ContentStage.slideText SampleRun.job "slide-b" (Pipeline.disk_db w')
       = Some (Store.error, Some "busy", None)
    /\ ContentStage.slideText SampleRun.job "slide-c" (Pipeline.disk_db w')
       = Some (Store.error,
               Some "大纲结构与页面索引不一致，请先保存/重新生成大纲",
               Some "{thanks}").
Proof.
  destruct (content_stage_isolates_failures
              string string SampleMore.parseOutline Some (fun c : string => c)
              SampleRun.job Sample.root SampleMore.contentAgent "t5"
              [1; 0]%nat SampleMore.worldWithOutline SampleRun.job
              {| Store.p_id := "deck"; Store.p_name := "Deck";
                 Store.p_source_text := "brief" |}
              Sample.newOutline "{theme}")
    as (w' & j' & Hrun & Hj & Hstatus & Hprogress & Herror & Hready & _).
  - reflexivity.
  - reflexivity.
  - reflexivity.
  - reflexivity.
  - intros H. vm_compute in H. discriminate H.
  - refine (bool_decide_unpack _ _). vm_compute. exact I.
  - vm_compute. apply perm_swap.
  - exists w', j'. split; [exact Hrun|]. split; [exact Hj|].
    split; [exact Hstatus|]. split; [exact Hprogress|].
    split; [|split].
    + exact (Hready 0%nat Sample.slideA "{cover-2}" eq_refl eq_refl eq_refl).
    + exact (Herror 1%nat Sample.slideB (ErrorObj "busy") eq_refl eq_refl).
    + exact (Herror 2%nat Sample.slideC ContentStage.outlineMismatch
               eq_refl eq_refl).
Defined.

(** * The Images stage without its inputs *)

(** X9. [runGenerateImagesStep] stops before it touches any slide when one of
    its inputs is missing.  For a job that is not in the registry it throws
    "任务不存在" and changes nothing.  For a registered job it marks the job
    running with zero counters and then throws: the error of the root lookup
    if that fails, "风格尚未生成" if the project has no theme that parses, and
    "没有页面可生成，请先生成大纲" if the project has no slide; the database and
    the files are as before and the job is left running. *)
Theorem images_stage_refuses_without_inputs :
  forall (theme slide_content : Type)
         (parseTheme : string -> option theme)
         (parseSlideContent : string -> option slide_content)
         (build : theme -> string -> slide_content -> string)
         (job : Jobs.job) (rootLookup : completion string)
         (calls : nat -> ImageClient.image_call)
         (newIds : nat -> string) (now : string)
         (order : list nat) (w : Pipeline.world),
    let run := Pipeline.runGenerateImagesStep parseTheme parseSlideContent build
                 job rootLookup calls newIds now order w in
    match Pipeline.jobs w !! Jobs.id job with
    | None => run = Some (Throw (ErrorObj "任务不存在"), w)
    | Some j =>
        let w1 := Pipeline.with_jobs w
                    (<[Jobs.id job := Jobs.patched j Pipeline.startPatch]>
                       (Pipeline.jobs w)) in
        Jobs.status (Jobs.patched j Pipeline.startPatch) = Jobs.running
        /\ Pipeline.disk_db w1 = Pipeline.disk_db w
        /\ Pipeline.disk_fs w1 = Pipeline.disk_fs w
        /\ match rootLookup with
           | Throw e => run = Some (Throw e, w1)
           | Return _ =>
               match Store.latestThemeJson (Jobs.projectId job) (Pipeline.disk_db w)
                     ≫= parseTheme with
               | None => run = Some (Throw (ErrorObj "风格尚未生成"), w1)
               | Some _ =>
                   Store.slidesOfProject (Jobs.projectId job) (Pipeline.disk_db w)
                   = [] ->
                   run = Some (Throw (ErrorObj "没有页面可生成，请先生成大纲"), w1)
               end
           end
    end.
Proof.
  intros theme slide_content parseTheme parseContent build job rootLookup calls
         newIds now order w run.
  unfold run, Pipeline.runGenerateImagesStep, Jobs.updateJob.
  destruct (Pipeline.jobs w !! Jobs.id job) as [j|] eqn:Hj.
  - cbn zeta. split; [reflexivity|]. split; [reflexivity|]. split; [reflexivity|].
    destruct rootLookup as [root|e]; [|reflexivity].
    unfold Pipeline.runImagesFrom, Pipeline.requireLatestTheme.
    cbn [Pipeline.disk_db Pipeline.with_jobs].
    destruct (Store.latestThemeJson (Jobs.projectId job) (Pipeline.disk_db w)
              ≫= parseTheme) as [th|]; [|reflexivity].
    intros Hempty. unfold Pipeline.deckSlides. rewrite Hempty. reflexivity.
  - destruct w; reflexivity.
Qed.

(** On the sample project with a theme that does not parse. *)
Lemma images_stage_refuses_without_inputs_witness :
  Pipeline.runGenerateImagesStep (fun _ : string => @None string) Some
    SampleRun.build SampleRun.job (Return Sample.root) SampleRun.imageCalls
    SampleRun.rowIds "t5" [] SampleMore.world
  = Some (Throw (ErrorObj "风格尚未生成"),
          Pipeline.with_jobs SampleMore.world
            (<["job-1" := Jobs.patched SampleRun.job Pipeline.startPatch]>
               (Pipeline.jobs SampleMore.world))).
Proof.
  exact (proj2 (proj2 (proj2
           (images_stage_refuses_without_inputs
              string string (fun _ : string => @None string) Some SampleRun.build
              SampleRun.job (Return Sample.root) SampleRun.imageCalls
              SampleRun.rowIds "t5" [] SampleMore.world)))).
Defined.

(** * Properties of the image response helpers and of the file route *)
Section ImageResponseFacts.
Import ImageResponse.

Lemma afterFirstComma_none s : hasComma s = false -> afterFirstComma s = None.
Proof.
  induction s as [|c s IH]; [reflexivity|]. cbn. intros H.
  apply orb_false_elim in H as [Hc Hs]. rewrite Hc. exact (IH Hs).
Qed.

Lemma afterFirstComma_append a b :
  hasComma a = false -> afterFirstComma (a +:+ String "," b) = Some b.
Proof.
  induction a as [|c a IH]; [reflexivity|]. cbn. intros H.
  apply orb_false_elim in H as [Hc Ha]. rewrite append_cons. cbn [afterFirstComma].
  rewrite Hc. exact (IH Ha).
Qed.

Lemma startsWith_prefix p r : Paths.startsWith (p +:+ r) p = true.
Proof.
  induction p as [|c p IH]; [destruct r; reflexivity|].
  rewrite append_cons. cbn. rewrite IH.
  destruct (Ascii.eqb_spec c c); [reflexivity | congruence].
Qed.

Lemma mimeToExt_cases toLowerCase trim mimeType :
  mimeToExt toLowerCase trim mimeType ∈ imageExts.
Proof.
  unfold mimeToExt, imageExts. cbn zeta.
  repeat match goal with
         | |- context [if ?b then _ else _] => destruct b
         end;
    repeat (first [left | right]).
Qed.

(** The extension of an image from the service is one of those that
    [ImageClient.image_ext] lists. *)
Lemma mimeToExt_extName toLowerCase trim mimeType :
  exists x, mimeToExt toLowerCase trim mimeType = ImageClient.extName x.
Proof.
  unfold mimeToExt. cbn zeta.
  repeat match goal with
         | |- context [if ?b then _ else _] => destruct b
         end;
    first [ exists ImageClient.Jpg; reflexivity
          | exists ImageClient.Png; reflexivity
          | exists ImageClient.Webp; reflexivity
          | exists ImageClient.Gif; reflexivity
          | exists ImageClient.Bmp; reflexivity
          | exists ImageClient.Tiff; reflexivity ].
Qed.

End ImageResponseFacts.

(** X10. The extension that [mimeToExt] picks for a MIME type, whatever the
    type, is one of jpg, png, webp, gif, bmp, tiff, and [contentTypeFromExt]
    gives for it the image type of that extension, never the fallback
    [application/octet-stream].  Conversely each of these six extensions is
    what [mimeToExt] gives for its own image type.  (The two string functions
    of JavaScript are only required to leave the lower-case constants
    alone.) *)
Theorem mime_and_extension_round_trip :
  forall (toLowerCase trim : string -> string),
    (forall ext, ext ∈ ImageResponse.imageExts -> toLowerCase ext = ext) ->
    (forall ext, ext ∈ ImageResponse.imageExts ->
                 trim (toLowerCase (ImageResponse.mimeOfExt ext))
                 = ImageResponse.mimeOfExt ext) ->
    (forall mimeType,
        ImageResponse.mimeToExt toLowerCase trim mimeType ∈ ImageResponse.imageExts
        /\ ImageResponse.contentTypeFromExt toLowerCase
             (ImageResponse.mimeToExt toLowerCase trim mimeType)
           = ImageResponse.mimeOfExt
               (ImageResponse.mimeToExt toLowerCase trim mimeType))
    /\ (forall ext,
           ext ∈ ImageResponse.imageExts ->
           ImageResponse.mimeToExt toLowerCase trim
             (Some (ImageResponse.mimeOfExt ext)) = ext).
Proof.
  intros toLowerCase trim Hlower Hmime. split.
  - intros mimeType. pose proof (mimeToExt_cases toLowerCase trim mimeType) as Hin.
    split; [exact Hin|].
    unfold ImageResponse.contentTypeFromExt. rewrite (Hlower _ Hin).
    unfold ImageResponse.imageExts in Hin.
    repeat (apply elem_of_cons in Hin as [->|Hin]; [reflexivity|]).
    inversion Hin.
  - intros ext Hin. unfold ImageResponse.mimeToExt.
    change (default "" (Some (ImageResponse.mimeOfExt ext)))
      with (ImageResponse.mimeOfExt ext).
    rewrite (Hmime _ Hin). unfold ImageResponse.imageExts in Hin.
    repeat (apply elem_of_cons in Hin as [->|Hin]; [reflexivity|]).
    inversion Hin.
Qed.

Lemma mime_and_extension_round_trip_witness :
  ImageResponse.mimeToExt AsciiText.toLowerCase AsciiText.trim (Some " Image/JPEG ")
  = "jpg"
  /\ ImageResponse.contentTypeFromExt AsciiText.toLowerCase
       (ImageResponse.mimeToExt AsciiText.toLowerCase AsciiText.trim
          (Some "application/x-unknown"))
     = "image/png"
  /\ ImageResponse.mimeToExt AsciiText.toLowerCase AsciiText.trim (Some "image/webp")
     = "webp".
Proof.
  assert (Hlower : forall ext, ext ∈ ImageResponse.imageExts ->
                               AsciiText.toLowerCase ext = ext).
  { intros ext Hin. unfold ImageResponse.imageExts in Hin.
    repeat (apply elem_of_cons in Hin as [->|Hin]; [reflexivity|]).
    inversion Hin. }
  assert (Hmime : forall ext, ext ∈ ImageResponse.imageExts ->
                              AsciiText.trim (AsciiText.toLowerCase
                                                (ImageResponse.mimeOfExt ext))
                              = ImageResponse.mimeOfExt ext).
  { intros ext Hin. unfold ImageResponse.imageExts in Hin.
    repeat (apply elem_of_cons in Hin as [->|Hin]; [reflexivity|]).
    inversion Hin. }
  destruct (mime_and_extension_round_trip AsciiText.toLowerCase AsciiText.trim
              Hlower Hmime) as [Hto Hfrom].
  split; [reflexivity|]. split.
  - rewrite (proj2 (Hto (Some "application/x-unknown"))). reflexivity.
  - apply (Hfrom "webp"). right. right. left.
Defined.

(** X11. [decodeMaybeDataUrl] gives the trimmed input back when that does
    not start with "data:" or has no comma; for a data URL
    [data:<meta>,<payload>], where [<meta>] has no comma, it gives the
    trimmed payload. *)
Theorem decodeMaybeDataUrl_payload :
  forall (trim : string -> string) (input : string),
    (Paths.startsWith (trim input) "data:" = false ->
     ImageResponse.decodeMaybeDataUrl trim input = trim input)
    /\ (ImageResponse.hasComma (trim input) = false ->
        ImageResponse.decodeMaybeDataUrl trim input = trim input)
    /\ (forall meta payload,
           trim input = "data:" +:+ meta +:+ "," +:+ payload ->
           ImageResponse.hasComma meta = false ->
           ImageResponse.decodeMaybeDataUrl trim input = trim payload).
Proof.
  intros trim input. unfold ImageResponse.decodeMaybeDataUrl. cbn zeta.
  split; [|split].
  - intros ->. reflexivity.
  - intros Hno. rewrite (afterFirstComma_none _ Hno).
    destruct (negb _); reflexivity.
  - intros meta payload -> Hmeta.
    rewrite startsWith_prefix. cbn [negb].
    change ("data:" +:+ meta +:+ "," +:+ payload)
      with (String "d" (String "a" (String "t" (String "a" (String ":"
              (meta +:+ String "," payload)))))).
    cbn [ImageResponse.afterFirstComma Ascii.eqb Bool.eqb].
    rewrite (afterFirstComma_append meta payload Hmeta). reflexivity.
Qed.

Lemma decodeMaybeDataUrl_payload_witness :
  ImageResponse.decodeMaybeDataUrl AsciiText.trim
    "  data:image/png;base64, iVBORw0KGgo=  "
  = "iVBORw0KGgo=".
Proof.
  exact (proj2 (proj2 (decodeMaybeDataUrl_payload AsciiText.trim
                         "  data:image/png;base64, iVBORw0KGgo=  "))
           "image/png;base64" " iVBORw0KGgo=" eq_refl eq_refl).
Defined.


(** X12. The file route serves a file only for a path that starts with
    "images/" or "exports/", and only the file that this path resolves to
    when that file is the project root or lies below it: it answers 403 for
    any other path and 404 when the resolved path escapes the root.  The
    content type is that of the extension of the resolved path. *)
Theorem file_route_stays_within_root :
  forall (toLowerCase : string -> string)
         (cwd projectRootPath relPath : string),
    let reply :=
      FileRoute.getProjectFile toLowerCase cwd (Return projectRootPath) relPath in
    (forall absPath contentType,
        reply = FileRoute.File absPath contentType ->
        (Paths.startsWith relPath "images/" = true
         \/ Paths.startsWith relPath "exports/" = true)
        /\ absPath = Paths.target cwd projectRootPath relPath
        /\ Paths.within (Paths.resolve cwd [projectRootPath]) absPath
        /\ (Paths.isAbsolute cwd = true -> Paths.plain absPath)
        /\ contentType
           = ImageResponse.contentTypeFromExt toLowerCase
               (PathNames.dropFirstDot (PathNames.extname absPath)))
    /\ (Paths.startsWith relPath "images/" = false ->
        Paths.startsWith relPath "exports/" = false ->
        reply = FileRoute.Forbidden)
    /\ (Paths.startsWith relPath "images/" = true
        \/ Paths.startsWith relPath "exports/" = true ->
        ~ Paths.within (Paths.resolve cwd [projectRootPath])
            (Paths.target cwd projectRootPath relPath) ->
        reply = FileRoute.NotFound FileRoute.pathInvalid).
Proof.
  intros toLowerCase cwd root rel reply. subst reply. split; [|split].
  - intros abs ct. unfold FileRoute.getProjectFile.
    destruct (Paths.startsWith rel "images/") eqn:Himg;
      destruct (Paths.startsWith rel "exports/") eqn:Hexp; cbn [negb andb];
      try discriminate;
      (intros H; split; [auto|]);
      unfold FileRoute.resolveSafeProjectFile in H;
      fold (Paths.target cwd root rel) in H;
      (destruct (Paths.startsWith (Paths.target cwd root rel)
                   (Paths.resolve cwd [root] +:+ "/")) eqn:Hsw;
       destruct (String.eqb (Paths.target cwd root rel) (Paths.resolve cwd [root]))
         eqn:Heq; cbn [negb andb] in H; try discriminate;
       injection H as <- <-;
       (split; [reflexivity|]);
       (split; [apply guard_within; auto|]);
       (split; [intros Hcwd; apply resolve_plain; exact Hcwd | reflexivity])).
  - intros Himg Hexp. unfold FileRoute.getProjectFile. rewrite Himg, Hexp.
    reflexivity.
  - intros Hprefix Hout. unfold FileRoute.getProjectFile.
    assert (Htest : negb (Paths.startsWith rel "images/")
                    && negb (Paths.startsWith rel "exports/") = false).
    { destruct Hprefix as [-> | ->]; [reflexivity|].
      destruct (Paths.startsWith rel "images/"); reflexivity. }
    rewrite Htest. unfold FileRoute.resolveSafeProjectFile.
    fold (Paths.target cwd root rel).
    destruct (Paths.startsWith (Paths.target cwd root rel)
                (Paths.resolve cwd [root] +:+ "/")) eqn:Hsw;
      [exfalso; apply Hout, guard_within; auto|].
    destruct (String.eqb (Paths.target cwd root rel) (Paths.resolve cwd [root]))
      eqn:Heq; [exfalso; apply Hout, guard_within; auto|].
    reflexivity.
Qed.

Lemma file_route_stays_within_root_witness :
  FileRoute.getProjectFile AsciiText.toLowerCase "/srv" (Return Sample.root)
    "images/slide-0001/v1.PNG"
  = FileRoute.File "/home/u/deck/images/slide-0001/v1.PNG" "image/png"
  /\ Paths.within "/home/u/deck" "/home/u/deck/images/slide-0001/v1.PNG"
  /\ FileRoute.getProjectFile AsciiText.toLowerCase "/srv" (Return Sample.root)
       "images/../../other/aippt.sqlite"
     = FileRoute.NotFound FileRoute.pathInvalid
  /\ FileRoute.getProjectFile AsciiText.toLowerCase "/srv" (Return Sample.root)
       "aippt.sqlite"
     = FileRoute.Forbidden.
Proof.
  assert (Hfile : FileRoute.getProjectFile AsciiText.toLowerCase "/srv"
                    (Return Sample.root) "images/slide-0001/v1.PNG"
                  = FileRoute.File "/home/u/deck/images/slide-0001/v1.PNG"
                      "image/png") by (vm_compute; reflexivity).
  split; [exact Hfile|]. split; [|split].
  - exact (proj1 (proj2 (proj2 (proj1 (file_route_stays_within_root
                                         AsciiText.toLowerCase "/srv" Sample.root
                                         "images/slide-0001/v1.PNG")
                                  _ _ Hfile)))).
  - apply (proj2 (proj2 (file_route_stays_within_root
                           AsciiText.toLowerCase "/srv" Sample.root
                           "images/../../other/aippt.sqlite"))).
    + left. reflexivity.
    + unfold Paths.within. vm_compute. intros [k Hk]. discriminate Hk.
  - apply (proj1 (proj2 (file_route_stays_within_root
                           AsciiText.toLowerCase "/srv" Sample.root
                           "aippt.sqlite"))); reflexivity.
Defined.

(** X13. The prefix test of the file route does not keep it inside the two
    folders: for a project root that is a rooted path of proper names and
    any proper file name [f] without backslash, the route called with
    "images/../f" (or "exports/../f") serves the file [f] that lies right
    below the project root, such as the database file [aippt.sqlite]. *)
Theorem file_route_reaches_the_project_root :
  forall (toLowerCase : string -> string) (cwd : string)
         (segs : list string) (f : string),
    Forall Paths.properName segs -> segs <> [] -> Paths.properName f ->
    Paths.backslashesToSlashes f = f ->
    let root := "/" +:+ Paths.join segs in
    let served := FileRoute.File (root +:+ "/" +:+ f)
                    (ImageResponse.contentTypeFromExt toLowerCase
                       (PathNames.dropFirstDot
                          (PathNames.extname (root +:+ "/" +:+ f)))) in
    FileRoute.getProjectFile toLowerCase cwd (Return root) ("images/../" +:+ f)
    = served
    /\ FileRoute.getProjectFile toLowerCase cwd (Return root) ("exports/../" +:+ f)
       = served.
Proof.
  intros toLowerCase cwd segs f Hall Hne Hf Hbs root served.
  assert (Hguard : forall dir,
             Paths.properName dir ->
             Paths.backslashesToSlashes
               (Paths.dropLeadingSlashes (dir +:+ "/../" +:+ f))
             = dir +:+ "/../" +:+ f ->
             FileRoute.resolveSafeProjectFile toLowerCase cwd root
               (dir +:+ "/../" +:+ f)
             = Return (root +:+ "/" +:+ f,
                       ImageResponse.contentTypeFromExt toLowerCase
                         (PathNames.dropFirstDot
                            (PathNames.extname (root +:+ "/" +:+ f))))).
  { intros dir Hdir Hclean. unfold FileRoute.resolveSafeProjectFile.
    rewrite Hclean. unfold root.
    rewrite (resolve_in_and_out cwd segs dir f Hall Hne Hdir Hf).
    rewrite (resolve_root cwd segs Hall Hne).
    rewrite <- (append_assoc ("/" +:+ Paths.join segs) "/" f).
    rewrite startsWith_prefix. reflexivity. }
  assert (Himages : Paths.properName "images")
    by (split; [reflexivity|]; repeat split; discriminate).
  assert (Hexports : Paths.properName "exports")
    by (split; [reflexivity|]; repeat split; discriminate).
  split.
  - unfold FileRoute.getProjectFile.
    change (Paths.startsWith ("images/../" +:+ f) "images/") with true.
    cbn [negb andb].
    change ("images/../" +:+ f) with ("images" +:+ "/../" +:+ f).
    rewrite (Hguard "images" Himages); [reflexivity|].
    change (Paths.backslashesToSlashes
              (Paths.dropLeadingSlashes ("images" +:+ "/../" +:+ f)))
      with ("images" +:+ "/../" +:+ Paths.backslashesToSlashes f).
    rewrite Hbs. reflexivity.
  - unfold FileRoute.getProjectFile.
    change (Paths.startsWith ("exports/../" +:+ f) "exports/") with true.
    rewrite andb_false_r.
    change ("exports/../" +:+ f) with ("exports" +:+ "/../" +:+ f).
    rewrite (Hguard "exports" Hexports); [reflexivity|].
    change (Paths.backslashesToSlashes
              (Paths.dropLeadingSlashes ("exports" +:+ "/../" +:+ f)))
      with ("exports" +:+ "/../" +:+ Paths.backslashesToSlashes f).
    rewrite Hbs. reflexivity.
Qed.

Lemma file_route_reaches_the_project_root_witness :
  FileRoute.getProjectFile AsciiText.toLowerCase "/srv" (Return "/home/u/deck")
    "images/../aippt.sqlite"
  = FileRoute.File "/home/u/deck/aippt.sqlite" "application/octet-stream".
Proof.
  refine (proj1 (file_route_reaches_the_project_root
                   AsciiText.toLowerCase "/srv" ["home"; "u"; "deck"]
                   "aippt.sqlite" _ _ _ _)).
  - repeat (constructor; [split; [reflexivity|]; repeat split; discriminate|]).
    constructor.
  - discriminate.
  - split; [reflexivity|]; repeat split; discriminate.
  - reflexivity.
Defined.

(** * The outline and the deck *)

#[local] Instance deckOrder_trans : Transitive Store.deckOrder.
Proof. intros a b c. unfold Store.deckOrder. lia. Qed.

#[local] Instance deckOrder_total : Total Store.deckOrder.
Proof. intros a b. unfold Store.deckOrder. lia. Qed.

Section PositionFacts.
Import Store Pipeline OutlineEdit.

Lemma positionsFrom_app A : forall k B,
  positionsFrom k (A ++ B)
  = positionsFrom k A ++ positionsFrom (k + Z.of_nat (length A)) B.
Proof.
  induction A as [|sec A IH]; intros k B; cbn [positionsFrom app length].
  - rewrite Z.add_0_r. reflexivity.
  - rewrite IH, <- app_assoc. do 3 f_equal. lia.
Qed.

Lemma positionsFrom_range sections : forall k p,
  p ∈ positionsFrom k sections ->
  k <= p.1 < k + Z.of_nat (length sections).
Proof.
  induction sections as [|sec l IH]; intros k p Hp; [inversion Hp|].
  cbn [positionsFrom length] in *. apply elem_of_app in Hp as [Hp|Hp].
  - apply list_elem_of_fmap in Hp as (j & -> & _). cbn. lia.
  - apply IH in Hp. lia.
Qed.

Lemma positionsFrom_elem sections : forall k a b,
  (a, b) ∈ positionsFrom k sections ->
  exists sec, sections !! Z.to_nat (a - k) = Some sec
              /\ k <= a /\ 0 <= b < Z.of_nat (length (sec_slides sec)).
Proof.
  induction sections as [|sec l IH]; intros k a b Hp; [inversion Hp|].
  cbn [positionsFrom] in Hp. apply elem_of_app in Hp as [Hp|Hp].
  - apply list_elem_of_fmap in Hp as (j & Heq & Hj). injection Heq as -> ->.
    apply elem_of_seqZ in Hj. exists sec. rewrite Z.sub_diag. cbn.
    split; [reflexivity | lia].
  - pose proof (positionsFrom_range _ _ _ Hp) as Hr. cbn in Hr.
    destruct (IH _ _ _ Hp) as (sec' & Hl & Hk & Hb). exists sec'.
    split; [|lia].
    replace (Z.to_nat (a - k)) with (S (Z.to_nat (a - (k + 1)))) by lia.
    exact Hl.
Qed.

Lemma positionsFrom_length sections : forall k,
  Z.of_nat (length (positionsFrom k sections)) = slideCount sections.
Proof.
  unfold slideCount.
  induction sections as [|sec l IH]; intros k; cbn; [reflexivity|].
  rewrite !length_app, length_fmap, length_seqZ, Nat2Z.inj_add, IH.
  rewrite Nat2Z.inj_add. lia.
Qed.

Lemma positionsFrom_shift sections : forall k,
  (fun p : Z * Z => (p.1 - 1, p.2)) <$> positionsFrom (k + 1) sections
  = positionsFrom k sections.
Proof.
  induction sections as [|sec l IH]; intros k; cbn [positionsFrom];
    [reflexivity|].
  rewrite fmap_app, IH, <- list_fmap_compose. f_equal.
  apply list_fmap_ext. intros _ j _. cbn. f_equal. lia.
Qed.

Lemma positionsFrom_sorted sections : forall k,
  StronglySorted positionOrder (positionsFrom k sections).
Proof.
  induction sections as [|sec l IH]; intros k; cbn [positionsFrom];
    [constructor|].
  apply StronglySorted_app_2; [| |apply IH].
  - intros x y Hx Hy. apply list_elem_of_fmap in Hx as (j & -> & _).
    apply positionsFrom_range in Hy. left. cbn. lia.
  - generalize 0. induction (length (sec_slides sec)) as [|n IHn]; intros m;
      [constructor|].
    rewrite seqZ_cons by lia. cbn [fmap list_fmap]. constructor.
    + replace (Z.pred (Z.of_nat (S n))) with (Z.of_nat n) by lia. apply IHn.
    + apply Forall_forall. intros p Hp.
      apply list_elem_of_fmap in Hp as (j & -> & Hj).
      apply elem_of_seqZ in Hj. right. cbn. lia.
Qed.

(** The deck is aligned exactly when its rows, in any order, stand at the
    positions of the outline. *)
Lemma aligned_perm pid sections d :
  aligned pid sections d
  <-> positionOf <$> List.filter (fun r => String.eqb (s_project_id r) pid)
                                 (slides d)
      ≡ₚ positionsFrom 0 sections.
Proof.
  unfold aligned, slidesOfProject. split.
  - intros <-. rewrite merge_sort_Permutation. reflexivity.
  - intros Hperm.
    apply (StronglySorted_unique_strong positionOrder).
    + intros [a b] [a' b'] _ _. unfold positionOrder. cbn. intros H1 H2.
      f_equal; lia.
    + apply (StronglySorted_fmap _ deckOrder).
      * intros x y H. exact H.
      * apply StronglySorted_merge_sort; apply _.
    + apply positionsFrom_sorted.
    + rewrite merge_sort_Permutation. exact Hperm.
Qed.

End PositionFacts.

Section SpliceFacts.
Import Store Pipeline OutlineEdit.

Lemma fmap_fixed {X : Type} (f : X -> X) (l : list X) :
  (forall x, x ∈ l -> f x = x) -> f <$> l = l.
Proof.
  intros H. rewrite <- (list_fmap_id l) at 2.
  apply Forall_fmap_ext_1, Forall_forall. exact H.
Qed.

Lemma insert_middle {X : Type} (A B : list X) x y :
  <[length A := y]> (A ++ x :: B) = A ++ y :: B.
Proof. induction A as [|a A IH]; cbn; [reflexivity | f_equal; exact IH]. Qed.

(** The positions of an outline without the one of the slide that is
    spliced out, moved as the [UPDATE] of the transaction moves them, are the
    positions of the next outline. *)
Lemma spliced_positions A section B (j : nat) :
  (j < length (sec_slides section))%nat ->
  let i := Z.of_nat (length A) in
  let result := spliced (A ++ section :: B) section i (Z.of_nat j) in
  exists rest,
    positionsFrom 0 (A ++ section :: B) ≡ₚ (i, Z.of_nat j) :: rest
    /\ (if result.2 then sectionShifted i else slideShifted i (Z.of_nat j))
         <$> rest
       = positionsFrom 0 result.1.
Proof.
  intros Hj i result.
  set (n := length (sec_slides section)) in *.
  set (PA := positionsFrom 0 A).
  set (PB := positionsFrom (i + 1) B).
  set (X := pair i <$> seqZ 0 (Z.of_nat j)).
  set (Y := pair i <$> seqZ (Z.of_nat j + 1) (Z.of_nat n - Z.of_nat j - 1)).
  assert (Hall : positionsFrom 0 (A ++ section :: B)
                 = (PA ++ X) ++ (i, Z.of_nat j) :: (Y ++ PB)).
  { rewrite positionsFrom_app. cbn [positionsFrom]. fold n.
    rewrite Z.add_0_l. fold i. fold PA. fold PB.
    replace (Z.of_nat n) with (Z.of_nat j + (Z.of_nat n - Z.of_nat j)) at 1
      by lia.
    rewrite seqZ_app by lia. rewrite Z.add_0_l.
    rewrite (seqZ_cons (Z.of_nat j)) by lia.
    rewrite fmap_app, fmap_cons. fold X.
    replace (Z.succ (Z.of_nat j)) with (Z.of_nat j + 1) by lia.
    replace (Z.pred (Z.of_nat n - Z.of_nat j))
      with (Z.of_nat n - Z.of_nat j - 1) by lia.
    fold Y. rewrite <- !app_assoc. reflexivity. }
  assert (HPA : forall p, p ∈ PA -> p.1 < i).
  { intros p Hp. apply positionsFrom_range in Hp. unfold i. lia. }
  assert (HPB : forall p, p ∈ PB -> i < p.1).
  { intros p Hp. apply positionsFrom_range in Hp. lia. }
  exists ((PA ++ X) ++ (Y ++ PB)). split.
  { rewrite Hall. symmetry. apply Permutation_middle. }
  assert (Hlen : length (delete j (sec_slides section)) = (n - 1)%nat).
  { apply length_delete, lookup_lt_is_Some_2. exact Hj. }
  unfold result, spliced. rewrite !Nat2Z.id. rewrite Hlen.
  assert (Hi : Z.to_nat i = length A) by (unfold i; lia).
  destruct (Nat.eqb_spec (n - 1) 0) as [Hone|Hmore]; cbn [fst snd]; rewrite Hi.
  - rewrite delete_middle.
    assert (HX : X = []) by (unfold X; replace j with 0%nat by lia; reflexivity).
    assert (HY : Y = []).
    { unfold Y. replace (Z.of_nat n - Z.of_nat j - 1) with 0 by lia.
      reflexivity. }
    rewrite HX, HY, app_nil_r, app_nil_l, fmap_app.
    rewrite positionsFrom_app, Z.add_0_l. fold i. fold PA. f_equal.
    + apply fmap_fixed. intros p Hp. unfold sectionShifted.
      apply HPA in Hp. destruct (Z.ltb_spec i p.1); [lia | reflexivity].
    + rewrite <- (positionsFrom_shift B i). apply Forall_fmap_ext_1, Forall_forall.
      intros p Hp. unfold sectionShifted. apply HPB in Hp.
      destruct (Z.ltb_spec i p.1); [reflexivity | lia].
  - rewrite insert_middle.
    rewrite positionsFrom_app. cbn [positionsFrom sec_slides].
    rewrite Hlen, Z.add_0_l. fold i. fold PA. fold PB.
    replace (Z.of_nat (n - 1))
      with (Z.of_nat j + (Z.of_nat n - Z.of_nat j - 1)) by lia.
    rewrite seqZ_app by lia. rewrite Z.add_0_l.
    rewrite !fmap_app, <- !app_assoc. fold X. f_equal; [|f_equal; [|f_equal]].
    + apply fmap_fixed. intros p Hp. unfold slideShifted. apply HPA in Hp.
      destruct (Z.eqb_spec p.1 i); [lia | reflexivity].
    + apply fmap_fixed. intros p Hp. unfold slideShifted, X in *.
      apply list_elem_of_fmap in Hp as (x & -> & Hx). apply elem_of_seqZ in Hx.
      cbn [fst snd]. destruct (Z.ltb_spec (Z.of_nat j) x); [lia|].
      rewrite andb_false_r. reflexivity.
    + unfold Y.
      replace (seqZ (Z.of_nat j) (Z.of_nat n - Z.of_nat j - 1))
        with (Z.add (-1) <$> seqZ (Z.of_nat j + 1) (Z.of_nat n - Z.of_nat j - 1))
        by (rewrite fmap_add_seqZ; f_equal; lia).
      rewrite <- !list_fmap_compose.
      apply Forall_fmap_ext_1, Forall_forall. intros x Hx.
      apply elem_of_seqZ in Hx. unfold slideShifted. cbn [compose fst snd].
      rewrite Z.eqb_refl. destruct (Z.ltb_spec (Z.of_nat j) x); [|lia].
      cbn [andb]. f_equal. lia.
    + apply fmap_fixed. intros p Hp. unfold slideShifted. apply HPB in Hp.
      destruct (Z.eqb_spec p.1 i); [lia | reflexivity].
Qed.

End SpliceFacts.

Section DeleteFacts.
Import Store Pipeline OutlineEdit.

Lemma selectSlide_Some sid pid d r :
  selectSlide sid pid d = Some r ->
  r ∈ slides d /\ s_id r = sid /\ s_project_id r = pid.
Proof.
  unfold selectSlide. intros H. apply List.find_some in H as [Hin Hb].
  apply andb_prop in Hb as [H1 H2].
  apply String.eqb_eq in H1. apply String.eqb_eq in H2.
  split; [apply list_elem_of_In; exact Hin | auto].
Qed.

(** A row with a unique key, and the other rows. *)
Lemma unique_row_perm (l : list slide_row) r :
  NoDup (s_id <$> l) -> r ∈ l ->
  l ≡ₚ r :: List.filter (fun x => negb (String.eqb (s_id x) (s_id r))) l.
Proof.
  induction l as [|x l IH]; intros Hnd Hr; [inversion Hr|].
  cbn in Hnd. apply NoDup_cons in Hnd as [Hx Hnd]. cbn [List.filter].
  apply elem_of_cons in Hr as [->|Hr].
  - rewrite String.eqb_refl. cbn [negb]. apply Permutation_skip.
    rewrite (List.filter_ext_in _ (fun _ => true));
      [rewrite filter_all_true; reflexivity|].
    intros y Hy. apply negb_true_iff, String.eqb_neq. intros Heq.
    apply Hx. rewrite <- Heq. apply list_elem_of_fmap.
    exists y. split; [reflexivity | apply list_elem_of_In; exact Hy].
  - destruct (String.eqb_spec (s_id x) (s_id r)) as [Heq|_]; cbn [negb].
    + exfalso. apply Hx. rewrite Heq. apply list_elem_of_fmap.
      exists r. split; [reflexivity | exact Hr].
    + rewrite (IH Hnd Hr) at 1. apply Permutation_swap.
Qed.

Lemma NoDup_project_rows pid (l : list slide_row) :
  NoDup (s_id <$> l) ->
  NoDup (s_id <$> List.filter (fun r => String.eqb (s_project_id r) pid) l).
Proof.
  induction l as [|x l IH]; intros Hnd; [constructor|].
  cbn in Hnd. apply NoDup_cons in Hnd as [Hx Hnd]. cbn [List.filter].
  destruct (String.eqb _ _); [|apply IH, Hnd].
  cbn. apply NoDup_cons. split; [|apply IH, Hnd].
  intros Hin. apply Hx. apply list_elem_of_fmap in Hin as (y & -> & Hy).
  apply elem_of_filter_bool in Hy as [Hy _].
  apply list_elem_of_fmap. exists y. split; [reflexivity | exact Hy].
Qed.

Lemma forallb_delete {X : Type} (f : X -> bool) (l : list X) : forall j,
  forallb f l = true -> forallb f (delete j l) = true.
Proof.
  induction l as [|x l IH]; intros j H; [destruct j; exact H|].
  cbn in H. apply andb_prop in H as [Hx Hl].
  destruct j; cbn; [exact Hl|]. rewrite Hx. apply IH, Hl.
Qed.

Lemma forallb_middle {X : Type} (f : X -> bool) (A B : list X) x :
  forallb f (A ++ x :: B) = forallb f A && f x && forallb f B.
Proof. rewrite forallb_app. cbn. rewrite andb_assoc. reflexivity. Qed.

(** Storing an outline under the next version makes it the latest one. *)
Lemma latestOutlineJson_snoc pid d d1 row :
  outline_versions d1 = outline_versions d ++ [row] ->
  jv_project_id row = pid ->
  jv_version row = nextOutlineVersion pid d ->
  Views.latestOutlineJson pid d1 = Some (jv_json row).
Proof.
  intros Hrows Hpid Hver. unfold Views.latestOutlineJson.
  rewrite Hrows, List.filter_app. cbn [List.filter].
  rewrite Hpid, String.eqb_refl.
  destruct (List.filter _ (outline_versions d)) as [|r rows] eqn:Hold;
    [reflexivity|].
  cbn [app]. rewrite latestJsonOf_snoc.
  assert (Habove : jv_version (latestJsonOf r rows) < jv_version row).
  { rewrite Hver. unfold nextOutlineVersion. rewrite Hold. cbn [fmap list_fmap].
    rewrite jv_version_latestJsonOf.
    destruct (Z.eqb_spec (maxOf (jv_version r) (jv_version <$> rows)) 0); lia. }
  destruct (Z.ltb_spec (jv_version (latestJsonOf r rows)) (jv_version row));
    [reflexivity | lia].
Qed.

(** The row of the slide that is deleted is the only one with its id. *)
Lemma filter_slide_row sid pid (l : list slide_row) r :
  NoDup (s_id <$> l) -> r ∈ l -> s_id r = sid -> s_project_id r = pid ->
  List.filter (fun s => negb (String.eqb (s_id s) sid
                                && String.eqb (s_project_id s) pid)) l
  = List.filter (fun s => negb (String.eqb (s_id s) sid)) l.
Proof.
  intros Hnd Hr Hsid Hpid. apply List.filter_ext_in. intros x Hx.
  destruct (String.eqb_spec (s_id x) sid) as [Heq|]; [|reflexivity].
  apply list_elem_of_In in Hx.
  assert (x = r); [|subst x; rewrite Hpid, String.eqb_refl; reflexivity].
  apply (fmap_NoDup_inj s_id l x r Hnd Hx Hr). congruence.
Qed.

Section Transaction.
Variable stringifyOutline : list outline_section -> string.
Variable pid sid newId now : string.

Lemma deleteTransaction_result next removed i j d :
  pid ∈ p_id <$> projects d ->
  newId ∉ jv_id <$> outline_versions d ->
  transaction (deleteTransaction stringifyOutline pid sid newId now next removed i j) d
  = (Return tt,
     {| projects := projects d;
        outline_versions :=
          outline_versions d
            ++ [{| jv_id := newId; jv_project_id := pid;
                   jv_version := nextOutlineVersion pid d;
                   jv_json := stringifyOutline next; jv_created_at := now |}];
        theme_versions := theme_versions d;
        slides :=
          shiftedRow pid removed i j
            <$> List.filter (fun s => negb (String.eqb (s_id s) sid
                                            && String.eqb (s_project_id s) pid))
                            (slides d);
        slide_image_versions :=
          List.filter (fun r => negb (String.eqb (slide_id r) sid))
                      (slide_image_versions d) |}).
Proof.
  intros Hproj Hfresh.
  unfold transaction, deleteTransaction, mbind, sql_bind, deleteImageVersionsOf,
    sql_exec, sql_get, deleteSlideRow.
  cbn [slides slide_image_versions with_image_versions].
  assert (Hfk : existsb
                  (fun s => String.eqb (s_id s) sid
                            && String.eqb (s_project_id s) pid
                            && existsb (fun r => String.eqb (slide_id r) (s_id s))
                                 (List.filter
                                    (fun r => negb (String.eqb (slide_id r) sid))
                                    (slide_image_versions d)))
                  (slides d) = false).
  { destruct (existsb _ (slides d)) eqn:Hex; [|reflexivity]. exfalso.
    apply existsb_exists in Hex as (s & _ & Hb).
    apply andb_prop in Hb as [Hb Hv]. apply andb_prop in Hb as [Hs _].
    apply String.eqb_eq in Hs.
    apply existsb_exists in Hv as (r & Hr & Heq).
    apply List.filter_In in Hr as [_ Hne].
    apply String.eqb_eq in Heq. apply negb_true_iff, String.eqb_neq in Hne.
    congruence. }
  rewrite Hfk. unfold insertOutlineVersion. cbn [jv_id jv_project_id].
  assert (Hpk : existsb (fun r => String.eqb (jv_id r) newId) (outline_versions d)
                = false) by (apply existsb_eqb_not_elem; exact Hfresh).
  assert (Hpr : existsb (fun p => String.eqb (p_id p) pid) (projects d) = true)
    by (apply existsb_eqb_elem; exact Hproj).
  destruct removed; unfold shiftSections, shiftSlides;
    cbn [with_slides outline_versions projects with_image_versions];
    rewrite Hpk, Hpr; reflexivity.
Qed.

Lemma shiftedRow_project removed i j r :
  s_project_id (shiftedRow pid removed i j r) = s_project_id r.
Proof.
  destruct removed; unfold shiftedRow, sectionShiftedRow, slideShiftedRow;
    match goal with |- context [if ?c then _ else _] => destruct c end;
    reflexivity.
Qed.

Lemma shiftedRow_id removed i j r : s_id (shiftedRow pid removed i j r) = s_id r.
Proof.
  destruct removed; unfold shiftedRow, sectionShiftedRow, slideShiftedRow;
    match goal with |- context [if ?c then _ else _] => destruct c end;
    reflexivity.
Qed.

Lemma shiftedRow_text removed i j r :
  textOf (shiftedRow pid removed i j r) = textOf r.
Proof.
  destruct removed; unfold shiftedRow, sectionShiftedRow, slideShiftedRow;
    match goal with |- context [if ?c then _ else _] => destruct c end;
    reflexivity.
Qed.

Lemma shiftedRow_other removed i j r :
  s_project_id r <> pid -> shiftedRow pid removed i j r = r.
Proof.
  intros Hne. apply String.eqb_neq in Hne.
  destruct removed; unfold shiftedRow, sectionShiftedRow, slideShiftedRow;
    rewrite Hne; reflexivity.
Qed.

Lemma shiftedRow_position removed i j r :
  s_project_id r = pid ->
  positionOf (shiftedRow pid removed i j r)
  = (if removed then sectionShifted i else slideShifted i j) (positionOf r).
Proof.
  intros Hp.
  destruct removed;
    unfold shiftedRow, sectionShiftedRow, slideShiftedRow, positionOf;
    rewrite Hp, String.eqb_refl;
    unfold sectionShifted, slideShifted; cbn [andb fst snd].
  - destruct (i <? section_index r); reflexivity.
  - destruct (section_index r =? i), (j <? slide_index r); reflexivity.
Qed.

Lemma filter_fmap_project (f : slide_row -> slide_row) (l : list slide_row) :
  (forall r, s_project_id (f r) = s_project_id r) ->
  List.filter (fun r => String.eqb (s_project_id r) pid) (f <$> l)
  = f <$> List.filter (fun r => String.eqb (s_project_id r) pid) l.
Proof.
  intros Hf. induction l as [|x l IH]; [reflexivity|].
  cbn [fmap list_fmap List.filter]. rewrite Hf.
  destruct (String.eqb _ _); cbn [fmap list_fmap]; rewrite <- IH; reflexivity.
Qed.

Lemma filter_swap {X : Type} (f g : X -> bool) (l : list X) :
  List.filter f (List.filter g l) = List.filter g (List.filter f l).
Proof.
  induction l as [|x l IH]; [reflexivity|]. cbn [List.filter].
  destruct (f x) eqn:Hf, (g x) eqn:Hg; cbn [List.filter];
    rewrite ?Hf, ?Hg, IH; reflexivity.
Qed.

Lemma other_projects_untouched removed i j (l : list slide_row) :
  (forall r, r ∈ l -> s_id r = sid -> s_project_id r = pid) ->
  List.filter (fun r => negb (String.eqb (s_project_id r) pid))
    (shiftedRow pid removed i j
       <$> List.filter (fun r => negb (String.eqb (s_id r) sid)) l)
  = List.filter (fun r => negb (String.eqb (s_project_id r) pid)) l.
Proof.
  induction l as [|r l IH]; intros Hkey; [reflexivity|].
  assert (Hl : forall x, x ∈ l -> s_id x = sid -> s_project_id x = pid).
  { intros x Hx. apply Hkey. right. exact Hx. }
  cbn [List.filter].
  destruct (String.eqb_spec (s_id r) sid) as [Hr|Hr]; cbn [negb].
  - rewrite (Hkey r (list_elem_of_here _ _) Hr), String.eqb_refl. cbn [negb].
    apply IH, Hl.
  - cbn [fmap list_fmap List.filter]. rewrite shiftedRow_project.
    destruct (String.eqb_spec (s_project_id r) pid) as [Hp|Hp]; cbn [negb].
    + apply IH, Hl.
    + rewrite (shiftedRow_other _ _ _ _ Hp). f_equal. apply IH, Hl.
Qed.

End Transaction.

End DeleteFacts.

Section OutlineRowsFacts.
Import Store Pipeline OutlineEdit.

Lemma positionsFrom_NoDup sections : forall k, NoDup (positionsFrom k sections).
Proof.
  induction sections as [|sec l IH]; intros k; cbn [positionsFrom];
    [constructor|].
  apply NoDup_app. split; [|split; [|apply IH]].
  - apply NoDup_fmap_2; [|apply NoDup_seqZ]. intros x y H. congruence.
  - intros p Hp Hq. apply list_elem_of_fmap in Hp as (j & -> & _).
    apply positionsFrom_range in Hq. cbn in Hq. lia.
Qed.

(** A slide at a position that the outline has lies in [positionsFrom]. *)
Lemma positionsFrom_elem_2 sections sec (a b : Z) :
  itemAt sections a = Some sec ->
  is_Some (itemAt (sec_slides sec) b) ->
  (a, b) ∈ positionsFrom 0 sections.
Proof.
  unfold itemAt. destruct (Z.ltb_spec a 0); [discriminate|].
  destruct (Z.ltb_spec b 0); [intros _ [? ?]; discriminate|].
  intros Hsec Hb. apply lookup_lt_is_Some in Hb.
  destruct (list_elem_of_split_length _ _ _ Hsec) as (A & B & -> & Hlen).
  rewrite positionsFrom_app. cbn [positionsFrom].
  apply elem_of_app. right. apply elem_of_app. left.
  apply list_elem_of_fmap. exists b. split; [f_equal; lia|].
  apply elem_of_seqZ. lia.
Qed.

Section Rows.
Variable pid : string.
Variable newSlideId : Z -> string.
Variable now : string.

Lemma sectionRows_positions rows : forall sec idx deck,
  positionOf <$> sectionRows pid newSlideId now sec idx rows deck
  = pair sec <$> seqZ idx (Z.of_nat (length rows)).
Proof.
  induction rows as [|r rows IH]; intros sec idx deck; [reflexivity|].
  cbn [sectionRows length]. rewrite fmap_cons, IH, (seqZ_cons idx) by lia.
  rewrite fmap_cons. unfold positionOf at 1. cbn [section_index slide_index].
  do 3 f_equal; lia.
Qed.

Lemma outlineRowsFrom_positions sections : forall sec deck,
  positionOf <$> outlineRowsFrom pid newSlideId now sec sections deck
  = positionsFrom sec sections.
Proof.
  induction sections as [|section l IH]; intros sec deck; [reflexivity|].
  cbn [outlineRowsFrom positionsFrom].
  rewrite fmap_app, sectionRows_positions, IH. reflexivity.
Qed.

Lemma sectionRows_texts rows : forall sec idx deck,
  (fun r => (title r, summary r))
    <$> sectionRows pid newSlideId now sec idx rows deck
  = (fun s => (os_title s, os_summary s)) <$> rows.
Proof.
  induction rows as [|r rows IH]; intros sec idx deck; [reflexivity|].
  cbn [sectionRows]. rewrite !fmap_cons, IH. reflexivity.
Qed.

Lemma outlineRowsFrom_texts sections : forall sec deck,
  (fun r => (title r, summary r))
    <$> outlineRowsFrom pid newSlideId now sec sections deck
  = (fun s => (os_title s, os_summary s)) <$> (sections ≫= sec_slides).
Proof.
  induction sections as [|section l IH]; intros sec deck; [reflexivity|].
  cbn [outlineRowsFrom]. rewrite bind_cons, !fmap_app, sectionRows_texts, IH.
  reflexivity.
Qed.

Lemma outlineRowsFrom_ids sections : forall sec deck,
  s_id <$> outlineRowsFrom pid newSlideId now sec sections deck
  = newSlideId <$> seqZ deck (slideCount sections).
Proof.
  unfold slideCount.
  induction sections as [|section l IH]; intros sec deck; [reflexivity|].
  cbn [outlineRowsFrom]. rewrite bind_cons, fmap_app, sectionRows_ids, IH.
  rewrite length_app, Nat2Z.inj_add, seqZ_app by lia.
  rewrite fmap_app. reflexivity.
Qed.

(** The rows that storing an outline inserts are the deck, in its order. *)
Lemma outlineRows_deck sections (others : list slide_row) :
  Forall (fun r => s_project_id r <> pid) others ->
  merge_sort deckOrder
    (List.filter (fun r => String.eqb (s_project_id r) pid)
       (others ++ outlineRows pid newSlideId now sections))
  = outlineRows pid newSlideId now sections.
Proof.
  intros Hothers. rewrite List.filter_app.
  assert (Hnone : List.filter (fun r => String.eqb (s_project_id r) pid) others
                  = []).
  { induction Hothers as [|r l Hr _ IH]; [reflexivity|]. cbn [List.filter].
    apply String.eqb_neq in Hr. rewrite Hr. exact IH. }
  assert (Hall : List.filter (fun r => String.eqb (s_project_id r) pid)
                   (outlineRows pid newSlideId now sections)
                 = outlineRows pid newSlideId now sections).
  { rewrite (List.filter_ext_in _ (fun _ => true));
      [apply filter_all_true|].
    intros r Hr. apply list_elem_of_In in Hr.
    pose proof (outlineRowsFrom_pending pid newSlideId now sections 0 0) as Hp.
    rewrite Forall_forall in Hp. destruct (Hp r Hr) as (_ & -> & _).
    apply String.eqb_refl. }
  rewrite Hnone, Hall. cbn [app].
  apply (StronglySorted_unique_strong deckOrder).
  - intros x y Hx Hy Hxy Hyx. rewrite merge_sort_Permutation in Hx.
    apply (fmap_NoDup_inj positionOf (outlineRows pid newSlideId now sections));
      [|exact Hx | exact Hy|].
    + unfold outlineRows. rewrite outlineRowsFrom_positions.
      apply positionsFrom_NoDup.
    + unfold deckOrder in Hxy, Hyx. unfold positionOf. f_equal; lia.
  - apply StronglySorted_merge_sort; apply _.
  - assert (Hsorted : StronglySorted positionOrder
                        (positionOf <$> outlineRows pid newSlideId now sections)).
    { unfold outlineRows. rewrite outlineRowsFrom_positions.
      apply positionsFrom_sorted. }
    revert Hsorted. generalize (outlineRows pid newSlideId now sections).
    induction l as [|x l IH]; intros Hs; [constructor|].
    rewrite fmap_cons in Hs. apply StronglySorted_inv in Hs as [Hl Hx].
    constructor; [apply IH, Hl|].
    rewrite Forall_fmap in Hx. exact Hx.
  - apply merge_sort_Permutation.
Qed.

End Rows.

End OutlineRowsFacts.

Section CommitFacts.
Import Store Pipeline OutlineEdit.

(** What [commitOutline] leaves when its inserts go through. *)
Lemma commitOutline_result pid newSlideId now sections outlineJson newOutlineId d :
  pid ∈ p_id <$> projects d ->
  newOutlineId ∉ jv_id <$> outline_versions d ->
  (forall k, 0 <= k < slideCount sections -> newSlideId k ∉ s_id <$> slides d) ->
  (forall j k, 0 <= j < slideCount sections -> 0 <= k < slideCount sections ->
               newSlideId j = newSlideId k -> j = k) ->
  commitOutline pid newSlideId now sections outlineJson newOutlineId d
  = (Return (slideCount sections),
     {| projects := projects d;
        outline_versions :=
          outline_versions d
            ++ [{| jv_id := newOutlineId; jv_project_id := pid;
                   jv_version := nextOutlineVersion pid d;
                   jv_json := outlineJson; jv_created_at := now |}];
        theme_versions := theme_versions d;
        slides :=
          List.filter (fun s => negb (String.eqb (s_project_id s) pid)) (slides d)
            ++ outlineRows pid newSlideId now sections;
        slide_image_versions :=
          List.filter
            (fun r => negb (existsb (String.eqb (slide_id r)) (slideIdsOf pid d)))
            (slide_image_versions d) |}).
Proof.
  intros Hproj Hout Hfresh Hinj.
  unfold commitOutline, mbind, sql_bind, sql_get.
  rewrite clearSlides_result. unfold insertOutlineVersion.
  cbn [jv_id jv_project_id outline_versions projects with_slides
       with_image_versions].
  assert (Hpk : existsb (fun r => String.eqb (jv_id r) newOutlineId)
                        (outline_versions d) = false)
    by (apply existsb_eqb_not_elem; exact Hout).
  assert (Hpr : existsb (fun p => String.eqb (p_id p) pid) (projects d) = true)
    by (apply existsb_eqb_elem; exact Hproj).
  rewrite Hpk, Hpr. cbn [negb].
  rewrite insertSections_result.
  - reflexivity.
  - exact Hproj.
  - intros k Hk Hin. apply (Hfresh k); [lia|].
    cbn [slides with_outline_versions with_slides] in Hin.
    apply list_elem_of_fmap in Hin as (s & -> & Hs).
    apply elem_of_filter_bool in Hs as [Hs _].
    apply list_elem_of_fmap. exists s. split; [reflexivity | exact Hs].
  - intros j k Hj Hk. apply Hinj; lia.
Qed.

End CommitFacts.

(** X14. On a project whose deck stands at the positions of its latest
    outline, deleting one of at least two slides through the route succeeds:
    the slide row and its image versions are gone, every other row keeps its
    id, project, text and state, the rows of other projects are untouched,
    and a new outline version is stored that the schema accepts, has one
    slide less, is the latest one, and at whose positions the remaining deck
    stands again. *)
Theorem deleteSlide_keeps_deck_aligned :
  forall (parseOutline : string -> option (list Pipeline.outline_section))
         (stringifyOutline : list Pipeline.outline_section -> string)
         (zodError : list Pipeline.outline_section -> thrown)
         (pid sid newId now : string) (d : Store.db)
         (slide : Store.slide_row) (outline : list Pipeline.outline_section),
    NoDup (Store.s_id <$> Store.slides d) ->
    Store.selectSlide sid pid d = Some slide ->
    (1 < length (Store.slidesOfProject pid d))%nat ->
    Views.getLatestOutline parseOutline pid d = Some outline ->
    OutlineEdit.outlineValid outline = true ->
    OutlineEdit.aligned pid outline d ->
    pid ∈ Store.p_id <$> Store.projects d ->
    newId ∉ Store.jv_id <$> Store.outline_versions d ->
    let next := OutlineEdit.nextOutline outline (Store.section_index slide)
                  (Store.slide_index slide) in
    stringifyOutline next <> "" ->
    parseOutline (stringifyOutline next) = Some next ->
    exists d',
      OutlineEdit.deleteSlide parseOutline stringifyOutline zodError pid sid
        newId now d
      = (Return tt, d')
      /\ OutlineEdit.outlineValid next = true
      /\ Pipeline.slideCount next = Pipeline.slideCount outline - 1
      /\ Views.getLatestOutline parseOutline pid d' = Some next
      /\ OutlineEdit.aligned pid next d'
      /\ (fun r => (Store.s_id r, Store.s_project_id r, OutlineEdit.textOf r))
           <$> Store.slides d'
         = (fun r => (Store.s_id r, Store.s_project_id r, OutlineEdit.textOf r))
             <$> List.filter (fun r => negb (String.eqb (Store.s_id r) sid))
                             (Store.slides d)
      /\ List.filter (fun r => negb (String.eqb (Store.s_project_id r) pid))
                     (Store.slides d')
         = List.filter (fun r => negb (String.eqb (Store.s_project_id r) pid))
                       (Store.slides d)
      /\ Store.slide_image_versions d'
         = List.filter (fun r => negb (String.eqb (Store.slide_id r) sid))
                       (Store.slide_image_versions d)
      /\ Store.theme_versions d' = Store.theme_versions d
      /\ Store.projects d' = Store.projects d.
Proof.
  intros parse stringify zodError pid sid newId now d slide outline
         Hnd Hsel Hcount Houtline Hvalid Haligned Hproj Hfresh next
         Hnonempty Hparse.
  destruct (selectSlide_Some _ _ _ _ Hsel) as (Hin & Hsid & Hpid).
  set (rows := List.filter (fun r => String.eqb (Store.s_project_id r) pid)
                           (Store.slides d)).
  assert (Hrow : slide ∈ rows).
  { apply elem_of_filter_bool. split; [exact Hin|]. apply String.eqb_eq, Hpid. }
  assert (Hperm : OutlineEdit.positionOf <$> rows
                  ≡ₚ OutlineEdit.positionsFrom 0 outline)
    by (apply aligned_perm; exact Haligned).
  assert (Hlen : (1 < length rows)%nat).
  { unfold Store.slidesOfProject in Hcount.
    rewrite merge_sort_Permutation in Hcount. exact Hcount. }
  assert (Hpos : OutlineEdit.positionOf slide
                 ∈ OutlineEdit.positionsFrom 0 outline).
  { rewrite <- Hperm. apply list_elem_of_fmap_2. exact Hrow. }
  apply positionsFrom_elem in Hpos as (section & Hsec & Hi0 & Hj0).
  rewrite Z.sub_0_r in Hsec.
  destruct (list_elem_of_split_length _ _ _ Hsec) as (A & B & Hsplit & HlenA).
  set (j := Z.to_nat (Store.slide_index slide)).
  assert (Hj : (j < length (Pipeline.sec_slides section))%nat) by (unfold j; lia).
  assert (Hsi : Store.section_index slide = Z.of_nat (length A)) by lia.
  assert (Hji : Store.slide_index slide = Z.of_nat j) by (unfold j; lia).
  destruct (spliced_positions A section B j Hj) as (rest & Hrest & Hnext).
  cbn zeta in Hrest, Hnext. rewrite <- Hsplit, <- Hsi, <- Hji in Hrest, Hnext.
  destruct (OutlineEdit.spliced outline section (Store.section_index slide)
              (Store.slide_index slide)) as [next' removed] eqn:Hspl.
  cbn [fst snd] in Hnext.
  assert (Hnx : next = next').
  { unfold next, OutlineEdit.nextOutline, OutlineEdit.itemAt.
    destruct (Z.ltb_spec (Store.section_index slide) 0); [lia|].
    rewrite Hsec, Hspl. reflexivity. }
  clearbody next. subst next'.
  set (others := List.filter (fun r => negb (String.eqb (Store.s_id r) sid)) rows).
  assert (Hothers : OutlineEdit.positionOf <$> others ≡ₚ rest).
  { apply (Permutation_cons_inv (a := OutlineEdit.positionOf slide)).
    unfold OutlineEdit.positionOf at 2. rewrite <- Hrest, <- Hperm.
    rewrite <- fmap_cons. apply fmap_Permutation. unfold others.
    rewrite <- Hsid. symmetry.
    apply unique_row_perm; [apply NoDup_project_rows, Hnd | exact Hrow]. }
  assert (Hcnt : Pipeline.slideCount next = Pipeline.slideCount outline - 1).
  { rewrite <- (positionsFrom_length next 0), <- Hnext, length_fmap.
    rewrite <- (positionsFrom_length outline 0), Hrest. cbn [length]. lia. }
  assert (Hmany : 1 < Pipeline.slideCount outline).
  { rewrite <- (positionsFrom_length outline 0), <- Hperm, length_fmap. lia. }
  assert (Hne : length next <> 0%nat).
  { destruct next; [|discriminate]. unfold Pipeline.slideCount in Hcnt, Hmany.
    cbn in Hcnt. lia. }
  assert (Hvalid' : OutlineEdit.outlineValid next = true).
  { unfold OutlineEdit.spliced in Hspl. rewrite HlenA in Hspl. subst outline.
    unfold OutlineEdit.outlineValid in *.
    apply andb_prop in Hvalid as [_ Hall]. rewrite forallb_middle in Hall.
    apply andb_prop in Hall as [Hall HB]. apply andb_prop in Hall as [HA Hs].
    apply andb_true_intro. split.
    { destruct next; [contradiction | reflexivity]. }
    destruct (Nat.eqb_spec
                (length (delete (Z.to_nat (Store.slide_index slide))
                           (Pipeline.sec_slides section))) 0) as [Hz|Hz];
      injection Hspl as <- _.
    - rewrite delete_middle, forallb_app, HA, HB. reflexivity.
    - rewrite insert_middle, forallb_middle, HA, HB.
      rewrite andb_true_r, andb_true_l.
      unfold OutlineEdit.sectionValid in *.
      cbn [Pipeline.sec_title Pipeline.sec_slides].
      apply andb_prop in Hs as [Hs Hsl]. apply andb_prop in Hs as [Ht _].
      rewrite Ht, (forallb_delete _ _ _ Hsl), andb_true_r, andb_true_l.
      apply Nat.leb_le. lia. }
  eexists. split.
  { unfold OutlineEdit.deleteSlide. rewrite Hsel. fold rows.
    destruct (Z.leb_spec (Z.of_nat (length rows)) 1); [lia|].
    rewrite Houtline, Hvalid. cbn [negb]. unfold OutlineEdit.itemAt.
    destruct (Z.ltb_spec (Store.section_index slide) 0); [lia|]. rewrite Hsec.
    destruct (Z.ltb_spec (Store.slide_index slide) 0); [lia|].
    destruct (Pipeline.sec_slides section !! Z.to_nat (Store.slide_index slide))
      eqn:Hx; [|apply lookup_ge_None in Hx; lia].
    rewrite Hspl. destruct (Nat.eqb_spec (length next) 0); [contradiction|].
    rewrite Hvalid'. cbn [negb].
    apply deleteTransaction_result; assumption. }
  cbn [Store.slides Store.slide_image_versions Store.theme_versions
       Store.projects].
  split; [exact Hvalid'|]. split; [exact Hcnt|]. split.
  { unfold Views.getLatestOutline.
    erewrite (latestOutlineJson_snoc pid d); [|reflexivity..].
    cbn [Store.jv_json Views.safeParseJson].
    apply String.eqb_neq in Hnonempty. rewrite Hnonempty. exact Hparse. }
  split.
  { apply aligned_perm. cbn [Store.slides].
    rewrite filter_fmap_project by (intros; apply shiftedRow_project).
    rewrite (filter_slide_row sid pid _ slide Hnd Hin Hsid Hpid), filter_swap.
    fold rows. fold others. rewrite <- Hnext, <- Hothers.
    rewrite <- !list_fmap_compose.
    erewrite Forall_fmap_ext_1; [reflexivity|].
    apply Forall_forall. intros r Hr. cbn [compose].
    apply shiftedRow_position.
    apply elem_of_filter_bool in Hr as [Hr _].
    apply elem_of_filter_bool in Hr as [_ Hr]. apply String.eqb_eq, Hr. }
  split.
  { rewrite (filter_slide_row sid pid _ slide Hnd Hin Hsid Hpid).
    rewrite <- list_fmap_compose. apply Forall_fmap_ext_1, Forall_forall.
    intros r _. cbn [compose].
    rewrite shiftedRow_id, shiftedRow_project, shiftedRow_text. reflexivity. }
  split; [|auto].
  rewrite (filter_slide_row sid pid _ slide Hnd Hin Hsid Hpid).
  apply other_projects_untouched. intros r Hr Heq.
  assert (r = slide) as -> by (apply (fmap_NoDup_inj Store.s_id _ r slide Hnd Hr Hin);
                               congruence).
  exact Hpid.
Qed.

(** Deleting the first slide of the sample project: the second slide takes
    its position. *)
Lemma deleteSlide_keeps_deck_aligned_witness :
  exists d',
    OutlineEdit.deleteSlide SampleMore.parseDeckOutline
      SampleMore.stringifyDeckOutline (fun _ => ErrorObj "invalid")
      "deck" "slide-a" "outline-2" "t6" SampleMore.databaseWithOutline
    = (Return tt, d')
    /\ Views.getLatestOutline SampleMore.parseDeckOutline "deck" d'
       = Some SampleMore.shorterOutline
    /\ OutlineEdit.aligned "deck" SampleMore.shorterOutline d'
    /\ Store.slide_image_versions d' = [].
Proof.
  destruct (deleteSlide_keeps_deck_aligned
              SampleMore.parseDeckOutline SampleMore.stringifyDeckOutline
              (fun _ => ErrorObj "invalid") "deck" "slide-a" "outline-2" "t6"
              SampleMore.databaseWithOutline Sample.slideA
              SampleMore.deckOutline)
    as (d' & Hrun & _ & _ & Hlatest & Haligned & _ & _ & Hvs & _).
  - refine (bool_decide_unpack _ _). vm_compute. exact I.
  - reflexivity.
  - vm_compute. lia.
  - reflexivity.
  - reflexivity.
  - reflexivity.
  - cbn. left.
  - intros Hin. apply list_elem_of_In in Hin. vm_compute in Hin.
    destruct Hin as [H|[]]; discriminate H.
  - vm_compute. discriminate.
  - reflexivity.
  - exists d'. split; [exact Hrun|]. split; [exact Hlatest|].
    split; [exact Haligned | exact Hvs].
Defined.

(** X15. Storing an outline (the callback of the Outline stage, which is
    also that of the route that saves an edited outline) makes the deck of
    the project the slides of the outline in the outline's order: the
    [k]-th slide of the deck is the [k]-th row inserted, with the title and
    summary of the [k]-th slide of the outline, it stands at that slide's
    section and slide index, and the stored outline is the latest one. *)
Theorem commitOutline_aligns_deck :
  forall (parseOutline : string -> option (list Pipeline.outline_section))
         (pid : string) (newSlideId : Z -> string) (now : string)
         (sections : list Pipeline.outline_section)
         (outlineJson newOutlineId : string) (d : Store.db),
    pid ∈ Store.p_id <$> Store.projects d ->
    newOutlineId ∉ Store.jv_id <$> Store.outline_versions d ->
    (forall k, 0 <= k < Pipeline.slideCount sections ->
               newSlideId k ∉ Store.s_id <$> Store.slides d) ->
    (forall j k, 0 <= j < Pipeline.slideCount sections ->
                 0 <= k < Pipeline.slideCount sections ->
                 newSlideId j = newSlideId k -> j = k) ->
    outlineJson <> "" ->
    parseOutline outlineJson = Some sections ->
    exists d',
      Pipeline.commitOutline pid newSlideId now sections outlineJson newOutlineId d
      = (Return (Pipeline.slideCount sections), d')
      /\ Store.slidesOfProject pid d'
         = Pipeline.outlineRows pid newSlideId now sections
      /\ Store.s_id <$> Store.slidesOfProject pid d'
         = newSlideId <$> seqZ 0 (Pipeline.slideCount sections)
      /\ (fun r => (Store.title r, Store.summary r))
           <$> Store.slidesOfProject pid d'
         = (fun s => (Pipeline.os_title s, Pipeline.os_summary s))
             <$> (sections ≫= Pipeline.sec_slides)
      /\ OutlineEdit.aligned pid sections d'
      /\ Views.getLatestOutline parseOutline pid d' = Some sections.
Proof.
  intros parse pid newSlideId now sections json newOutlineId d
         Hproj Hout Hfresh Hinj Hnonempty Hparse.
  eexists. split.
  { apply commitOutline_result; assumption. }
  assert (Hdeck : Store.slidesOfProject pid
                    {| Store.projects := Store.projects d;
                       Store.outline_versions :=
                         Store.outline_versions d
                           ++ [{| Store.jv_id := newOutlineId;
                                  Store.jv_project_id := pid;
                                  Store.jv_version := Store.nextOutlineVersion pid d;
                                  Store.jv_json := json;
                                  Store.jv_created_at := now |}];
                       Store.theme_versions := Store.theme_versions d;
                       Store.slides :=
                         List.filter
                           (fun s => negb (String.eqb (Store.s_project_id s) pid))
                           (Store.slides d)
                           ++ Pipeline.outlineRows pid newSlideId now sections;
                       Store.slide_image_versions :=
                         List.filter
                           (fun r => negb (existsb (String.eqb (Store.slide_id r))
                                             (Pipeline.slideIdsOf pid d)))
                           (Store.slide_image_versions d) |}
                  = Pipeline.outlineRows pid newSlideId now sections).
  { unfold Store.slidesOfProject. cbn [Store.slides].
    apply outlineRows_deck. apply Forall_forall. intros r Hr.
    apply elem_of_filter_bool in Hr as [_ Hr].
    apply negb_true_iff, String.eqb_neq in Hr. exact Hr. }
  split; [exact Hdeck|]. unfold OutlineEdit.aligned. rewrite Hdeck.
  unfold Pipeline.outlineRows.
  split; [apply outlineRowsFrom_ids|].
  split; [apply outlineRowsFrom_texts|].
  split; [apply outlineRowsFrom_positions|].
  unfold Views.getLatestOutline.
  erewrite (latestOutlineJson_snoc pid d); [|reflexivity..].
  cbn [Store.jv_json Views.safeParseJson].
  apply String.eqb_neq in Hnonempty. rewrite Hnonempty. exact Hparse.
Qed.

Lemma commitOutline_aligns_deck_witness :
  exists d',
    Pipeline.commitOutline "deck" Sample.freshSlideId "t2" SampleMore.deckOutline
      "{outline}" "outline-1" Sample.database
    = (Return 3, d')
    /\ Store.s_id <$> Store.slidesOfProject "deck" d' = ["new-0"; "new-1"; "new-2"]
    /\ OutlineEdit.positionOf <$> Store.slidesOfProject "deck" d'
       = [(0, 0); (0, 1); (1, 0)].
Proof.
  assert (Hrange : forall k, 0 <= k < Pipeline.slideCount SampleMore.deckOutline ->
                             k = 0 \/ k = 1 \/ k = 2).
  { intros k Hk. unfold Pipeline.slideCount in Hk. cbn in Hk. lia. }
  destruct (commitOutline_aligns_deck
              SampleMore.parseDeckOutline "deck" Sample.freshSlideId "t2"
              SampleMore.deckOutline "{outline}" "outline-1" Sample.database)
    as (d' & Hrun & _ & Hids & _ & Haligned & _).
  - cbn. left.
  - cbn. inversion 1.
  - intros k Hk Hin. apply list_elem_of_In in Hin.
    destruct (Hrange k Hk) as [->|[->| ->]]; vm_compute in Hin;
      repeat (destruct Hin as [Hin|Hin]; [discriminate Hin|]); exact Hin.
  - intros j k Hj Hk.
    destruct (Hrange j Hj) as [->|[->| ->]];
      destruct (Hrange k Hk) as [->|[->| ->]];
      intros H; vm_compute in H; first [reflexivity | discriminate H].
  - discriminate.
  - reflexivity.
  - exists d'. split; [exact Hrun|]. split; [exact Hids | exact Haligned].
Defined.

(** X16. The route that deletes a slide changes nothing when it refuses:
    whatever it throws, the database is as before, also when a statement of
    its transaction fails.  It refuses with "页面不存在。" when the project has
    no slide of that id, with "至少需要保留 1 页，无法删除最后一页。" when the slide
    is the only one of the project, with "大纲尚未生成" when no stored outline
    parses, and with "大纲与页面索引不一致，请刷新后重试。" when the outline has no
    slide at the position of the row. *)
Theorem deleteSlide_refuses_without_change :
  forall (parseOutline : string -> option (list Pipeline.outline_section))
         (stringifyOutline : list Pipeline.outline_section -> string)
         (zodError : list Pipeline.outline_section -> thrown)
         (pid sid newId now : string) (d : Store.db),
    let run := OutlineEdit.deleteSlide parseOutline stringifyOutline zodError
                 pid sid newId now d in
    let count := length (Store.slidesOfProject pid d) in
    (forall e d', run = (Throw e, d') -> d' = d)
    /\ (Store.selectSlide sid pid d = None ->
        run = (Throw OutlineEdit.noSlide, d))
    /\ (forall slide,
           Store.selectSlide sid pid d = Some slide ->
           ((count <= 1)%nat -> run = (Throw OutlineEdit.lastSlide, d))
           /\ ((1 < count)%nat ->
               Views.getLatestOutline parseOutline pid d = None ->
               run = (Throw OutlineEdit.noOutline, d))
           /\ (forall outline,
                  (1 < count)%nat ->
                  Views.getLatestOutline parseOutline pid d = Some outline ->
                  OutlineEdit.outlineValid outline = true ->
                  OutlineEdit.positionOf slide
                  ∉ OutlineEdit.positionsFrom 0 outline ->
                  run = (Throw OutlineEdit.indexMismatch, d))).
Proof.
  intros parse stringify zodError pid sid newId now d run count.
  assert (Hcount : count
                   = length (List.filter
                               (fun r => String.eqb (Store.s_project_id r) pid)
                               (Store.slides d))).
  { unfold count, Store.slidesOfProject. rewrite merge_sort_Permutation.
    reflexivity. }
  split; [|split].
  - intros e d'. unfold run, OutlineEdit.deleteSlide.
    repeat match goal with
           | |- context [match ?x with _ => _ end] =>
               lazymatch x with
               | OutlineEdit.transaction _ _ => fail
               | _ => destruct x
               end
           end;
      try (intros H; injection H as _ <-; reflexivity).
    unfold OutlineEdit.transaction.
    match goal with
    | |- context [match ?x with _ => _ end] => destruct x as [[?|?] ?]
    end; [discriminate|].
    intros H; injection H as _ <-; reflexivity.
  - intros Hnone. unfold run, OutlineEdit.deleteSlide. rewrite Hnone. reflexivity.
  - intros slide Hsel. unfold run, OutlineEdit.deleteSlide. rewrite Hsel.
    rewrite <- Hcount. split; [|split].
    + intros Hle. destruct (Z.leb_spec (Z.of_nat count) 1); [reflexivity | lia].
    + intros Hlt Hnone.
      destruct (Z.leb_spec (Z.of_nat count) 1); [lia|].
      rewrite Hnone. reflexivity.
    + intros outline Hlt Houtline Hvalid Hpos.
      destruct (Z.leb_spec (Z.of_nat count) 1); [lia|].
      rewrite Houtline, Hvalid. cbn [negb].
      destruct (OutlineEdit.itemAt outline (Store.section_index slide))
        as [section|] eqn:Hsec; [|reflexivity].
      destruct (OutlineEdit.itemAt (Pipeline.sec_slides section)
                  (Store.slide_index slide)) as [x|] eqn:Hx; [|reflexivity].
      exfalso. apply Hpos. unfold OutlineEdit.positionOf.
      apply (positionsFrom_elem_2 outline section); [exact Hsec|].
      rewrite Hx. eauto.
Qed.

(** X17. When the deck stands at the positions of an outline that the schema
    accepts, the Content stage finds the section of every slide: no task
    fails with "大纲结构与页面索引不一致，请先保存/重新生成大纲", every task waits
    for the content agent, and a task fails exactly when its call of the
    agent fails, with the error of that call. *)
Theorem aligned_deck_has_its_sections :
  forall (slide_content : Type)
         (contentCalls : nat -> completion slide_content)
         (pid : string) (sections : list Pipeline.outline_section)
         (d : Store.db),
    OutlineEdit.aligned pid sections d ->
    OutlineEdit.outlineValid sections = true ->
    let deck := Store.slidesOfProject pid d in
    (forall s, s ∈ deck ->
               exists section,
                 OutlineEdit.itemAt sections (Store.section_index s)
                 = Some section
                 /\ ContentStage.sectionTitleAt sections (Store.section_index s)
                    = Some (Pipeline.sec_title section))
    /\ ContentStage.awaited sections deck = seq 0 (length deck)
    /\ (forall i s,
           deck !! i = Some s ->
           ContentStage.taskFailure contentCalls sections s i
           = match contentCalls i with
             | Throw e => Some e
             | Return _ => None
             end).
Proof.
  intros slide_content calls pid sections d Haligned Hvalid deck.
  assert (Hsec : forall s, s ∈ deck ->
                   exists section,
                     OutlineEdit.itemAt sections (Store.section_index s)
                     = Some section
                     /\ ContentStage.sectionTitleAt sections (Store.section_index s)
                        = Some (Pipeline.sec_title section)).
  { intros s Hs.
    assert (Hpos : OutlineEdit.positionOf s ∈ OutlineEdit.positionsFrom 0 sections).
    { rewrite <- Haligned. apply list_elem_of_fmap_2. exact Hs. }
    apply positionsFrom_elem in Hpos as (section & Hl & Hi & _).
    rewrite Z.sub_0_r in Hl. exists section.
    unfold OutlineEdit.itemAt, ContentStage.sectionTitleAt.
    destruct (Z.ltb_spec (Store.section_index s) 0); [lia|].
    rewrite Hl. split; [reflexivity|].
    unfold OutlineEdit.outlineValid in Hvalid.
    apply andb_prop in Hvalid as [_ Hall].
    rewrite forallb_forall in Hall.
    apply list_elem_of_lookup_2, list_elem_of_In, Hall in Hl.
    unfold OutlineEdit.sectionValid in Hl.
    apply andb_prop in Hl as [Hl _]. apply andb_prop in Hl as [Hl _].
    apply negb_true_iff in Hl. rewrite Hl. reflexivity. }
  split; [exact Hsec|]. split.
  - unfold ContentStage.awaited.
    rewrite (List.filter_ext_in _ (fun _ => true)); [apply filter_all_true|].
    intros i Hi. apply List.in_seq in Hi.
    unfold ContentStage.hasSection.
    destruct (deck !! i) as [s|] eqn:Hs; [|apply lookup_ge_None in Hs; lia].
    destruct (Hsec s (list_elem_of_lookup_2 _ _ _ Hs)) as (section & _ & ->).
    reflexivity.
  - intros i s Hs. unfold ContentStage.taskFailure.
    destruct (Hsec s (list_elem_of_lookup_2 _ _ _ Hs)) as (section & _ & ->).
    reflexivity.
Qed.

Lemma aligned_deck_has_its_sections_witness :
  ContentStage.awaited SampleMore.deckOutline
    (Store.slidesOfProject "deck" Sample.database)
  = [0; 1; 2]%nat.
Proof.
  exact (proj1 (proj2 (aligned_deck_has_its_sections
                         string SampleMore.contentAgent "deck"
                         SampleMore.deckOutline Sample.database
                         eq_refl eq_refl))).
Defined.

(** X18. The image file of a version is told apart by the deck position of
    its slide, its version number and its extension.  The path that
    [generateImageToProject] returns and that the services store is
    [images/slide-<pad4(deckIndex + 1)>/v<version>.<ext>]; under a project
    root that is a rooted path of proper names the file written is that path
    below the root, whether the three joins are nested or done at once; and
    two such paths are equal only for the same deck position, version and
    extension. *)
Theorem image_files_are_told_apart :
  forall (segs : list string) (deckIndex version deckIndex' version' : Z)
         (ext ext' : string),
    Forall Paths.properName segs -> segs <> [] ->
    Paths.noSlash ext = true -> Paths.noSlash ext' = true ->
    let root := "/" +:+ Paths.join segs in
    ImageFiles.imageRelPath deckIndex version ext
    = "images/" +:+ PathNames.slideDirName deckIndex +:+ "/"
        +:+ PathNames.versionFileName version ext
    /\ ImageFiles.imageAbsPath root deckIndex version ext
       = root +:+ "/" +:+ ImageFiles.imageRelPath deckIndex version ext
    /\ ImageFiles.imageAbsPath root deckIndex version ext
       = PathNames.join [root; "images"; PathNames.slideDirName deckIndex;
                         PathNames.versionFileName version ext]
    /\ (ImageFiles.imageRelPath deckIndex version ext
        = ImageFiles.imageRelPath deckIndex' version' ext' ->
        deckIndex = deckIndex' /\ version = version' /\ ext = ext')
    /\ (ImageFiles.imageAbsPath root deckIndex version ext
        = ImageFiles.imageAbsPath root deckIndex' version' ext' ->
        deckIndex = deckIndex' /\ version = version' /\ ext = ext').
Proof.
  intros segs d v d' v' ext ext' Hsegs Hne Hext Hext' root.
  assert (Himages : Paths.properName "images")
    by (split; [reflexivity|]; repeat split; discriminate).
  assert (Hnames : forall d v ext,
             Paths.noSlash ext = true ->
             Forall Paths.properName
               ["images"; PathNames.slideDirName d;
                PathNames.versionFileName v ext]).
  { intros d0 v0 e0 He.
    apply Forall_cons_2; [exact Himages|].
    apply Forall_cons_2; [apply slideDirName_proper|].
    apply Forall_cons_2; [apply versionFileName_proper, He | constructor]. }
  assert (Hrel : forall d v ext,
             Paths.noSlash ext = true ->
             ImageFiles.imageRelPath d v ext
             = "images/" +:+ PathNames.slideDirName d +:+ "/"
                 +:+ PathNames.versionFileName v ext).
  { intros d0 v0 e0 He. unfold ImageFiles.imageRelPath.
    rewrite (posix_join_proper _ (Hnames d0 v0 e0 He)) by discriminate.
    reflexivity. }
  assert (Hflat : forall d v ext,
             Paths.noSlash ext = true ->
             PathNames.join [root; "images"; PathNames.slideDirName d;
                             PathNames.versionFileName v ext]
             = root +:+ "/" +:+ ImageFiles.imageRelPath d v ext).
  { intros d0 v0 e0 He. unfold root.
    rewrite (posix_join_rooted segs _ Hsegs Hne (Hnames d0 v0 e0 He))
      by discriminate.
    rewrite (Hrel d0 v0 e0 He). reflexivity. }
  assert (Habs : forall d v ext,
             Paths.noSlash ext = true ->
             ImageFiles.imageAbsPath root d v ext
             = root +:+ "/" +:+ ImageFiles.imageRelPath d v ext).
  { intros d0 v0 e0 He. unfold ImageFiles.imageAbsPath, root. cbn zeta.
    pose proof (Hnames d0 v0 e0 He) as Hn.
    apply Forall_cons in Hn as [_ Hn]. apply Forall_cons in Hn as [Hdir Hn].
    apply Forall_cons in Hn as [Hfile _].
    rewrite (posix_join_rooted_name segs "images" Hsegs Hne Himages).
    rewrite (posix_join_rooted_name (segs ++ ["images"]));
      [|apply Forall_app; split; [exact Hsegs | apply Forall_singleton, Himages]
       |intros H; apply app_eq_nil in H as [_ H]; discriminate H
       |exact Hdir].
    rewrite (posix_join_rooted_name ((segs ++ ["images"]) ++ [_]));
      [|apply Forall_app; split;
          [apply Forall_app; split;
             [exact Hsegs | apply Forall_singleton, Himages]
          |apply Forall_singleton, Hdir]
       |intros H; apply app_eq_nil in H as [_ H]; discriminate H
       |exact Hfile].
    rewrite <- !app_assoc. cbn [app].
    rewrite (join_app segs _ Hne) by discriminate.
    rewrite (Hrel d0 v0 e0 He), append_assoc. reflexivity. }
  assert (Hinj : ImageFiles.imageRelPath d v ext
                 = ImageFiles.imageRelPath d' v' ext' ->
                 d = d' /\ v = v' /\ ext = ext').
  { rewrite (Hrel d v ext Hext), (Hrel d' v' ext' Hext'). intros H.
    apply append_cancel_l in H.
    change ("/" +:+ PathNames.versionFileName v ext)
      with (String "/" (PathNames.versionFileName v ext)) in H.
    change ("/" +:+ PathNames.versionFileName v' ext')
      with (String "/" (PathNames.versionFileName v' ext')) in H.
    apply cut_at in H as [Hdir Hfile].
    - apply slideDirName_inj in Hdir. apply versionFileName_inj in Hfile.
      tauto.
    - rewrite <- noSlash_allChars. apply slideDirName_proper.
    - rewrite <- noSlash_allChars. apply slideDirName_proper. }
  split; [apply Hrel, Hext|]. split; [apply Habs, Hext|].
  split; [rewrite Habs, Hflat by exact Hext; reflexivity|].
  split; [exact Hinj|].
  rewrite (Habs d v ext Hext), (Habs d' v' ext' Hext'). intros H.
  apply append_cancel_l, append_cancel_l in H. apply Hinj, H.
Qed.

Lemma image_files_are_told_apart_witness :
  ImageFiles.imageAbsPath Sample.root 0 3 "png"
  = "/home/u/deck/images/slide-0001/v3.png".
Proof.
  refine (proj1 (proj2 (image_files_are_told_apart
                          ["home"; "u"; "deck"] 0 3 0 3 "png" "png" _ _
                          eq_refl eq_refl))).
  - repeat constructor; try reflexivity; discriminate.
  - discriminate.
Defined.

(** * The deck index of a slide *)
Section DeckIndexFacts.
Import Store OutlineEdit.


End DeckIndexFacts.



(** * A regeneration that succeeds *)
Section LatestFacts.
Import Store.

Lemma latestOf_snoc rows r : forall best,
  latestOf best (rows ++ [r])
  = if version (latestOf best rows) <? version r then r else latestOf best rows.
Proof.
  induction rows as [|x rows IH]; intros best; cbn; [reflexivity|]. apply IH.
Qed.

(** The row appended under the next version is the latest one. *)
Lemma latestVersionRow_snoc sid d row :
  numbered sid d ->
  slide_id row = sid ->
  version row = Z.of_nat (length (versionsOf sid d)) + 1 ->
  latestVersionRow sid (with_image_versions d (slide_image_versions d ++ [row]))
  = Some row.
Proof.
  intros Hnum Hsid Hver. unfold latestVersionRow.
  rewrite versionsOf_snoc, Hsid, String.eqb_refl.
  pose proof (maxVersion_numbered sid d Hnum) as Hmax.
  unfold maxVersion in Hmax.
  destruct (versionsOf sid d) as [|r rows]; [reflexivity|].
  cbn [app fmap list_fmap default] in *. rewrite latestOf_snoc, version_latestOf.
  unfold id in Hmax. rewrite Hmax, Hver.
  destruct (Z.ltb_spec (Z.of_nat (length (r :: rows)))
              (Z.of_nat (length (r :: rows)) + 1)); [reflexivity | lia].
Qed.

End LatestFacts.

(** X20. For a slide whose versions are [1..M], a regeneration whose first
    callback reads [resolved], that finds the prompt [p] and whose image
    call returns after writing [data] appends exactly one row: version
    [M+1], the prompt [p], the path
    [images/slide-<deck index + 1>/v<M+1>.<ext>], the provider
    "vectorengine" and the request and response of the call; the file of
    that version holds [data]; the slide ends [ready] without message and
    with its content; the numbering of its versions goes on; and no other
    slide is touched.  With the cache off or an image from the cache no
    other file changes.  With an image from the service stored in the cache,
    [cache/image/<key>.<ext>] holds [data] too, [cache/image/<key>.json]
    holds the cache entry, its temporary file is gone, and no further file
    changes. *)
Theorem regenerate_appends_generated_version :
  forall (trim : string -> string)
         (promptFromContent :
            option string -> string -> option string -> completion (option string))
         (root : string) (input : SlideService.regenerate_input)
         (resolved : SlideService.regenerate_resolved)
         (call : ImageClient.image_call)
         (ext : string) (data : ImageClient.bytes)
         (request response createdAt newId now p : string)
         (k : SlideService.disk) (M : nat),
    let sid := SlideService.rg_slideId input in
    let pid := SlideService.rg_projectId input in
    let row :=
      {| Store.iv_id := newId; Store.slide_id := sid;
         Store.version := Z.of_nat M + 1; Store.prompt_text := p;
         Store.image_path :=
           ImageFiles.imageRelPath (SlideService.rg_deckIndex resolved)
             (Z.of_nat M + 1) ext;
         Store.provider := Some "vectorengine";
         Store.request_json := Some request;
         Store.response_json := Some response;
         Store.created_at := createdAt |} in
    let versionFile :=
      PathNames.join
        [root; "images";
         PathNames.slideDirName (SlideService.rg_deckIndex resolved);
         PathNames.versionFileName (Z.of_nat M + 1) ext] in
    SlideService.regenerate_read input (SlideService.dbase k)
    = (Return resolved, SlideService.dbase k) ->
    Store.version <$> Store.versionsOf sid (SlideService.dbase k)
    = seqZ 1 (Z.of_nat M) ->
    SlideService.regenerate_prompt trim promptFromContent input resolved
    = Return p ->
    newId ∉ Store.iv_id <$> Store.slide_image_versions (SlideService.dbase k) ->
    (call = ImageClient.CallWrote ext data request response createdAt None
     \/ exists x cacheKey meta,
         ext = ImageClient.extName x
         /\ call = ImageClient.CallStored x data request response createdAt
                     cacheKey meta ImageClient.MetaWritten) ->
    exists (k' : SlideService.disk) (slide : Store.slide_row),
      SlideService.regenerateSlideImage trim promptFromContent root input
        call newId now k
      = (Return {| SlideService.res_version := Z.of_nat M + 1;
                   SlideService.res_promptText := p;
                   SlideService.res_imagePath := Store.image_path row |}, k')
      /\ Store.slide_image_versions (SlideService.dbase k')
         = Store.slide_image_versions (SlideService.dbase k) ++ [row]
      /\ SlideService.fsys k' !! versionFile = Some data
      /\ (call = ImageClient.CallWrote ext data request response createdAt None ->
          SlideService.fsys k' = <[versionFile := data]> (SlideService.fsys k))
      /\ (forall x cacheKey meta,
             call = ImageClient.CallStored x data request response createdAt
                      cacheKey meta ImageClient.MetaWritten ->
             let cached :=
               ImageClient.absCacheImagePath root cacheKey (ImageClient.extName x) in
             let entry := ImageClient.cacheMetaPath root cacheKey in
             SlideService.fsys k' !! cached = Some data
             /\ SlideService.fsys k' !! entry = Some meta
             /\ SlideService.fsys k' !! ImageClient.tmpPath entry = None
             /\ forall path,
                 path <> versionFile -> path <> cached -> path <> entry ->
                 path <> ImageClient.tmpPath entry ->
                 SlideService.fsys k' !! path = SlideService.fsys k !! path)
      /\ Store.numbered sid (SlideService.dbase k')
      /\ Store.latestVersionRow sid (SlideService.dbase k') = Some row
      /\ Store.selectSlide sid pid (SlideService.dbase k) = Some slide
      /\ Store.selectSlide sid pid (SlideService.dbase k')
         = Some (Store.updatedRow sid Store.ready None None now slide)
      /\ (forall sid' pid',
             sid' <> sid ->
             Store.selectSlide sid' pid' (SlideService.dbase k')
             = Store.selectSlide sid' pid' (SlideService.dbase k)).
Proof.
  intros trim pfc root input resolved call ext data request response createdAt
         newId now p k M sid pid row versionFile Hread Hnum Hprompt Hfresh Hcall.
  assert (HM : M = length (Store.versionsOf sid (SlideService.dbase k))).
  { apply (f_equal length) in Hnum. rewrite length_fmap, length_seqZ in Hnum. lia. }
  assert (Hnumbered : Store.numbered sid (SlideService.dbase k)).
  { unfold Store.numbered. rewrite Hnum, HM. reflexivity. }
  unfold SlideService.regenerate_read in Hread. fold sid pid in Hread.
  destruct (Store.selectSlide sid pid (SlideService.dbase k)) as [slide|] eqn:Hslide;
    [|discriminate].
  injection Hread as Hres.
  assert (Hnext : SlideService.rg_nextVersion resolved = Z.of_nat M + 1).
  { rewrite <- Hres. cbn [SlideService.rg_nextVersion].
    rewrite (nextImageVersion_numbered _ _ Hnumbered), <- HM. reflexivity. }
  assert (Hmarked : Store.selectSlide sid pid
                      (Store.updateSlide sid Store.generating_image None None now
                         (SlideService.dbase k))
                    = Some (Store.updatedRow sid Store.generating_image None None
                              now slide)).
  { rewrite selectSlide_updateSlide, Hslide. reflexivity. }
  destruct (generateImageToProject_returns root
              (SlideService.rg_deckIndex resolved) (Z.of_nat M + 1) call
              (SlideService.fsys k) ext data request response createdAt Hcall)
    as [Himage Hreturns].
  eexists. exists slide.
  unfold SlideService.regenerateSlideImage, SlideService.regenerate_read.
  fold sid pid. rewrite Hslide, Hres, Hprompt.
  unfold SlideService.regenerate_finish, SlideService.regenerate_mark,
    SlideService.setSlideStatus, Store.sql_exec.
  cbn [snd SlideService.dbase SlideService.fsys].
  rewrite Hnext, Hreturns.
  unfold SlideService.regenerate_record, mbind, Store.sql_bind,
    SlideService.setSlideStatus, Store.sql_exec, SlideService.regenerateRow.
  cbn [ImageClient.imagePath ImageClient.requestJson ImageClient.responseJson
       ImageClient.createdAt].
  fold sid. rewrite ?Hnext.
  change (ImageClient.relPath (SlideService.rg_deckIndex resolved)
            (Z.of_nat M + 1) ext)
    with (ImageFiles.imageRelPath (SlideService.rg_deckIndex resolved)
            (Z.of_nat M + 1) ext).
  fold row.
  rewrite insertImageVersion_ok;
    [|exact Hfresh
     |cbn [Store.slide_id row]; rewrite updateSlide_ids;
      apply (selectSlide_elem _ _ _ _ Hslide)].
  split; [reflexivity|]. cbn [SlideService.dbase SlideService.fsys].
  split; [reflexivity|]. split.
  { apply (generateImageToProject_file root _ _ call _ ext data Himage). }
  split.
  { intros ->. reflexivity. }
  split.
  { intros x cacheKey meta ->.
    destruct Hcall as [Hcall | (x' & key' & meta' & Hext & Hcall)];
      [discriminate Hcall|].
    injection Hcall as <- <- <-. subst ext.
    apply (generateImageToProject_cache root (SlideService.rg_deckIndex resolved)
             (Z.of_nat M + 1) (SlideService.fsys k) x data request response
             createdAt cacheKey meta). }
  split.
  { apply (numbered_snoc sid
             (Store.updateSlide sid Store.generating_image None None now
                (SlideService.dbase k)) row Hnumbered).
    intros _. rewrite versionsOf_updateSlide, <- HM. reflexivity. }
  split.
  { apply (latestVersionRow_snoc sid
             (Store.updateSlide sid Store.generating_image None None now
                (SlideService.dbase k)) row Hnumbered); [reflexivity|].
    rewrite versionsOf_updateSlide, <- HM. reflexivity. }
  split; [reflexivity|]. split.
  - match goal with
    | |- Store.selectSlide _ _ (Store.updateSlide _ _ _ _ _ ?d) = _ =>
        change (Store.selectSlide sid pid
                  (Store.updateSlide sid Store.ready None None now
                     (Store.updateSlide sid Store.generating_image None None now
                        (SlideService.dbase k)))
                = Some (Store.updatedRow sid Store.ready None None now slide))
    end.
    rewrite selectSlide_updateSlide, Hmarked. cbn [fmap option_fmap option_map].
    f_equal. unfold Store.updatedRow. rewrite (selectSlide_id _ _ _ _ Hslide).
    rewrite String.eqb_refl. cbn [Store.s_id]. rewrite String.eqb_refl.
    reflexivity.
  - intros sid' pid' Hne.
    change (Store.selectSlide sid' pid'
              (Store.updateSlide sid Store.ready None None now
                 (Store.updateSlide sid Store.generating_image None None now
                    (SlideService.dbase k)))
            = Store.selectSlide sid' pid' (SlideService.dbase k)).
    rewrite !selectSlide_updateSlide.
    destruct (Store.selectSlide sid' pid' (SlideService.dbase k)) as [r|] eqn:Hr;
      [|reflexivity].
    cbn [fmap option_fmap option_map]. f_equal.
    apply selectSlide_id in Hr. unfold Store.updatedRow.
    assert (Hmiss : String.eqb (Store.s_id r) sid = false)
      by (apply String.eqb_neq; congruence).
    rewrite Hmiss, Hmiss. reflexivity.
Qed.

Lemma regenerate_appends_generated_version_witness :
  (exists k',
      SlideService.regenerateSlideImage AsciiText.trim (fun _ _ _ => Return None)
        Sample.root SampleRequests.regenerateFirst
        (ImageClient.CallWrote "png" Sample.red "{req}" "{resp}" "t3" None)
        "img-3" "t4" SampleRequests.disk
      = (Return {| SlideService.res_version := 3;
                   SlideService.res_promptText := "a green cover";
                   SlideService.res_imagePath := "images/slide-0001/v3.png" |}, k')
      /\ SlideService.fsys k'
         = <["/home/u/deck/images/slide-0001/v3.png" := Sample.red]> Sample.files
      /\ Store.numbered "slide-a" (SlideService.dbase k'))
  /\ (exists k',
         SlideService.regenerateSlideImage AsciiText.trim (fun _ _ _ => Return None)
           Sample.root SampleRequests.regenerateFirst
           SampleMore.storedCall "img-3" "t4" SampleRequests.disk
         = (Return {| SlideService.res_version := 3;
                      SlideService.res_promptText := "a green cover";
                      SlideService.res_imagePath := "images/slide-0001/v3.png" |}, k')
         /\ SlideService.fsys k' !! "/home/u/deck/images/slide-0001/v3.png"
            = Some Sample.red
         /\ SlideService.fsys k' !! "/home/u/deck/cache/image/5e1f.png"
            = Some Sample.red
         /\ SlideService.fsys k' !! "/home/u/deck/cache/image/5e1f.json"
            = Some SampleMore.cacheEntry
         /\ SlideService.fsys k' !! "/home/u/deck/cache/image/5e1f.json.tmp" = None).
Proof.
  assert (Hfresh : "img-3" ∉ Store.iv_id
                     <$> Store.slide_image_versions
                           (SlideService.dbase SampleRequests.disk)).
  { intros Hin. apply list_elem_of_In in Hin. vm_compute in Hin.
    destruct Hin as [H|[H|[]]]; discriminate H. }
  split.
  - destruct (regenerate_appends_generated_version
                AsciiText.trim (fun _ _ _ => Return None) Sample.root
                SampleRequests.regenerateFirst
                SampleRequests.regenerateFirstResolved
                (ImageClient.CallWrote "png" Sample.red "{req}" "{resp}" "t3" None)
                "png" Sample.red
                "{req}" "{resp}" "t3" "img-3" "t4" "a green cover"
                SampleRequests.disk 2
                eq_refl eq_refl eq_refl Hfresh (or_introl eq_refl))
      as (k' & slide & Hrun & _ & _ & Hfs & _ & Hnum & _).
    exists k'. split; [exact Hrun|]. split; [exact (Hfs eq_refl) | exact Hnum].
  - destruct (regenerate_appends_generated_version
                AsciiText.trim (fun _ _ _ => Return None) Sample.root
                SampleRequests.regenerateFirst
                SampleRequests.regenerateFirstResolved
                SampleMore.storedCall
                "png" Sample.red
                "{req}" "{resp}" "t3" "img-3" "t4" "a green cover"
                SampleRequests.disk 2
                eq_refl eq_refl eq_refl Hfresh
                (or_intror (ex_intro _ ImageClient.Png
                              (ex_intro _ "5e1f"
                                 (ex_intro _ SampleMore.cacheEntry
                                    (conj eq_refl eq_refl))))))
      as (k' & slide & Hrun & _ & Hfile & _ & Hcache & _).
    destruct (Hcache ImageClient.Png "5e1f" SampleMore.cacheEntry eq_refl)
      as (Hcached & Hentry & Htmp & _).
    exists k'. split; [exact Hrun|]. split; [exact Hfile|].
    split; [exact Hcached|]. split; [exact Hentry | exact Htmp].
Defined.

(** X25. A regeneration that stops before it has marked the slide changes
    nothing, neither the status of the slide nor a file: this is so when the
    project has no slide of that id ("页面不存在。") and whenever no prompt is
    found.  No prompt is found when building it from the content throws, and
    ("没有可用的提示词，无法重新生成。") when the request brings none or only
    blanks, the slide has no stored prompt and none is built from its
    content.  A prompt in the request that is not blank is the one used,
    trimmed, whatever else is there. *)
Theorem regenerate_refuses_before_marking :
  forall (trim : string -> string)
         (promptFromContent :
            option string -> string -> option string -> completion (option string))
         (root : string) (input : SlideService.regenerate_input)
         (call : ImageClient.image_call) (newId now : string)
         (k : SlideService.disk),
    let run := SlideService.regenerateSlideImage trim promptFromContent root
                 input call newId now k in
    let blank := match SlideService.rg_promptText input with
                 | Some p => String.eqb (trim p) ""
                 | None => true
                 end in
    (Store.selectSlide (SlideService.rg_slideId input)
       (SlideService.rg_projectId input) (SlideService.dbase k) = None ->
     run = (Throw (ErrorObj "页面不存在。"), k))
    /\ (forall resolved,
           SlideService.regenerate_read input (SlideService.dbase k)
           = (Return resolved, SlideService.dbase k) ->
           let fromContent :=
             promptFromContent (SlideService.rg_themeJson resolved)
               (SlideService.rg_slideTitle resolved)
               (SlideService.rg_contentJson resolved) in
           let prompt :=
             SlideService.regenerate_prompt trim promptFromContent input
               resolved in
           (forall e, prompt = Throw e -> run = (Throw e, k))
           /\ (forall e, fromContent = Throw e -> prompt = Throw e)
           /\ (blank = true ->
               SlideService.rg_latestPromptText resolved = None ->
               fromContent = Return None ->
               prompt = Throw (ErrorObj "没有可用的提示词，无法重新生成。"))
           /\ (forall p c,
                  SlideService.rg_promptText input = Some p ->
                  trim p <> "" ->
                  fromContent = Return c ->
                  prompt = Return (trim p))).
Proof.
  intros trim pfc root input call newId now k run blank. split.
  - intros Hnone. unfold run, SlideService.regenerateSlideImage,
      SlideService.regenerate_read. rewrite Hnone. destruct k; reflexivity.
  - intros resolved Hread fromContent prompt. split; [|split; [|split]].
    + intros e He. unfold run, SlideService.regenerateSlideImage.
      rewrite Hread. fold prompt. rewrite He. destruct k; reflexivity.
    + intros e He. unfold prompt, SlideService.regenerate_prompt.
      fold fromContent. rewrite He. reflexivity.
    + intros Hblank Hlatest Hcontent.
      unfold prompt, SlideService.regenerate_prompt. fold fromContent.
      rewrite Hcontent, Hlatest. unfold blank in Hblank.
      destruct (SlideService.rg_promptText input) as [p|];
        [rewrite Hblank|]; cbn; rewrite andb_false_r; reflexivity.
    + intros p c Hp Htrim Hcontent.
      unfold prompt, SlideService.regenerate_prompt. fold fromContent.
      rewrite Hcontent, Hp. apply String.eqb_neq in Htrim. rewrite Htrim.
      cbn [SlideService.orElse]. rewrite Htrim. rewrite Htrim. reflexivity.
Qed.

(** * [callChatJson] *)
Section ChatFacts.
Import ChatClient.
Context {T json : Type}.
Variable create : Z -> completion (option string).
Variable jsonParse : string -> completion json.
Variable safeParse : json -> T + string.
Variable stringOf : thrown -> string.
Variable slice600 : string -> string.

Lemma attemptFn_Return k v :
  attemptFn create jsonParse safeParse stringOf slice600 k = Return v ->
  accepted create jsonParse safeParse k v.
Proof.
  unfold attemptFn, accepted. intros H.
  destruct (create k) as [[c|]|e] eqn:Hcreate; try discriminate.
  destruct (String.eqb_spec c "") as [|Hc]; [discriminate|].
  destruct (jsonParse c) as [data|err] eqn:Hparse; [|discriminate].
  destruct (safeParse data) as [v'|msg] eqn:Hs; [|discriminate].
  injection H as ->. exists c, data. auto.
Qed.

End ChatFacts.

(** X21. [callChatJson] sends at most three requests, numbered from 1, and
    waits 300 ms and then 600 ms between them.  It returns the data of the
    first response that has a non-empty content which parses as JSON and
    which the schema accepts, after every earlier attempt has failed; a
    response that is empty, does not parse or has the wrong shape counts as
    a failed attempt.  When the third attempt fails too it throws the error
    of that attempt.  It never returns data that the schema has not
    accepted. *)
Theorem callChatJson_returns_only_accepted :
  forall (T json : Type) (create : Z -> completion (option string))
         (jsonParse : string -> completion json)
         (safeParse : json -> T + string)
         (stringOf : thrown -> string) (slice600 : string -> string)
         (lbl : string),
    let fn := ChatClient.attemptFn create jsonParse safeParse stringOf slice600 in
    exists r effs n,
      ChatClient.callChatJson create jsonParse safeParse stringOf slice600 lbl
      = Some (r, effs)
      /\ 1 <= n <= 3
      /\ Retry.calls effs = seqZ 1 n
      /\ Retry.sleeps effs = (fun i => 300 * 2 ^ (i - 1)) <$> seqZ 1 (n - 1)
      /\ Retry.warnings effs
         = omap (fun i => match fn i with
                          | Throw e => Some (Retry.Warn lbl i 3 e)
                          | Return _ => None
                          end) (seqZ 1 (n - 1))
      /\ (forall i, 1 <= i < n -> exists e, fn i = Throw e)
      /\ match r with
         | Return v => ChatClient.accepted create jsonParse safeParse n v
         | Throw e =>
             n = 3 /\ exists e3, fn 3 = Throw e3 /\ e = Retry.rethrown (Some e3)
         end.
Proof.
  intros T json create jsonParse safeParse stringOf slice600 lbl fn.
  unfold ChatClient.callChatJson, Retry.withRetries.
  change (Z.to_nat 3) with 3%nat. cbn [Retry.loop]. fold fn.
  change (1 <=? 3) with true. change (3 <=? 1) with false.
  change (1 + 1) with 2. change (2 <=? 3) with true. change (3 <=? 2) with false.
  change (2 + 1) with 3. change (3 <=? 3) with true. cbn iota.
  destruct (fn 1) as [v1|e1] eqn:H1.
  { exists (Return v1), [Retry.Call 1], 1. split; [reflexivity|].
    split; [lia|]. do 3 (split; [reflexivity|]).
    split; [intros i Hi; lia|]. apply attemptFn_Return in H1. exact H1. }
  destruct (fn 2) as [v2|e2] eqn:H2.
  { eexists. eexists. exists 2. split; [reflexivity|]. split; [lia|].
    split; [reflexivity|]. split; [reflexivity|].
    split; [change (seqZ 1 (2 - 1)) with [1]; cbn [omap list_omap];
            rewrite H1; reflexivity|].
    split; [intros i Hi; assert (i = 1) as -> by lia; eauto|].
    apply attemptFn_Return in H2. exact H2. }
  destruct (fn 3) as [v3|e3] eqn:H3.
  { eexists. eexists. exists 3. split; [reflexivity|]. split; [lia|].
    split; [reflexivity|]. split; [reflexivity|].
    split; [change (seqZ 1 (3 - 1)) with [1; 2]; cbn [omap list_omap];
            rewrite H1, H2; reflexivity|].
    split; [intros i Hi; assert (i = 1 \/ i = 2) as [-> | ->] by lia; eauto|].
    apply attemptFn_Return in H3. exact H3. }
  eexists. eexists. exists 3. split; [reflexivity|]. split; [lia|].
  split; [reflexivity|]. split; [reflexivity|].
  split; [change (seqZ 1 (3 - 1)) with [1; 2]; cbn [omap list_omap];
          rewrite H1, H2; reflexivity|].
  split; [intros i Hi; assert (i = 1 \/ i = 2) as [-> | ->] by lia; eauto|].
  split; [reflexivity|]. eauto.
Qed.

(** * The checks of [exportProject] *)
Section ExportFacts.
Import Store ExportChecks.

Lemma filter_fmap_comm {X Y : Type} (h : X -> Y) (p : Y -> bool) (l : list X) :
  List.filter p (h <$> l) = h <$> List.filter (fun x => p (h x)) l.
Proof.
  induction l as [|x l IH]; [reflexivity|]. cbn [fmap list_fmap List.filter].
  destruct (p (h x)); cbn [fmap list_fmap]; rewrite <- IH; reflexivity.
Qed.

(** The numbers that [exportProject] reports are the positions, counted
    from one, of the slides without image. *)
Lemma missingImages_positions (slides : list export_slide) :
  missingImages slides
  = (fun i => Z.of_nat i + 1)
      <$> List.filter (fun i => match slides !! i with
                                | Some s => negb (hasImage s)
                                | None => false
                                end) (seq 0 (length slides)).
Proof.
  unfold missingImages.
  rewrite (imap_ext _ (fun idx _ =>
                         (Z.of_nat idx,
                          match slides !! idx with
                          | Some s => hasImage s
                          | None => true
                          end))).
  - rewrite (imap_seq_0 slides
               (fun idx => (Z.of_nat idx,
                            match slides !! idx with
                            | Some s => hasImage s
                            | None => true
                            end))).
    rewrite filter_fmap_comm, <- list_fmap_compose.
    f_equal. apply List.filter_ext. intros i. cbn [snd].
    destruct (slides !! i); reflexivity.
  - intros i s Hs. rewrite Hs. reflexivity.
Qed.

End ExportFacts.

(** X22. With unique row ids in [slide_image_versions], [exportProject]
    writes nothing unless every slide of the deck has an image: it throws the
    error of the root lookup, "没有可导出的页面，请先生成内容。" for an empty deck,
    and for a deck with slides whose newest version is missing or has no
    path the message that lists exactly the positions of those slides,
    counted from one, in deck order.  Otherwise it goes on with one entry per
    slide, in deck order, that carries the image path of the newest version
    of the slide. *)
Theorem exportProject_needs_every_image :
  forall (rootLookup : completion string) (pid : string) (d : Store.db),
    NoDup (Store.iv_id <$> Store.slide_image_versions d) ->
    let deck := Store.slidesOfProject pid d in
    let missing :=
      (fun i => Z.of_nat i + 1)
        <$> List.filter (ExportChecks.lacksImage pid d) (seq 0 (length deck)) in
    match rootLookup with
    | Throw e => ExportChecks.exportChecks rootLookup pid d = Throw e
    | Return _ =>
        (deck = [] ->
         ExportChecks.exportChecks rootLookup pid d = Throw ExportChecks.noSlides)
        /\ (deck <> [] -> missing <> [] ->
            ExportChecks.exportChecks rootLookup pid d
            = Throw (ExportChecks.missingMessage missing))
        /\ (deck <> [] -> missing = [] ->
            exists slides,
              ExportChecks.exportChecks rootLookup pid d
              = Return (slides, ExportChecks.projectNameOf pid d)
              /\ length slides = length deck
              /\ forall i s,
                  deck !! i = Some s ->
                  exists r,
                    Store.latestVersionRow (Store.s_id s) d = Some r
                    /\ Store.image_path r <> ""
                    /\ slides !! i
                       = Some {| ExportChecks.ex_title := Store.title s;
                                 ExportChecks.ex_summary := Store.summary s;
                                 ExportChecks.ex_contentJson :=
                                   Views.nonEmpty (Store.content_json s);
                                 ExportChecks.ex_imagePath :=
                                   Some (Store.image_path r) |})
    end.
Proof.
  intros rootLookup pid d Hnd deck missing.
  destruct rootLookup as [root|e]; [|reflexivity].
  unfold ExportChecks.exportChecks.
  assert (Hslides : ExportChecks.listSlidesForExport pid d
                    = (fun s => ExportChecks.exportSlide
                                  (s, Store.latestVersionRow (Store.s_id s) d))
                        <$> deck).
  { unfold ExportChecks.listSlidesForExport.
    rewrite (slidesWithLatest_rows pid d Hnd), <- list_fmap_compose. reflexivity. }
  assert (Hmissing : ExportChecks.missingImages
                       (ExportChecks.listSlidesForExport pid d) = missing).
  { rewrite missingImages_positions, Hslides, length_fmap. unfold missing.
    f_equal. apply List.filter_ext. intros i.
    unfold ExportChecks.lacksImage. fold deck. rewrite list_lookup_fmap.
    destruct (deck !! i) as [s|]; [|reflexivity].
    cbn [fmap option_fmap option_map]. unfold ExportChecks.hasImage.
    cbn [ExportChecks.exportSlide ExportChecks.ex_imagePath snd].
    destruct (Views.nonEmpty _); reflexivity. }
  rewrite Hmissing, Hslides, length_fmap.
  split; [|split].
  - intros ->. reflexivity.
  - intros Hne Hm.
    destruct (Nat.eqb_spec (length deck) 0) as [Hz|_];
      [destruct deck; [contradiction | discriminate Hz]|].
    destruct missing; [contradiction | reflexivity].
  - intros Hne Hm.
    destruct (Nat.eqb_spec (length deck) 0) as [Hz|_];
      [destruct deck; [contradiction | discriminate Hz]|].
    rewrite Hm. cbn [length Nat.ltb Nat.leb].
    eexists. split; [reflexivity|]. split; [apply length_fmap|].
    intros i s Hs. rewrite list_lookup_fmap, Hs.
    cbn [fmap option_fmap option_map].
    assert (Hhas : ExportChecks.lacksImage pid d i = false).
    { destruct (ExportChecks.lacksImage pid d i) eqn:Hl; [|reflexivity].
      exfalso. assert (Hin : Z.of_nat i + 1 ∈ missing).
      { unfold missing. apply list_elem_of_fmap. exists i. split; [reflexivity|].
        apply elem_of_filter_bool. split; [|exact Hl].
        apply elem_of_seq. apply lookup_lt_Some in Hs. lia. }
      rewrite Hm in Hin. inversion Hin. }
    unfold ExportChecks.lacksImage in Hhas. fold deck in Hhas.
    rewrite Hs in Hhas.
    unfold ExportChecks.exportSlide. cbn [fst snd].
    destruct (Store.latestVersionRow (Store.s_id s) d) as [r|];
      [|discriminate Hhas].
    cbn [fmap option_fmap option_map Views.nonEmpty] in *.
    destruct (String.eqb_spec (Store.image_path r) ""); [discriminate Hhas|].
    exists r. auto.
Qed.

Lemma exportProject_needs_every_image_witness :
  ExportChecks.exportChecks (Return Sample.root) "deck" Sample.database
  = Throw (ErrorObj "以下页面尚未生成图片：2, 3。请等待生图完成或重试失败页。").
Proof.
  assert (Hnd : NoDup (Store.iv_id <$> Store.slide_image_versions Sample.database)).
  { refine (bool_decide_unpack _ _). vm_compute. exact I. }
  refine (proj1 (proj2 (exportProject_needs_every_image
                          (Return Sample.root) "deck" Sample.database Hnd)) _ _).
  - vm_compute. discriminate.
  - vm_compute. discriminate.
Defined.

(** X23. [runGenerateOutlineStep] for a registered job on a project that has
    its row first marks the job running with zero counters.  If the outline
    agent fails, the stage throws its error: the database and the files are
    as before, so the old outline and deck stay, and the job is left
    running.  If the agent answers and the new ids are free, the stage
    returns normally: the job is completed, finished now, with [totalSlides]
    and [completedSlides] the number of slides of the outline and no failed
    slide; the deck is the slides of the outline in order, all pending; and
    the files are as before. *)
Theorem runGenerateOutlineStep_replaces_deck_or_keeps_it :
  forall (stringifyOutline : list Pipeline.outline_section -> string)
         (job : Jobs.job) (root : string)
         (generateOutline :
            string -> string -> completion (list Pipeline.outline_section))
         (newOutlineId : string) (newSlideId : Z -> string) (now : string)
         (w : Pipeline.world) (j : Jobs.job) (project : Store.project_row),
    Pipeline.jobs w !! Jobs.id job = Some j ->
    Views.getProjectRow (Jobs.projectId job) (Pipeline.disk_db w)
    = (Return project, Pipeline.disk_db w) ->
    let run := OutlineStage.runGenerateOutlineStep stringifyOutline job
                 (Return root) (Return tt) generateOutline newOutlineId
                 newSlideId now w in
    let started := Jobs.patched j (OutlineStage.outlinePatch Jobs.running None 0) in
    Jobs.status started = Jobs.running
    /\ match generateOutline (Store.p_name project) (Store.p_source_text project) with
       | Throw e =>
           run = (Throw e,
                  Pipeline.with_jobs w (<[Jobs.id job := started]> (Pipeline.jobs w)))
       | Return sections =>
           newOutlineId ∉ Store.jv_id <$> Store.outline_versions (Pipeline.disk_db w) ->
           (forall k, 0 <= k < Pipeline.slideCount sections ->
                      newSlideId k ∉ Store.s_id <$> Store.slides (Pipeline.disk_db w)) ->
           (forall i k, 0 <= i < Pipeline.slideCount sections ->
                        0 <= k < Pipeline.slideCount sections ->
                        newSlideId i = newSlideId k -> i = k) ->
           exists w' j',
             run = (Return tt, w')
             /\ Pipeline.jobs w' !! Jobs.id job = Some j'
             /\ Jobs.status j' = Jobs.completed
             /\ Jobs.finishedAt j' = Some now
             /\ Jobs.progress_ j'
                = Some {| Jobs.step := Jobs.outline;
                          Jobs.totalSlides := Pipeline.slideCount sections;
                          Jobs.completedSlides := Pipeline.slideCount sections;
                          Jobs.failedSlides := 0 |}
             /\ Store.slidesOfProject (Jobs.projectId job) (Pipeline.disk_db w')
                = Pipeline.outlineRows (Jobs.projectId job) newSlideId now sections
             /\ Forall (fun r => Store.status r = Store.pending)
                       (Store.slidesOfProject (Jobs.projectId job)
                          (Pipeline.disk_db w'))
             /\ Views.latestOutlineJson (Jobs.projectId job) (Pipeline.disk_db w')
                = Some (stringifyOutline sections)
             /\ Pipeline.disk_fs w' = Pipeline.disk_fs w
       end.
Proof.
  intros stringify job root generate newOutlineId newSlideId now w j project
         Hj Hproject run started.
  split; [reflexivity|].
  unfold run, OutlineStage.runGenerateOutlineStep.
  rewrite (updateJob_registered _ _ _ j Hj).
  cbn [Pipeline.disk_db Pipeline.with_jobs Pipeline.jobs].
  rewrite Hproject.
  destruct (generate (Store.p_name project) (Store.p_source_text project))
    as [sections|e]; [|reflexivity].
  intros Hout Hfresh Hinj.
  rewrite (commitOutline_result _ _ _ _ _ _ _
             (getProjectRow_elem _ _ _ Hproject) Hout Hfresh Hinj).
  cbn [Pipeline.disk_db Pipeline.with_jobs Pipeline.with_db Pipeline.jobs].
  rewrite (updateJob_registered _ _ _ started) by apply lookup_insert_eq.
  eexists. eexists. split; [reflexivity|].
  cbn [Pipeline.disk_db Pipeline.with_jobs Pipeline.with_db Pipeline.jobs
       Pipeline.disk_fs].
  split; [apply lookup_insert_eq|].
  split; [reflexivity|]. split; [reflexivity|]. split; [reflexivity|].
  assert (Hdeck : forall d',
             Store.slides d'
             = List.filter
                 (fun s => negb (String.eqb (Store.s_project_id s)
                                   (Jobs.projectId job)))
                 (Store.slides (Pipeline.disk_db w))
                 ++ Pipeline.outlineRows (Jobs.projectId job) newSlideId now sections ->
             Store.slidesOfProject (Jobs.projectId job) d'
             = Pipeline.outlineRows (Jobs.projectId job) newSlideId now sections).
  { intros d' Hd'. unfold Store.slidesOfProject. rewrite Hd'.
    apply outlineRows_deck. apply Forall_forall. intros r Hr.
    apply elem_of_filter_bool in Hr as [_ Hr].
    apply negb_true_iff, String.eqb_neq in Hr. exact Hr. }
  split; [apply Hdeck; reflexivity|]. split.
  { rewrite Hdeck by reflexivity.
    eapply Forall_impl; [apply outlineRowsFrom_pending|].
    intros r (Hr & _). exact Hr. }
  split; [|reflexivity].
  erewrite (latestOutlineJson_snoc _ (Pipeline.disk_db w)); [|reflexivity..].
  reflexivity.
Qed.

Lemma runGenerateOutlineStep_replaces_deck_or_keeps_it_witness :
  OutlineStage.runGenerateOutlineStep SampleMore.stringifyDeckOutline
    SampleRun.job (Return Sample.root) (Return tt)
    (fun _ _ => Throw (ErrorObj "busy")) "outline-1" Sample.freshSlideId "t7"
    SampleMore.world
  = (Throw (ErrorObj "busy"),
     Pipeline.with_jobs SampleMore.world
       (<["job-1" := Jobs.patched SampleRun.job
                       (OutlineStage.outlinePatch Jobs.running None 0)]>
          (Pipeline.jobs SampleMore.world))).
Proof.
  exact (proj2 (runGenerateOutlineStep_replaces_deck_or_keeps_it
                  SampleMore.stringifyDeckOutline SampleRun.job Sample.root
                  (fun _ _ => Throw (ErrorObj "busy")) "outline-1"
                  Sample.freshSlideId "t7" SampleMore.world SampleRun.job
                  {| Store.p_id := "deck"; Store.p_name := "Deck";
                     Store.p_source_text := "brief" |}
                  eq_refl eq_refl)).
Defined.

(** * The recent projects *)
Section RecentsFacts.
Import Recents.

Lemma find_filter_other (pid other : string) (l : list recent_project) :
  pid <> other ->
  List.find (fun p => String.eqb (rp_id p) pid)
    (List.filter (fun p => negb (String.eqb (rp_id p) other)) l)
  = List.find (fun p => String.eqb (rp_id p) pid) l.
Proof.
  intros Hne. induction l as [|x l IH]; [reflexivity|]. cbn [List.filter List.find].
  destruct (String.eqb_spec (rp_id x) other) as [Hx|Hx]; cbn [negb List.find].
  - destruct (String.eqb_spec (rp_id x) pid); [congruence | exact IH].
  - destruct (String.eqb (rp_id x) pid); [reflexivity | exact IH].
Qed.

Lemma filter_ids_sublist (other : string) (l : list recent_project) :
  rp_id <$> List.filter (fun p => negb (String.eqb (rp_id p) other)) l
  `sublist_of` rp_id <$> l.
Proof.
  induction l as [|x l IH]; [constructor|]. cbn [List.filter].
  destruct (negb _); cbn [fmap list_fmap];
    [apply sublist_skip | apply sublist_cons]; exact IH.
Qed.

End RecentsFacts.

(** X24. After [upsertRecentProject] has saved a project with a non-empty
    root path, [resolveProjectRootPath] on the saved configuration gives that
    root path for the id of the project, whatever the project file of the
    last opened folder says.  The project is the first of at most 20 recent
    projects, the others are those that were there under another id, in
    their order; ids stay distinct if they were; no setting changes; and as
    long as there were fewer than 20 recent projects, every other id is still
    found with the entry it had. *)
Theorem upsertRecentProject_then_resolve :
  forall (settings : Type) (readProjectJson : string -> completion string)
         (project : Recents.recent_project)
         (config : Recents.app_config settings),
    Recents.rp_rootPath project <> "" ->
    let saved := Recents.upsertRecentProject project config in
    let others :=
      List.filter (fun p => negb (String.eqb (Recents.rp_id p)
                                    (Recents.rp_id project)))
                  (Recents.recentProjects config) in
    Recents.resolveProjectRootPath readProjectJson saved (Recents.rp_id project)
    = Return (Recents.rp_rootPath project)
    /\ Recents.recentProjects saved = project :: take 19 others
    /\ (length (Recents.recentProjects saved) <= 20)%nat
    /\ Recents.lastOpenedProjectRootPath saved = Some (Recents.rp_rootPath project)
    /\ Recents.cfg_settings saved = Recents.cfg_settings config
    /\ (NoDup (Recents.rp_id <$> Recents.recentProjects config) ->
        NoDup (Recents.rp_id <$> Recents.recentProjects saved))
    /\ ((length (Recents.recentProjects config) < 20)%nat ->
        forall pid,
          pid <> Recents.rp_id project ->
          List.find (fun p => String.eqb (Recents.rp_id p) pid)
                    (Recents.recentProjects saved)
          = List.find (fun p => String.eqb (Recents.rp_id p) pid)
                      (Recents.recentProjects config)).
Proof.
  intros settings read project config Hroot saved others.
  assert (Hlist : Recents.recentProjects saved = project :: take 19 others)
    by reflexivity.
  split.
  { unfold Recents.resolveProjectRootPath. rewrite Hlist. cbn [List.find].
    rewrite String.eqb_refl. cbn [fmap option_fmap option_map].
    apply String.eqb_neq in Hroot. rewrite Hroot. reflexivity. }
  split; [exact Hlist|]. split.
  { rewrite Hlist. cbn [length]. rewrite length_take. lia. }
  split; [reflexivity|]. split; [reflexivity|]. split.
  - intros Hnd. rewrite Hlist, fmap_cons. apply NoDup_cons. split.
    + intros Hin. apply list_elem_of_fmap in Hin as (q & Hq & Hin).
      apply elem_of_take in Hin as (i & Hin & _).
      apply list_elem_of_lookup_2, elem_of_filter_bool in Hin as [_ Hin].
      apply negb_true_iff, String.eqb_neq in Hin. congruence.
    + apply (sublist_NoDup _ (Recents.rp_id <$> Recents.recentProjects config));
        [exact Hnd|].
      transitivity (Recents.rp_id <$> others); [|apply filter_ids_sublist].
      apply fmap_sublist, sublist_take.
  - intros Hshort pid Hpid. rewrite Hlist. cbn [List.find].
    destruct (String.eqb_spec (Recents.rp_id project) pid); [congruence|].
    rewrite take_ge.
    + apply find_filter_other. exact Hpid.
    + pose proof (List.filter_length_le
                    (fun p => negb (String.eqb (Recents.rp_id p)
                                      (Recents.rp_id project)))
                    (Recents.recentProjects config)). unfold others. lia.
Qed.

Lemma upsertRecentProject_then_resolve_witness :
  Recents.resolveProjectRootPath (fun _ => Throw (ErrorObj "ENOENT"))
    (Recents.upsertRecentProject
       {| Recents.rp_id := "deck"; Recents.rp_name := "Deck";
          Recents.rp_rootPath := Sample.root; Recents.rp_lastOpenedAt := "t0" |}
       {| Recents.cfg_settings := tt; Recents.recentProjects := [];
          Recents.lastOpenedProjectRootPath := None |})
    "deck"
  = Return Sample.root.
Proof.
  refine (proj1 (upsertRecentProject_then_resolve
                   unit (fun _ => Throw (ErrorObj "ENOENT"))
                   {| Recents.rp_id := "deck"; Recents.rp_name := "Deck";
                      Recents.rp_rootPath := Sample.root;
                      Recents.rp_lastOpenedAt := "t0" |}
                   {| Recents.cfg_settings := tt; Recents.recentProjects := [];
                      Recents.lastOpenedProjectRootPath := None |} _)).
  discriminate.
Defined.

Section SettingsFacts.
Import Settings.

(** Proxy settings that keep the rule of [normalizeToV3] are left alone by
    it. *)
Lemma proxy_fixed (px : proxy_settings) :
  (px_enabled px = true -> px_host px <> "" /\ 1 <= px_port px) ->
  0 <= px_port px ->
  {| px_enabled := px_enabled px && negb (String.eqb (px_host px) "")
                   && (0 <? px_port px);
     px_host := px_host px;
     px_port := if 0 <? px_port px then px_port px else 0 |}
  = px.
Proof.
  destruct px as [e h p]. cbn. intros Hen Hp.
  destruct (Z.ltb_spec 0 p) as [Hlt|Hge].
  - destruct e; [|reflexivity]. destruct (Hen eq_refl) as [Hh _].
    apply String.eqb_neq in Hh. rewrite Hh. reflexivity.
  - destruct e.
    + destruct (Hen eq_refl) as [_ Hone]. lia.
    + cbn. f_equal. lia.
Qed.

End SettingsFacts.

(** X26. Whatever valid settings file [normalizeToV3] is given, the settings
    it returns have an image timeout of at least one second (the seconds of
    the file if it has them, else its milliseconds rounded to seconds, and
    120 if that gives 0 or if the file has neither); a proxy that is enabled
    only with a non-empty trimmed host and a port of at least 1 (and a port
    that is never negative); so that [createOpenAiClient] routes through the
    proxy exactly when the loaded settings say it is enabled.  Settings that
    were saved normalize to themselves when they are loaded again. *)
Theorem normalizeToV3_settles_timeout_and_proxy :
  forall (trim : string -> string) (ci : Settings.config_input),
    Settings.schemaValid ci ->
    (forall s, trim (trim s) = trim s) ->
    let c := Settings.normalizeToV3 trim ci in
    1 <= Settings.im_timeoutSec (Settings.c_image c)
    /\ (forall s, Settings.in_timeoutSec (Settings.ci_image ci) = Some s ->
                  Settings.im_timeoutSec (Settings.c_image c) = s)
    /\ (forall ms, Settings.in_timeoutSec (Settings.ci_image ci) = None ->
                   Settings.in_timeoutMs (Settings.ci_image ci) = Some ms ->
                   Settings.im_timeoutSec (Settings.c_image c)
                   = if ms <? 500 then 120 else Settings.roundedSeconds ms)
    /\ (Settings.in_timeoutSec (Settings.ci_image ci) = None ->
        Settings.in_timeoutMs (Settings.ci_image ci) = None ->
        Settings.im_timeoutSec (Settings.c_image c) = 120)
    /\ 0 <= Settings.px_port (Settings.c_proxy c) <= 65535
    /\ (Settings.px_enabled (Settings.c_proxy c) = true ->
        Settings.px_host (Settings.c_proxy c) <> ""
        /\ 1 <= Settings.px_port (Settings.c_proxy c))
    /\ (forall setup,
           Settings.createOpenAiClient trim c = Return setup ->
           Settings.cs_proxy setup
           = if Settings.px_enabled (Settings.c_proxy c)
             then Some (Settings.px_host (Settings.c_proxy c),
                        Settings.px_port (Settings.c_proxy c))
             else None)
    /\ Settings.schemaValid (Settings.reloaded c)
    /\ Settings.normalizeToV3 trim (Settings.reloaded c) = c.
Proof.
  intros trim ci (Hms & Hsec & Hport) Htrim c.
  assert (Htimeout : 1 <= Settings.im_timeoutSec (Settings.c_image c)).
  { unfold c, Settings.normalizeToV3. cbn [Settings.c_image Settings.im_timeoutSec].
    match goal with |- context [0 <? ?x] => destruct (Z.ltb_spec 0 x) end; lia. }
  assert (Henabled : Settings.px_enabled (Settings.c_proxy c) = true ->
                     Settings.px_host (Settings.c_proxy c) <> ""
                     /\ 1 <= Settings.px_port (Settings.c_proxy c)).
  { unfold c, Settings.normalizeToV3.
    cbn [Settings.c_proxy Settings.px_enabled Settings.px_host Settings.px_port].
    intros H. apply andb_prop in H as [H Hp]. apply andb_prop in H as [_ Hh].
    apply negb_true_iff, String.eqb_neq in Hh. rewrite Hp.
    apply Z.ltb_lt in Hp. split; [exact Hh | lia]. }
  split; [exact Htimeout|]. split.
  { intros s Hs. unfold c, Settings.normalizeToV3.
    cbn [Settings.c_image Settings.im_timeoutSec]. rewrite Hs.
    specialize (Hsec s Hs). destruct (Z.ltb_spec 0 s); [reflexivity | lia]. }
  split.
  { intros ms Hnone Hsome. unfold c, Settings.normalizeToV3.
    cbn [Settings.c_image Settings.im_timeoutSec]. rewrite Hnone, Hsome.
    specialize (Hms ms Hsome). unfold Settings.roundedSeconds.
    destruct (Z.ltb_spec ms 500).
    - rewrite Z.div_small by lia. reflexivity.
    - assert (1 <= (ms + 500) / 1000) by (apply Z.div_le_lower_bound; lia).
      destruct (Z.ltb_spec 0 ((ms + 500) / 1000)); [reflexivity | lia]. }
  split.
  { intros Hnone Hnoms. unfold c, Settings.normalizeToV3.
    cbn [Settings.c_image Settings.im_timeoutSec]. rewrite Hnone, Hnoms.
    reflexivity. }
  split.
  { unfold c, Settings.normalizeToV3. cbn [Settings.c_proxy Settings.px_port].
    destruct (Z.ltb_spec 0 (Settings.px_port (Settings.ci_proxy ci))); lia. }
  split; [exact Henabled|]. split.
  { revert Henabled. generalize c. clear. intros c Henabled setup.
    unfold Settings.createOpenAiClient.
    destruct (String.eqb _ ""); [discriminate|].
    destruct (String.eqb _ ""); [discriminate|].
    intros H. injection H as <-. cbn [Settings.cs_proxy].
    destruct (Settings.px_enabled (Settings.c_proxy c)) eqn:He; [|reflexivity].
    destruct (Henabled eq_refl) as [Hh Hp].
    apply String.eqb_neq in Hh. rewrite Hh.
    destruct (Z.ltb_spec 0 (Settings.px_port (Settings.c_proxy c))); [reflexivity | lia]. }
  split.
  { split; [intros ms H; discriminate H|]. split.
    - intros s H.
      change (Some (Settings.im_timeoutSec (Settings.c_image c)) = Some s) in H.
      assert (Hs : Settings.im_timeoutSec (Settings.c_image c) = s) by congruence.
      rewrite <- Hs. lia.
    - unfold c, Settings.normalizeToV3, Settings.reloaded.
      cbn [Settings.ci_proxy Settings.c_proxy Settings.px_port].
      destruct (Z.ltb_spec 0 (Settings.px_port (Settings.ci_proxy ci))); lia. }
  assert (Hhost : trim (Settings.px_host (Settings.c_proxy c))
                  = Settings.px_host (Settings.c_proxy c)) by apply Htrim.
  assert (Hport' : 0 <= Settings.px_port (Settings.c_proxy c)).
  { unfold c, Settings.normalizeToV3. cbn [Settings.c_proxy Settings.px_port].
    destruct (Z.ltb_spec 0 (Settings.px_port (Settings.ci_proxy ci))); lia. }
  clearbody c. clear Hms Hsec Hport Htrim ci.
  destruct c as [oa [b k a sz t ce] px].
  unfold Settings.normalizeToV3, Settings.reloaded.
  cbn [Settings.c_image Settings.c_proxy Settings.c_openai Settings.im_timeoutSec
       Settings.ci_image Settings.ci_proxy Settings.ci_openai
       Settings.in_timeoutSec Settings.in_timeoutMs Settings.in_baseURL
       Settings.in_apiKey Settings.in_aspectRatio Settings.in_imageSize
       Settings.in_cacheEnabled Settings.im_baseURL Settings.im_apiKey
       Settings.im_aspectRatio Settings.im_imageSize Settings.im_cacheEnabled]
    in *.
  destruct (Z.ltb_spec 0 t); [|lia]. rewrite Hhost.
  f_equal. apply proxy_fixed; assumption.
Qed.

(** A timeout of 400 ms rounds to no second at all and makes way for the
    default. *)
Lemma normalizeToV3_settles_timeout_and_proxy_witness :
  Settings.im_timeoutSec
    (Settings.c_image
       (Settings.normalizeToV3 (fun s => s) SampleMore.settingsFile))
  = 120.
Proof.
  refine (proj1 (proj2 (proj2
            (normalizeToV3_settles_timeout_and_proxy
               (fun s => s) SampleMore.settingsFile _ _)))
            400 eq_refl eq_refl).
  - split; [|split]; cbn.
    + intros ms H. injection H as <-. lia.
    + intros s H. discriminate H.
    + lia.
  - reflexivity.
Defined.
